(* ===== verification/_CoqProject ===== *)
-Q . S2P
Prelude.v
Http.v
Errors.v
Syntax.v
Scan.v
Validate.v
Decode.v
Body.v
Encode.v
RoundTrip.v
Send.v
Collect.v
Streams.v
Pipe.v
Future.v
Incoming.v
Recv.v
Readers.v
Deadline.v
Receive.v
Transfer.v
Connection.v
Admission.v
Context.v
Response.v
Upgrade.v
Boxing.v
Requests.v
Config.v
Opening.v
Exchange.v
Heads.v
Scenario.v
Client.v
Driver.v
Session.v
Server.v
Serving.v
Hosting.v
Joined.v
Linked.v
