(* ===== verification/Prelude.v ===== *)
(** Vakya: a verification development of the HTTP/1 library under src/.

    * The program

    Vakya is an HTTP/1 client and server library for a completion-based
    runtime. A connection reads bytes into a receive buffer, finds and validates
    a message head, decodes the body and hands its frames to the application
    through a rendezvous; in the other direction it plans the framing of a
    message, encodes its head and body and writes owned buffers. An exchange
    policy decides after each exchange whether the connection is reused,
    closed or handed off; clients are admitted one at a time, and a service
    coordinates informational responses with its driver.

    * Files

    This file holds the result type, machine-width arithmetic, slices of byte
    strings with their laws, and the tactics and hints of the development. The
    others model one part each; the left column is the file, the right one
    what it translates under src/src/.

    - [Http]: the [http] and [httparse] crates, as parameters (below)
    - [Errors]: error.rs, and the error enumerations of head.rs, decode.rs and
      encode.rs with their conversions
    - [Syntax]: proto/h1/syntax.rs and the enumerations of proto/h1.rs
    - [Scan]: proto/h1/head/scan.rs and the parser of proto/h1/head.rs
    - [Validate]: proto/h1/head/validate.rs
    - [Decode]: proto/h1/decode.rs
    - [Body]: body.rs and body/{size_hint, frame, simple, exact_length, limited,
      combinator, map_data}.rs
    - [Encode]: proto/h1/encode.rs and proto/h1/inline.rs
    - [RoundTrip]: the encoder against the decoder
    - [Send]: io/send.rs and the work budget of future.rs
    - [Collect]: body/collect.rs
    - [Streams]: body/stream.rs and body/boxed.rs
    - [Pipe]: body/pipe.rs
    - [Future]: the combinators of future.rs, and futures polled by hand
    - [Incoming]: body/incoming.rs
    - [Recv]: io/recv.rs and io/managed.rs
    - [Readers]: body/reader.rs and body/file.rs
    - [Deadline]: io/deadline.rs and io/transport.rs
    - [Receive], [Transfer]: proto/h1/body_io.rs, the receiving and the sending
      loop, and one loop against the other
    - [Connection]: connection.rs, less [drive] and the outcomes
    - [Admission]: client/admission.rs
    - [Context]: server/context.rs
    - [Response]: client/response.rs and client/completion.rs
    - [Upgrade], [Boxing]: upgrade.rs and upgrade/boxed.rs
    - [Requests]: the methods of client/admission.rs and client/response.rs that
      submit a request and observe its response
    - [Config]: proto/h1/config.rs, the client's and the server's config.rs and
      the options of both builders; [Opening]: their constructors, the
      connection they return and tls.rs
    - [Exchange]: proto/h1/exchange.rs and the protocol comparison of
      proto/h1.rs
    - [Heads]: what the head loops of both drivers share
    - [Scenario]: a concrete world, for evaluation only
    - [Client], [Driver], [Session]: proto/h1/client.rs in three layers: what
      each direction of an exchange does, how the two are composed, and the
      connection that runs exchanges; [Driver] also has [drive] of
      connection.rs, [Session] its outcomes; [Linked]: the three as one
      connection
    - [Server], [Serving], [Hosting]: proto/h1/server.rs in the same layers;
      [Joined]: the three as one connection

    * How the code is modelled

    Structures are records, enumerations inductive types with the source's
    constructors, functions are Rocq functions with the state they change
    passed explicitly. A [usize] or [u64] is a [Z] whose checked, saturating
    or wrapping operations are written out at 64 bits. A [Result] is [result];
    an assertion, [expect] or [unreachable!] that could fail is [Panics] of
    [call], or [None] of a constructor. Bytes are [list byte].

    An awaited operation of the runtime is a function on a world [W]; what the
    code relies on is a type class over that world. A future of this library
    is modelled by its poll: the code between two suspension points is one
    step, and an execution is any interleaving of such steps, the drops of the
    futures included. [Pipe], [Admission], [Context], [Response],
    [Upgrade] and [Requests] have such executions, with the waker each task stored and whether it was
    woken.

    The drivers have both views. What a direction of an exchange does to the
    wire is a sequential run over a world ([Client], [Server]); how directions
    race, cancel and settle is a composition of arbitrary futures, polled by
    hand over a shared state ([Driver], [Serving]), so that it holds whatever
    they do; the connection loops ([Session], [Hosting]) call an exchange
    through an interface. [Joined] and [Linked] discharge that interface for the
    server and the client: each activity runs its program between two polls, at a
    time and with a delay that an arbitrary schedule chooses. [Readers] polls its retained operation
    directly.

    * Parameters

    Code that is not part of the repository is a class, and its documented
    behaviour a second class of laws:

    - [Http.HttpCrate] and [HttpLaws], [Httparse] and [HttparseLaws]: header
      maps, methods, URIs, and the header parser;
    - [Send.Runtime], [AsyncWrite] and [Writes]: yields, cancellation and
      writers, which put on the wire what they report;
    - [Recv.AsyncRead] and [Reads], [BytesAllocator]: readers, and the
      capacities of byte buffers; [Upgrade.ReadsVectored];
    - [Deadline.Timer] and [Clock], [Server.ServerClock]: the clocks;
    - [Streams.Stream], [Readers.OwnedReader] and [ReadLaws],
      [Readers.AsyncReadAt] and [FileLaws]: streams, readers and files;
    - [Boxing.Types]: the types a program has, as codes;
    - [Client.ClientControl], [ContinueWait], [ResponseProducer],
      [Driver.ResponseSlot], [Session.ClientHost], [Server.InformationalReceiver],
      [ContinuePermission], [Serving.ServerScope], [Hosting.ServerHost], with
      their laws: what a layer of a driver uses of the parts beside and below it;
    - [Joined.Application], [ServerEnd] and [WorldLaws]: the service, the ends of
      a connection, and what each part of a world leaves alone;
      [Session.ConversationLaws], [Linked.ClientApplication], [ClientEnd] and
      [LinkLaws]: the same for a client;
    - [Opening.TlsStream] and [CipherSuites]: what an established TLS stream
      reports;
    - [Incoming.Consumer], [Receive.BodyProducer] and [ReceiveLaws],
      [Transfer.Producing]: the ends of a body as the loops use them;
    - [Encode.Allocator], [Collect.VecAllocator]: memory that may be refused.

    Every theorem that assumes laws has a witness over a concrete instance.

    * What is proved

    Heads. [Scan]: the incremental scanner finds exactly the end of the first
    head, for every fragmentation, within its limit. [Validate]: the framing, the
    persistence and the target of a validated message are exactly what its
    fields say; conflicting lengths and codings are refused.

    Bodies. [Decode]: the incremental chunked decoder refines a grammar of
    chunked bodies for every fragmentation; fixed and close-delimited bodies
    are exact; calls are within bounds; driving it ends; errors stick. [Encode]:
    planned framing agrees with what a receiver validates; heads are written
    exactly and within limits; promised lengths are kept. [RoundTrip]: what
    the encoder writes the decoder reads back. [Body], [Collect]: wrappers keep
    lengths, limits and trailers; collection is exact and bounded.

    Transfer. [Recv]: portable and managed storage is one byte queue, bounded,
    with at most one lease out. [Send], [Deadline]: success means the whole
    message went out once and in order. [Incoming]: an application never sees
    more than the declared framing. [Receive], [Transfer]: a completed receive
    delivered one whole body and left the rest; a successful send framed every
    frame; a sender and a receiver over any two transports agree.

    Coordination. [Pipe], [Admission], [Context], [Response], [Upgrade]: in
    every interleaving nothing panics, every item, permit, head, receipt and
    transport has one owner, and no wake-up is lost. [Requests]: every request
    handed to a send is in exactly one place, whoever drops what. [Connection]: shutdown
    requests are monotone and end the abort wait exactly. [Exchange]: reuse,
    closing and hand-off follow from the heads and ends an exchange saw.
    [Config]: options keep the settings well-formed, which is what the limits
    of the other files assume. [Opening]: a connection over TLS is opened only
    for HTTP/1.1, with the configuration given and what was negotiated. [Errors]:
    the text of an error tells its kind and never its source.

    Drivers. [Client], [Server]: the wire carries exactly the prepared head and
    the encoding of the body; a received message is exactly the heads and the
    body on the wire, offered in order; informational heads are bounded and each
    is answered once; a body is not read before its permission; an illegal head
    is answered and reported as itself. [Driver], [Serving]: an exchange answers
    only after each of its activities has, loses no buffer, reports the failure
    that happened, and ends when they end. [Session], [Hosting]: every admitted
    request is settled once and in order; connections end. [Joined]: the requests
    served are exactly those on the wire. [Linked]: the wire of a client is a
    sequence of whole exchanges, one for every request told that the connection
    was kept.

    Adapters. [Streams]: streams and bodies convert without loss; erasure is not
    observable. [Readers]: no completed read is lost, however waits are dropped;
    a file's body is its content up to the snapshot. [Boxing]: erased transports
    behave like the transport inside and can be recovered.

    * Fuel

    Loops that are not structural take a number of turns and answer [None]
    when it runs out. Pure loops (extensions, transfer parameters, hexadecimal
    digits, chunk turns) take a bound computed from their input, and lemmas
    show that it is enough: they satisfy the unrolled equation of the source's
    loop. For loops over a transport or an application, [Send.writes_total],
    [Receive.receive_total], [Decode.drive_total], [Collect.collect_exact],
    [Client.receive_response_total], [Session.run_total], [Hosting.host_total]
    and [Streams.data_stream_exact] say how many turns end them; for composed
    futures [ready_within] counts polls ([Driver], [Serving]). One poll of
    [Requests.response_turns] takes at most two turns ([response_turns_ok]).

    * Not modelled

    - trace.rs (spans behind a feature), service.rs and server/request_service.rs
      (wrappers that forward one call) and the module roots: nothing that keeps
      state or decides. A service is [Joined.Application].
    - The text of Debug, the Display of errors other than [Error], the layout of
      memory and unsafe code: a buffer is its content, its capacity and its
      leases. *)

From Stdlib Require Import ZArith Lia Strings.Byte.
From Stdlib Require String.
From stdpp Require Import base list option.
Export String.StringSyntax.

#[global] Open Scope Z_scope.

(** * Results

    Rust's [Result<A, E>] with the [?] operator as a bind. *)

Inductive result (A E : Type) : Type :=
| Ok (a : A)
| Err (e : E).
Arguments Ok {A E} a.
Arguments Err {A E} e.

Definition rbind {A B E} (r : result A E) (k : A -> result B E) : result B E :=
  match r with
  | Ok a => k a
  | Err e => Err e
  end.

Definition rmap {A B E} (f : A -> B) (r : result A E) : result B E :=
  match r with
  | Ok a => Ok (f a)
  | Err e => Err e
  end.

Definition map_err {A E F} (f : E -> F) (r : result A E) : result A F :=
  match r with
  | Ok a => Ok a
  | Err e => Err (f e)
  end.

Definition ok_or {A E} (o : option A) (e : E) : result A E :=
  match o with
  | Some a => Ok a
  | None => Err e
  end.

Definition is_ok {A E} (r : result A E) : bool :=
  match r with
  | Ok _ => true
  | Err _ => false
  end.

Declare Scope result_scope.
Delimit Scope result_scope with result.
Notation "'let?' x ':=' r 'in' k" := (rbind r (fun x => k))
  (at level 200, x name, r at level 100, k at level 200) : result_scope.
Notation "'let?' ' p ':=' r 'in' k" := (rbind r (fun x => match x with p => k end))
  (at level 200, p pattern, r at level 100, k at level 200) : result_scope.
Notation "r ';;?' k" := (rbind r (fun _ => k))
  (at level 199, right associativity, k at level 200) : result_scope.
#[global] Open Scope result_scope.

(** * Machine integers

    Every [usize] and [u64] of the code is a [Z]; the checked, saturating and
    converting operations of the standard library are written out. The target
    is 64-bit, so [usize::BITS = 64]. *)

Definition usize_max : Z := 2 ^ 64 - 1.
Definition u64_max : Z := 2 ^ 64 - 1.

Definition is_u64 (n : Z) : Prop := 0 <= n <= u64_max.
Definition is_usize (n : Z) : Prop := 0 <= n <= usize_max.

Definition checked_add (max a b : Z) : option Z :=
  if a + b <=? max then Some (a + b) else None.
Definition checked_mul (max a b : Z) : option Z :=
  if a * b <=? max then Some (a * b) else None.
Definition checked_sub (a b : Z) : option Z :=
  if b <=? a then Some (a - b) else None.
Definition saturating_sub (a b : Z) : Z := Z.max 0 (a - b).
Definition saturating_add (max a b : Z) : Z := Z.min max (a + b).
Definition saturating_mul (max a b : Z) : Z := Z.min max (a * b).

(** * Bytes and byte slices *)

Notation byte := Init.Byte.byte.
Notation bytes := (list byte).

Notation HT := Byte.x09.
Notation LF := Byte.x0a.
Notation CR := Byte.x0d.
Notation SP := Byte.x20.
Notation DQUOTE := Byte.x22.
Notation COMMA := Byte.x2c.
Notation DASH := Byte.x2d.
Notation SLASH := Byte.x2f.
Notation SEMI := Byte.x3b.
Notation EQUALS := Byte.x3d.
Notation AT := Byte.x40.
Notation BSLASH := Byte.x5c.

(** The bytes of a string literal. *)
Definition bs (s : String.string) : bytes := String.list_byte_of_string s.
Arguments bs s%_string_scope.

(** The value of a byte, [u8 as u64]. *)
Definition bZ (b : byte) : Z := Z.of_N (Byte.to_N b).

#[export] Instance byte_eq_dec : EqDecision byte := Byte.byte_eq_dec.

Definition beq (a b : byte) : bool := Byte.eqb a b.

Fixpoint bytes_eqb (x y : bytes) : bool :=
  match x, y with
  | [], [] => true
  | a :: x, b :: y => beq a b && bytes_eqb x y
  | _, _ => false
  end.

Definition is_ascii_digit (b : byte) : bool := (48 <=? bZ b) && (bZ b <=? 57).
Definition is_ascii_uppercase (b : byte) : bool := (65 <=? bZ b) && (bZ b <=? 90).
Definition is_ascii_lowercase (b : byte) : bool := (97 <=? bZ b) && (bZ b <=? 122).
Definition is_ascii_alphanumeric (b : byte) : bool :=
  is_ascii_digit b || is_ascii_uppercase b || is_ascii_lowercase b.
Definition is_ascii_hexdigit (b : byte) : bool :=
  is_ascii_digit b || ((97 <=? bZ b) && (bZ b <=? 102)) || ((65 <=? bZ b) && (bZ b <=? 70)).

Definition byte_of_Z (n : Z) : byte :=
  match Byte.of_N (Z.to_N n) with
  | Some b => b
  | None => Byte.x00
  end.

Definition to_ascii_lowercase (b : byte) : byte :=
  if is_ascii_uppercase b then byte_of_Z (bZ b + 32) else b.
Definition to_ascii_uppercase (b : byte) : byte :=
  if is_ascii_lowercase b then byte_of_Z (bZ b - 32) else b.

Definition eq_ignore_ascii_case (x y : bytes) : bool :=
  bytes_eqb (map to_ascii_lowercase x) (map to_ascii_lowercase y).

(** ** Slices: lengths and indices are [Z], as the code's [usize]. *)

Definition zlen {A} (l : list A) : Z := Z.of_nat (length l).
Definition ztake {A} (n : Z) (l : list A) : list A := take (Z.to_nat n) l.
Definition zdrop {A} (n : Z) (l : list A) : list A := drop (Z.to_nat n) l.
(** [&l[from..to]] *)
Definition zslice {A} (from to : Z) (l : list A) : list A := ztake (to - from) (zdrop from l).
(** [l.get(i)] *)
Definition zget {A} (l : list A) (i : Z) : option A :=
  if i <? 0 then None else l !! Z.to_nat i.

(** [iter().position(p)] *)
Fixpoint position {A} (p : A -> bool) (l : list A) : option Z :=
  match l with
  | [] => None
  | x :: l => if p x then Some 0 else option_map Z.succ (position p l)
  end.

(** [iter().take_while(p).count()] *)
Fixpoint take_while_count {A} (p : A -> bool) (l : list A) : Z :=
  match l with
  | [] => 0
  | x :: l => if p x then Z.succ (take_while_count p l) else 0
  end.

(** [slice.split(|b| *b == sep)]: always at least one piece. *)
Fixpoint split_on (sep : byte) (l : bytes) : list bytes :=
  match l with
  | [] => [[]]
  | b :: l =>
      if beq b sep then [] :: split_on sep l
      else match split_on sep l with
           | [] => [[b]]
           | p :: ps => (b :: p) :: ps
           end
  end.

(** * Automation *)

Create HintDb vakya discriminated.
Create HintDb zlist discriminated.

(** Case analysis on the boolean comparisons the code branches on. *)
Ltac bcase :=
  match goal with
  | |- context [Z.leb ?a ?b] => destruct (Z.leb_spec a b)
  | |- context [Z.ltb ?a ?b] => destruct (Z.ltb_spec a b)
  | |- context [Z.eqb ?a ?b] => destruct (Z.eqb_spec a b)
  | H : context [Z.leb ?a ?b] |- _ => destruct (Z.leb_spec a b)
  | H : context [Z.ltb ?a ?b] |- _ => destruct (Z.ltb_spec a b)
  | H : context [Z.eqb ?a ?b] |- _ => destruct (Z.eqb_spec a b)
  end.

(** * Results: inversion of the bind *)

Lemma rbind_ok {A B E} (r : result A E) (k : A -> result B E) b :
  rbind r k = Ok b -> exists a, r = Ok a /\ k a = Ok b.
Proof. destruct r; simpl; [eauto | discriminate]. Qed.

Lemma map_err_ok {A E F} (f : E -> F) (r : result A E) a :
  map_err f r = Ok a -> r = Ok a.
Proof. destruct r; simpl; congruence. Qed.

Lemma ok_or_ok {A E} (o : option A) (e : E) a : ok_or o e = Ok a -> o = Some a.
Proof. destruct o; simpl; congruence. Qed.

(** Splits every successful bind among the hypotheses. *)
Ltac rinv :=
  repeat match goal with
  | H : rbind ?r ?k = Ok _ |- _ =>
      let a := fresh "a" in let H1 := fresh H in
      apply rbind_ok in H as (a & H1 & H); cbv beta in H
  | H : map_err _ _ = Ok _ |- _ => apply map_err_ok in H
  | H : ok_or _ _ = Ok _ |- _ => apply ok_or_ok in H
  | H : Ok _ = Ok _ |- _ => injection H as H; try subst
  | H : Err _ = Ok _ |- _ => discriminate H
  end.

(** * Machine integers *)

Lemma checked_add_Some max a b c :
  checked_add max a b = Some c <-> c = a + b /\ a + b <= max.
Proof. unfold checked_add. bcase; split; intros H'; [|destruct H'|..]; simplify_eq; try lia; done. Qed.

Lemma checked_mul_Some max a b c :
  checked_mul max a b = Some c <-> c = a * b /\ a * b <= max.
Proof. unfold checked_mul. bcase; split; intros H'; [|destruct H'|..]; simplify_eq; try lia; done. Qed.

Lemma checked_sub_Some a b c :
  checked_sub a b = Some c <-> c = a - b /\ b <= a.
Proof. unfold checked_sub. bcase; split; intros H'; [|destruct H'|..]; simplify_eq; try lia; done. Qed.

(** * Bytes *)

Lemma bZ_range b : 0 <= bZ b <= 255.
Proof.
  unfold bZ. pose proof (Byte.to_N_bounded b). lia.
Qed.

Lemma bZ_inj a b : bZ a = bZ b -> a = b.
Proof.
  unfold bZ. intros H%N2Z.inj.
  pose proof (Byte.of_to_N a). pose proof (Byte.of_to_N b). congruence.
Qed.

Lemma bZ_byte_of_Z n : 0 <= n <= 255 -> bZ (byte_of_Z n) = n.
Proof.
  intros H. unfold byte_of_Z, bZ.
  destruct (Byte.of_N (Z.to_N n)) as [b|] eqn:E.
  - apply Byte.to_of_N in E. rewrite E. lia.
  - apply Byte.of_N_None_iff in E. lia.
Qed.

Lemma beq_true a b : beq a b = true <-> a = b.
Proof.
  unfold beq. split; [apply Byte.byte_dec_bl | apply Byte.byte_dec_lb].
Qed.

Lemma beq_refl a : beq a a = true.
Proof. by apply beq_true. Qed.

Lemma beq_false a b : beq a b = false <-> a <> b.
Proof. rewrite <- beq_true. destruct (beq a b); naive_solver. Qed.

Lemma beqP a b : reflect (a = b) (beq a b).
Proof.
  destruct (beq a b) eqn:E; constructor; [by apply beq_true | by apply beq_false].
Qed.

Lemma bytes_eqb_true x y : bytes_eqb x y = true <-> x = y.
Proof.
  revert y. induction x as [|a x IH]; intros [|b y]; simpl; try naive_solver.
  rewrite andb_true_iff, beq_true, IH. naive_solver.
Qed.

Lemma bytes_eqb_false x y : bytes_eqb x y = false <-> x <> y.
Proof. rewrite <- bytes_eqb_true. destruct (bytes_eqb x y); naive_solver. Qed.

(** * Slices *)

Section Slices.
Context {A : Type}.
Implicit Types (l k : list A) (n m : Z).

Lemma zlen_nonneg l : 0 <= zlen l.
Proof. unfold zlen. lia. Qed.

Lemma zlen_nil : zlen (@nil A) = 0.
Proof. done. Qed.

Lemma zlen_cons x l : zlen (x :: l) = zlen l + 1.
Proof. unfold zlen. simpl. lia. Qed.

Lemma zlen_app l k : zlen (l ++ k) = zlen l + zlen k.
Proof. unfold zlen. rewrite length_app. lia. Qed.

Lemma zlen_0_nil l : zlen l = 0 -> l = [].
Proof. unfold zlen. destruct l; simpl; [done | lia]. Qed.

Lemma zlen_ztake n l : 0 <= n -> zlen (ztake n l) = Z.min n (zlen l).
Proof. unfold zlen, ztake. rewrite length_take. lia. Qed.

Lemma zlen_zdrop n l : 0 <= n -> zlen (zdrop n l) = Z.max 0 (zlen l - n).
Proof. unfold zlen, zdrop. rewrite length_drop. lia. Qed.

Lemma ztake_zdrop n l : ztake n l ++ zdrop n l = l.
Proof. apply take_drop. Qed.

Lemma ztake_0 n l : n <= 0 -> ztake n l = [].
Proof. intros. unfold ztake. by replace (Z.to_nat n) with 0%nat by lia. Qed.

Lemma zdrop_0 n l : n <= 0 -> zdrop n l = l.
Proof. intros. unfold zdrop. by replace (Z.to_nat n) with 0%nat by lia. Qed.

Lemma ztake_all n l : zlen l <= n -> ztake n l = l.
Proof. unfold zlen, ztake. intros. apply take_ge. lia. Qed.

Lemma zdrop_all n l : zlen l <= n -> zdrop n l = [].
Proof. unfold zlen, zdrop. intros. apply drop_ge. lia. Qed.

Lemma ztake_app_le n l k : n <= zlen l -> ztake n (l ++ k) = ztake n l.
Proof. unfold zlen, ztake. intros. apply take_app_le. lia. Qed.

Lemma ztake_app_ge n l k : zlen l <= n -> ztake n (l ++ k) = l ++ ztake (n - zlen l) k.
Proof.
  unfold zlen, ztake. intros. rewrite take_app_ge by lia.
  do 2 f_equal. lia.
Qed.

Lemma zdrop_app_le n l k : n <= zlen l -> zdrop n (l ++ k) = zdrop n l ++ k.
Proof. unfold zlen, zdrop. intros. apply drop_app_le. lia. Qed.

Lemma zdrop_app_ge n l k : zlen l <= n -> zdrop n (l ++ k) = zdrop (n - zlen l) k.
Proof.
  unfold zlen, zdrop. intros. rewrite drop_app_ge by lia.
  f_equal. lia.
Qed.

Lemma ztake_app_zlen l k : ztake (zlen l) (l ++ k) = l.
Proof. rewrite ztake_app_le by lia. apply ztake_all. lia. Qed.

Lemma zdrop_app_zlen l k : zdrop (zlen l) (l ++ k) = k.
Proof. rewrite zdrop_app_ge by lia. apply zdrop_0. lia. Qed.

Lemma zdrop_zdrop n m l : 0 <= n -> 0 <= m -> zdrop n (zdrop m l) = zdrop (m + n) l.
Proof. intros. unfold zdrop. rewrite drop_drop. f_equal. lia. Qed.

Lemma ztake_ztake n m l : ztake n (ztake m l) = ztake (Z.min n m) l.
Proof. unfold ztake. rewrite take_take. f_equal. lia. Qed.

Lemma zslice_0 n l : zslice 0 n l = ztake n l.
Proof. unfold zslice. by rewrite zdrop_0, Z.sub_0_r by lia. Qed.

Lemma zslice_app_le n m l k : m <= zlen l -> 0 <= n <= m -> zslice n m (l ++ k) = zslice n m l.
Proof.
  intros. unfold zslice. rewrite zdrop_app_le by lia.
  apply ztake_app_le. rewrite zlen_zdrop; lia.
Qed.

Lemma zslice_app_slices (input : list A) a b c :
  0 <= a <= b -> b <= c -> zslice a b input ++ zslice b c input = zslice a c input.
Proof.
  intros. unfold zslice, ztake, zdrop.
  replace (drop (Z.to_nat b) input) with (drop (Z.to_nat (b - a)) (drop (Z.to_nat a) input)).
  2:{ rewrite drop_drop. f_equal. lia. }
  generalize (drop (Z.to_nat a) input) as l. intros l.
  replace (Z.to_nat (c - a)) with (Z.to_nat (b - a) + Z.to_nat (c - b))%nat by lia.
  by rewrite take_take_drop.
Qed.

Lemma zslice_self (input : list A) a : zslice a a input = [].
Proof. unfold zslice. by rewrite ztake_0 by lia. Qed.

Lemma zget_lookup l i : 0 <= i -> zget l i = l !! Z.to_nat i.
Proof. intros. unfold zget. bcase; [lia | done]. Qed.

Lemma zget_app_l l k i : 0 <= i < zlen l -> zget (l ++ k) i = zget l i.
Proof.
  unfold zlen. intros. rewrite !zget_lookup by lia. apply lookup_app_l. lia.
Qed.

Lemma zget_cons_0 x l : zget (x :: l) 0 = Some x.
Proof. done. Qed.

Lemma zget_cons_S x l i : 0 < i -> zget (x :: l) i = zget l (i - 1).
Proof.
  intros. rewrite !zget_lookup by lia.
  by replace (Z.to_nat i) with (S (Z.to_nat (i - 1))) by lia.
Qed.

Lemma zget_app_r l k i : zlen l <= i -> zget (l ++ k) i = zget k (i - zlen l).
Proof.
  unfold zlen. intros. rewrite !zget_lookup by lia.
  rewrite lookup_app_r by lia. f_equal. lia.
Qed.

Lemma zget_range l i x : zget l i = Some x -> 0 <= i < zlen l.
Proof.
  unfold zget, zlen. bcase; [done|]. intros ?%lookup_lt_Some. lia.
Qed.

(** ** Searches *)

Lemma position_Some (p : A -> bool) l i :
  position p l = Some i ->
  exists l1 x l2, l = l1 ++ x :: l2 /\ zlen l1 = i /\ p x = true /\ Forall (fun y => p y = false) l1.
Proof.
  revert i. induction l as [|y l IH]; simpl; intros i H; [done|].
  destruct (p y) eqn:E.
  - exists [], y, l. simplify_eq. by repeat split.
  - destruct (position p l) as [j|] eqn:Ej; simplify_eq/=.
    destruct (IH j eq_refl) as (l1 & x & l2 & -> & <- & ? & ?).
    exists (y :: l1), x, l2. rewrite zlen_cons. repeat split; auto.
Qed.

Lemma position_None (p : A -> bool) l :
  position p l = None <-> Forall (fun y => p y = false) l.
Proof.
  induction l as [|y l IH]; simpl; [by split|].
  destruct (p y) eqn:E.
  - split; [done|]. intros H. inversion H. congruence.
  - destruct (position p l); simpl; [|naive_solver].
    split; [done|]. intros H. inversion H. naive_solver.
Qed.

Lemma position_app_r (p : A -> bool) l k :
  Forall (fun y => p y = false) l ->
  position p (l ++ k) = option_map (Z.add (zlen l)) (position p k).
Proof.
  induction 1 as [|y l Hy H IH]; simpl.
  - by destruct (position p k).
  - rewrite Hy, IH. destruct (position p k); simpl; [|done].
    rewrite zlen_cons. f_equal. lia.
Qed.

Lemma position_app_hit (p : A -> bool) l x k :
  Forall (fun y => p y = false) l -> p x = true -> position p (l ++ x :: k) = Some (zlen l).
Proof.
  intros. rewrite position_app_r by done. simpl.
  destruct (p x); simpl; [|done]. f_equal. lia.
Qed.

Lemma take_while_count_nonneg (p : A -> bool) l : 0 <= take_while_count p l.
Proof. induction l as [|x l IH]; simpl; [done|]. destruct (p x); lia. Qed.

Lemma take_while_count_le (p : A -> bool) l : take_while_count p l <= zlen l.
Proof.
  induction l as [|x l IH]; simpl; [done|].
  rewrite zlen_cons. pose proof (zlen_nonneg l). destruct (p x); lia.
Qed.

Lemma take_while_count_all (p : A -> bool) l :
  forallb p l = true -> take_while_count p l = zlen l.
Proof.
  induction l as [|x l IH]; simpl; [done|].
  rewrite zlen_cons. destruct (p x); simpl; [|done]. intros. rewrite IH by done. lia.
Qed.

End Slices.

Lemma split_on_nonempty sep l : split_on sep l <> [].
Proof. destruct l as [|b l]; simpl; [done|]. destruct (beq b sep), (split_on sep l); done. Qed.

Lemma split_on_none sep l : sep ∉ l -> split_on sep l = [l].
Proof.
  induction l as [|b l IH]; [done|]. intros [Hb Hl]%not_elem_of_cons. simpl.
  destruct (beqP b sep); [congruence|]. by rewrite IH.
Qed.

#[export] Hint Rewrite @zlen_nil @zlen_cons @zlen_app : zlist.
#[export] Hint Resolve zlen_nonneg : vakya.

(** Linear arithmetic over slice lengths: normalise lengths, add their signs. *)
Ltac zl :=
  autorewrite with zlist in *;
  repeat match goal with
  | l : list ?A |- _ =>
      lazymatch goal with
      | _ : 0 <= zlen l |- _ => fail
      | _ => pose proof (zlen_nonneg l)
      end
  end; try lia.
