(* ===== verification/Http.v ===== *)
(** The interface to the crates the protocol code calls.

    [http] (header maps, URIs, methods, status codes, versions) and
    [httparse] (request, response and field-line grammar) are not part of the
    repository. The model takes them as parameters: [HttpCrate] and
    [Httparse] hold the operations, [HttpLaws] and [HttparseLaws] the
    documented behaviour the code relies on. [AssocHttp] is a concrete
    instance (association lists, decimal rendering) on which theorems with
    those hypotheses are evaluated. *)

From Stdlib Require Import ZArith Lia.
From stdpp Require Import base list option.
From S2P Require Import Prelude.

(** [http::Version]. *)
Inductive Version : Type :=
| HTTP_09
| HTTP_10
| HTTP_11
| HTTP_2
| HTTP_3.

#[export] Instance Version_eq_dec : EqDecision Version.
Proof. solve_decision. Defined.

(** A [HeaderName] and a [Method] are represented by [as_str().as_bytes()], a
    [HeaderValue] by [as_bytes()], a [StatusCode] by [as_u16()]. *)
Notation HeaderName := bytes (only parsing).
Notation HeaderValue := bytes (only parsing).
Notation Method := bytes (only parsing).
Notation StatusCode := Z (only parsing).

Definition CONTENT_LENGTH : HeaderName := bs "content-length".
Definition TRANSFER_ENCODING : HeaderName := bs "transfer-encoding".
Definition HOST : HeaderName := bs "host".
Definition CONNECTION : HeaderName := bs "connection".
Definition EXPECT : HeaderName := bs "expect".
Definition UPGRADE : HeaderName := bs "upgrade".
Definition TRAILER : HeaderName := bs "trailer".
Definition TE : HeaderName := bs "te".
Definition AUTHORIZATION : HeaderName := bs "authorization".
Definition PROXY_AUTHORIZATION : HeaderName := bs "proxy-authorization".
Definition PROXY_AUTHENTICATE : HeaderName := bs "proxy-authenticate".
Definition WWW_AUTHENTICATE : HeaderName := bs "www-authenticate".
Definition CONTENT_ENCODING : HeaderName := bs "content-encoding".
Definition CONTENT_TYPE : HeaderName := bs "content-type".
Definition CONTENT_RANGE : HeaderName := bs "content-range".

Definition CONNECT : Method := bs "CONNECT".
Definition OPTIONS : Method := bs "OPTIONS".
Definition HEAD : Method := bs "HEAD".
Definition GET : Method := bs "GET".

(** The operations of the [http] crate the protocol code uses. *)
Class HttpCrate : Type := {
  HeaderMap : Type;
  hm_new : HeaderMap;
  (** [HeaderMap::try_with_capacity], [None] when the capacity is refused *)
  hm_try_with_capacity : Z -> option HeaderMap;
  hm_append : HeaderMap -> HeaderName -> HeaderValue -> HeaderMap;
  hm_insert : HeaderMap -> HeaderName -> HeaderValue -> HeaderMap;
  hm_get_all : HeaderMap -> HeaderName -> list HeaderValue;
  hm_contains_key : HeaderMap -> HeaderName -> bool;
  hm_keys : HeaderMap -> list HeaderName;
  (** [for (name, value) in headers] *)
  hm_iter : HeaderMap -> list (HeaderName * HeaderValue);
  (** [headers.into_iter()]: a name only with the first of its values *)
  hm_into_iter : HeaderMap -> list (option HeaderName * HeaderValue);
  header_name_from_bytes : bytes -> option HeaderName;
  header_value_from_bytes : bytes -> option HeaderValue;
  header_value_from_str : bytes -> option HeaderValue;
  (** [HeaderValue::from(u64)] *)
  header_value_from_u64 : Z -> HeaderValue;
  method_from_bytes : bytes -> option Method;
  Uri : Type;
  uri_from_bytes : bytes -> option Uri;
  uri_path : Uri -> bytes;
  (** [scheme().is_some()] *)
  uri_has_scheme : Uri -> bool;
  (** [authority().map(Authority::as_str)] *)
  uri_authority : Uri -> option bytes;
  (** [authority().is_some_and(|a| a.port().is_some())] *)
  uri_has_port : Uri -> bool;
  (** [path_and_query().is_some()] *)
  uri_has_path_and_query : Uri -> bool;
  (** the [write_str] calls [Display] makes *)
  uri_display : Uri -> list bytes;
  (** [text.parse::<Authority>().is_ok()] *)
  authority_parses : bytes -> bool;
  status_is_informational : StatusCode -> bool;
  status_is_success : StatusCode -> bool;
  (** [StatusCode::from_u16] *)
  status_from_u16 : Z -> option StatusCode;
  (** [status.as_str().as_bytes()] *)
  status_as_str : StatusCode -> bytes;
  status_canonical_reason : StatusCode -> option bytes;
}.

(** The value of a string of decimal digits. *)
Definition decimal_value (ds : bytes) : Z :=
  fold_left (fun acc d => acc * 10 + (bZ d - 48)) ds 0.

(** The fields of an owned iteration, each value under the last name seen. *)
Fixpoint named_fields (name : option HeaderName) (l : list (option HeaderName * HeaderValue))
    : option (list (HeaderName * HeaderValue)) :=
  match l with
  | [] => Some []
  | (next, v) :: l =>
      let name := match next with Some _ => next | None => name end in
      match name, named_fields name l with
      | Some n, Some fields => Some ((n, v) :: fields)
      | _, _ => None
      end
  end.

Definition field_values (n : HeaderName) (fields : list (HeaderName * HeaderValue)) : list HeaderValue :=
  map snd (filter (fun p => fst p = n) fields).

(** Documented behaviour of the [http] crate the protocol code relies on. *)
Class HttpLaws (H : HttpCrate) : Prop := {
  law_get_all_new n : hm_get_all hm_new n = [];
  law_get_all_with_capacity c m n : hm_try_with_capacity c = Some m -> hm_get_all m n = [];
  (** an empty map needs no capacity *)
  law_with_capacity_0 : is_Some (hm_try_with_capacity 0);
  law_get_all_insert m n v n' :
    hm_get_all (hm_insert m n v) n' = if decide (n = n') then [v] else hm_get_all m n';
  law_get_all_append m n v n' :
    hm_get_all (hm_append m n v) n' =
    if decide (n = n') then hm_get_all m n' ++ [v] else hm_get_all m n';
  law_contains_key m n : hm_contains_key m n = match hm_get_all m n with [] => false | _ => true end;
  (** [None] stands only for further values of the preceding name *)
  law_into_iter m : exists fields, named_fields None (hm_into_iter m) = Some fields /\
    forall n, field_values n fields = hm_get_all m n;
  law_keys m n : n ∈ hm_keys m <-> hm_get_all m n <> [];
  law_value_from_u64_digits n :
    is_u64 n -> forallb is_ascii_digit (header_value_from_u64 n) = true;
  law_value_from_u64_nonempty n : is_u64 n -> header_value_from_u64 n <> [];
  law_value_from_u64_value n : is_u64 n -> decimal_value (header_value_from_u64 n) = n;
  law_informational s : status_is_informational s = (100 <=? s) && (s <? 200);
  law_success s : status_is_success s = (200 <=? s) && (s <? 300);
}.

(** ** [httparse] *)

Inductive HpError : Type :=
| HpHeaderName
| HpHeaderValue
| HpNewLine
| HpStatus
| HpToken
| HpTooManyHeaders
| HpVersion.

(** [Result<Status<T>, httparse::Error>]. *)
Inductive HpResult (T : Type) : Type :=
| HpComplete (t : T)
| HpPartial
| HpErr (e : HpError).
Arguments HpComplete {T} t.
Arguments HpPartial {T}.
Arguments HpErr {T} e.

Record HpRequest := {
  hp_method : option bytes;
  hp_path : option bytes;
  hp_req_version : option Z;
  hp_req_headers : list (bytes * bytes);
}.

Record HpResponse := {
  hp_resp_version : option Z;
  hp_code : option Z;
  hp_resp_headers : list (bytes * bytes);
}.

(** The three parsers the code calls; the [Z] is the number of header slots of
    the workspace passed in, the result carries the consumed length. *)
Class Httparse : Type := {
  hp_parse_request : bytes -> Z -> HpResult (Z * HpRequest);
  hp_parse_response : bytes -> Z -> HpResult (Z * HpResponse);
  hp_parse_headers : bytes -> Z -> HpResult (Z * list (bytes * bytes));
}.

(** A field block ends with an empty line: [LF] or [CR LF] alone, or after a
    line feed. *)
Definition ends_with_empty_line (i : bytes) : Prop :=
  i = [LF] \/ i = [CR; LF] \/ exists j, i = j ++ [LF; LF] \/ i = j ++ [LF; CR; LF].

(** What the body decoder relies on: the index [parse_headers] stops at follows
    an empty line of its input, and an empty block (a lone line end) has no
    fields. *)
Class HttparseLaws (P : Httparse) : Prop := {
  law_headers_consumed i cap n hs :
    hp_parse_headers i cap = HpComplete (n, hs) -> 0 < n <= zlen i /\ ends_with_empty_line (ztake n i);
  law_headers_empty cap : 0 < cap -> hp_parse_headers [CR; LF] cap = HpComplete (2, []);
}.

(** * A concrete instance

    Association lists in insertion order. [insert] replaces all values. *)

Definition assoc_get_all (m : list (bytes * bytes)) (n : bytes) : list bytes := field_values n m.

Definition assoc_insert (m : list (bytes * bytes)) (n v : bytes) : list (bytes * bytes) :=
  filter (fun p => fst p <> n) m ++ [(n, v)].

Fixpoint decimal_digits (fuel : nat) (n : Z) : bytes :=
  match fuel with
  | O => []
  | S fuel => (if n <? 10 then [] else decimal_digits fuel (n / 10)) ++ [byte_of_Z (48 + n mod 10)]
  end.

Definition to_decimal (n : Z) : bytes := decimal_digits 20 n.

(** URIs of the instance: an optional scheme, authority, port and path. *)
Record SimpleUri := {
  su_scheme : option bytes;
  su_authority : option bytes;
  su_port : bool;
  su_path : bytes;
}.

Definition simple_uri_path (s : bytes) : SimpleUri :=
  {| su_scheme := None; su_authority := None; su_port := false; su_path := s |}.

Definition AssocHttp : HttpCrate := {|
  HeaderMap := list (bytes * bytes);
  hm_new := [];
  hm_try_with_capacity c := if c <=? 32768 then Some [] else None;
  hm_append m n v := m ++ [(n, v)];
  hm_insert := assoc_insert;
  hm_get_all := assoc_get_all;
  hm_contains_key m n := match assoc_get_all m n with [] => false | _ => true end;
  hm_keys m := remove_dups (map fst m);
  hm_iter m := m;
  hm_into_iter m := map (fun p => (Some (fst p), snd p)) m;
  header_name_from_bytes n := Some (map to_ascii_lowercase n);
  header_value_from_bytes v := Some v;
  header_value_from_str v := Some v;
  header_value_from_u64 := to_decimal;
  method_from_bytes m := Some m;
  Uri := SimpleUri;
  uri_from_bytes s := Some (simple_uri_path s);
  uri_path := su_path;
  uri_has_scheme u := match su_scheme u with Some _ => true | None => false end;
  uri_authority := su_authority;
  uri_has_port := su_port;
  uri_has_path_and_query u := match su_path u with [] => false | _ => true end;
  uri_display u := [su_path u];
  authority_parses a := match a with [] => false | _ => true end;
  status_is_informational s := (100 <=? s) && (s <? 200);
  status_is_success s := (200 <=? s) && (s <? 300);
  status_from_u16 c := if (100 <=? c) && (c <? 1000) then Some c else None;
  status_as_str := to_decimal;
  status_canonical_reason s := if s =? 200 then Some (bs "OK") else None;
|}.

(** ** The instance satisfies the laws *)

Lemma decimal_value_snoc ds d :
  decimal_value (ds ++ [d]) = decimal_value ds * 10 + (bZ d - 48).
Proof. unfold decimal_value. by rewrite fold_left_app. Qed.

Lemma bZ_digit n : bZ (byte_of_Z (48 + n mod 10)) = 48 + n mod 10.
Proof. apply bZ_byte_of_Z. pose proof (Z.mod_pos_bound n 10). lia. Qed.

Lemma decimal_digits_value fuel n :
  0 <= n < 10 ^ Z.of_nat fuel -> decimal_value (decimal_digits fuel n) = n.
Proof.
  revert n. induction fuel as [|fuel IH]; intros n Hn; [simpl in *; by replace n with 0 by lia|].
  rewrite Nat2Z.inj_succ, Z.pow_succ_r in Hn by lia.
  simpl. rewrite decimal_value_snoc, bZ_digit.
  pose proof (Z.div_mod n 10 ltac:(lia)).
  bcase.
  - change (decimal_value []) with 0. rewrite (Z.mod_small n 10) by lia. lia.
  - rewrite IH; [lia|]. split; [apply Z.div_pos; lia|].
    apply Z.div_lt_upper_bound; lia.
Qed.

Lemma decimal_digits_digits fuel n : forallb is_ascii_digit (decimal_digits fuel n) = true.
Proof.
  revert n. induction fuel as [|fuel IH]; intros n; [done|].
  simpl. rewrite forallb_app. apply andb_true_iff. split; [bcase; [done | apply IH]|].
  simpl. unfold is_ascii_digit. rewrite bZ_digit.
  pose proof (Z.mod_pos_bound n 10). repeat bcase; simpl; lia.
Qed.

Lemma decimal_digits_nonempty fuel n : decimal_digits (S fuel) n <> [].
Proof. simpl. intros [_ E]%app_eq_nil. discriminate. Qed.

Lemma assoc_get_all_insert m n v n' :
  assoc_get_all (assoc_insert m n v) n' =
  if decide (n = n') then [v] else assoc_get_all m n'.
Proof.
  unfold assoc_get_all, field_values, assoc_insert. rewrite list.filter_app, map_app.
  case_decide as Hn.
  - subst n'. replace (filter _ (filter _ m)) with (@nil (bytes * bytes)).
    + rewrite filter_cons_True by done. done.
    + induction m as [|p m IH]; [done|]. rewrite filter_cons. case_decide; [|done].
      by rewrite filter_cons_False by naive_solver.
  - rewrite (filter_cons_False _ (n, v)) by done. rewrite app_nil_r. f_equal.
    induction m as [|p m IH]; [done|]. destruct (decide (p.1 = n')) as [Hp|Hp].
    + rewrite (filter_cons_True (fun q => q.1 <> n)) by naive_solver.
      rewrite !(filter_cons_True (fun q => q.1 = n')) by done. by f_equal.
    + rewrite (filter_cons_False (fun q => q.1 = n') p m) by done. rewrite <- IH.
      rewrite (filter_cons (fun q => q.1 <> n)). case_decide; [|done].
      by rewrite filter_cons_False.
Qed.

#[export] Instance AssocHttp_laws : HttpLaws AssocHttp.
Proof.
  constructor; simpl; try done.
  - intros c m n. bcase; [|done]. intros ?. by simplify_eq.
  - apply assoc_get_all_insert.
  - intros m n v n'. unfold assoc_get_all, field_values. rewrite list.filter_app, map_app.
    rewrite (filter_cons _ (n, v)). simpl. case_decide; [done | by rewrite app_nil_r].
  - intros m. exists m. split; [|done]. generalize (@None bytes) as o.
    induction m as [|[n v] m IH]; intros o; simpl; [done|]. by rewrite IH.
  - intros m n. rewrite elem_of_remove_dups. unfold assoc_get_all, field_values.
    rewrite list_elem_of_In, in_map_iff. induction m as [|p m IH]; [naive_solver|].
    simpl. rewrite filter_cons. case_decide; naive_solver.
  - intros n _. apply decimal_digits_digits.
  - intros n _. apply decimal_digits_nonempty.
  - intros n Hn. apply decimal_digits_value. unfold is_u64, u64_max in Hn. lia.
Qed.

(** A field grammar that knows only the empty block. *)
Definition EmptyFields : Httparse := {|
  hp_parse_request _ _ := HpPartial;
  hp_parse_response _ _ := HpPartial;
  hp_parse_headers i _ := if bytes_eqb i [CR; LF] then HpComplete (2, []) else HpPartial;
|}.

#[export] Instance EmptyFields_laws : HttparseLaws EmptyFields.
Proof.
  constructor; simpl; [|done].
  intros i cap n hs. destruct (bytes_eqb i _) eqn:E; [|done].
  apply bytes_eqb_true in E. intros. simplify_eq. split; [done | by right; left].
Qed.
