(* ===== verification/Errors.v ===== *)
(** Error vocabulary (src/src/error.rs) and the conversions of the private
    protocol errors into it (head.rs, decode.rs, encode.rs). *)

From Stdlib Require Import ZArith Lia.
From Stdlib Require String.
From stdpp Require Import base list option.
From S2P Require Import Prelude.

Inductive ErrorKind : Type :=
| Io
| Tls
| InvalidMessage
| LocalMessage
| Body
| Service
| Busy
| Limit
| Timeout
| Unsupported
| Closed
| Canceled
| Upgrade
| Internal.

Inductive BusyReason : Type :=
| RequestAdmission
| ReservationWaiter
| InformationalWrite.

Inductive LimitKind : Type :=
| HeadBytes
| HeaderCount
| HeadMapCapacity
| ChunkLineBytes
| ChunkExtensionBytes
| TrailerBytes
| TrailerCount
| TrailerMapCapacity
| RetainedInput
| InformationalResponses
| DrainPayload
| DrainWire.

Inductive TimeoutPhase : Type :=
| PhaseTransport
| PhaseHead
| PhaseBodyProgress
| PhaseWriteProgress
| PhaseDrain
| PhaseShutdown.

Inductive ErrorDetail : Type :=
| DetailBusy (r : BusyReason)
| IncomingLimit (l : LimitKind)
| OutgoingLimit (l : LimitKind)
| DetailTimeout (p : TimeoutPhase)
| DetailAllocation
| DriverLost.

(** ** Private protocol errors *)

Inductive HeadLimit : Type :=
| HeadLimitBytes
| HeadLimitHeaders
| HeadLimitHeaderMap.

Inductive HeadError : Type :=
| InvalidStartLine
| InvalidHeader
| UnsupportedVersion
| InvalidMethod
| InvalidTarget
| InvalidStatus
| MissingHost
| InvalidHost
| InvalidTargetForm
| InvalidContentLength
| AmbiguousMessageLength
| InvalidTransferEncoding
| UnsupportedTransferCoding
| InvalidConnection
| InvalidExpectation
| InvalidUpgrade
| HeadErrorLimit (l : HeadLimit).

Inductive DecodeLimit : Type :=
| DecodeLimitChunkLineBytes
| DecodeLimitChunkExtensionBytes
| DecodeLimitTrailerBytes
| DecodeLimitTrailers
| DecodeLimitTrailerMap.

Inductive DecodeError : Type :=
| UnexpectedEof
| InvalidChunkSize
| InvalidChunkExtension
| InvalidChunkTerminator
| InvalidTrailer
| ForbiddenTrailer
| DecodeErrorLimit (l : DecodeLimit).

Inductive EncodeError : Type :=
| InvalidHead
| InvalidFraming
| LengthMismatch
| BodyForbidden
| TrailersForbidden
| FrameAfterEnd
| EncodeUnsupported
| EncodeErrorLimit (l : LimitKind)
| EncodeAllocation.

#[export] Instance ErrorKind_eq_dec : EqDecision ErrorKind.
Proof. solve_decision. Defined.
#[export] Instance BusyReason_eq_dec : EqDecision BusyReason.
Proof. solve_decision. Defined.
#[export] Instance LimitKind_eq_dec : EqDecision LimitKind.
Proof. solve_decision. Defined.
#[export] Instance TimeoutPhase_eq_dec : EqDecision TimeoutPhase.
Proof. solve_decision. Defined.
#[export] Instance ErrorDetail_eq_dec : EqDecision ErrorDetail.
Proof. solve_decision. Defined.
#[export] Instance HeadLimit_eq_dec : EqDecision HeadLimit.
Proof. solve_decision. Defined.
#[export] Instance HeadError_eq_dec : EqDecision HeadError.
Proof. solve_decision. Defined.
#[export] Instance DecodeLimit_eq_dec : EqDecision DecodeLimit.
Proof. solve_decision. Defined.
#[export] Instance DecodeError_eq_dec : EqDecision DecodeError.
Proof. solve_decision. Defined.
#[export] Instance EncodeError_eq_dec : EqDecision EncodeError.
Proof. solve_decision. Defined.

(** ** The public error

    An [io::Error] is seen through the queries [from_io] makes of it: whether
    it carries a Rustls protocol error, whether the runtime marks it as a
    cancellation, its kind, and the [DeadlineElapsed] it may wrap. *)

Inductive IoErrorKind : Type :=
| IoTimedOut
| IoOutOfMemory
| IoWriteZero
| IoInvalidData
| IoInvalidInput
| IoInterrupted
| IoUnexpectedEof
| IoOther.

#[export] Instance IoErrorKind_eq_dec : EqDecision IoErrorKind.
Proof. solve_decision. Defined.

Record IoError := mkIoError {
  io_kind : IoErrorKind;
  io_tls : bool;
  io_canceled : bool;
  io_deadline : option TimeoutPhase;
}.

(** The boxed [dyn Error] values the crate stores. *)
Inductive StdError : Type :=
| SrcHead (e : HeadError)
| SrcDecode (e : DecodeError)
| SrcEncode (e : EncodeError)
| SrcIo (e : IoError)
| SrcApplication (tag : Z).

Inductive Source : Type :=
| Owned (e : StdError)
| Shared (e : StdError).

Record Error := mkError {
  kind : ErrorKind;
  context : String.string;
  detail : option ErrorDetail;
  source : option Source;
}.
Arguments mkError kind context%_string_scope detail source.

Definition Error_new (k : ErrorKind) (c : String.string) : Error := mkError k c None None.
Arguments Error_new k c%_string_scope.

Definition with_source (k : ErrorKind) (c : String.string) (s : StdError) : Error :=
  mkError k c None (Some (Owned s)).
Arguments with_source k c%_string_scope s.

Definition classified (e : Error) (d : option ErrorDetail) : Error :=
  mkError (kind e) (context e) d (source e).

Definition with_detail (e : Error) (d : ErrorDetail) : Error := classified e (Some d).

Definition is_canceled (e : Error) : bool :=
  match kind e with
  | Canceled => true
  | _ => false
  end.

Definition source_error (s : Source) : StdError :=
  match s with
  | Owned e => e
  | Shared e => e
  end.

Definition Error_split (e : Error) : Error * Error :=
  let s := option_map source_error (source e) in
  (mkError (kind e) (context e) (detail e) (option_map Shared s),
   mkError (kind e) (context e) (detail e) (option_map Shared s)).

Definition from_io (tls_feature : bool) (e : IoError) : Error :=
  if tls_feature && io_tls e then with_source Tls "TLS protocol operation failed" (SrcIo e)
  else
    let k :=
      if io_canceled e then Canceled
      else if bool_decide (io_kind e = IoTimedOut) then Timeout
      else Io in
    let d :=
      if bool_decide (k = Timeout) then
        Some (DetailTimeout (default PhaseTransport (io_deadline e)))
      else if bool_decide (io_kind e = IoOutOfMemory) then Some DetailAllocation
      else None in
    classified (with_source k "HTTP I/O operation failed" (SrcIo e)) d.

(** [impl From<HeadError> for Error] *)
Definition Error_from_head (e : HeadError) : Error :=
  let k :=
    match e with
    | HeadErrorLimit _ => Limit
    | UnsupportedVersion | UnsupportedTransferCoding => Unsupported
    | _ => InvalidMessage
    end in
  classified (with_source k "received HTTP head failed validation" (SrcHead e))
    (match e with
     | HeadErrorLimit l =>
         Some (IncomingLimit
           (match l with
            | HeadLimitBytes => HeadBytes
            | HeadLimitHeaders => HeaderCount
            | HeadLimitHeaderMap => HeadMapCapacity
            end))
     | _ => None
     end).

(** [impl From<DecodeError> for Error] *)
Definition Error_from_decode (e : DecodeError) : Error :=
  let k :=
    match e with
    | DecodeErrorLimit _ => Limit
    | _ => InvalidMessage
    end in
  classified (with_source k "received body framing failed" (SrcDecode e))
    (match e with
     | DecodeErrorLimit l =>
         Some (IncomingLimit
           (match l with
            | DecodeLimitChunkLineBytes => ChunkLineBytes
            | DecodeLimitChunkExtensionBytes => ChunkExtensionBytes
            | DecodeLimitTrailerBytes => TrailerBytes
            | DecodeLimitTrailers => TrailerCount
            | DecodeLimitTrailerMap => TrailerMapCapacity
            end))
     | _ => None
     end).

(** [impl From<EncodeError> for Error] *)
Definition Error_from_encode (e : EncodeError) : Error :=
  let k :=
    match e with
    | EncodeErrorLimit _ | EncodeAllocation => Limit
    | EncodeUnsupported => Unsupported
    | _ => LocalMessage
    end in
  classified (with_source k "outgoing HTTP message cannot be encoded safely" (SrcEncode e))
    (match e with
     | EncodeErrorLimit l => Some (OutgoingLimit l)
     | EncodeAllocation => Some DetailAllocation
     | _ => None
     end).

(** ** What an error shows

    [Display] writes the context and the kind; [Error::source] borrows the source
    whoever owns it. *)

#[local] Delimit Scope string_scope with string.

Definition description (k : ErrorKind) : String.string :=
  match k with
  | Io => "I/O failure"
  | Tls => "TLS failure"
  | InvalidMessage => "invalid peer message"
  | LocalMessage => "invalid local message"
  | Body => "body failure"
  | Service => "service failure"
  | Busy => "operation busy"
  | Limit => "configured limit exceeded"
  | Timeout => "deadline exceeded"
  | Unsupported => "unsupported HTTP behavior"
  | Closed => "connection closed"
  | Canceled => "operation canceled"
  | Upgrade => "upgrade failure"
  | Internal => "internal invariant failure"
  end%string.

Definition display_error (e : Error) : String.string :=
  String.append (context e) (String.append ": " (description (kind e))).

Definition error_source (e : Error) : option StdError := option_map source_error (source e).

Lemma append_cancel (s t u : String.string) : String.append s t = String.append s u -> t = u.
Proof. induction s as [|c s IH]; simpl; [done|]. intros [= H]. by apply IH. Qed.

Lemma description_inj k k' : description k = description k' -> k = k'.
Proof. destruct k, k'; done. Qed.

(** The text of an error tells its kind and nothing about its source, and a
    split failure is one failure for both who report it. *)
Lemma display_classifies (e e' : Error) : context e = context e' -> display_error e = display_error e' <-> kind e = kind e'.
Proof.
  unfold display_error. intros ->. split; [|by intros ->].
  intros H%append_cancel%append_cancel. by apply description_inj.
Qed.

Lemma split_reports (e : Error) : let '(a, b) := Error_split e in
  a = b /\ display_error a = display_error e /\ detail a = detail e /\ error_source a = error_source e.
Proof. destruct e as [k c d [[s|s]|]]; done. Qed.
