(* ===== verification/Syntax.v ===== *)
(** Octet-level syntax shared by head validation and chunk parsing
    (src/src/proto/h1/syntax.rs, the private helpers of decode.rs and the
    framing vocabulary of src/src/proto/h1.rs). *)

From Stdlib Require Import ZArith Lia.
From stdpp Require Import base list option.
From S2P Require Import Prelude.

(** ** Framing vocabulary *)

Inductive BodyMode : Type :=
| BodyNone
| BodyFixed (length : Z)
| BodyChunked
| BodyUntilEof.

Inductive Persistence : Type :=
| Reusable
| Close.

Inductive TargetForm : Type :=
| Origin
| Absolute
| Authority
| Asterisk.

Inductive Expectation : Type :=
| ExpectNone
| ExpectContinue.

Inductive UpgradeKind : Type :=
| Protocol
| Tunnel.

#[export] Instance BodyMode_eq_dec : EqDecision BodyMode.
Proof. solve_decision. Defined.
#[export] Instance Persistence_eq_dec : EqDecision Persistence.
Proof. solve_decision. Defined.
#[export] Instance TargetForm_eq_dec : EqDecision TargetForm.
Proof. solve_decision. Defined.
#[export] Instance Expectation_eq_dec : EqDecision Expectation.
Proof. solve_decision. Defined.
#[export] Instance UpgradeKind_eq_dec : EqDecision UpgradeKind.
Proof. solve_decision. Defined.

(** ** Optional whitespace *)

Definition is_ows (b : byte) : bool := beq b SP || beq b HT.

Fixpoint trim_start (value : bytes) : bytes :=
  match value with
  | b :: rest => if is_ows b then trim_start rest else value
  | [] => []
  end.

(** Drops trailing whitespace; [trim_end_snoc] is the loop's own equation. *)
Fixpoint trim_end (value : bytes) : bytes :=
  match value with
  | [] => []
  | b :: rest =>
      match trim_end rest with
      | [] => if is_ows b then [] else [b]
      | kept => b :: kept
      end
  end.

Definition trim_ows (value : bytes) : bytes := trim_end (trim_start value).

(** ** Tokens *)

Definition is_tchar (b : byte) : bool :=
  is_ascii_alphanumeric b ||
  existsb (beq b) (bs "!#$%&'*+-.^_`|~").

Definition is_token (value : bytes) : bool :=
  negb (bool_decide (value = [])) && forallb is_tchar value.

(** ** Quoted strings *)

Definition quoted_string_forbidden (b : byte) : bool :=
  beq b CR || beq b LF || (bZ b =? 127) || ((bZ b <? 32) && negb (beq b HT)).

Fixpoint quoted_loop (escaped : bool) (index : Z) (input : bytes) : option Z :=
  match input with
  | [] => None
  | b :: rest =>
      if escaped then
        if beq b CR || beq b LF then None
        else quoted_loop false (index + 1) rest
      else if beq b BSLASH then quoted_loop true (index + 1) rest
      else if beq b DQUOTE then Some (index + 1)
      else if quoted_string_forbidden b then None
      else quoted_loop false (index + 1) rest
  end.

Definition quoted_string_len (input : bytes) : option Z :=
  quoted_loop false 1 (zdrop 1 input).

(** * Facts *)

Lemma trim_end_snoc v b :
  trim_end (v ++ [b]) = if is_ows b then trim_end v else v ++ [b].
Proof.
  induction v as [|a v IH]; simpl; [by destruct (is_ows b)|].
  rewrite IH. destruct (is_ows b); [done|]. by destruct (v ++ [b]) eqn:E; [destruct v|].
Qed.

Lemma trim_start_suffix v : exists pre, v = pre ++ trim_start v /\ forallb is_ows pre = true.
Proof.
  induction v as [|b v (pre & IH & Hp)]; [by exists []|]. simpl.
  destruct (is_ows b) eqn:E; [|by exists []].
  exists (b :: pre). simpl. rewrite E, Hp. by rewrite IH at 1.
Qed.

Lemma trim_end_prefix v : exists post, v = trim_end v ++ post /\ forallb is_ows post = true.
Proof.
  induction v as [|b v IH] using rev_ind; [by exists []|].
  rewrite trim_end_snoc. destruct (is_ows b) eqn:E; [|by exists []; rewrite app_nil_r].
  destruct IH as (post & IH & Hp). exists (post ++ [b]).
  rewrite forallb_app, Hp. simpl. rewrite E, app_assoc, <- IH. done.
Qed.

Lemma trim_end_last v b w : trim_end v = w ++ [b] -> is_ows b = false.
Proof.
  induction v as [|a v IH] using rev_ind; [by destruct w|].
  rewrite trim_end_snoc. destruct (is_ows a) eqn:E; [done|].
  intros [_ ?]%app_inj_tail. congruence.
Qed.

Lemma trim_start_head v b w : trim_start v = b :: w -> is_ows b = false.
Proof.
  induction v as [|a v IH]; simpl; [done|].
  destruct (is_ows a) eqn:E; [done|]. congruence.
Qed.

Lemma trim_end_head v b w : trim_end v = b :: w -> exists v', v = b :: v'.
Proof.
  destruct v as [|a v]; simpl; [done|].
  destruct (trim_end v), (is_ows a); intros; simplify_eq; eauto.
Qed.

Lemma trim_ows_length v : zlen (trim_ows v) <= zlen v.
Proof.
  unfold trim_ows.
  destruct (trim_start_suffix v) as (pre & E & _).
  destruct (trim_end_prefix (trim_start v)) as (post & E' & _).
  rewrite E at 2. rewrite E' at 2. zl.
Qed.

Lemma trim_start_id v : (forall b w, v = b :: w -> is_ows b = false) -> trim_start v = v.
Proof. destruct v as [|b v]; simpl; [done|]. intros H. by rewrite (H b v). Qed.

Lemma trim_end_id v : (forall b w, v = w ++ [b] -> is_ows b = false) -> trim_end v = v.
Proof.
  destruct v as [|b v _] using rev_ind; [done|]. intros H.
  by rewrite trim_end_snoc, (H b v).
Qed.

Lemma trim_ows_idemp v : trim_ows (trim_ows v) = trim_ows v.
Proof.
  unfold trim_ows at 1. rewrite (trim_start_id (trim_ows v)).
  - apply trim_end_id. intros b w. apply trim_end_last.
  - intros b w (v' & E)%trim_end_head. by eapply trim_start_head.
Qed.

Lemma is_token_no_ows v : is_token v = true -> trim_ows v = v.
Proof.
  unfold is_token. intros [_ H]%andb_true_iff. rewrite forallb_forall in H.
  assert (Hn : forall b, is_tchar b = true -> is_ows b = false) by (by intros []).
  unfold trim_ows. rewrite trim_start_id, trim_end_id; [done|..].
  - intros b w ->. apply Hn, H, in_app_iff. simpl. auto.
  - intros b w ->. apply Hn, H. by left.
Qed.

Lemma quoted_loop_bound escaped index input n :
  quoted_loop escaped index input = Some n -> index < n <= index + zlen input.
Proof.
  revert escaped index. induction input as [|b input IH]; simpl; [done|].
  intros escaped index H. rewrite zlen_cons.
  repeat case_match; simplify_eq; try (apply IH in H; lia).
  pose proof (zlen_nonneg input). lia.
Qed.

(** The length found covers both quotes and stays inside the input. *)
Lemma quoted_string_len_bound input n :
  quoted_string_len input = Some n -> 1 < n <= zlen input.
Proof.
  unfold quoted_string_len. intros H. pose proof H as H'%quoted_loop_bound.
  destruct input as [|b input]; [done|].
  change (zdrop 1 (b :: input)) with input in H'. rewrite zlen_cons. lia.
Qed.

(** Digits are token characters of a content length, never whitespace. *)
Lemma digits_no_ows v : forallb is_ascii_digit v = true -> trim_ows v = v.
Proof.
  rewrite forallb_forall. intros H.
  assert (Hn : forall b, is_ascii_digit b = true -> is_ows b = false) by (by intros []).
  unfold trim_ows. rewrite trim_start_id, trim_end_id; [done|..].
  - intros b w ->. apply Hn, H, in_app_iff. simpl. auto.
  - intros b w ->. apply Hn, H. by left.
Qed.
