(* ===== verification/Scan.v ===== *)
(** Message heads: owned types (src/src/proto/h1/head.rs), incremental scanning
    and materialization (src/src/proto/h1/head/scan.rs).

    [head_len] finds the end of a head in a growing buffer; [parse_request] and
    [parse_response] turn the complete prefix into an owned head through the
    [httparse] grammar. *)

From Stdlib Require Import ZArith Lia.
From stdpp Require Import base list option.
From S2P Require Import Prelude Http Errors.

(** ** Limits and heads *)

Record HeadLimits := mkHeadLimits {
  max_bytes : Z;
  max_headers : Z;
}.

(** [HeadLimits::new]; [None] is the assertion failure. *)
Definition HeadLimits_new (bytes headers : Z) : option HeadLimits :=
  if (0 <? bytes) && (0 <? headers) then Some (mkHeadLimits bytes headers) else None.

Section Heads.
Context {http : HttpCrate}.

Record RequestHead := mkRequestHead {
  req_method : Method;
  req_target : Uri;
  req_version : Version;
  req_headers : HeaderMap;
  req_header_case : option HeaderMap;
}.

Record ResponseHead := mkResponseHead {
  resp_version : Version;
  resp_status : StatusCode;
  resp_headers : HeaderMap;
  resp_header_case : option HeaderMap;
}.

End Heads.

(** ** The incremental scan *)

Inductive ScanLine : Type :=
| Leading
| Content
| End_
| EndCr.

Inductive HeadScan : Type :=
| Scanning (scanned : Z) (line : ScanLine)
| Complete (length : Z).

Definition HeadScan_default : HeadScan := Scanning 0 Leading.

Definition line_ends_head (line : ScanLine) (b : byte) : bool :=
  match line with
  | End_ | EndCr => beq b LF
  | _ => false
  end.

Definition next_line (line : ScanLine) (b : byte) : ScanLine :=
  match line with
  | Leading => if beq b CR || beq b LF then Leading else Content
  | End_ => if beq b CR then EndCr else if beq b LF then End_ else Content
  | _ => if beq b LF then End_ else Content
  end.

(** The [for] loop over the bytes not yet scanned. *)
Fixpoint scan_loop (scanned : Z) (line : ScanLine) (rest : bytes) : HeadScan * option Z :=
  match rest with
  | [] => (Scanning scanned line, None)
  | b :: rest =>
      if line_ends_head line b then (Complete (scanned + 1), Some (scanned + 1))
      else scan_loop (scanned + 1) (next_line line b) rest
  end.

(** [HeadScan::complete] *)
Definition scan_complete (self : HeadScan) (input : bytes) : HeadScan * option Z :=
  match self with
  | Scanning scanned line =>
      if zlen input <? scanned then scan_loop 0 Leading input
      else scan_loop scanned line (zdrop scanned input)
  | Complete length =>
      if length <=? zlen input then (Complete length, Some length)
      else scan_loop 0 Leading input
  end.

(** ** The parser

    The workspace is its number of slots: no parsed reference outlives a call. *)

Record HeadParser := mkHeadParser {
  limits : HeadLimits;
  workspace : Z;
  scan : HeadScan;
  preserve_header_case : bool;
}.

Definition HeadParser_with_limits (l : HeadLimits) : HeadParser :=
  mkHeadParser l (max_headers l) HeadScan_default false.

Definition with_preserved_header_case (p : HeadParser) (enabled : bool) : HeadParser :=
  mkHeadParser (limits p) (workspace p) (scan p) enabled.

Definition set_scan (p : HeadParser) (s : HeadScan) : HeadParser :=
  mkHeadParser (limits p) (workspace p) s (preserve_header_case p).

Definition parse_input_len (p : HeadParser) (input : bytes) : Z :=
  Z.min (zlen input) (max_bytes (limits p)).

Definition head_len (p : HeadParser) (input : bytes) : HeadParser * result (option Z) HeadError :=
  let '(s, complete) := scan_complete (scan p) (ztake (parse_input_len p input) input) in
  match complete with
  | Some n => (set_scan p s, Ok (Some n))
  | None =>
      if max_bytes (limits p) <? zlen input then
        (set_scan p HeadScan_default, Err (HeadErrorLimit HeadLimitBytes))
      else (set_scan p s, Ok None)
  end.

Definition version (minor : Z) : result Version HeadError :=
  if minor =? 0 then Ok HTTP_10
  else if minor =? 1 then Ok HTTP_11
  else Err UnsupportedVersion.

Definition map_request_error (e : HpError) : HeadError :=
  match e with
  | HpTooManyHeaders => HeadErrorLimit HeadLimitHeaders
  | HpHeaderName | HpHeaderValue => InvalidHeader
  | HpVersion => UnsupportedVersion
  | HpNewLine | HpToken | HpStatus => InvalidStartLine
  end.

Definition map_response_error (e : HpError) : HeadError :=
  match e with
  | HpTooManyHeaders => HeadErrorLimit HeadLimitHeaders
  | HpHeaderName | HpHeaderValue => InvalidHeader
  | HpVersion => UnsupportedVersion
  | HpNewLine | HpStatus | HpToken => InvalidStartLine
  end.

Section Parsing.
Context {http : HttpCrate} {hp : Httparse}.

(** The loop of [own_headers]. *)
Fixpoint own_headers_loop (owned : HeaderMap) (hs : list (bytes * bytes)) : result HeaderMap HeadError :=
  match hs with
  | [] => Ok owned
  | (name, value) :: hs =>
      let? name := ok_or (header_name_from_bytes name) InvalidHeader in
      let? value := ok_or (header_value_from_bytes value) InvalidHeader in
      own_headers_loop (hm_append owned name value) hs
  end.

Definition own_headers (hs : list (bytes * bytes)) : result HeaderMap HeadError :=
  let? owned := ok_or (hm_try_with_capacity (zlen hs)) (HeadErrorLimit HeadLimitHeaderMap) in
  own_headers_loop owned hs.

(** The loop of [shared_headers]: fields, and their spellings when kept. *)
Fixpoint shared_headers_loop (owned : HeaderMap) (original : option HeaderMap)
    (hs : list (bytes * bytes)) : result (HeaderMap * option HeaderMap) HeadError :=
  match hs with
  | [] => Ok (owned, original)
  | (raw, value) :: hs =>
      let? name := ok_or (header_name_from_bytes raw) InvalidHeader in
      let? value := ok_or (header_value_from_bytes value) InvalidHeader in
      let original := option_map (fun o => hm_append o name raw) original in
      shared_headers_loop (hm_append owned name value) original hs
  end.

Definition shared_headers (hs : list (bytes * bytes)) (preserve : bool)
    : result (HeaderMap * option HeaderMap) HeadError :=
  let? owned := ok_or (hm_try_with_capacity (zlen hs)) (HeadErrorLimit HeadLimitHeaderMap) in
  shared_headers_loop owned (if preserve then Some hm_new else None) hs.

Definition build_shared_request_head (r : HpRequest) (preserve : bool) : result RequestHead HeadError :=
  let? raw_method := ok_or (hp_method r) InvalidStartLine in
  let? method := ok_or (method_from_bytes raw_method) InvalidMethod in
  let? raw_target := ok_or (hp_path r) InvalidStartLine in
  let? target := ok_or (uri_from_bytes raw_target) InvalidTarget in
  let? minor := ok_or (hp_req_version r) InvalidStartLine in
  let? v := version minor in
  let? hs := shared_headers (hp_req_headers r) preserve in
  Ok (mkRequestHead method target v (fst hs) (snd hs)).

Definition build_shared_response_head (r : HpResponse) (preserve : bool) : result ResponseHead HeadError :=
  let? minor := ok_or (hp_resp_version r) InvalidStartLine in
  let? v := version minor in
  let? code := ok_or (hp_code r) InvalidStartLine in
  if 599 <? code then Err InvalidStatus
  else
    let? status := ok_or (status_from_u16 code) InvalidStatus in
    let? hs := shared_headers (hp_resp_headers r) preserve in
    Ok (mkResponseHead v status (fst hs) (snd hs)).

(** [HeadParser::<RequestRole>::parse_shared] *)
Definition parse_request (p : HeadParser) (input : bytes) : HeadParser * result RequestHead HeadError :=
  if max_bytes (limits p) <? zlen input then
    (set_scan p HeadScan_default, Err (HeadErrorLimit HeadLimitBytes))
  else
    let parsed :=
      match hp_parse_request input (workspace p) with
      | HpComplete (consumed, request) =>
          if consumed =? zlen input then build_shared_request_head request (preserve_header_case p)
          else Err InvalidStartLine
      | HpPartial => Err InvalidStartLine
      | HpErr e => Err (map_request_error e)
      end in
    (set_scan p HeadScan_default, parsed).

(** [HeadParser::<ResponseRole>::parse_shared] *)
Definition parse_response (p : HeadParser) (input : bytes) : HeadParser * result ResponseHead HeadError :=
  if max_bytes (limits p) <? zlen input then
    (set_scan p HeadScan_default, Err (HeadErrorLimit HeadLimitBytes))
  else
    let parsed :=
      match hp_parse_response input (workspace p) with
      | HpComplete (consumed, response) =>
          if consumed =? zlen input then build_shared_response_head response (preserve_header_case p)
          else Err InvalidStartLine
      | HpPartial => Err InvalidStartLine
      | HpErr e => Err (map_response_error e)
      end in
    (set_scan p HeadScan_default, parsed).

End Parsing.

(** ** How the drivers use it

    Both connection drivers call [head_len] on the retained buffer after every
    read until it answers. [feed] is that loop over the fragments read. *)

Fixpoint feed (p : HeadParser) (buffer : bytes) (frags : list bytes) : result (option Z) HeadError :=
  match frags with
  | [] => Ok None
  | f :: frags =>
      let buffer := buffer ++ f in
      match head_len p buffer with
      | (p, Ok None) => feed p buffer frags
      | (_, answer) => answer
      end
  end.

(** * Reference specification of the end of a head

    A head is a prefix with some byte other than CR and LF that ends in an
    empty line, with or without carriage return. *)

Definition not_line_end (b : byte) : bool := negb (beq b CR || beq b LF).

Definition ends_with (suffix p : bytes) : Prop := exists q, p = q ++ suffix.

Definition is_head (p : bytes) : Prop :=
  existsb not_line_end p = true /\ (ends_with [LF; LF] p \/ ends_with [LF; CR; LF] p).

(** [n] is the length of the shortest head that starts the input. *)
Definition head_end (input : bytes) (n : Z) : Prop :=
  0 <= n <= zlen input /\ is_head (ztake n input) /\
  forall m, 0 <= m < n -> ~ is_head (ztake m input).

(** * Incrementality *)

Lemma scan_loop_app scanned line a b :
  scan_loop scanned line (a ++ b) =
  match scan_loop scanned line a with
  | (Scanning s l, None) => scan_loop s l b
  | r => r
  end.
Proof.
  revert scanned line. induction a as [|x a IH]; intros; simpl; [done|].
  destruct (line_ends_head line x); [done | apply IH].
Qed.

Lemma scan_loop_None scanned line a s :
  scan_loop scanned line a = (s, None) ->
  s = Scanning (scanned + zlen a) (fold_left next_line a line).
Proof.
  revert scanned line. induction a as [|x a IH]; intros scanned line; simpl.
  - intros. simplify_eq. f_equal. rewrite zlen_nil. lia.
  - destruct (line_ends_head line x); [done|]. intros ->%IH. f_equal. zl.
Qed.

Lemma scan_loop_Some scanned line a s n :
  scan_loop scanned line a = (s, Some n) -> s = Complete n /\ scanned < n <= scanned + zlen a.
Proof.
  revert scanned line. induction a as [|x a IH]; intros scanned line; simpl; [done|].
  destruct (line_ends_head line x).
  - intros. simplify_eq. split; [done | zl].
  - intros [-> ?]%IH. split; [done | zl].
Qed.

Lemma scan_default input : scan_complete HeadScan_default input = scan_loop 0 Leading input.
Proof. simpl. bcase; [done|]. by rewrite zdrop_0 by lia. Qed.

(** A scan resumed on a longer buffer continues where it stopped. *)
Lemma scan_resume a b s :
  scan_complete HeadScan_default a = (s, None) ->
  scan_complete s (a ++ b) = scan_complete HeadScan_default (a ++ b).
Proof.
  rewrite !scan_default. intros H. rewrite scan_loop_app, H.
  apply scan_loop_None in H as ->. rewrite Z.add_0_l. simpl. bcase; [zl|].
  by rewrite zdrop_app_zlen.
Qed.

(** A head found in a buffer is the head of every longer buffer. *)
Lemma scan_stable a b s n :
  scan_complete HeadScan_default a = (s, Some n) ->
  scan_complete HeadScan_default (a ++ b) = (s, Some n).
Proof.
  rewrite !scan_default. intros H. rewrite scan_loop_app, H.
  by apply scan_loop_Some in H as [-> _].
Qed.

Definition fresh (p : HeadParser) : HeadParser := set_scan p HeadScan_default.

Lemma parse_input_app p a b :
  exists c, ztake (parse_input_len p (a ++ b)) (a ++ b) = ztake (parse_input_len p a) a ++ c /\
    (max_bytes (limits p) <= zlen a -> c = []).
Proof.
  unfold parse_input_len. rewrite zlen_app.
  destruct (Z.le_gt_cases (max_bytes (limits p)) (zlen a)).
  - exists []. rewrite app_nil_r, ztake_app_le by (zl). zl. split; [f_equal|done].
    pose proof (zlen_nonneg b). lia.
  - exists (ztake (Z.min (zlen a + zlen b) (max_bytes (limits p)) - zlen a) b).
    rewrite ztake_app_ge by (zl). rewrite (ztake_all _ a) by lia. split; [done | lia].
Qed.

Lemma head_len_resume p a b p' :
  head_len (fresh p) a = (p', Ok None) -> head_len p' (a ++ b) = head_len (fresh p) (a ++ b).
Proof.
  unfold head_len at 1. cbn [scan fresh set_scan limits].
  destruct (scan_complete HeadScan_default _) as [s [n|]] eqn:E; [done|].
  bcase; [done|]. intros ?. simplify_eq. unfold head_len.
  destruct (parse_input_app p a b) as (c & Ec & _).
  change (parse_input_len (set_scan (fresh p) s) (a ++ b)) with (parse_input_len p (a ++ b)).
  change (parse_input_len (fresh p) (a ++ b)) with (parse_input_len p (a ++ b)).
  change (parse_input_len (fresh p) a) with (parse_input_len p a) in E.
  rewrite Ec. cbn [scan fresh set_scan]. by rewrite (scan_resume _ c _ E).
Qed.

Lemma head_len_stable p a b p' r :
  head_len (fresh p) a = (p', r) -> r <> Ok None -> snd (head_len (fresh p) (a ++ b)) = r.
Proof.
  unfold head_len. cbn [scan fresh set_scan limits].
  destruct (parse_input_app p a b) as (c & Ec & Hc).
  change (parse_input_len (fresh p) (a ++ b)) with (parse_input_len p (a ++ b)).
  change (parse_input_len (fresh p) a) with (parse_input_len p a).
  rewrite Ec. destruct (scan_complete HeadScan_default (ztake _ a)) as [s [n|]] eqn:E.
  - rewrite (scan_stable _ c _ _ E). intros. by simplify_eq.
  - bcase; intros; simplify_eq. rewrite Hc, app_nil_r, E by lia. bcase; [done | zl].
Qed.

Lemma feed_from p buffer p' frags :
  head_len (fresh p) buffer = (p', Ok None) ->
  feed p' buffer frags = snd (head_len (fresh p) (buffer ++ concat frags)).
Proof.
  revert buffer p'. induction frags as [|f frags IH]; intros buffer p' H; simpl.
  - by rewrite app_nil_r, H.
  - rewrite (head_len_resume _ _ f _ H), app_assoc.
    destruct (head_len (fresh p) (buffer ++ f)) as [p'' r] eqn:E.
    destruct r as [[n|]|e]; [|by apply IH|];
      by rewrite (head_len_stable _ _ (concat frags) _ _ E).
Qed.

Lemma head_len_nil p : 0 <= max_bytes (limits p) -> head_len (fresh p) [] = (fresh p, Ok None).
Proof.
  intros H. unfold head_len, parse_input_len. cbn [scan fresh set_scan limits].
  rewrite zlen_nil, Z.min_l by done. simpl. bcase; [lia|]. done.
Qed.

Lemma head_len_bounds p input p' n :
  head_len (fresh p) input = (p', Ok (Some n)) ->
  0 < n <= zlen input /\ n <= max_bytes (limits p).
Proof.
  unfold head_len. cbn [scan fresh set_scan limits].
  destruct (scan_complete _ _) as [s [m|]] eqn:E; [|by bcase].
  intros. simplify_eq. rewrite scan_default in E. apply scan_loop_Some in E as [_ E].
  unfold parse_input_len in E. cbn [fresh set_scan limits] in E.
  destruct (Z.le_gt_cases 0 (max_bytes (limits p))).
  - rewrite zlen_ztake in E by (zl). zl.
  - rewrite ztake_0 in E by lia. zl.
Qed.

(** * Functional correctness of the scan *)

Notation line_of p := (fold_left next_line p Leading).

Lemma ends_with_snoc s b p c : ends_with (s ++ [b]) (p ++ [c]) <-> b = c /\ ends_with s p.
Proof.
  unfold ends_with. split.
  - intros (q & E). rewrite app_assoc in E. apply app_inj_tail in E as [-> ->]. eauto.
  - intros (-> & q & ->). exists q. by rewrite app_assoc.
Qed.

Lemma existsb_snoc (f : byte -> bool) p b : existsb f (p ++ [b]) = existsb f p || f b.
Proof. rewrite existsb_app. simpl. by rewrite orb_false_r. Qed.

Lemma line_of_spec p :
  (line_of p = Leading <-> existsb not_line_end p = false) /\
  (line_of p = End_ <-> existsb not_line_end p = true /\ ends_with [LF] p) /\
  (line_of p = EndCr <-> existsb not_line_end p = true /\ ends_with [LF; CR] p).
Proof.
  induction p as [|b p IH] using rev_ind.
  - repeat split; try done; naive_solver.
  - rewrite fold_left_app, existsb_snoc. simpl.
    rewrite (ends_with_snoc [] LF), (ends_with_snoc [LF] CR).
    assert (ends_with [] p) as Hn by (exists p; by rewrite app_nil_r).
    destruct IH as (HL & HE & HC). unfold not_line_end at 2 4 6.
    generalize dependent (ends_with [LF] p). generalize dependent (ends_with [LF; CR] p).
    intros P2 HC P1 HE. destruct (existsb not_line_end p), (line_of p); simpl;
      destruct (beqP b CR), (beqP b LF); subst; try discriminate; simpl;
      intuition congruence.
Qed.

Lemma is_head_snoc p b : is_head (p ++ [b]) <-> line_ends_head (line_of p) b = true.
Proof.
  unfold is_head. rewrite existsb_snoc, (ends_with_snoc [LF] LF), (ends_with_snoc [LF; CR] LF).
  destruct (line_of_spec p) as (HL & HE & HC).
  destruct (line_of p); simpl; rewrite ?beq_true;
    destruct (existsb not_line_end p) eqn:Ex; simpl; intuition (subst; try congruence; auto).
Qed.

Lemma is_head_nil : ~ is_head [].
Proof. by intros [? _]. Qed.

Lemma head_end_unique input n m : head_end input n -> head_end input m -> n = m.
Proof.
  intros (Hn & Hh & Hl) (Hm & Hh' & Hl').
  destruct (Z.lt_trichotomy n m) as [?|[?|?]]; [|done|];
    exfalso; [apply (Hl' n) | apply (Hl m)]; done || lia.
Qed.

Lemma scan_loop_head p rest :
  (forall m, 0 <= m <= zlen p -> ~ is_head (ztake m p)) ->
  match snd (scan_loop (zlen p) (line_of p) rest) with
  | Some n => head_end (p ++ rest) n
  | None => forall m, 0 <= m <= zlen (p ++ rest) -> ~ is_head (ztake m (p ++ rest))
  end.
Proof.
  revert p. induction rest as [|b rest IH]; intros p Hp; simpl; [by rewrite app_nil_r|].
  destruct (line_ends_head (line_of p) b) eqn:E; simpl.
  - apply is_head_snoc in E. replace (p ++ b :: rest) with ((p ++ [b]) ++ rest) by by rewrite <- app_assoc.
    replace (zlen p + 1) with (zlen (p ++ [b])) by zl. split; [zl|]. split.
    + by rewrite ztake_app_zlen.
    + intros m Hm. rewrite ztake_app_le by lia. rewrite ztake_app_le by (zl). apply Hp. zl.
  - replace (p ++ b :: rest) with ((p ++ [b]) ++ rest) by by rewrite <- app_assoc.
    replace (zlen p + 1) with (zlen (p ++ [b])) by zl.
    replace (next_line (line_of p) b) with (line_of (p ++ [b])) by by rewrite fold_left_app.
    apply IH. intros m Hm. destruct (decide (m = zlen (p ++ [b]))) as [->|Hne].
    + rewrite ztake_all by lia. rewrite is_head_snoc. congruence.
    + rewrite ztake_app_le by (zl). apply Hp. zl.
Qed.

(** The scan answers with the end of the shortest head, and only with it. *)
Lemma scan_complete_correct input n :
  snd (scan_complete HeadScan_default input) = Some n <-> head_end input n.
Proof.
  rewrite scan_default. pose proof (scan_loop_head [] input) as H.
  change (zlen []) with 0 in H. simpl in H. destruct (snd (scan_loop 0 Leading input)) as [m|].
  - assert (head_end input m) as Hm.
    { apply H. intros k ? Hk. rewrite ztake_0 in Hk by lia. by apply is_head_nil. }
    split; [naive_solver|]. intros Hn. f_equal. by eapply head_end_unique.
  - split; [done|]. intros (Hn & Hh & _). exfalso. eapply H, Hh; [|lia].
    intros k ? Hk. rewrite ztake_0 in Hk by lia. by apply is_head_nil.
Qed.

Lemma head_end_ztake k input n :
  0 <= k -> head_end (ztake k input) n <-> head_end input n /\ n <= k.
Proof.
  intros Hk. unfold head_end. rewrite zlen_ztake by done. split.
  - intros (Hn & Hh & Hl). rewrite ztake_ztake, Z.min_l in Hh by lia.
    split; [|lia]. split; [lia|]. split; [done|]. intros m Hm.
    specialize (Hl m Hm). by rewrite ztake_ztake, Z.min_l in Hl by lia.
  - intros ((Hn & Hh & Hl) & Hnk). rewrite ztake_ztake, (Z.min_l n k) by lia.
    split; [lia|]. split; [done|]. intros m Hm. rewrite ztake_ztake, Z.min_l by lia. auto.
Qed.

Lemma HeadLimits_new_pos b h l :
  HeadLimits_new b h = Some l -> 0 < max_bytes l /\ 0 < max_headers l.
Proof. unfold HeadLimits_new. repeat bcase; simpl; intros; simplify_eq; simpl; lia. Qed.

(** * Properties *)

(** C27: on every input, a fresh parser answers exactly according to the
    reference notion of a head: [Some n] is the end of the shortest head and
    lies within the byte limit; [None] means that no head ends in the input,
    which is within the limit; the byte-limit error is raised exactly when the
    input is longer than the limit and no head ends within it. *)
Theorem head_len_spec b h l input :
  HeadLimits_new b h = Some l ->
  match snd (head_len (HeadParser_with_limits l) input) with
  | Ok (Some n) => head_end input n /\ n <= max_bytes l
  | Ok None => zlen input <= max_bytes l /\ forall n, ~ head_end input n
  | Err e =>
      e = HeadErrorLimit HeadLimitBytes /\ max_bytes l < zlen input /\
      forall n, n <= max_bytes l -> ~ head_end input n
  end.
Proof.
  intros [Hb _]%HeadLimits_new_pos. unfold head_len. cbn [scan HeadParser_with_limits limits].
  set (k := parse_input_len _ _).
  assert (Hk : k = Z.min (zlen input) (max_bytes l)) by done.
  assert (0 <= k) as Hk0 by zl.
  pose proof (scan_complete_correct (ztake k input)) as Hs.
  destruct (scan_complete _ _) as [s [n|]]; simpl in *.
  - destruct (Hs n) as [Hs' _]. apply head_end_ztake in Hs' as [? ?]; [|lia|done].
    split; [done | lia].
  - bcase; simpl.
    + split_and!; [done | done |]. intros n Hn Hh. enough (@None Z = Some n) by done.
      apply Hs, head_end_ztake; [lia|]. split; [done|]. destruct Hh. lia.
    + split; [done|]. intros n Hh. enough (@None Z = Some n) by done.
      apply Hs, head_end_ztake; [lia|]. split; [done|]. destruct Hh. lia.
Qed.

Definition small_limits : HeadLimits := mkHeadLimits 64 8.

Lemma head_len_spec_witness :
  HeadLimits_new 64 8 = Some small_limits /\
  head_end (bs "GET / HTTP/1.1" ++ [CR; LF; CR; LF] ++ bs "body") 18.
Proof.
  split; [reflexivity|].
  exact (proj1 (head_len_spec 64 8 small_limits
    (bs "GET / HTTP/1.1" ++ [CR; LF; CR; LF] ++ bs "body") eq_refl)).
Defined.

(** the answer of the driver's read loop does not depend on how the
    transport fragments the input: feeding any fragmentation, one [head_len]
    call per read on the retained buffer with the parser's saved scan, gives
    the answer of a single call on the concatenation. *)
Theorem head_len_fragmentation b h l frags :
  HeadLimits_new b h = Some l ->
  feed (HeadParser_with_limits l) [] frags =
  snd (head_len (HeadParser_with_limits l) (concat frags)).
Proof.
  intros [Hb _]%HeadLimits_new_pos.
  apply (feed_from (HeadParser_with_limits l) [] (HeadParser_with_limits l)).
  apply (head_len_nil (HeadParser_with_limits l)). simpl. lia.
Qed.

Lemma head_len_fragmentation_witness :
  HeadLimits_new 64 8 = Some small_limits /\
  feed (HeadParser_with_limits small_limits) []
    [bs "GET / HT"; bs "TP/1.1" ++ [CR]; [LF; CR]; [LF] ++ bs "body"] = Ok (Some 18).
Proof.
  split; [reflexivity|].
  rewrite (head_len_fragmentation 64 8 small_limits _ eq_refl). vm_compute. reflexivity.
Defined.
