(* ===== verification/Validate.v ===== *)
(** HTTP field and message semantics (src/src/proto/h1/head/validate.rs and the
    validated heads of src/src/proto/h1/head.rs).

    The closures passed to [for_each_list_member] mutate captured variables;
    they are modelled as handlers that thread those variables. *)

From Stdlib Require Import ZArith Lia.
From stdpp Require Import base list option sets.
From S2P Require Import Prelude Http Errors Syntax Scan.

(** ** Comma-separated lists *)

Section ListMembers.
Context {S : Type} (error : HeadError) (handle : S -> bytes -> result S HeadError).

(** The [for] loop: [input[start..index]] is the member being read. *)
Fixpoint list_member_loop (input : bytes) (start index : Z) (quoted escaped : bool)
    (rest : bytes) (s : S) : result S HeadError :=
  match rest with
  | [] =>
      if quoted || escaped || (start =? zlen input) then Err error
      else handle s (zdrop start input)
  | b :: rest =>
      if escaped then list_member_loop input start (index + 1) quoted false rest s
      else if quoted && beq b BSLASH then list_member_loop input start (index + 1) quoted true rest s
      else if beq b DQUOTE then list_member_loop input start (index + 1) (negb quoted) false rest s
      else if beq b COMMA && negb quoted then
        if index =? start then Err error
        else
          let? s := handle s (zslice start index input) in
          list_member_loop input (index + 1) (index + 1) quoted false rest s
      else list_member_loop input start (index + 1) quoted false rest s
  end.

Definition for_each_list_member (input : bytes) (s : S) : result S HeadError :=
  if bool_decide (input = []) then Err error
  else list_member_loop input 0 0 false false input s.

(** [for value in headers.get_all(..) { for_each_list_member(value, ..)?; }] *)
Fixpoint for_each_value (values : list HeaderValue) (s : S) : result S HeadError :=
  match values with
  | [] => Ok s
  | v :: values =>
      let? s := for_each_list_member v s in
      for_each_value values s
  end.

End ListMembers.

(** ** Content-Length *)

(** [try_fold] with checked multiplication and addition in [u64]. *)
Fixpoint decimal_fold (value : Z) (digits : bytes) : result Z HeadError :=
  match digits with
  | [] => Ok value
  | d :: digits =>
      match checked_mul u64_max value 10 with
      | Some v =>
          match checked_add u64_max v (bZ d - 48) with
          | Some v => decimal_fold v digits
          | None => Err InvalidContentLength
          end
      | None => Err InvalidContentLength
      end
  end.

Definition content_length_member (parsed : option Z) (member : bytes) : result (option Z) HeadError :=
  let member := trim_ows member in
  if bool_decide (member = []) || negb (forallb is_ascii_digit member) then Err InvalidContentLength
  else
    let? value := decimal_fold 0 member in
    match parsed with
    | Some p => if p =? value then Ok (Some value) else Err AmbiguousMessageLength
    | None => Ok (Some value)
    end.

(** ** Transfer-Encoding *)

Inductive TransferFraming : Type :=
| Chunked.

#[export] Instance TransferFraming_eq_dec : EqDecision TransferFraming.
Proof. solve_decision. Defined.

Definition split_coding (member : bytes) : result (bytes * bytes) HeadError :=
  let split := default (zlen member) (position (fun b => beq b SEMI) member) in
  let coding := trim_ows (ztake split member) in
  let parameters := zdrop split member in
  if bool_decide (coding = []) then Err InvalidTransferEncoding
  else Ok (coding, parameters).

(** One turn of the loop: the rest of the input after a parameter. *)
Definition transfer_parameter (input : bytes) : result bytes HeadError :=
  if negb (bool_decide (head input = Some SEMI)) then Err InvalidTransferEncoding
  else
    let input := trim_ows (zdrop 1 input) in
    let name_len := take_while_count is_tchar input in
    if name_len =? 0 then Err InvalidTransferEncoding
    else
      let input := trim_ows (zdrop name_len input) in
      if negb (bool_decide (head input = Some EQUALS)) then Err InvalidTransferEncoding
      else
        let input := trim_ows (zdrop 1 input) in
        let? value_len :=
          if bool_decide (head input = Some DQUOTE) then
            ok_or (quoted_string_len input) InvalidTransferEncoding
          else
            let length := take_while_count is_tchar input in
            if length =? 0 then Err InvalidTransferEncoding else Ok length in
        let input := trim_ows (zdrop value_len input) in
        if negb (bool_decide (input = [])) && negb (bool_decide (head input = Some SEMI)) then
          Err InvalidTransferEncoding
        else Ok input.

(** The [while] loop; every turn shortens the input, so [length input] turns
    are enough ([transfer_parameters_fuel]). *)
Fixpoint transfer_parameters_loop (fuel : nat) (input : bytes) : result unit HeadError :=
  match input, fuel with
  | [], _ => Ok tt
  | _, O => Err InvalidTransferEncoding
  | _, S fuel =>
      let? input := transfer_parameter input in
      transfer_parameters_loop fuel input
  end.

Definition validate_transfer_parameters (input : bytes) : result unit HeadError :=
  transfer_parameters_loop (length input) input.

(** The captured variables [codings], [chunked_at], [unsupported]. *)
Record TransferState := mkTransferState {
  codings : Z;
  chunked_at : option Z;
  unsupported : bool;
}.

Definition transfer_member (st : TransferState) (member : bytes) : result TransferState HeadError :=
  let member := trim_ows member in
  let? split := split_coding member in
  let '(coding, parameters) := split in
  if negb (is_token coding) then Err InvalidTransferEncoding
  else
    validate_transfer_parameters parameters ;;?
    let? n := ok_or (checked_add usize_max (codings st) 1) InvalidTransferEncoding in
    if eq_ignore_ascii_case coding (bs "chunked") then
      if bool_decide (is_Some (chunked_at st)) || negb (bool_decide (parameters = [])) then
        Err InvalidTransferEncoding
      else Ok (mkTransferState n (Some n) (unsupported st))
    else Ok (mkTransferState n (chunked_at st) true).

(** ** Connection, Expect, Upgrade *)

Record ConnectionOptions := mkConnectionOptions {
  opt_close : bool;
  opt_keep_alive : bool;
  opt_upgrade : bool;
}.

Definition connection_member (o : ConnectionOptions) (member : bytes) : result ConnectionOptions HeadError :=
  let token := trim_ows member in
  if negb (is_token token) then Err InvalidConnection
  else if eq_ignore_ascii_case token (bs "close") then
    Ok (mkConnectionOptions true (opt_keep_alive o) (opt_upgrade o))
  else if eq_ignore_ascii_case token (bs "keep-alive") then
    Ok (mkConnectionOptions (opt_close o) true (opt_upgrade o))
  else if eq_ignore_ascii_case token (bs "upgrade") then
    Ok (mkConnectionOptions (opt_close o) (opt_keep_alive o) true)
  else Ok o.

Definition persistence (v : Version) (o : ConnectionOptions) : Persistence :=
  if opt_close o || (bool_decide (v = HTTP_10) && negb (opt_keep_alive o)) then Close
  else Reusable.

Definition expectation_member (count : Z) (member : bytes) : result Z HeadError :=
  let token := trim_ows member in
  if negb (eq_ignore_ascii_case token (bs "100-continue")) then Err InvalidExpectation
  else ok_or (checked_add usize_max count 1) InvalidExpectation.

Definition upgrade_member (protocols : Z) (member : bytes) : result Z HeadError :=
  let member := trim_ows member in
  let parts := split_on SLASH member in
  let protocol := default [] (head parts) in
  let version := parts !! 1%nat in
  if negb (is_token protocol) ||
     match version with Some v => negb (is_token v) | None => false end ||
     bool_decide (is_Some (parts !! 2%nat))
  then Err InvalidUpgrade
  else ok_or (checked_add usize_max protocols 1) InvalidUpgrade.

(** ** UTF-8 ([std::str::from_utf8]) *)

Definition in_range (lo hi : Z) (b : byte) : bool := (lo <=? bZ b) && (bZ b <=? hi).

Fixpoint valid_utf8 (l : bytes) : bool :=
  match l with
  | [] => true
  | b0 :: l0 =>
      if bZ b0 <? 128 then valid_utf8 l0
      else if in_range 194 223 b0 then
        match l0 with
        | b1 :: l1 => in_range 128 191 b1 && valid_utf8 l1
        | _ => false
        end
      else if in_range 224 239 b0 then
        match l0 with
        | b1 :: b2 :: l2 =>
            (if bZ b0 =? 224 then in_range 160 191 b1
             else if bZ b0 =? 237 then in_range 128 159 b1
             else in_range 128 191 b1) &&
            in_range 128 191 b2 && valid_utf8 l2
        | _ => false
        end
      else if in_range 240 244 b0 then
        match l0 with
        | b1 :: b2 :: b3 :: l3 =>
            (if bZ b0 =? 240 then in_range 144 191 b1
             else if bZ b0 =? 244 then in_range 128 143 b1
             else in_range 128 191 b1) &&
            in_range 128 191 b2 && in_range 128 191 b3 && valid_utf8 l3
        | _ => false
        end
      else false
  end.

(** ** Header-level validation *)

Section Validation.
Context {http : HttpCrate}.
Implicit Types (headers : HeaderMap).

Definition parse_content_length headers : result (option Z) HeadError :=
  let values := hm_get_all headers CONTENT_LENGTH in
  let? parsed := for_each_value InvalidContentLength content_length_member values None in
  match values, parsed with
  | _ :: _, None => Err InvalidContentLength
  | _, _ => Ok parsed
  end.

Definition parse_transfer_encoding headers : result (option TransferFraming) HeadError :=
  let? st := for_each_value InvalidTransferEncoding transfer_member
               (hm_get_all headers TRANSFER_ENCODING) (mkTransferState 0 None false) in
  if codings st =? 0 then Ok None
  else if negb (bool_decide (chunked_at st = Some (codings st))) then Err InvalidTransferEncoding
  else if unsupported st then Err UnsupportedTransferCoding
  else Ok (Some Chunked).

Definition connection_options headers : result ConnectionOptions HeadError :=
  for_each_value InvalidConnection connection_member (hm_get_all headers CONNECTION)
    (mkConnectionOptions false false false).

Definition expectation headers (v : Version) (received : bool) : result Expectation HeadError :=
  let? count := for_each_value InvalidExpectation expectation_member (hm_get_all headers EXPECT) 0 in
  if count =? 0 then Ok ExpectNone
  else match v with
       | HTTP_11 => Ok ExpectContinue
       | HTTP_10 => if received then Ok ExpectNone else Err InvalidExpectation
       | _ => Err InvalidExpectation
       end.

Definition validate_upgrade_values headers : result bool HeadError :=
  let? protocols := for_each_value InvalidUpgrade upgrade_member (hm_get_all headers UPGRADE) 0 in
  Ok (negb (protocols =? 0)).

Definition upgrade_intent headers (c : ConnectionOptions) (form : TargetForm)
    : result (option UpgradeKind) HeadError :=
  if bool_decide (form = Authority) then Ok (Some Tunnel)
  else
    let? has_upgrade := validate_upgrade_values headers in
    match opt_upgrade c, opt_close c, has_upgrade with
    | true, false, true => Ok (Some Protocol)
    | false, _, false => Ok None
    | _, _, _ => Err InvalidUpgrade
    end.

Definition validate_protocol_upgrade headers (c : ConnectionOptions) : result unit HeadError :=
  if opt_upgrade c && negb (opt_close c) then
    let? has_upgrade := validate_upgrade_values headers in
    if has_upgrade then Ok tt else Err InvalidUpgrade
  else Err InvalidUpgrade.

Definition validate_host headers (v : Version) : result unit HeadError :=
  match hm_get_all headers HOST with
  | [] => if bool_decide (v = HTTP_11) then Err MissingHost else Ok tt
  | _ :: _ :: _ => Err InvalidHost
  | [first] =>
      let host := trim_ows first in
      if bool_decide (host = []) || existsb (beq COMMA) host || existsb (beq AT) host then Err InvalidHost
      else if negb (valid_utf8 host) then Err InvalidHost
      else if authority_parses host then Ok tt else Err InvalidHost
  end.

Definition normalize_absolute_host headers (target : Uri) : result HeaderMap HeadError :=
  let? authority := ok_or (uri_authority target) InvalidTargetForm in
  if existsb (beq AT) authority then Err InvalidTarget
  else
    let? value := ok_or (header_value_from_str authority) InvalidHost in
    Ok (hm_insert headers HOST value).

Definition target_form (target : Uri) : result TargetForm HeadError :=
  let scheme := uri_has_scheme target in
  let authority := bool_decide (is_Some (uri_authority target)) in
  if bool_decide (uri_path target = bs "*") && negb scheme && negb authority then Ok Asterisk
  else if scheme && authority then Ok Absolute
  else if negb scheme && authority && negb (uri_has_path_and_query target) then Ok Authority
  else if negb scheme && negb authority && bool_decide (head (uri_path target) = Some SLASH) then Ok Origin
  else Err InvalidTargetForm.

Definition validate_request_target (method : Method) (target : Uri) : result TargetForm HeadError :=
  let? form := target_form target in
  if bytes_eqb method CONNECT then
    if bool_decide (form = Authority) && uri_has_port target then Ok form else Err InvalidTargetForm
  else if bytes_eqb method OPTIONS && bool_decide (form = Asterisk) then Ok form
  else match form with
       | Asterisk | Authority => Err InvalidTargetForm
       | _ => Ok form
       end.

Record ValidatedRequestHead := mkValidatedRequestHead {
  vreq_head : RequestHead;
  vreq_body : BodyMode;
  vreq_persistence : Persistence;
  vreq_target_form : TargetForm;
  vreq_expectation : Expectation;
  vreq_upgrade : option UpgradeKind;
}.

Record ValidatedResponseHead := mkValidatedResponseHead {
  vresp_upgrade : option UpgradeKind;
  vresp_head : ResponseHead;
  vresp_body : BodyMode;
  vresp_persistence : Persistence;
}.

Definition set_req_headers (h : RequestHead) (headers : HeaderMap) : RequestHead :=
  mkRequestHead (req_method h) (req_target h) (req_version h) headers (req_header_case h).

(** The two framing fields, with the conflict and version checks both kinds of
    message make; [no_framing] is the mode without either field. *)
Definition message_framing headers (v : Version) (no_framing : BodyMode) : result BodyMode HeadError :=
  let? content_length := parse_content_length headers in
  let? transfer_encoding := parse_transfer_encoding headers in
  match transfer_encoding, content_length with
  | Some Chunked, Some _ => Err AmbiguousMessageLength
  | Some Chunked, None =>
      if bool_decide (v = HTTP_11) then Ok BodyChunked else Err InvalidTransferEncoding
  | None, Some length => Ok (BodyFixed length)
  | None, None => Ok no_framing
  end.

(** [RequestHead::validate_for] *)
Definition validate_for (h : RequestHead) (received : bool) : result ValidatedRequestHead HeadError :=
  let? form := validate_request_target (req_method h) (req_target h) in
  validate_host (req_headers h) (req_version h) ;;?
  let? headers :=
    if bool_decide (form = Absolute) then normalize_absolute_host (req_headers h) (req_target h)
    else Ok (req_headers h) in
  let? body := message_framing headers (req_version h) BodyNone in
  let? connection := connection_options headers in
  let persist := persistence (req_version h) connection in
  let? expect := expectation headers (req_version h) received in
  let? upgrade :=
    if received && bool_decide (req_version h = HTTP_10) && negb (bool_decide (form = Authority)) then Ok None
    else upgrade_intent headers connection form in
  if bool_decide (upgrade = Some Protocol) && negb (bool_decide (req_version h = HTTP_11)) then
    Err InvalidUpgrade
  else Ok (mkValidatedRequestHead (set_req_headers h headers) body persist form expect upgrade).

Definition validate (h : RequestHead) : result ValidatedRequestHead HeadError := validate_for h false.
Definition validate_received (h : RequestHead) : result ValidatedRequestHead HeadError := validate_for h true.

(** Statuses and methods whose response carries no body. *)
Definition response_has_no_body (upgrade : option UpgradeKind) (method : Method) (status : StatusCode) : bool :=
  bool_decide (is_Some upgrade) || bytes_eqb method HEAD || status_is_informational status ||
  (status =? 204) || (status =? 205) || (status =? 304).

(** [ResponseHead::validate] *)
Definition validate_response (h : ResponseHead) (method : Method) : result ValidatedResponseHead HeadError :=
  if 599 <? resp_status h then Err InvalidStatus
  else
    let? connection := connection_options (resp_headers h) in
    let persist := persistence (resp_version h) connection in
    let? upgrade :=
      if resp_status h =? 101 then
        if negb (bool_decide (resp_version h = HTTP_11)) then Err InvalidUpgrade
        else
          validate_protocol_upgrade (resp_headers h) connection ;;?
          Ok (Some Protocol)
      else if bytes_eqb method CONNECT && status_is_success (resp_status h) then Ok (Some Tunnel)
      else Ok None in
    let? body :=
      if response_has_no_body upgrade method (resp_status h) then Ok BodyNone
      else message_framing (resp_headers h) (resp_version h) BodyUntilEof in
    let persist := if bool_decide (body = BodyUntilEof) then Close else persist in
    Ok (mkValidatedResponseHead upgrade h body persist).

End Validation.

(** * Lists of members

    Without quotes the loop is a fold over the pieces between the commas. *)

Section FoldMembers.
Context {S : Type} (error : HeadError) (handle : S -> bytes -> result S HeadError).

Fixpoint fold_members (members : list bytes) (s : S) : result S HeadError :=
  match members with
  | [] => Ok s
  | m :: members =>
      if bool_decide (m = []) then Err error
      else let? s := handle s m in fold_members members s
  end.

Lemma fold_members_app ms ns s :
  fold_members (ms ++ ns) s = let? s := fold_members ms s in fold_members ns s.
Proof.
  revert s. induction ms as [|m ms IH]; intros s; simpl; [done|].
  case_bool_decide; [done|]. destruct (handle s m); simpl; [apply IH | done].
Qed.

(** Prefixes the first piece of a split. *)
Definition prefix_first (cur : bytes) (pieces : list bytes) : list bytes :=
  match pieces with
  | [] => [cur]
  | p :: ps => (cur ++ p) :: ps
  end.

Lemma list_member_loop_split pre cur rest s :
  DQUOTE ∉ rest ->
  list_member_loop error handle (pre ++ cur ++ rest) (zlen pre) (zlen pre + zlen cur) false false rest s =
  fold_members (prefix_first cur (split_on COMMA rest)) s.
Proof.
  revert pre cur s. induction rest as [|b rest IH]; intros pre cur s Hq; simpl.
  - rewrite !app_nil_r. rewrite zdrop_app_zlen, zlen_app.
    bcase; case_bool_decide as Hn; subst; zl; try done.
    + exfalso. apply Hn, zlen_0_nil. lia.
    + by destruct (handle s cur).
  - apply not_elem_of_cons in Hq as [Hb Hq].
    destruct (beqP b DQUOTE) as [->|_]; [done|].
    destruct (beqP b COMMA) as [->|Hc]; simpl.
    + rewrite app_nil_r. bcase; case_bool_decide as Hn; subst; zl; try done.
      { exfalso. apply Hn, zlen_0_nil. lia. }
      replace (zslice (zlen pre) (zlen pre + zlen cur) (pre ++ cur ++ COMMA :: rest)) with cur.
      2:{ unfold zslice. rewrite zdrop_app_zlen.
          replace (zlen pre + zlen cur - zlen pre) with (zlen cur) by lia.
          by rewrite ztake_app_zlen. }
      destruct (handle s cur) as [s'|e]; simpl; [|done].
      specialize (IH (pre ++ cur ++ [COMMA]) [] s' Hq).
      rewrite !zlen_app, zlen_nil, <- !app_assoc in IH. simpl in IH.
      change (zlen [COMMA]) with 1 in IH.
      rewrite (Z.add_0_r (zlen pre + _)), Z.add_assoc in IH. rewrite IH.
      pose proof (split_on_nonempty COMMA rest). by destruct (split_on COMMA rest).
    + specialize (IH pre (cur ++ [b]) s Hq). rewrite <- app_assoc, zlen_app in IH.
      simpl in IH. change (zlen [b]) with 1 in IH.
      rewrite Z.add_assoc in IH. rewrite IH.
      destruct (split_on COMMA rest); simpl; [done|]. by rewrite <- app_assoc.
Qed.

Lemma for_each_list_member_split input s :
  DQUOTE ∉ input ->
  for_each_list_member error handle input s = fold_members (split_on COMMA input) s.
Proof.
  intros Hq. unfold for_each_list_member. case_bool_decide as E; [by subst|].
  pose proof (list_member_loop_split [] [] input s Hq) as H. simpl in H.
  change (zlen [] + zlen []) with 0 in H. change (zlen []) with 0 in H. rewrite H.
  pose proof (split_on_nonempty COMMA input). by destruct (split_on COMMA input).
Qed.

Lemma for_each_value_split values s :
  Forall (fun v => DQUOTE ∉ v) values ->
  for_each_value error handle values s = fold_members (concat (map (split_on COMMA) values)) s.
Proof.
  intros H. revert s. induction H as [|v values Hv _ IH]; intros s; simpl; [done|].
  rewrite for_each_list_member_split, fold_members_app by done.
  destruct (fold_members _ s); simpl; [apply IH | done].
Qed.

(** A handler that refuses quoted members refuses every value with a quote. *)
Lemma list_member_loop_quote pre cur rest q e s s' :
  (forall s m, DQUOTE ∈ m -> is_ok (handle s m) = false) ->
  list_member_loop error handle (pre ++ cur ++ rest) (zlen pre) (zlen pre + zlen cur) q e rest s = Ok s' ->
  (q = true \/ e = true -> DQUOTE ∈ cur) ->
  DQUOTE ∉ cur ++ rest.
Proof.
  intros Hh. revert pre cur q e s. induction rest as [|b rest IH]; intros pre cur q e s; simpl.
  - rewrite !app_nil_r, zdrop_app_zlen. case_match; [done|]. intros Hs Hq Hin.
    specialize (Hh s cur Hin). by rewrite Hs in Hh.
  - assert (Hstep : forall q e, (q = true \/ e = true -> DQUOTE ∈ cur ++ [b]) ->
      list_member_loop error handle (pre ++ cur ++ b :: rest) (zlen pre) (zlen pre + zlen cur + 1) q e rest s = Ok s' ->
      DQUOTE ∉ cur ++ b :: rest).
    { intros q' e' Hq' Hl. specialize (IH pre (cur ++ [b]) q' e' s).
      rewrite <- !app_assoc, zlen_app in IH. simpl in IH. change (zlen [b]) with 1 in IH.
      rewrite Z.add_assoc in IH. by apply IH. }
    assert (Hmono : forall q e, (q = true \/ e = true -> DQUOTE ∈ cur) -> q = true \/ e = true -> DQUOTE ∈ cur ++ [b]).
    { intros q' e' Hc Ho. apply elem_of_app. naive_solver. }
    intros Hl Hq. destruct e.
    { apply (Hstep q false); [|done]. intros _. apply elem_of_app. naive_solver. }
    destruct q, (beqP b BSLASH); simpl in Hl; try (apply (Hstep true true); [|done]; eauto; fail);
    (destruct (beqP b DQUOTE) as [->|]; [eapply (Hstep _ false); [|exact Hl]; set_solver|]);
    destruct (beqP b COMMA) as [->|]; simpl in Hl; try (eapply (Hstep _ false); [|exact Hl]; by eauto).
    all: bcase; [done|]; rinv; rename Hl0 into Hm.
    all: replace (zslice (zlen pre) (zlen pre + zlen cur) (pre ++ cur ++ COMMA :: rest)) with cur in Hm
      by (unfold zslice; rewrite zdrop_app_zlen;
          replace (zlen pre + zlen cur - zlen pre) with (zlen cur) by lia;
          by rewrite ztake_app_zlen).
    all: specialize (IH (pre ++ cur ++ [COMMA]) [] false false a);
      rewrite !zlen_app, zlen_nil, <- !app_assoc in IH; simpl in IH; change (zlen [COMMA]) with 1 in IH;
      rewrite (Z.add_0_r (zlen pre + _)), Z.add_assoc in IH; specialize (IH Hl).
    all: assert (DQUOTE ∉ cur) by (intros Hin; specialize (Hh s cur Hin); by rewrite Hm in Hh).
    all: set_solver.
Qed.

Lemma for_each_list_member_quote input s s' :
  (forall s m, DQUOTE ∈ m -> is_ok (handle s m) = false) ->
  for_each_list_member error handle input s = Ok s' -> DQUOTE ∉ input.
Proof.
  intros Hh. unfold for_each_list_member. case_bool_decide; [done|]. intros Hl.
  by apply (list_member_loop_quote [] [] input false false s s' Hh Hl); intros [].
Qed.

Lemma for_each_value_quote values s s' :
  (forall s m, DQUOTE ∈ m -> is_ok (handle s m) = false) ->
  for_each_value error handle values s = Ok s' -> Forall (fun v => DQUOTE ∉ v) values.
Proof.
  intros Hh. revert s. induction values as [|v values IH]; intros s H; simpl in *; [done|].
  rinv. constructor; eauto using for_each_list_member_quote.
Qed.

(** A handler that counts its calls: a value is at least one call, and one call
    sees the whole value. *)
Lemma list_member_loop_count (count : S -> Z) input start index q e rest s s' :
  (forall s m s', handle s m = Ok s' -> count s' = count s + 1) ->
  list_member_loop error handle input start index q e rest s = Ok s' ->
  count s < count s' /\ (count s' = count s + 1 -> handle s (zdrop start input) = Ok s').
Proof.
  intros Hc. revert start index q e s.
  induction rest as [|b rest IH]; intros start index q e s; simpl.
  - case_match; [done|]. intros H'. pose proof (Hc _ _ _ H'). split; [lia | done].
  - repeat case_match; try done; eauto.
    intros Hl. rinv. apply IH in Hl as [Hlt _]. apply Hc in Hl0. split; lia.
Qed.

Lemma for_each_list_member_count (count : S -> Z) input s s' :
  (forall s m s', handle s m = Ok s' -> count s' = count s + 1) ->
  for_each_list_member error handle input s = Ok s' ->
  count s < count s' /\ (count s' = count s + 1 -> handle s input = Ok s').
Proof.
  intros Hc. unfold for_each_list_member. case_bool_decide; [done|].
  intros Hl%(list_member_loop_count count); done.
Qed.

Lemma for_each_value_count (count : S -> Z) values s s' :
  (forall s m s', handle s m = Ok s' -> count s' = count s + 1) ->
  for_each_value error handle values s = Ok s' ->
  count s <= count s' /\ (count s' = count s -> values = []) /\
  (count s' = count s + 1 -> exists v, values = [v] /\ handle s v = Ok s').
Proof.
  intros Hc. revert s. induction values as [|v values IH]; intros s H; simpl in *.
  - rinv. split_and!; [lia | done | lia].
  - rinv. rename H0 into Hv. apply (for_each_list_member_count count) in Hv as [Hlt Hone]; [|done].
    pose proof H as (Hle & Hnil & _)%IH. split_and!; try lia.
    intros E. assert (values = []) as -> by (apply Hnil; lia).
    simpl in H. rinv. exists v. split; [done | apply Hone; lia].
Qed.

(** An invariant of the handler is an invariant of the loops. *)
Lemma list_member_loop_inv (I : S -> Prop) input start index q e rest s s' :
  (forall s m s', handle s m = Ok s' -> I s -> I s') ->
  list_member_loop error handle input start index q e rest s = Ok s' -> I s -> I s'.
Proof.
  intros Hi. revert start index q e s.
  induction rest as [|b rest IH]; intros start index q e s; simpl.
  - case_match; [done | apply Hi].
  - repeat case_match; try done; eauto. intros Hl. rinv. eauto.
Qed.

Lemma for_each_value_inv (I : S -> Prop) values s s' :
  (forall s m s', handle s m = Ok s' -> I s -> I s') ->
  for_each_value error handle values s = Ok s' -> I s -> I s'.
Proof.
  intros Hi. revert s. induction values as [|v values IH]; intros s H; simpl in *; [by rinv|].
  rinv. rename H0 into Hv. intros Hs. eapply IH; [done|]. revert Hv Hs.
  unfold for_each_list_member. case_bool_decide; [done|]. by apply list_member_loop_inv.
Qed.

End FoldMembers.

(** * Content-Length *)

Lemma decimal_value_fold_nonneg a ds :
  0 <= a -> forallb is_ascii_digit ds = true ->
  a <= fold_left (fun acc d => acc * 10 + (bZ d - 48)) ds a.
Proof.
  revert a. induction ds as [|d ds IH]; intros a Ha Hd; simpl in *; [lia|].
  apply andb_true_iff in Hd as [Hd Hds]. unfold is_ascii_digit in Hd. 
  etransitivity; [|apply IH; [|done]]; lia.
Qed.

Lemma decimal_fold_spec a ds n :
  0 <= a <= u64_max -> forallb is_ascii_digit ds = true ->
  decimal_fold a ds = Ok n <->
  fold_left (fun acc d => acc * 10 + (bZ d - 48)) ds a = n /\ n <= u64_max.
Proof.
  revert a. induction ds as [|d ds IH]; intros a Ha Hd; simpl in *; [naive_solver lia|].
  apply andb_true_iff in Hd as [Hd Hds]. pose proof Hd as Hd'. unfold is_ascii_digit in Hd'.
  pose proof (decimal_value_fold_nonneg (a * 10 + (bZ d - 48)) ds ltac:(lia) Hds).
  unfold checked_mul, checked_add. repeat bcase; try (apply IH; [lia | done]); split; (done || lia).
Qed.

(** One member of a Content-Length list states the length [n]. *)
Definition states_length (n : Z) (member : bytes) : Prop :=
  trim_ows member <> [] /\ forallb is_ascii_digit (trim_ows member) = true /\
  decimal_value (trim_ows member) = n.

Lemma content_length_member_spec parsed m r :
  content_length_member parsed m = Ok r <->
  exists n, r = Some n /\ states_length n m /\ n <= u64_max /\
            match parsed with Some p => p = n | None => True end.
Proof.
  unfold content_length_member, states_length.
  case_bool_decide as E; simpl; [split; [done | naive_solver]|].
  destruct (forallb is_ascii_digit _) eqn:Hd; simpl; [|split; [done | naive_solver]].
  pose proof (fun n => decimal_fold_spec 0 (trim_ows m) n ltac:(done) Hd) as Hs.
  split.
  - intros H. rinv. apply Hs in H0 as [Hv Hb]. destruct parsed; [bcase|]; rinv; simplify_eq; eauto 10.
  - intros (n & -> & (_ & _ & Hv) & Hb & Hp).
    assert (decimal_fold 0 (trim_ows m) = Ok n) as -> by (by apply Hs). simpl.
    destruct parsed; [|done]. subst. by rewrite Z.eqb_refl.
Qed.

Lemma elem_of_trim b m : b ∈ m -> is_ows b = false -> b ∈ trim_ows m.
Proof.
  intros Hb Ho. unfold trim_ows.
  destruct (trim_start_suffix m) as (pre & E & Hp).
  destruct (trim_end_prefix (trim_start m)) as (post & E' & Hq).
  rewrite E, E' in Hb. rewrite forallb_forall in Hp, Hq.
  repeat setoid_rewrite <- list_elem_of_In in Hp. repeat setoid_rewrite <- list_elem_of_In in Hq.
  apply elem_of_app in Hb as [Hb|[Hb|Hb]%elem_of_app]; [|done|];
    [apply Hp in Hb | apply Hq in Hb]; congruence.
Qed.

Lemma content_length_member_quote parsed m :
  DQUOTE ∈ m -> is_ok (content_length_member parsed m) = false.
Proof.
  intros Hin. destruct (content_length_member parsed m) eqn:E; [|done].
  apply content_length_member_spec in E as (n & _ & (_ & Hd & _) & _).
  apply elem_of_trim in Hin; [|done]. rewrite forallb_forall in Hd.
  apply list_elem_of_In, Hd in Hin. done.
Qed.

Lemma content_length_fold ms parsed r :
  fold_members InvalidContentLength content_length_member ms parsed = Ok r <->
  (ms = [] /\ r = parsed) \/
  (ms <> [] /\ exists n, r = Some n /\ n <= u64_max /\ Forall (states_length n) ms /\
   match parsed with Some p => p = n | None => True end).
Proof.
  revert parsed. induction ms as [|m ms IH]; intros parsed; simpl; [naive_solver|].
  assert (Hne : forall n, states_length n m -> m <> []) by (by intros n (Hn & _) ->).
  case_bool_decide as E.
  { split; [done|]. intros [[? _]|(_ & n & _ & _ & Hf & _)]; [done|].
    inversion Hf. naive_solver. }
  split.
  - intros H. rinv. apply content_length_member_spec in H0 as (n & -> & Hn & Hb & Hp).
    apply IH in H as [[-> ->]|(_ & n' & -> & _ & Hf & <-)]; right; naive_solver.
  - intros [[? _]|(_ & n & -> & Hb & Hf & Hp)]; [done|].
    inversion Hf as [|? ? Hm Hf']; subst.
    assert (content_length_member parsed m = Ok (Some n)) as ->
      by (apply content_length_member_spec; naive_solver).
    simpl. apply IH. destruct ms; [by left | right]. naive_solver.
Qed.

Lemma concat_split_nonempty values :
  concat (map (split_on COMMA) values) = [] <-> values = [].
Proof.
  destruct values as [|v values]; [done|]. simpl. split; [|done].
  intros [E _]%app_eq_nil. by apply split_on_nonempty in E.
Qed.

Lemma split_on_cover sep l b : b ∈ l -> b <> sep -> exists p, p ∈ split_on sep l /\ b ∈ p.
Proof.
  induction l as [|a l IH]; simpl; [by intros ?%elem_of_nil|]. intros Hb Hs.
  destruct (beqP a sep) as [->|].
  - apply elem_of_cons in Hb as [->|Hb]; [done|].
    destruct IH as (p & ? & ?); [done..|]. exists p. split; [by right | done].
  - pose proof (split_on_nonempty sep l). destruct (split_on sep l) as [|q qs]; [done|].
    apply elem_of_cons in Hb as [->|Hb]; [exists (a :: q); split; by left|].
    destruct IH as (p & [->|Hp]%elem_of_cons & ?); [done..| |].
    + exists (a :: q). split; [by left | by right].
    + exists p. split; [by right | done].
Qed.

Lemma states_length_no_quote n m : states_length n m -> DQUOTE ∉ m.
Proof.
  intros (_ & Hd & _) Hin. apply elem_of_trim in Hin; [|done].
  rewrite forallb_forall in Hd. by apply list_elem_of_In, Hd in Hin.
Qed.

Section HeaderTheorems.
Context {http : HttpCrate}.
Implicit Types (headers : HeaderMap).

(** Every Content-Length value, and every member of its list, states [n]. *)
Definition content_length_is headers (n : Z) : Prop :=
  hm_get_all headers CONTENT_LENGTH <> [] /\ n <= u64_max /\
  Forall (fun v => Forall (states_length n) (split_on COMMA v)) (hm_get_all headers CONTENT_LENGTH).

Lemma Forall_concat_map (P : bytes -> Prop) (f : bytes -> list bytes) l :
  Forall P (concat (map f l)) <-> Forall (fun v => Forall P (f v)) l.
Proof. induction l as [|v l IH]; simpl; [done|]. by rewrite Forall_app, Forall_cons, IH. Qed.

Lemma content_length_values_no_quote headers n :
  content_length_is headers n -> Forall (fun v => DQUOTE ∉ v) (hm_get_all headers CONTENT_LENGTH).
Proof.
  intros (_ & _ & H). eapply Forall_impl; [done|]. simpl. intros v Hv Hin.
  apply (split_on_cover COMMA) in Hin as (p & Hp & Hin); [|done].
  rewrite Forall_forall in Hv. by eapply states_length_no_quote, Hin; apply Hv.
Qed.

Lemma parse_content_length_Some headers n :
  parse_content_length headers = Ok (Some n) <-> content_length_is headers n.
Proof.
  unfold parse_content_length. split.
  - intros H. rinv. pose proof H0 as Hq%for_each_value_quote; [|apply content_length_member_quote].
    rewrite for_each_value_split in H0 by done.
    apply content_length_fold in H0 as [[E ->]|(E & m & -> & Hb & Hf & _)].
    + rewrite concat_split_nonempty in E. rewrite E in H. done.
    + rewrite concat_split_nonempty in E. apply Forall_concat_map in Hf.
      destruct (hm_get_all headers CONTENT_LENGTH) eqn:Ev; [done|]. rinv. simplify_eq.
      unfold content_length_is. by rewrite Ev.
  - intros Hc. pose proof (content_length_values_no_quote _ _ Hc) as Hq.
    destruct Hc as (E & Hb & Hf). rewrite for_each_value_split by done.
    assert (fold_members InvalidContentLength content_length_member
      (concat (map (split_on COMMA) (hm_get_all headers CONTENT_LENGTH))) None = Ok (Some n)) as ->.
    { apply content_length_fold. right. split; [by rewrite concat_split_nonempty|].
      exists n. split_and!; [done..| | done]. by apply Forall_concat_map. }
    simpl. by destruct (hm_get_all headers CONTENT_LENGTH).
Qed.

Lemma parse_content_length_None headers :
  parse_content_length headers = Ok None <-> hm_get_all headers CONTENT_LENGTH = [].
Proof.
  unfold parse_content_length. destruct (hm_get_all headers CONTENT_LENGTH) eqn:E; [done|].
  split; [|done]. intros H. rinv. destruct a; simplify_eq.
Qed.


(** ** Transfer-Encoding *)

Lemma transfer_member_ok st m st' :
  transfer_member st m = Ok st' ->
  exists coding parameters,
    split_coding (trim_ows m) = Ok (coding, parameters) /\ codings st' = codings st + 1 /\
    if eq_ignore_ascii_case coding (bs "chunked")
    then chunked_at st = None /\ parameters = [] /\
         chunked_at st' = Some (codings st') /\ unsupported st' = unsupported st
    else unsupported st' = true.
Proof.
  unfold transfer_member. intros H. apply rbind_ok in H as ([coding parameters] & Hs & H).
  destruct (is_token coding); simpl in H; [|done].
  apply rbind_ok in H as (_ & _ & H). apply rbind_ok in H as (n & Hn & H).
  apply ok_or_ok, checked_add_Some in Hn as [-> _].
  exists coding, parameters. split; [done|].
  destruct (eq_ignore_ascii_case coding _); [|by rinv].
  destruct (chunked_at st) eqn:Ec; simpl in H; [done|].
  case_bool_decide; simpl in H; [|done]. by rinv.
Qed.

Lemma transfer_member_count st m st' :
  transfer_member st m = Ok st' -> codings st' = codings st + 1.
Proof. by intros (? & ? & _ & ? & _)%transfer_member_ok. Qed.

(** As long as nothing unsupported was seen, at most one coding was, and it was
    [chunked]. *)
Definition transfer_inv (st : TransferState) : Prop :=
  unsupported st = false ->
  (codings st = 0 /\ chunked_at st = None) \/ (codings st = 1 /\ is_Some (chunked_at st)).

Lemma transfer_member_inv st m st' :
  transfer_member st m = Ok st' -> transfer_inv st -> transfer_inv st'.
Proof.
  intros (coding & ps & _ & Hn & H)%transfer_member_ok Hi Hu.
  destruct (eq_ignore_ascii_case coding _); [|congruence].
  destruct H as (Hc & _ & Hc' & E). rewrite E in Hu.
  destruct (Hi Hu) as [[H0 _]|[_ Hs]]; [|rewrite Hc in Hs; by destruct Hs].
  right. rewrite Hc', Hn, H0. eauto.
Qed.

(** The value of a lone [chunked] coding, in any letter case. *)
Definition is_chunked_value (v : bytes) : Prop :=
  eq_ignore_ascii_case (trim_ows v) (bs "chunked") = true.

Lemma transfer_member_chunked st v st' :
  transfer_member st v = Ok st' -> unsupported st' = false -> is_chunked_value v.
Proof.
  intros (coding & ps & Hs & _ & H)%transfer_member_ok Hu. unfold split_coding in Hs.
  destruct (eq_ignore_ascii_case coding _) eqn:Ec; [|congruence]. destruct H as (_ & -> & _).
  case_bool_decide; [done|]. injection Hs as E1 E. unfold is_chunked_value.
  destruct (position _ (trim_ows v)) as [i|] eqn:Ep; simpl in *.
  - apply position_Some in Ep as (l1 & x & l2 & El & <- & _). rewrite El in E. by rewrite zdrop_app_zlen in E.
  - rewrite <- E1 in Ec. by rewrite ztake_all, trim_ows_idemp in Ec by lia.
Qed.

Lemma eq_ignore_case_token x y :
  eq_ignore_ascii_case x y = true -> is_token (map to_ascii_lowercase y) = true -> is_token x = true.
Proof.
  unfold eq_ignore_ascii_case. rewrite bytes_eqb_true. intros <-. unfold is_token.
  rewrite !andb_true_iff, !negb_true_iff, !bool_decide_eq_false, !forallb_forall.
  intros [Hn Hx]. split; [by intros ->|]. intros b Hb.
  apply (in_map to_ascii_lowercase), Hx in Hb. revert Hb. by destruct b.
Qed.

Lemma is_token_not_in x b : is_token x = true -> is_tchar b = false -> b ∉ x.
Proof.
  unfold is_token. intros [_ H]%andb_true_iff Hb Hin. rewrite forallb_forall in H.
  apply list_elem_of_In, H in Hin. congruence.
Qed.

Lemma chunked_value_member v :
  is_chunked_value v ->
  for_each_list_member InvalidTransferEncoding transfer_member v (mkTransferState 0 None false) =
  Ok (mkTransferState 1 (Some 1) false).
Proof.
  intros Hc. pose proof (eq_ignore_case_token _ _ Hc eq_refl) as Ht.
  assert (Hno : forall b, is_tchar b = false -> is_ows b = false -> b ∉ v).
  { intros b Hb Ho Hin. apply elem_of_trim in Hin; [|done]. by eapply is_token_not_in. }
  rewrite for_each_list_member_split, split_on_none by auto. simpl.
  case_bool_decide; [by subst|].
  assert (Hs : split_coding (trim_ows v) = Ok (trim_ows v, [])).
  { unfold split_coding. replace (position _ (trim_ows v)) with (@None Z); simpl.
    - rewrite ztake_all, zdrop_all, trim_ows_idemp by lia. case_bool_decide as E; [|done].
      by rewrite E in Ht.
    - symmetry. apply position_None, Forall_forall. intros b Hb. apply beq_false. intros ->.
      by apply (is_token_not_in _ SEMI Ht). }
  unfold transfer_member. rewrite Hs. simpl. rewrite Ht. simpl. by rewrite Hc.
Qed.

Lemma parse_transfer_encoding_chunked headers :
  parse_transfer_encoding headers = Ok (Some Chunked) <->
  exists v, hm_get_all headers TRANSFER_ENCODING = [v] /\ is_chunked_value v.
Proof.
  unfold parse_transfer_encoding. split.
  - intros H. rinv. rename H0 into Hl. destruct (Z.eqb_spec (codings a) 0); [done|].
    case_bool_decide as Hc; simpl in H; [|done]. destruct (unsupported a) eqn:Hu; [done|].
    pose proof Hl as Hi%(for_each_value_inv _ _ transfer_inv);
      [|apply transfer_member_inv|by left].
    destruct (Hi Hu) as [[? _]|[H1 _]]; [done|].
    apply (for_each_value_count _ _ codings) in Hl as (_ & _ & Hone); [|apply transfer_member_count].
    destruct Hone as (v & -> & Hv); [done|].
    exists v. split; [done|]. by eapply transfer_member_chunked.
  - intros (v & -> & Hv). simpl. by rewrite chunked_value_member.
Qed.

Lemma parse_transfer_encoding_None headers :
  parse_transfer_encoding headers = Ok None <-> hm_get_all headers TRANSFER_ENCODING = [].
Proof.
  unfold parse_transfer_encoding. split.
  - intros H. rinv. rename H0 into Hl. destruct (Z.eqb_spec (codings a) 0).
    + apply (for_each_value_count _ _ codings) in Hl as (_ & Hn & _); [auto|apply transfer_member_count].
    + repeat case_match; done.
  - by intros ->.
Qed.

(** ** Message framing *)

(** What the framing fields of a message say, by body mode. *)
Definition framing_says headers (v : Version) (no_framing mode : BodyMode) : Prop :=
  (mode = BodyChunked /\ v = HTTP_11 /\ hm_get_all headers CONTENT_LENGTH = [] /\
   exists t, hm_get_all headers TRANSFER_ENCODING = [t] /\ is_chunked_value t) \/
  (exists n, mode = BodyFixed n /\ hm_get_all headers TRANSFER_ENCODING = [] /\ content_length_is headers n) \/
  (mode = no_framing /\ hm_get_all headers TRANSFER_ENCODING = [] /\ hm_get_all headers CONTENT_LENGTH = []).

Lemma message_framing_says headers v no_framing mode :
  message_framing headers v no_framing = Ok mode <-> framing_says headers v no_framing mode.
Proof.
  unfold message_framing, framing_says. split.
  - intros H. rinv. destruct a as [n|].
    + apply parse_content_length_Some in H0. destruct a0 as [[]|]; [done|]. rinv.
      apply parse_transfer_encoding_None in H1. right; left. eauto.
    + apply parse_content_length_None in H0. destruct a0 as [[]|]; [case_bool_decide; [|done]|]; rinv.
      * left. by apply parse_transfer_encoding_chunked in H1.
      * right; right. by apply parse_transfer_encoding_None in H1.
  - intros [(-> & -> & Hc%parse_content_length_None & Ht%parse_transfer_encoding_chunked)
           |[(n & -> & Ht%parse_transfer_encoding_None & Hc%parse_content_length_Some)
            |(-> & Ht%parse_transfer_encoding_None & Hc%parse_content_length_None)]];
      by rewrite Hc; simpl; rewrite Ht.
Qed.

(** C5: The framing a received or sent message is given is exactly what its
    fields say: chunked only in HTTP/1.1, with a single [Transfer-Encoding:
    chunked] and no Content-Length; a fixed length only without
    Transfer-Encoding and when every member of every Content-Length value is a
    decimal number and all are the same 64-bit length; and nothing else is
    accepted when either field is present. *)
Theorem message_framing_spec headers v no_framing mode :
  message_framing headers v no_framing = Ok mode <-> framing_says headers v no_framing mode.
Proof. apply message_framing_says. Qed.

(** ** Connection options *)

(** Some member of the Connection lists is [option], in any letter case. *)
Definition has_option headers (option : bytes) : Prop :=
  exists m, m ∈ concat (map (split_on COMMA) (hm_get_all headers CONNECTION)) /\
            eq_ignore_ascii_case (trim_ows m) option = true.

Lemma connection_member_quote o m : DQUOTE ∈ m -> is_ok (connection_member o m) = false.
Proof.
  intros Hin. unfold connection_member. destruct (is_token (trim_ows m)) eqn:E; [|done].
  apply elem_of_trim in Hin; [|done]. by apply (is_token_not_in _ DQUOTE E) in Hin.
Qed.

Lemma eq_ignore_case_diff x y z :
  eq_ignore_ascii_case x y = true ->
  bytes_eqb (map to_ascii_lowercase y) (map to_ascii_lowercase z) = false ->
  eq_ignore_ascii_case x z = false.
Proof. unfold eq_ignore_ascii_case. by intros ->%bytes_eqb_true. Qed.

(** What one member adds to the three options. *)
Lemma connection_member_adds o m o' :
  connection_member o m = Ok o' ->
  opt_close o' = opt_close o || eq_ignore_ascii_case (trim_ows m) (bs "close") /\
  opt_keep_alive o' = opt_keep_alive o || eq_ignore_ascii_case (trim_ows m) (bs "keep-alive") /\
  opt_upgrade o' = opt_upgrade o || eq_ignore_ascii_case (trim_ows m) (bs "upgrade").
Proof.
  unfold connection_member. case_match; [done|].
  destruct (eq_ignore_ascii_case (trim_ows m) (bs "close")) eqn:Ec;
  [|destruct (eq_ignore_ascii_case (trim_ows m) (bs "keep-alive")) eqn:Ek;
    [|destruct (eq_ignore_ascii_case (trim_ows m) (bs "upgrade")) eqn:Eu]];
  intros ?; rinv; simpl; rewrite ?orb_true_r, ?orb_false_r; try done.
  - rewrite !(eq_ignore_case_diff _ _ _ Ec), !orb_false_r by done. done.
  - rewrite !(eq_ignore_case_diff _ _ _ Ek), !orb_false_r by done. done.
Qed.

Lemma connection_fold_adds ms o o' (token : bytes) (get : ConnectionOptions -> bool) :
  (forall o m o', connection_member o m = Ok o' ->
     get o' = get o || eq_ignore_ascii_case (trim_ows m) token) ->
  fold_members InvalidConnection connection_member ms o = Ok o' ->
  get o' = get o || existsb (fun m => eq_ignore_ascii_case (trim_ows m) token) ms.
Proof.
  intros Hg. revert o. induction ms as [|m ms IH]; intros o H; simpl in *; [rinv; by rewrite orb_false_r|].
  case_bool_decide; [done|]. rinv. apply IH in H as ->. apply Hg in H1 as ->. by rewrite orb_assoc.
Qed.

Lemma connection_options_has headers o :
  connection_options headers = Ok o ->
  (opt_close o = true <-> has_option headers (bs "close")) /\
  (opt_keep_alive o = true <-> has_option headers (bs "keep-alive")) /\
  (opt_upgrade o = true <-> has_option headers (bs "upgrade")).
Proof.
  unfold connection_options. intros H.
  pose proof H as Hq%for_each_value_quote; [|apply connection_member_quote].
  rewrite for_each_value_split in H by done. unfold has_option.
  setoid_rewrite list_elem_of_In.
  split_and!;
  [rewrite (connection_fold_adds _ _ _ (bs "close") opt_close) by (done || apply connection_member_adds)
  |rewrite (connection_fold_adds _ _ _ (bs "keep-alive") opt_keep_alive) by (done || apply connection_member_adds)
  |rewrite (connection_fold_adds _ _ _ (bs "upgrade") opt_upgrade) by (done || apply connection_member_adds)];
  simpl; apply existsb_exists.
Qed.

Lemma persistence_has headers v o :
  connection_options headers = Ok o ->
  persistence v o = Close <->
  has_option headers (bs "close") \/ (v = HTTP_10 /\ ~ has_option headers (bs "keep-alive")).
Proof.
  intros (Hc & Hk & _)%connection_options_has. rewrite <- Hc, <- Hk. unfold persistence.
  destruct (opt_close o), (opt_keep_alive o); simpl; rewrite ?andb_false_r, ?andb_true_r;
    try case_bool_decide; naive_solver.
Qed.

End HeaderTheorems.

(** * Requests *)

Section Requests.
Context {http : HttpCrate} {laws : HttpLaws http}.

Lemma validate_upgrade_values_present headers :
  validate_upgrade_values headers = Ok true -> hm_get_all headers UPGRADE <> [].
Proof.
  unfold validate_upgrade_values. intros H E. rewrite E in H. simpl in H. rinv. discriminate.
Qed.

(** The Host field after validation: the target's authority in absolute form. *)
Lemma validate_for_headers h received v :
  validate_for h received = Ok v ->
  forall n, n <> HOST -> hm_get_all (req_headers (vreq_head v)) n = hm_get_all (req_headers h) n.
Proof.
  unfold validate_for. intros H n Hn. apply rbind_ok in H as (form & _ & H).
  apply rbind_ok in H as (_ & _ & H). apply rbind_ok in H as (headers & Hh & H).
  assert (Hg : hm_get_all headers n = hm_get_all (req_headers h) n).
  2:{ clear Hh. rinv. case_match; [done|]. by rinv. }
  clear H. case_bool_decide; rinv; [|done]. unfold normalize_absolute_host in Hh.
  rinv. case_match; [done|]. rinv. rewrite law_get_all_insert. case_decide; congruence.
Qed.

(** The framing, connection, expectation and upgrade stages of a request run
    on the headers it ends up with. *)
Lemma validate_for_stages h received v :
  validate_for h received = Ok v ->
  let headers := req_headers (vreq_head v) in
  exists c,
    validate_request_target (req_method h) (req_target h) = Ok (vreq_target_form v) /\
    validate_host (req_headers h) (req_version h) = Ok tt /\
    message_framing headers (req_version h) BodyNone = Ok (vreq_body v) /\
    connection_options headers = Ok c /\ vreq_persistence v = persistence (req_version h) c /\
    expectation headers (req_version h) received = Ok (vreq_expectation v) /\
    (vreq_upgrade v = Some Protocol -> req_version h = HTTP_11) /\
    (vreq_upgrade v = None \/ upgrade_intent headers c (vreq_target_form v) = Ok (vreq_upgrade v)).
Proof.
  unfold validate_for. intros H. apply rbind_ok in H as (form & Hform & H).
  apply rbind_ok in H as ([] & Hhost & H). apply rbind_ok in H as (headers & Hh & H).
  apply rbind_ok in H as (body & Hbody & H). apply rbind_ok in H as (c & Hc & H).
  apply rbind_ok in H as (ex & Hex & H). apply rbind_ok in H as (up & Hup & H).
  case_match eqn:E; [done|]. injection H as <-. simpl. exists c. split_and!; try done.
  - intros ->. simpl in E. apply negb_false_iff, bool_decide_eq_true in E. done.
  - case_match; [left; by rinv | by right].
Qed.

(** C4: Request framing (request smuggling). A validated request has a
    chunked body only if it is HTTP/1.1 with a single [Transfer-Encoding:
    chunked] and no Content-Length, a fixed body only if all Content-Length
    members agree on it and there is no Transfer-Encoding, and no body only if
    both fields are absent; it is never delimited by the end of the
    connection. The fields are those the request came with. *)
Theorem validate_request_framing h received v :
  validate_for h received = Ok v -> framing_says (req_headers h) (req_version h) BodyNone (vreq_body v).
Proof.
  intros H. pose proof (validate_for_headers _ _ _ H) as Hg.
  apply validate_for_stages in H as (c & _ & _ & Hb & _).
  apply message_framing_says in Hb. revert Hb. unfold framing_says, content_length_is.
  by rewrite !Hg by done.
Qed.

(** Whether the connection stays open after a request: it closes exactly
    when some Connection member is [close], or the request is HTTP/1.0
    without [keep-alive]; and a protocol upgrade is only recorded for an
    HTTP/1.1 request with an [upgrade] option, no [close] option and an
    Upgrade field. *)
Theorem validate_request_connection h received v :
  validate_for h received = Ok v ->
  (vreq_persistence v = Close <->
   has_option (req_headers h) (bs "close") \/
   (req_version h = HTTP_10 /\ ~ has_option (req_headers h) (bs "keep-alive"))) /\
  (vreq_upgrade v = Some Protocol ->
   req_version h = HTTP_11 /\ has_option (req_headers h) (bs "upgrade") /\
   ~ has_option (req_headers h) (bs "close") /\ hm_get_all (req_headers h) UPGRADE <> []).
Proof.
  intros H. pose proof (validate_for_headers _ _ _ H) as Hg.
  apply validate_for_stages in H as (c & _ & _ & _ & Hc & Hp & _ & Hu & Hi).
  assert (Ho : forall o, has_option (req_headers (vreq_head v)) o <-> has_option (req_headers h) o)
    by (intros o; unfold has_option; by rewrite Hg).
  split.
  - rewrite Hp, (persistence_has _ _ _ Hc). by rewrite !Ho.
  - intros E. split; [auto|]. destruct Hi as [Hi|Hi]; [congruence|].
    rewrite <- !Ho. apply connection_options_has in Hc as (Hcl & _ & Hup).
    rewrite <- Hcl, <- Hup, <- Hg by done. unfold upgrade_intent in Hi.
    case_bool_decide; [rinv; congruence|]. rinv.
    destruct (opt_upgrade c), (opt_close c), a; rinv; try congruence.
    split_and!; [done..|]. by apply validate_upgrade_values_present.
Qed.

Lemma validate_request_target_form m t f :
  validate_request_target m t = Ok f ->
  (f = Authority <-> m = CONNECT) /\ (f = Authority -> uri_has_port t = true) /\
  (f = Asterisk -> m = OPTIONS).
Proof.
  unfold validate_request_target. intros H. apply rbind_ok in H as (form & _ & H).
  destruct (bytes_eqb m CONNECT) eqn:EC.
  { apply bytes_eqb_true in EC as ->. case_bool_decide; [|done]. simpl in H.
    destruct (uri_has_port t) eqn:Ep; [|done]. rinv. naive_solver. }
  apply bytes_eqb_false in EC. destruct (bytes_eqb m OPTIONS) eqn:EO.
  - apply bytes_eqb_true in EO as ->. destruct form; simpl in H; rinv; naive_solver.
  - destruct form; simpl in H; rinv; naive_solver.
Qed.

(** The request target and the Host field. CONNECT takes exactly the
    authority form with a port, the asterisk form needs OPTIONS; an HTTP/1.1
    request has exactly one Host field, an HTTP/1.0 request at most one; and
    an absolute target replaces the Host with its authority. *)
Theorem validate_request_target_host h received v :
  validate_for h received = Ok v ->
  (vreq_target_form v = Authority <-> req_method h = CONNECT) /\
  (vreq_target_form v = Authority -> uri_has_port (req_target h) = true) /\
  (vreq_target_form v = Asterisk -> req_method h = OPTIONS) /\
  (length (hm_get_all (req_headers h) HOST) <= 1)%nat /\
  (req_version h = HTTP_11 -> length (hm_get_all (req_headers h) HOST) = 1%nat) /\
  (vreq_target_form v = Absolute ->
   exists a value, uri_authority (req_target h) = Some a /\ AT ∉ a /\
     header_value_from_str a = Some value /\ hm_get_all (req_headers (vreq_head v)) HOST = [value]).
Proof.
  intros H. pose proof H as (c & Hf & Hh & _)%validate_for_stages.
  assert (Habs : vreq_target_form v = Absolute ->
    normalize_absolute_host (req_headers h) (req_target h) = Ok (req_headers (vreq_head v))).
  { unfold validate_for in H. rewrite Hf in H. simpl in H. rewrite Hh in H. simpl in H.
    intros E. rewrite E in H. rinv. case_match; [done|]. by rinv. }
  apply validate_request_target_form in Hf as (HC & Hp & HO). split_and!; try done.
  - unfold validate_host in Hh. destruct (hm_get_all _ HOST) as [|? []]; simpl; [lia|lia|done].
  - intros E. unfold validate_host in Hh. rewrite E in Hh. by destruct (hm_get_all _ HOST) as [|? []].
  - intros E. specialize (Habs E). unfold normalize_absolute_host in Habs. rinv.
    destruct (existsb (beq AT) a) eqn:Ea; [done|]. rinv. exists a, a0. split_and!; try done.
    + intros Hin%list_elem_of_In. rewrite <- not_true_iff_false, existsb_exists in Ea.
      apply Ea. exists AT. by rewrite beq_refl.
    + match goal with E' : hm_insert _ _ _ = _ |- _ => rewrite <- E' end.
      rewrite law_get_all_insert. by case_decide.
Qed.

End Requests.

(** ** Evaluated requests *)

Definition upload_request : @RequestHead AssocHttp :=
  @mkRequestHead AssocHttp (bs "POST") (simple_uri_path (bs "/items")) HTTP_11
    [(HOST, bs "example.test"); (CONTENT_LENGTH, bs "3, 3"); (CONTENT_LENGTH, bs "03");
     (CONNECTION, bs "Upgrade"); (UPGRADE, bs "websocket")] None.

Definition absolute_request : @RequestHead AssocHttp :=
  @mkRequestHead AssocHttp (bs "GET")
    {| su_scheme := Some (bs "http"); su_authority := Some (bs "origin.test"); su_port := false;
       su_path := bs "/" |} HTTP_11
    [(HOST, bs "other.test"); (TRANSFER_ENCODING, bs " Chunked"); (CONNECTION, bs "close")] None.

Definition upload_validated : @ValidatedRequestHead AssocHttp :=
  mkValidatedRequestHead upload_request (BodyFixed 3) Reusable Origin ExpectNone (Some Protocol).

Lemma upload_validates : validate_for upload_request true = Ok upload_validated.
Proof. vm_cast_no_check (eq_refl (A := result _ HeadError) (Ok upload_validated)). Qed.

Lemma validate_request_framing_witness :
  framing_says (req_headers upload_request) HTTP_11 BodyNone (BodyFixed 3).
Proof.
  exact (validate_request_framing upload_request true upload_validated upload_validates).
Defined.

Lemma validate_request_connection_witness :
  has_option (req_headers upload_request) (bs "upgrade") /\
  hm_get_all (req_headers upload_request) UPGRADE <> [].
Proof.
  destruct (proj2 (validate_request_connection upload_request true upload_validated upload_validates) eq_refl) as (_ & Ho & _ & Hu).
  exact (conj Ho Hu).
Defined.

Definition absolute_validated : @ValidatedRequestHead AssocHttp :=
  mkValidatedRequestHead
    (@mkRequestHead AssocHttp (req_method absolute_request) (req_target absolute_request) HTTP_11
       [(TRANSFER_ENCODING, bs " Chunked"); (CONNECTION, bs "close"); (HOST, bs "origin.test")] None)
    BodyChunked Close Absolute ExpectNone None.

Lemma absolute_validates : validate_for absolute_request true = Ok absolute_validated.
Proof. vm_cast_no_check (eq_refl (A := result _ HeadError) (Ok absolute_validated)). Qed.

Lemma validate_request_target_host_witness :
  length (hm_get_all (req_headers absolute_request) HOST) = 1%nat.
Proof.
  exact (proj1 (proj2 (proj2 (proj2 (proj2
    (validate_request_target_host absolute_request true absolute_validated absolute_validates))))) eq_refl).
Defined.

(** * Responses *)

Section Responses.
Context {http : HttpCrate} {laws : HttpLaws http}.

(** Response framing. A validated response to HEAD, with a 1xx, 204, 205
    or 304 status, or a successful response to CONNECT, has no body whatever
    its fields say; any other response is framed by its fields, by the end of
    the connection when it has none, and then the connection is not reused.
    A 101 is only accepted in HTTP/1.1 with the upgrade option and field; a
    status above 599 never is. *)
Theorem validate_response_framing h method v :
  validate_response h method = Ok v ->
  (let status := resp_status h in
   if bytes_eqb method HEAD || ((100 <=? status) && (status <? 200)) || (status =? 204) ||
      (status =? 205) || (status =? 304) ||
      (bytes_eqb method CONNECT && ((200 <=? status) && (status <? 300)))
   then vresp_body v = BodyNone
   else framing_says (resp_headers h) (resp_version h) BodyUntilEof (vresp_body v)) /\
  (vresp_body v = BodyUntilEof -> vresp_persistence v = Close) /\
  (vresp_upgrade v = Some Protocol <-> resp_status h = 101) /\
  (resp_status h = 101 ->
   resp_version h = HTTP_11 /\ has_option (resp_headers h) (bs "upgrade") /\
   ~ has_option (resp_headers h) (bs "close") /\ hm_get_all (resp_headers h) UPGRADE <> []) /\
  resp_status h <= 599.
Proof.
  unfold validate_response. destruct (Z.ltb_spec 599 (resp_status h)) as [|Hs]; [done|]. intros H.
  apply rbind_ok in H as (c & Hc & H). apply rbind_ok in H as (up & Hup & H).
  apply rbind_ok in H as (body & Hbody & H). injection H as <-. simpl.
  split_and!; [|intros ->; by case_bool_decide| | |done]; clear Hs.
  - unfold response_has_no_body in Hbody. rewrite law_informational in Hbody.
    rewrite law_success in Hup. destruct (Z.eqb_spec (resp_status h) 101) as [->|].
    { destruct (bool_decide (resp_version h = HTTP_11)); simpl in Hup; [|done]. rinv. simpl in Hbody.
      rewrite orb_true_r. by rinv. }
    destruct (bytes_eqb method CONNECT && _); rinv; simpl in Hbody.
    + rewrite orb_true_r. by rinv.
    + rewrite orb_false_r. case_match; [by rinv|]. by apply message_framing_says.
  - destruct (Z.eqb_spec (resp_status h) 101) as [->|Hn].
    + destruct (bool_decide (resp_version h = HTTP_11)); simpl in Hup; [|done]. by rinv.
    + destruct (bytes_eqb method CONNECT && _); rinv; by split.
  - intros E. rewrite E in Hup. simpl in Hup. case_bool_decide as Ev; [|done]. simpl in Hup.
    apply rbind_ok in Hup as (u & Hv & _). unfold validate_protocol_upgrade in Hv.
    apply connection_options_has in Hc as (Hcl & _ & Ho). rewrite <- Hcl, <- Ho.
    destruct (opt_upgrade c), (opt_close c); simpl in Hv; try done. rinv.
    destruct a; [|done]. split_and!; try done. by apply validate_upgrade_values_present.
Qed.

End Responses.

Definition plain_response : @ResponseHead AssocHttp :=
  @mkResponseHead AssocHttp HTTP_11 200 [(bs "server", bs "vakya")] None.

Definition plain_validated : @ValidatedResponseHead AssocHttp :=
  mkValidatedResponseHead None plain_response BodyUntilEof Close.

Lemma plain_validates : validate_response plain_response GET = Ok plain_validated.
Proof. vm_cast_no_check (eq_refl (A := result _ HeadError) (Ok plain_validated)). Qed.

Lemma validate_response_framing_witness :
  framing_says (resp_headers plain_response) HTTP_11 BodyUntilEof BodyUntilEof.
Proof.
  exact (proj1 (validate_response_framing plain_response GET plain_validated plain_validates)).
Defined.

(** * The transfer parameter loop terminates within its fuel *)

Lemma trim_zdrop_shorter n input : 0 < n -> input <> [] -> zlen (trim_ows (zdrop n input)) < zlen input.
Proof.
  intros Hn Hi. pose proof (trim_ows_length (zdrop n input)) as H. rewrite zlen_zdrop in H by lia.
  destruct input as [|b input]; [done|]. rewrite zlen_cons in *. pose proof (zlen_nonneg input). lia.
Qed.

Lemma transfer_parameter_shorter input rest :
  transfer_parameter input = Ok rest -> zlen rest < zlen input.
Proof.
  unfold transfer_parameter. case_bool_decide as Hh; [|done]. simpl.
  assert (Hi : input <> []) by (by intros ->).
  pose proof (trim_zdrop_shorter 1 input ltac:(lia) Hi) as L1.
  set (i1 := trim_ows (zdrop 1 input)) in *. case_match; [done|].
  pose proof (trim_ows_length (zdrop (take_while_count is_tchar i1) i1)) as L2.
  rewrite zlen_zdrop in L2 by apply take_while_count_nonneg.
  pose proof (take_while_count_nonneg is_tchar i1). pose proof (zlen_nonneg i1).
  set (i2 := trim_ows (zdrop _ i1)) in *. case_match; [done|].
  pose proof (trim_ows_length (zdrop 1 i2)) as L3. rewrite zlen_zdrop in L3 by lia.
  pose proof (zlen_nonneg i2). set (i3 := trim_ows (zdrop 1 i2)) in *.
  intros H'. apply rbind_ok in H' as (n & Hn & H').
  assert (0 <= n).
  { destruct (bool_decide (head i3 = Some DQUOTE)); [rinv; apply quoted_string_len_bound in Hn; lia|].
    destruct (take_while_count is_tchar i3 =? 0); [done|]. rinv. apply take_while_count_nonneg. }
  pose proof (trim_ows_length (zdrop n i3)) as L4. rewrite zlen_zdrop in L4 by lia.
  pose proof (zlen_nonneg i3). case_match; [done|]. rinv. lia.
Qed.

Lemma transfer_parameters_fuel f1 f2 input :
  zlen input <= Z.of_nat f1 -> zlen input <= Z.of_nat f2 ->
  transfer_parameters_loop f1 input = transfer_parameters_loop f2 input.
Proof.
  revert f2 input. induction f1 as [|f1 IH]; intros f2 input H1 H2.
  - assert (zlen input = 0) as ->%zlen_0_nil by (pose proof (zlen_nonneg input); lia). by destruct f2.
  - destruct input as [|b input]; [by destruct f2|].
    destruct f2 as [|f2]; [rewrite zlen_cons in H2; pose proof (zlen_nonneg input); lia|].
    cbn [transfer_parameters_loop]. destruct (transfer_parameter (b :: input)) as [rest|] eqn:E; [|done].
    apply transfer_parameter_shorter in E. simpl. apply IH; lia.
Qed.

(** The while loop over transfer parameters terminates: it satisfies its
    own unrolled equation (one more turn while input is left), so the turn
    bound [length input] is never what ends it. *)
Theorem validate_transfer_parameters_unroll input :
  validate_transfer_parameters input =
  match input with
  | [] => Ok tt
  | _ => let? rest := transfer_parameter input in validate_transfer_parameters rest
  end.
Proof.
  unfold validate_transfer_parameters. destruct input as [|b input]; [done|].
  cbn [length transfer_parameters_loop].
  destruct (transfer_parameter (b :: input)) as [rest|] eqn:E; [|done]. simpl.
  apply transfer_parameter_shorter in E. unfold zlen in E. simpl in E.
  apply transfer_parameters_fuel; unfold zlen; lia.
Qed.
