(* ===== verification/Decode.v ===== *)
(** The incremental body decoder (src/src/proto/h1/decode.rs).

    [decode] consumes a prefix of the retained input and reports a payload
    range, trailers, the end of the body or the need for more input. The
    decoder's state survives between calls; a failure is remembered. *)

From Stdlib Require Import ZArith Lia.
From stdpp Require Import base list option.
From S2P Require Import Prelude Http Errors Syntax Scan.

(** ** Limits *)

Record DecodeLimits := mkDecodeLimits {
  max_chunk_line_bytes : Z;
  max_chunk_extension_bytes : Z;
  max_trailer_bytes : Z;
  max_trailers : Z;
}.

(** [DecodeLimits::new]; [None] is the assertion failure. *)
Definition DecodeLimits_new (chunk_line trailer_bytes trailers : Z) : option DecodeLimits :=
  if (0 <? chunk_line) && (0 <? trailer_bytes) && (0 <? trailers)
  then Some (mkDecodeLimits chunk_line (16 * 1024) trailer_bytes trailers)
  else None.

Definition with_chunk_extension_limit (l : DecodeLimits) (n : Z) : DecodeLimits :=
  mkDecodeLimits (max_chunk_line_bytes l) n (max_trailer_bytes l) (max_trailers l).

Definition with_framing_limits (l : DecodeLimits) (chunk_line trailer_bytes trailers : Z) : option DecodeLimits :=
  option_map (fun n => with_chunk_extension_limit n (max_chunk_extension_bytes l))
    (DecodeLimits_new chunk_line trailer_bytes trailers).

Definition DecodeLimits_default : DecodeLimits :=
  mkDecodeLimits (8 * 1024) (16 * 1024) (16 * 1024) 32.

(** ** State *)

Inductive ChunkState : Type :=
| Size (scanned : Z)
| Data (remaining : Z)
| DataCrlf
| Trailers (scanned : Z).

Inductive DecoderState : Type :=
| Empty
| Fixed (remaining : Z)
| ChunkedState (state : ChunkState)
| UntilEof
| Done
| Failed (error : DecodeError).

(** The trailer workspace is its number of slots, once allocated. *)
Record BodyDecoder := mkBodyDecoder {
  state : DecoderState;
  limits : DecodeLimits;
  extension_bytes : Z;
  trailer_workspace : option Z;
}.

Definition set_state (d : BodyDecoder) (s : DecoderState) : BodyDecoder :=
  mkBodyDecoder s (limits d) (extension_bytes d) (trailer_workspace d).

Definition with_limits (mode : BodyMode) (l : DecodeLimits) : BodyDecoder :=
  let s :=
    match mode with
    | BodyNone => Empty
    | BodyFixed remaining => Fixed remaining
    | BodyChunked => ChunkedState (Size 0)
    | BodyUntilEof => UntilEof
    end in
  mkBodyDecoder s l 0 None.

Definition is_complete (d : BodyDecoder) : bool :=
  match state d with
  | Empty | Done => true
  | Fixed remaining => remaining =? 0
  | _ => false
  end.

(** ** Chunk lines *)

Definition hex (b : byte) : Z :=
  if is_ascii_digit b then bZ b - 48
  else if (97 <=? bZ b) && (bZ b <=? 102) then bZ b - 97 + 10
  else bZ b - 65 + 10.

Fixpoint hex_fold (size : Z) (digits : bytes) : result Z DecodeError :=
  match digits with
  | [] => Ok size
  | d :: digits =>
      match checked_mul u64_max size 16 with
      | Some s =>
          match checked_add u64_max s (hex d) with
          | Some s => hex_fold s digits
          | None => Err InvalidChunkSize
          end
      | None => Err InvalidChunkSize
      end
  end.

(** One turn of [validate_extensions]: the input after one extension. *)
Definition chunk_extension (input : bytes) : result bytes DecodeError :=
  let input := trim_ows input in
  if negb (bool_decide (head input = Some SEMI)) then Err InvalidChunkExtension
  else
    let input := trim_ows (zdrop 1 input) in
    let name := take_while_count is_tchar input in
    if name =? 0 then Err InvalidChunkExtension
    else
      let input := trim_ows (zdrop name input) in
      let? input :=
        if bool_decide (head input = Some EQUALS) then
          let input := trim_ows (zdrop 1 input) in
          let? value :=
            if bool_decide (head input = Some DQUOTE) then
              ok_or (quoted_string_len input) InvalidChunkExtension
            else
              let value := take_while_count is_tchar input in
              if value =? 0 then Err InvalidChunkExtension else Ok value in
          Ok (trim_ows (zdrop value input))
        else Ok input in
      if negb (bool_decide (input = [])) && negb (bool_decide (head input = Some SEMI)) then
        Err InvalidChunkExtension
      else Ok input.

(** The [while] loop; every turn shortens the input ([validate_extensions_unroll]). *)
Fixpoint extensions_loop (fuel : nat) (input : bytes) : result unit DecodeError :=
  match input, fuel with
  | [], _ => Ok tt
  | _, O => Err InvalidChunkExtension
  | _, S fuel =>
      let? input := chunk_extension input in
      extensions_loop fuel input
  end.

Definition validate_extensions (input : bytes) : result unit DecodeError :=
  extensions_loop (length input) input.

(** The function [parse_chunk_line]: the size of a chunk line without its end. *)
Definition chunk_line_size (line : bytes) : result Z DecodeError :=
  let extension := default (zlen line) (position (fun b => beq b SEMI) line) in
  let size_text := trim_end (ztake extension line) in
  if bool_decide (size_text = []) || negb (forallb is_ascii_hexdigit size_text) then Err InvalidChunkSize
  else
    let? size := hex_fold 0 size_text in
    validate_extensions (zdrop extension line) ;;?
    Ok size.

Definition charge_extensions (d : BodyDecoder) (line : bytes) : result BodyDecoder DecodeError :=
  match position (fun b => beq b SEMI) line with
  | None => Ok d
  | Some start =>
      let added := zlen line - start in
      let? total := ok_or (checked_add usize_max (extension_bytes d) added)
                          (DecodeErrorLimit DecodeLimitChunkExtensionBytes) in
      if max_chunk_extension_bytes (limits d) <? total then
        Err (DecodeErrorLimit DecodeLimitChunkExtensionBytes)
      else Ok (mkBodyDecoder (state d) (limits d) total (trailer_workspace d))
  end.

(** [input[index - 1] == b'\r'] *)
Definition after_cr (input : bytes) (index : Z) : bool :=
  (0 <? index) && bool_decide (zget input (index - 1) = Some CR).

(** The [for index in scanned..] loop: the index of the line feed. *)
Fixpoint scan_chunk_line (input : bytes) (index : Z) (rest : bytes) : result (option Z) DecodeError :=
  match rest with
  | [] => Ok None
  | b :: rest =>
      if beq b LF then
        if (index =? 0) || negb (after_cr input index) then Err InvalidChunkSize else Ok (Some index)
      else if after_cr input index then Err InvalidChunkSize
      else scan_chunk_line input (index + 1) rest
  end.

(** The method [parse_chunk_line]: size and consumed length of the line, or the
    scan to resume from. *)
Definition parse_chunk_line (d : BodyDecoder) (input : bytes) (scanned : Z)
    : result (BodyDecoder * option (Z * Z) * Z) DecodeError :=
  let scanned := if zlen input <? scanned then 0 else scanned in
  let? found := scan_chunk_line input scanned (zdrop scanned input) in
  match found with
  | Some index =>
      let consumed := index + 1 in
      if max_chunk_line_bytes (limits d) <? consumed then Err (DecodeErrorLimit DecodeLimitChunkLineBytes)
      else
        let line := ztake (index - 1) input in
        let? size := chunk_line_size line in
        let? d := charge_extensions d line in
        Ok (d, Some (size, consumed), 0)
  | None =>
      if max_chunk_line_bytes (limits d) <? zlen input then Err (DecodeErrorLimit DecodeLimitChunkLineBytes)
      else Ok (d, None, zlen input)
  end.

(** ** Trailers *)

Definition forbidden_trailers : list HeaderName :=
  [TRANSFER_ENCODING; CONTENT_LENGTH; HOST; CONNECTION; TRAILER; TE; UPGRADE; EXPECT; AUTHORIZATION;
   PROXY_AUTHORIZATION; PROXY_AUTHENTICATE; WWW_AUTHENTICATE; CONTENT_ENCODING; CONTENT_TYPE; CONTENT_RANGE].

Definition empty_line_at (input : bytes) (index : Z) : bool :=
  (index =? 0) ||
  ((index =? 1) && bool_decide (zget input 0 = Some CR)) ||
  bool_decide (zget input (index - 1) = Some LF) ||
  ((2 <=? index) && bool_decide (zget input (index - 2) = Some LF) &&
   bool_decide (zget input (index - 1) = Some CR)).

(** The [for] loop of [trailer_end]: the index of the line feed of the first
    empty line. *)
Fixpoint scan_trailers (input : bytes) (index : Z) (rest : bytes) : option Z :=
  match rest with
  | [] => None
  | b :: rest =>
      if beq b LF && empty_line_at input index then Some index
      else scan_trailers input (index + 1) rest
  end.

Definition trailer_end (d : BodyDecoder) (input : bytes) (scanned : Z) : result (option Z * Z) DecodeError :=
  let scanned := if zlen input <? scanned then 0 else scanned in
  let bounded := Z.min (zlen input) (max_trailer_bytes (limits d)) in
  let from := Z.min scanned bounded in
  match scan_trailers input from (zslice from bounded input) with
  | Some index => Ok (Some (index + 1), 0)
  | None =>
      if max_trailer_bytes (limits d) <? zlen input then Err (DecodeErrorLimit DecodeLimitTrailerBytes)
      else Ok (None, bounded)
  end.

Section Decoder.
Context {http : HttpCrate} {hp : Httparse}.

Definition validate_trailers (trailers : HeaderMap) : result unit DecodeError :=
  if existsb (fun name => existsb (bytes_eqb name) forbidden_trailers) (hm_keys trailers)
  then Err ForbiddenTrailer else Ok tt.

Inductive DecodeOutcome : Type :=
| NeedMore (consumed : Z)
| OutData (start end_ consumed : Z)
| OutTrailers (trailers : HeaderMap) (consumed : Z)
| OutEnd (consumed : Z).

Definition fail (d : BodyDecoder) (e : DecodeError) : BodyDecoder * result DecodeOutcome DecodeError :=
  (set_state d (Failed e), Err e).

(** The field block: consumed length and owned, validated trailers. *)
Definition parse_trailers (block : bytes) (slots : Z) : result (Z * HeaderMap) DecodeError :=
  match hp_parse_headers block slots with
  | HpComplete (consumed, headers) =>
      match own_headers headers with
      | Ok trailers => validate_trailers trailers ;;? Ok (consumed, trailers)
      | Err (HeadErrorLimit _) => Err (DecodeErrorLimit DecodeLimitTrailerMap)
      | Err _ => Err InvalidTrailer
      end
  | HpPartial => Err InvalidTrailer
  | HpErr HpTooManyHeaders => Err (DecodeErrorLimit DecodeLimitTrailers)
  | HpErr _ => Err InvalidTrailer
  end.

Definition decode_trailers (d : BodyDecoder) (input : bytes) (cursor : Z) (eof : bool) (scanned : Z)
    : BodyDecoder * result DecodeOutcome DecodeError :=
  let available := zdrop cursor input in
  match trailer_end d available scanned with
  | Err e => fail d e
  | Ok (None, scanned) =>
      if eof then fail d UnexpectedEof
      else (set_state d (ChunkedState (Trailers scanned)), Ok (NeedMore cursor))
  | Ok (Some trailer_bytes, _) =>
      let slots := default (max_trailers (limits d)) (trailer_workspace d) in
      let d := mkBodyDecoder (state d) (limits d) (extension_bytes d) (Some slots) in
      match parse_trailers (ztake trailer_bytes available) slots with
      | Ok (consumed, trailers) => (set_state d Done, Ok (OutTrailers trailers (cursor + consumed)))
      | Err e => fail d e
      end
  end.

(** ** The chunk state machine *)

(** A turn of the loop goes on with a state and a cursor, or returns. *)
Inductive Turn : Type :=
| Continue (d : BodyDecoder) (state : ChunkState) (cursor : Z)
| Return (r : BodyDecoder * result DecodeOutcome DecodeError).

Definition chunk_turn (d : BodyDecoder) (st : ChunkState) (cursor : Z) (input : bytes) (eof : bool) : Turn :=
  match st with
  | Size scanned =>
      match parse_chunk_line d (zdrop cursor input) scanned with
      | Err e => Return (fail d e)
      | Ok (d, None, scanned) =>
          if eof then Return (fail d UnexpectedEof)
          else Return (set_state d (ChunkedState (Size scanned)), Ok (NeedMore cursor))
      | Ok (d, Some (size, consumed), _) =>
          Continue d (if size =? 0 then Trailers 0 else Data size) (cursor + consumed)
      end
  | Data remaining =>
      if cursor =? zlen input then
        if eof then Return (fail d UnexpectedEof)
        else Return (set_state d (ChunkedState st), Ok (NeedMore cursor))
      else
        let count := Z.min (zlen input - cursor) remaining in
        let left := remaining - count in
        Return (set_state d (ChunkedState (if left =? 0 then DataCrlf else Data left)),
                Ok (OutData cursor (cursor + count) (cursor + count)))
  | DataCrlf =>
      let remaining := zdrop cursor input in
      if zlen remaining <? 2 then
        if match head remaining with Some b => negb (beq b CR) | None => false end
        then Return (fail d InvalidChunkTerminator)
        else if eof then Return (fail d UnexpectedEof)
        else Return (set_state d (ChunkedState st), Ok (NeedMore cursor))
      else if negb (bytes_eqb (ztake 2 remaining) [CR; LF]) then Return (fail d InvalidChunkTerminator)
      else Continue d (Size 0) (cursor + 2)
  | Trailers scanned => Return (decode_trailers d input cursor eof scanned)
  end.

(** The [loop]: a terminator leads to a size line, a size line to data or
    trailers, and those return, so three turns are enough
    ([decode_chunked_turns]). *)
Fixpoint decode_chunked_loop (fuel : nat) (d : BodyDecoder) (st : ChunkState) (cursor : Z)
    (input : bytes) (eof : bool) : BodyDecoder * result DecodeOutcome DecodeError :=
  match fuel with
  | O => fail d UnexpectedEof
  | S fuel =>
      match chunk_turn d st cursor input eof with
      | Continue d st cursor => decode_chunked_loop fuel d st cursor input eof
      | Return r => r
      end
  end.

Definition decode_chunked (d : BodyDecoder) (st : ChunkState) (input : bytes) (eof : bool)
    : BodyDecoder * result DecodeOutcome DecodeError :=
  decode_chunked_loop 3 d st 0 input eof.

Definition decode (d : BodyDecoder) (input : bytes) (eof : bool)
    : BodyDecoder * result DecodeOutcome DecodeError :=
  match state d with
  | Empty => (set_state d Done, Ok (OutEnd 0))
  | Fixed remaining =>
      if remaining =? 0 then (set_state d Done, Ok (OutEnd 0))
      else if negb (bool_decide (input = [])) then
        let count := Z.min (zlen input) remaining in
        (set_state d (Fixed (remaining - count)), Ok (OutData 0 count count))
      else if eof then fail d UnexpectedEof
      else (d, Ok (NeedMore 0))
  | ChunkedState st => decode_chunked d st input eof
  | UntilEof =>
      if negb (bool_decide (input = [])) then
        ((if eof then set_state d Done else d), Ok (OutData 0 (zlen input) (zlen input)))
      else if eof then (set_state d Done, Ok (OutEnd 0))
      else (d, Ok (NeedMore 0))
  | Done => (d, Ok (OutEnd 0))
  | Failed e => (d, Err e)
  end.

(** ** How the drivers use it

    The receive loops call [decode] on the retained input, deliver the payload,
    drop the consumed prefix and read when more input is needed; an empty read
    is the end of the transport. [drive] is that loop over the fragments read. *)

Inductive Drive : Type :=
| Finished (payload : bytes) (trailers : option HeaderMap) (rest : bytes) (unread : list bytes)
| DriveFailed (payload : bytes) (e : DecodeError)
| Starved
| OutOfFuel.

Fixpoint drive (fuel : nat) (d : BodyDecoder) (buffer : bytes) (frags : list bytes) (eof : bool)
    (payload : bytes) : Drive :=
  match fuel with
  | O => OutOfFuel
  | S fuel =>
      let '(d, r) := decode d buffer eof in
      match r with
      | Err e => DriveFailed payload e
      | Ok (OutEnd c) => Finished payload None (zdrop c buffer) frags
      | Ok (OutTrailers t c) => Finished payload (Some t) (zdrop c buffer) frags
      | Ok (OutData s e c) => drive fuel d (zdrop c buffer) frags eof (payload ++ zslice s e buffer)
      | Ok (NeedMore c) =>
          match frags with
          | f :: frags => drive fuel d (zdrop c buffer ++ f) frags eof payload
          | [] => if eof then Starved else drive fuel d (zdrop c buffer) [] true payload
          end
      end
  end.

End Decoder.

(** * Chunk lines: the scan *)

(** Bytes a chunk line may hold before its end. *)
Definition plain (l : bytes) : Prop := Forall (fun b => b <> CR /\ b <> LF) l.

Lemma plain_split l1 l2 x y t1 t2 :
  plain l1 -> plain l2 -> (x = CR \/ x = LF) -> (y = CR \/ y = LF) ->
  l1 ++ x :: t1 = l2 ++ y :: t2 -> l1 = l2 /\ x = y /\ t1 = t2.
Proof.
  intros H1. revert l2. induction H1 as [|a l1 Ha _ IH]; intros l2 H2 Hx Hy E.
  - destruct H2 as [|b l2 Hb _]; simplify_eq/=; [done|]. naive_solver.
  - destruct H2 as [|b l2 Hb H2]; simplify_eq/=; [naive_solver|].
    destruct (IH l2) as (-> & -> & ->); done.
Qed.

Lemma plain_not_in l1 l2 x t : plain (l1 ++ x :: t) -> (x = CR \/ x = LF) -> l1 ++ x :: t = l2 -> False.
Proof. intros [_ H]%Forall_app Hx _. inversion H. naive_solver. Qed.

Lemma after_cr_snoc pre b rest : after_cr (pre ++ b :: rest) (zlen pre + 1) = beq b CR.
Proof.
  unfold after_cr. pose proof (zlen_nonneg pre). bcase; [|lia]. simpl.
  replace (zlen pre + 1 - 1) with (zlen pre) by lia.
  rewrite zget_app_r by lia. replace (zlen pre - zlen pre) with 0 by lia. rewrite zget_cons_0.
  destruct (beqP b CR); case_bool_decide; congruence.
Qed.

Lemma after_cr_plain pre rest : plain pre -> after_cr (pre ++ rest) (zlen pre) = false.
Proof.
  intros H. destruct pre as [|b pre _] using rev_ind; [done|].
  apply Forall_app in H as [_ H]. inversion H as [|? ? [Hb _]].
  rewrite zlen_app. change (zlen [b]) with 1. rewrite <- app_assoc. simpl.
  rewrite after_cr_snoc. by apply beq_false.
Qed.

(** What the scan has seen: plain bytes and perhaps the carriage return. *)
Definition scanned_line (line : bytes) (cr : bool) : bytes := line ++ (if cr then [CR] else []).

Lemma after_cr_scanned line cr rest :
  plain line -> after_cr (scanned_line line cr ++ rest) (zlen (scanned_line line cr)) = cr.
Proof.
  intros H. unfold scanned_line. destruct cr.
  - rewrite zlen_app, <- app_assoc. apply (after_cr_snoc line CR rest).
  - rewrite app_nil_r. by apply after_cr_plain.
Qed.

Lemma scanned_zero line cr : zlen (scanned_line line cr) = 0 -> cr = false.
Proof. unfold scanned_line. destruct cr; [|done]. rewrite zlen_app. change (zlen [CR]) with 1. zl. Qed.

(** A resumed scan finds the end of a line exactly when the buffer starts with
    a plain line and CR LF, and asks for more exactly on a proper prefix of
    such a line; everything else is refused. *)
Lemma scan_chunk_line_spec line cr rest :
  plain line ->
  let done_ := scanned_line line cr in
  match scan_chunk_line (done_ ++ rest) (zlen done_) rest with
  | Ok (Some k) => exists l tail, done_ ++ rest = l ++ CR :: LF :: tail /\ plain l /\ k = zlen l + 1
  | Ok None => exists l c, done_ ++ rest = scanned_line l c /\ plain l
  | Err e =>
      e = InvalidChunkSize /\
      (forall l tail, plain l -> done_ ++ rest <> l ++ CR :: LF :: tail) /\
      (forall l c, plain l -> done_ ++ rest <> scanned_line l c)
  end.
Proof.
  revert line cr. induction rest as [|b rest IH]; intros line cr Hl; simpl.
  { exists line, cr. by rewrite app_nil_r. }
  rewrite after_cr_scanned by done.
  destruct (beqP b LF) as [->|Hlf].
  - destruct (Z.eqb_spec (zlen (scanned_line line cr)) 0) as [E%scanned_zero|_]; [subst|]; simpl.
    2: destruct cr; simpl.
    2:{ exists line, rest. unfold scanned_line. rewrite <- app_assoc, zlen_app. by split_and!. }
    all: unfold scanned_line; rewrite app_nil_r; split; [done|split].
    all: intros l t Hp E.
    all: try (destruct t; [|rewrite app_nil_r in E; rewrite <- E in Hp; by eapply plain_not_in; eauto]).
    all: apply plain_split in E; naive_solver.
  - destruct cr.
    + unfold scanned_line. rewrite <- app_assoc. simpl. split; [done|split]; intros l t Hp E.
      * apply plain_split in E; naive_solver.
      * destruct t; [apply plain_split in E; naive_solver|].
        rewrite app_nil_r in E; rewrite <- E in Hp; by eapply plain_not_in; eauto.
    + assert (E : exists line' cr', plain line' /\ scanned_line line false ++ [b] = scanned_line line' cr').
      { unfold scanned_line. rewrite app_nil_r. destruct (decide (b = CR)) as [->|].
        - by exists line, true.
        - exists (line ++ [b]), false. rewrite app_nil_r. split; [|done]. apply Forall_app. naive_solver. }
      destruct E as (line' & cr' & Hp & E). specialize (IH line' cr' Hp).
      cbv zeta in IH. rewrite <- E, zlen_app, <- app_assoc in IH. exact IH.
Qed.

(** * Trailers: the scan *)

(** An empty line ends at index [j]. *)
Definition eol (input : bytes) (j : Z) : bool :=
  bool_decide (zget input j = Some LF) && empty_line_at input j.

Lemma zget_middle {A} (pre : list A) b rest : zget (pre ++ b :: rest) (zlen pre) = Some b.
Proof.
  rewrite zget_app_r by lia. replace (zlen pre - zlen pre) with 0 by lia. apply zget_cons_0.
Qed.

Lemma last_two {A} (l : list A) : l = [] \/ (exists a, l = [a]) \/ (exists k a b, l = k ++ [a; b]).
Proof.
  destruct l as [|b l _] using rev_ind; [by left|]. right.
  destruct l as [|a l _] using rev_ind; [left; by exists b|]. right.
  exists l, a, b. by rewrite <- app_assoc.
Qed.

Lemma ends_with_empty_line_LF pre :
  ends_with_empty_line (pre ++ [LF]) <->
  pre = [] \/ pre = [CR] \/ (exists k, pre = k ++ [LF]) \/ (exists k, pre = k ++ [LF; CR]).
Proof.
  unfold ends_with_empty_line. split.
  - intros [E|[E|(j & [E|E])]].
    + left. by apply (app_inj_tail pre []) in E as [-> _].
    + right; left. by apply (app_inj_tail pre [CR]) in E as [-> _].
    + right; right; left. exists j. apply (app_inj_tail pre (j ++ [LF]) LF LF). by rewrite <- app_assoc.
    + right; right; right. exists j. apply (app_inj_tail pre (j ++ [LF; CR]) LF LF). by rewrite <- app_assoc.
  - intros [->|[->|[[k ->]|[k ->]]]]; [by left | by right; left|..]; right; right; exists k.
    + left. by rewrite <- app_assoc.
    + right. by rewrite <- app_assoc.
Qed.

Lemma empty_line_at_snoc pre rest :
  empty_line_at (pre ++ rest) (zlen pre) = true <-> ends_with_empty_line (pre ++ [LF]).
Proof.
  rewrite ends_with_empty_line_LF. unfold empty_line_at.
  destruct (last_two pre) as [->|[[a ->]|(k & a & b & ->)]].
  - split; [by left | done].
  - rewrite !orb_true_iff, !andb_true_iff, !bool_decide_eq_true. simpl.
    change (zlen [a]) with 1. change (zget (a :: rest) (1 - 1)) with (Some a).
    change (zget (a :: rest) 0) with (Some a). split.
    + intros [[[E|[_ E]]|E]|[[E _] _]]; simplify_eq; [by right; left|]. right; right; left. by exists [].
    + intros [E|[E|[[k E]|[k E]]]]; [done|simplify_eq; auto|..].
      * destruct k as [|? []]; simplify_eq/=. auto.
      * destruct k as [|? [|]]; simplify_eq/=.
  - pose proof (zlen_nonneg k). rewrite zlen_app. change (zlen [a; b]) with 2.
    rewrite <- app_assoc. simpl.
    replace (zlen k + 2 - 2) with (zlen k) by lia. rewrite zget_middle.
    assert (zget (k ++ a :: b :: rest) (zlen k + 2 - 1) = Some b) as ->.
    { replace (zlen k + 2 - 1) with (zlen (k ++ [a])) by (rewrite zlen_app; change (zlen [a]) with 1; lia).
      replace (k ++ a :: b :: rest) with ((k ++ [a]) ++ b :: rest) by (by rewrite <- app_assoc).
      apply zget_middle. }
    rewrite !orb_true_iff, !andb_true_iff, !bool_decide_eq_true.
    assert (Hinj : forall (k1 k2 : bytes) x y z w, k1 ++ [x; y] = k2 ++ [z; w] -> x = z /\ y = w).
    { intros k1 k2 x y z w E. apply (app_inj_2 k1 k2) in E as [_ E]; [|done]. by simplify_eq. }
    split.
    + intros [[[E|[E _]]|E]|[[_ E] E']]; simplify_eq; try lia.
      * right; right; left. exists (k ++ [a]). by rewrite <- app_assoc.
      * right; right; right. by exists k.
    + intros [E|[E|[[j E]|[j E]]]].
      * by destruct k.
      * by destruct k as [|? [|]].
      * left; right. replace (k ++ [a; b]) with ((k ++ [a]) ++ [b]) in E by (by rewrite <- app_assoc).
        apply app_inj_tail in E as [_ ->]. done.
      * apply Hinj in E as [-> ->]. right. split_and!; [|done..]. bcase; [done|lia].
Qed.

Lemma ztake_snoc {A} (input : list A) j b :
  zget input j = Some b -> ztake (j + 1) input = ztake j input ++ [b] /\
    exists tail, input = ztake j input ++ b :: tail.
Proof.
  intros H. pose proof (zget_range _ _ _ H) as Hr. unfold zget in H. bcase; [done|]. unfold ztake.
  replace (Z.to_nat (j + 1)) with (S (Z.to_nat j)) by lia.
  split; [by apply take_S_r|]. exists (drop (S (Z.to_nat j)) input). symmetry. by apply take_drop_middle.
Qed.

Lemma ends_with_LF i : ends_with_empty_line i -> exists pre, i = pre ++ [LF].
Proof.
  intros [->|[->|(j & [->| ->])]]; [by exists [] | by exists [CR]|..].
  - exists (j ++ [LF]). by rewrite <- app_assoc.
  - exists (j ++ [LF; CR]). by rewrite <- app_assoc.
Qed.

Lemma eol_ends input j :
  0 <= j < zlen input -> eol input j = true <-> ends_with_empty_line (ztake (j + 1) input).
Proof.
  intros Hj. unfold eol. rewrite andb_true_iff, bool_decide_eq_true. split.
  - intros [H He]. destruct (ztake_snoc _ _ _ H) as [-> (tail & E)].
    apply (empty_line_at_snoc _ (LF :: tail)). rewrite <- E, zlen_ztake by lia.
    by rewrite Z.min_l by lia.
  - intros He. destruct (zget input j) as [b|] eqn:Hb.
    2:{ rewrite zget_lookup in Hb by lia. apply lookup_ge_None in Hb. unfold zlen in Hj. lia. }
    destruct (ztake_snoc _ _ _ Hb) as [E (tail & E')]. rewrite E in He.
    destruct (ends_with_LF _ He) as (pre & Ep). apply app_inj_tail in Ep as [_ ->]. split; [done|].
    apply (empty_line_at_snoc _ (LF :: tail)) in He. rewrite <- E', zlen_ztake in He by lia.
    by rewrite Z.min_l in He by lia.
Qed.

Lemma eol_range input j : eol input j = true -> 0 <= j < zlen input.
Proof. unfold eol. intros [H _]%andb_true_iff. apply bool_decide_eq_true in H. by eapply zget_range. Qed.

Lemma eol_app input more j : 0 <= j < zlen input -> eol (input ++ more) j = eol input j.
Proof.
  intros Hj. apply eq_true_iff_eq. rewrite !eol_ends by (rewrite ?zlen_app; zl).
  by rewrite ztake_app_le by lia.
Qed.

Lemma scan_trailers_spec pre rest post :
  match scan_trailers (pre ++ rest ++ post) (zlen pre) rest with
  | Some k => zlen pre <= k < zlen pre + zlen rest /\ eol (pre ++ rest ++ post) k = true /\
              forall j, zlen pre <= j < k -> eol (pre ++ rest ++ post) j = false
  | None => forall j, zlen pre <= j < zlen pre + zlen rest -> eol (pre ++ rest ++ post) j = false
  end.
Proof.
  revert pre. induction rest as [|b rest IH]; intros pre; simpl.
  { intros j. rewrite zlen_nil. lia. }
  specialize (IH (pre ++ [b])). rewrite zlen_app, <- !app_assoc in IH. change (zlen [b]) with 1 in IH.
  simpl in IH. rewrite zlen_cons. pose proof (zlen_nonneg rest).
  assert (Hb : beq b LF && empty_line_at (pre ++ b :: rest ++ post) (zlen pre) = eol (pre ++ b :: rest ++ post) (zlen pre)).
  { unfold eol. rewrite zget_middle. f_equal. destruct (beqP b LF); case_bool_decide; congruence. }
  rewrite Hb. destruct (eol _ (zlen pre)) eqn:E.
  - split_and!; [lia|lia|done|lia].
  - destruct (scan_trailers _ (zlen pre + 1) rest) as [k|].
    + destruct IH as (Hk & He & Hn). split_and!; [lia|lia|done|]. intros j Hj.
      destruct (decide (j = zlen pre)) as [->|]; [done|]. apply Hn. lia.
    + intros j Hj. destruct (decide (j = zlen pre)) as [->|]; [done|]. apply IH. lia.
Qed.

(** A field block: it ends with its first empty line. *)
Definition trailer_block (block : bytes) : Prop :=
  ends_with_empty_line block /\ forall j, 0 <= j < zlen block - 1 -> eol block j = false.

Lemma trailer_block_last block : trailer_block block -> 0 < zlen block /\ eol block (zlen block - 1) = true.
Proof.
  intros [H _]. destruct (ends_with_LF _ H) as (pre & E). assert (0 < zlen block).
  { subst. rewrite zlen_app. change (zlen [LF]) with 1. zl. }
  split; [done|]. apply eol_ends; [lia|]. rewrite ztake_all by lia. done.
Qed.

Section TrailerEnd.
Context (d : BodyDecoder).
Hypothesis (Hmax : 0 < max_trailer_bytes (limits d)).

(** The scan starts where it stopped: nothing before is the end of a block. *)
Definition no_eol_before (input : bytes) (scanned : Z) : Prop :=
  0 <= scanned <= zlen input /\ forall j, 0 <= j < scanned -> eol input j = false.

(** [trailer_end] resumed, over the whole input: the first empty line within
    the limit. *)
Lemma trailer_end_spec input scanned :
  no_eol_before input scanned ->
  match trailer_end d input scanned with
  | Ok (Some n, _) =>
      0 < n <= Z.min (zlen input) (max_trailer_bytes (limits d)) /\ eol input (n - 1) = true /\
      forall j, 0 <= j < n - 1 -> eol input j = false
  | Ok (None, s) => s = zlen input /\ no_eol_before input (zlen input) /\
      zlen input <= max_trailer_bytes (limits d)
  | Err e => e = DecodeErrorLimit DecodeLimitTrailerBytes /\
      max_trailer_bytes (limits d) < zlen input /\
      forall j, 0 <= j < max_trailer_bytes (limits d) -> eol input j = false
  end.
Proof.
  intros [Hs Hn]. unfold trailer_end.
  destruct (Z.ltb_spec (zlen input) scanned); [lia|].
  set (bounded := Z.min (zlen input) _). set (from := Z.min scanned bounded).
  assert (Hf : 0 <= from <= bounded /\ bounded <= zlen input) by lia.
  assert (E : input = ztake from input ++ zslice from bounded input ++ zdrop bounded input).
  { rewrite <- (ztake_zdrop from input) at 1. f_equal.
    rewrite <- (ztake_zdrop (bounded - from) (zdrop from input)) at 1. unfold zslice. f_equal.
    rewrite zdrop_zdrop by lia. f_equal. lia. }
  assert (El : zlen (ztake from input) = from) by (rewrite zlen_ztake; lia).
  assert (Es : zlen (zslice from bounded input) = bounded - from).
  { unfold zslice. rewrite zlen_ztake, zlen_zdrop by lia. lia. }
  pose proof (scan_trailers_spec (ztake from input) (zslice from bounded input) (zdrop bounded input)) as H'.
  rewrite <- E, El, Es in H'. destruct (scan_trailers _ _ _) as [k|].
  - destruct H' as (Hk & He & Hb). replace (k + 1 - 1) with k by lia. split_and!; try lia; [done|].
    intros j Hj. destruct (decide (j < from)); [apply Hn | apply Hb]; lia.
  - assert (Hall : forall j, 0 <= j < bounded -> eol input j = false).
    { intros j Hj. destruct (decide (j < from)); [apply Hn | apply H']; lia. }
    bcase; [split_and!; [done|lia|]; intros j Hj; apply Hall; lia|].
    split_and!; try lia. split; [lia|]. intros j Hj. apply Hall. lia.
Qed.

Lemma trailer_end_block block tail scanned :
  trailer_block block -> zlen block <= max_trailer_bytes (limits d) ->
  no_eol_before (block ++ tail) scanned -> exists s, trailer_end d (block ++ tail) scanned = Ok (Some (zlen block), s).
Proof.
  intros Hb Hl Hs. pose proof (trailer_block_last _ Hb) as [H0 He]. destruct Hb as [_ Hn].
  assert (Happ : forall j, 0 <= j < zlen block -> eol (block ++ tail) j = eol block j) by (intros; by apply eol_app).
  pose proof (trailer_end_spec _ _ Hs) as H'. rewrite <- Happ in He by lia.
  destruct (trailer_end d _ _) as [[[n|] s]|e].
  - exists s. destruct H' as (Hr & Hen & Hbefore). repeat f_equal.
    destruct (Z.lt_trichotomy n (zlen block)) as [?|[?|?]]; [|done|].
    + rewrite Happ, Hn in Hen by lia. done.
    + rewrite Hbefore in He by lia. done.
  - destruct H' as (_ & [_ Hno] & _). rewrite Hno in He by (rewrite zlen_app; zl). done.
  - destruct H' as (_ & _ & Hno). rewrite Hno in He by lia. done.
Qed.

Lemma trailer_end_partial block input more scanned :
  trailer_block block -> zlen block <= max_trailer_bytes (limits d) ->
  block = input ++ more -> more <> [] ->
  no_eol_before input scanned ->
  trailer_end d input scanned = Ok (None, zlen input) /\ no_eol_before input (zlen input).
Proof.
  intros [_ Hn] Hl -> Hm Hs. assert (0 < zlen more).
  { destruct more; [done|]. rewrite zlen_cons. zl. }
  rewrite zlen_app in *. pose proof (trailer_end_spec _ _ Hs) as H'.
  assert (Hno : forall j, 0 <= j < zlen input -> eol input j = false).
  { intros j Hj. rewrite <- (eol_app _ more) by lia. apply Hn. lia. }
  destruct (trailer_end d _ _) as [[[n|] s]|e].
  - destruct H' as (Hr & Hen & _). rewrite Hno in Hen by lia. done.
  - destruct H' as (-> & Hno' & _). done.
  - destruct H' as (_ & Hlt & _). zl.
Qed.

Lemma trailer_end_found input scanned n s :
  no_eol_before input scanned -> trailer_end d input scanned = Ok (Some n, s) ->
  zlen (ztake n input) = n /\ trailer_block (ztake n input) /\ n <= max_trailer_bytes (limits d).
Proof.
  intros Hs E. pose proof (trailer_end_spec _ _ Hs) as H'. rewrite E in H'.
  destruct H' as (Hr & He & Hn). pose proof (eol_range _ _ He).
  assert (El : zlen (ztake n input) = n) by (rewrite zlen_ztake; lia).
  split_and!; [done| |lia]. split.
  - apply eol_ends in He; [|done]. by replace (n - 1 + 1) with n in He by lia.
  - rewrite El. intros j Hj. rewrite <- (Hn j Hj). symmetry.
    rewrite <- (ztake_zdrop n input) at 1. apply eol_app. lia.
Qed.

End TrailerEnd.

(** * The wire grammar of a chunked body

    A declarative reading of the chunked coding under the decoder's limits:
    from a phase and the extension bytes charged so far, a byte string stands
    for a payload and trailers. It says nothing of buffers, scans or calls. *)

Inductive Phase : Type :=
| InSize
| InData (remaining : Z)
| InCrlf
| InTrailers.

Definition extension_len (line : bytes) : Z :=
  match position (fun b => beq b SEMI) line with
  | Some start => zlen line - start
  | None => 0
  end.

Definition extensions_fit (l : DecodeLimits) (charged : Z) (line : bytes) : Prop :=
  extension_len line = 0 \/ charged + extension_len line <= max_chunk_extension_bytes l.

Section Grammar.
Context {http : HttpCrate} {hp : Httparse}.

(** A well-formed size line. *)
Definition size_line (l : DecodeLimits) (charged : Z) (line : bytes) (size : Z) : Prop :=
  plain line /\ zlen line + 2 <= max_chunk_line_bytes l /\ chunk_line_size line = Ok size /\
  extensions_fit l charged line.

Inductive wire (l : DecodeLimits) : Phase -> Z -> bytes -> bytes -> HeaderMap -> Prop :=
| wire_chunk charged line size rest payload t :
    size_line l charged line size -> size <> 0 ->
    wire l (InData size) (charged + extension_len line) rest payload t ->
    wire l InSize charged (line ++ CR :: LF :: rest) payload t
| wire_last charged line rest payload t :
    size_line l charged line 0 ->
    wire l InTrailers (charged + extension_len line) rest payload t ->
    wire l InSize charged (line ++ CR :: LF :: rest) payload t
| wire_data n charged data rest payload t :
    zlen data = n -> 0 < n ->
    wire l InCrlf charged rest payload t ->
    wire l (InData n) charged (data ++ rest) (data ++ payload) t
| wire_crlf charged rest payload t :
    wire l InSize charged rest payload t ->
    wire l InCrlf charged (CR :: LF :: rest) payload t
| wire_trailers charged block t :
    trailer_block block -> zlen block <= max_trailer_bytes l ->
    parse_trailers block (max_trailers l) = Ok (zlen block, t) ->
    wire l InTrailers charged block [] t.

(** A chunked body: from the first size line, with nothing charged. *)
Definition chunked_body (l : DecodeLimits) (m payload : bytes) (t : HeaderMap) : Prop :=
  wire l InSize 0 m payload t.

End Grammar.

(** * Size lines *)

Definition wf_limits (l : DecodeLimits) : Prop :=
  0 < max_chunk_line_bytes l <= usize_max /\ 0 <= max_chunk_extension_bytes l <= usize_max /\
  0 < max_trailer_bytes l <= usize_max /\ 0 < max_trailers l <= usize_max.

Lemma extension_len_nonneg line : 0 <= extension_len line.
Proof.
  unfold extension_len. destruct (position _ line) as [i|] eqn:E; [|lia].
  apply position_Some in E as (l1 & x & l2 & -> & <- & _). rewrite zlen_app, zlen_cons. zl.
Qed.

Lemma charge_extensions_spec d line d' :
  wf_limits (limits d) ->
  charge_extensions d line = Ok d' <->
  extensions_fit (limits d) (extension_bytes d) line /\
  d' = mkBodyDecoder (state d) (limits d) (extension_bytes d + extension_len line) (trailer_workspace d).
Proof.
  intros Hw. unfold charge_extensions, extensions_fit, extension_len.
  destruct (position _ line) as [i|] eqn:E.
  - apply position_Some in E as (l1 & x & l2 & -> & <- & _). rewrite zlen_app, zlen_cons.
    pose proof (zlen_nonneg l2). unfold checked_add, wf_limits in *.
    set (len := _ - zlen l1). assert (0 < len) by lia.
    destruct (Z.leb_spec (extension_bytes d + len) usize_max); simpl;
      [destruct (Z.ltb_spec (max_chunk_extension_bytes (limits d)) (extension_bytes d + len))|].
    all: split; [intros; rinv; split; (lia || done)|intros [Hf ->]; (done || lia)].
  - destruct d as [st l ext tw]; simpl. rewrite Z.add_0_r. split; [intros; rinv; split; [lia|done]|].
    by intros [_ ->].
Qed.

Section ParseLine.
Context (d : BodyDecoder).
Hypothesis (Hw : wf_limits (limits d)).

(** The decoder with the extensions of [line] charged. *)
Definition charged (line : bytes) : BodyDecoder :=
  mkBodyDecoder (state d) (limits d) (extension_bytes d + extension_len line) (trailer_workspace d).

(** The first [scanned] bytes hold no line end. *)
Definition line_scanned (input : bytes) (scanned : Z) : Prop :=
  exists line cr rest, plain line /\ input = scanned_line line cr ++ rest /\ scanned = zlen (scanned_line line cr).

Lemma parse_chunk_line_inv input scanned d' r s :
  line_scanned input scanned -> parse_chunk_line d input scanned = Ok (d', r, s) ->
  match r with
  | Some (size, consumed) =>
      exists line tail, input = line ++ CR :: LF :: tail /\ consumed = zlen line + 2 /\
        size_line (limits d) (extension_bytes d) line size /\ d' = charged line
  | None => d' = d /\ s = zlen input /\ line_scanned input (zlen input)
  end.
Proof.
  intros (line & cr & rest & Hl & -> & ->) H. unfold parse_chunk_line in H.
  pose proof (scan_chunk_line_spec line cr rest Hl) as Hs. cbv zeta in Hs.
  set (done_ := scanned_line line cr) in *.
  destruct (Z.ltb_spec (zlen (done_ ++ rest)) (zlen done_)); [rewrite zlen_app in *; zl|].
  rewrite zdrop_app_zlen in H. destruct (scan_chunk_line _ _ rest) as [[k|]|e]; simpl in H; [| |done].
  - destruct Hs as (l & tail & E & Hp & ->). bcase; [done|]. rewrite E in H.
    rewrite ztake_app_le, ztake_all in H by lia.
    apply rbind_ok in H as (n & Hn & H). apply rbind_ok in H as (d1 & Hc & H). rinv.
    apply charge_extensions_spec in Hc as [Hf ->]; [|done].
    exists l, tail. split_and!; [done|lia| |done]. split_and!; [done|lia|done|done].
  - destruct Hs as (l & c & E & Hp). bcase; [done|]. rinv. split_and!; [done|done|].
    exists l, c, []. rewrite app_nil_r, <- E. done.
Qed.

Lemma parse_chunk_line_full line tail size scanned :
  size_line (limits d) (extension_bytes d) line size ->
  line_scanned (line ++ CR :: LF :: tail) scanned ->
  parse_chunk_line d (line ++ CR :: LF :: tail) scanned = Ok (charged line, Some (size, zlen line + 2), 0).
Proof.
  intros (Hp & Hlen & Hsize & Hfit) (l0 & cr & rest & Hl & Ei & ->). unfold parse_chunk_line.
  pose proof (scan_chunk_line_spec l0 cr rest Hl) as Hs. cbv zeta in Hs. rewrite Ei.
  set (done_ := scanned_line l0 cr) in *.
  destruct (Z.ltb_spec (zlen (done_ ++ rest)) (zlen done_)); [rewrite zlen_app in *; zl|].
  rewrite zdrop_app_zlen. destruct (scan_chunk_line _ _ rest) as [[k|]|e]; simpl.
  - destruct Hs as (l & t & E & Hp' & ->). rewrite <- Ei in E.
    apply plain_split in E as (<- & _ & E); auto. bcase; [lia|].
    rewrite <- Ei, ztake_app_le, ztake_all, Hsize by lia. simpl.
    assert (charge_extensions d line = Ok (charged line)) as -> by (by apply charge_extensions_spec).
    simpl. by replace (zlen line + 1 + 1) with (zlen line + 2) by lia.
  - destruct Hs as (l & c & E & Hp'). rewrite <- Ei in E. exfalso. unfold scanned_line in E.
    destruct c; [|rewrite app_nil_r in E; rewrite <- E in Hp'; by eapply plain_not_in; eauto].
    by apply plain_split in E as (_ & _ & E); auto.
  - destruct Hs as (_ & Hno & _). exfalso. by apply (Hno line tail Hp).
Qed.

Lemma parse_chunk_line_partial line size input more scanned :
  size_line (limits d) (extension_bytes d) line size ->
  line ++ [CR; LF] = input ++ more -> more <> [] ->
  line_scanned input scanned ->
  parse_chunk_line d input scanned = Ok (d, None, zlen input) /\ line_scanned input (zlen input).
Proof.
  intros (Hp & Hlen & _ & _) E Hm (l0 & cr & rest & Hl & -> & ->). unfold parse_chunk_line.
  assert (Hpre : exists c l, plain l /\ scanned_line l0 cr ++ rest = scanned_line l c).
  { destruct more as [|b more _] using rev_ind; [done|]. rewrite app_assoc in E.
    replace (line ++ [CR; LF]) with ((line ++ [CR]) ++ [LF]) in E by (by rewrite <- app_assoc).
    apply app_inj_tail in E as [E _].
    destruct more as [|b' more _] using rev_ind.
    - exists true, line. rewrite app_nil_r in E. done.
    - rewrite app_assoc in E. apply app_inj_tail in E as [E _]. exists false, (scanned_line l0 cr ++ rest).
      split; [|symmetry; apply app_nil_r]. rewrite E in Hp. by apply Forall_app in Hp as [? _]. }
  pose proof (scan_chunk_line_spec l0 cr rest Hl) as Hs. cbv zeta in Hs.
  assert (Hlen' : zlen (scanned_line l0 cr ++ rest) <= max_chunk_line_bytes (limits d)).
  { assert (zlen (line ++ [CR; LF]) = zlen line + 2) by (rewrite zlen_app; done).
    rewrite E, !zlen_app in *. zl. }
  set (done_ := scanned_line l0 cr) in *.
  destruct (Z.ltb_spec (zlen (done_ ++ rest)) (zlen done_)); [rewrite zlen_app in *; zl|].
  rewrite zdrop_app_zlen. destruct Hpre as (c & l & Hpl & El).
  destruct (scan_chunk_line _ _ rest) as [[k|]|e]; simpl.
  - destruct Hs as (l' & t & E' & Hp' & _). exfalso. rewrite El in E'. unfold scanned_line in E'.
    destruct c; [|rewrite app_nil_r in E'; rewrite E' in Hpl; by eapply plain_not_in; eauto].
    by apply plain_split in E' as (_ & _ & E'); auto.
  - bcase; [lia|]. split; [done|]. exists l, c, []. rewrite app_nil_r, <- El. done.
  - destruct Hs as (_ & _ & Hno). by apply Hno in El.
Qed.

End ParseLine.

(** * From decoder states to the grammar *)

Lemma app_split {A} (buf fut x y : list A) :
  buf ++ fut = x ++ y ->
  (exists b, buf = x ++ b /\ b ++ fut = y) \/
  (exists more, more <> [] /\ x = buf ++ more /\ fut = more ++ y).
Proof.
  revert x. induction buf as [|a buf IH]; intros x E; simpl in *.
  - destruct x as [|b x]; [left; by exists []|]. right. by exists (b :: x).
  - destruct x as [|b x]; simpl in *; [left; by exists (a :: buf)|].
    injection E as -> [(c & -> & E)|(more & ? & -> & ->)]%IH; [left; by exists c | right; by exists more].
Qed.

Lemma line_scanned_app input more s : line_scanned input s -> line_scanned (input ++ more) s.
Proof. intros (l & c & r & ? & -> & ->). exists l, c, (r ++ more). by rewrite app_assoc. Qed.

Lemma no_eol_before_app input more s : no_eol_before input s -> no_eol_before (input ++ more) s.
Proof.
  intros [Hs Hn]. split; [rewrite zlen_app; zl|]. intros j Hj. rewrite eol_app by lia. by apply Hn.
Qed.

Lemma line_scanned_0 input : line_scanned input 0.
Proof. exists [], false, input. by split_and!; [constructor|..]. Qed.

Lemma no_eol_before_0 input : no_eol_before input 0.
Proof. pose proof (zlen_nonneg input). split; [lia | intros; lia]. Qed.

Definition phase (st : ChunkState) : Phase :=
  match st with
  | Size _ => InSize
  | Data n => InData n
  | DataCrlf => InCrlf
  | Trailers _ => InTrailers
  end.

(** What the saved scan position means for the retained buffer. *)
Definition scan_ok (st : ChunkState) (buffer : bytes) : Prop :=
  match st with
  | Size s => line_scanned buffer s
  | Data n => 0 < n
  | DataCrlf => True
  | Trailers s => no_eol_before buffer s
  end.

Lemma scan_ok_app st buffer more : scan_ok st buffer -> scan_ok st (buffer ++ more).
Proof. destruct st; simpl; auto using line_scanned_app, no_eol_before_app. Qed.

Definition dec_ok (l : DecodeLimits) (d : BodyDecoder) : Prop :=
  limits d = l /\ wf_limits l /\ default (max_trailers l) (trailer_workspace d) = max_trailers l.

Lemma dec_ok_set_state l d s : dec_ok l d -> dec_ok l (set_state d s).
Proof. done. Qed.

Lemma dec_ok_charged l d line : dec_ok l d -> dec_ok l (charged d line).
Proof. done. Qed.

#[export] Hint Resolve scan_ok_app dec_ok_set_state dec_ok_charged line_scanned_0 no_eol_before_0 : vakya.

Section Steps.
Context {http : HttpCrate} {hp : Httparse} {laws : HttparseLaws hp}.
Context (l : DecodeLimits).

Lemma wire_nonempty ph ext m p t : wire l ph ext m p t -> m <> [].
Proof.
  destruct 1 as [? line|? line|? ? data|?|? block t Hb]; try done; try by destruct line.
  - destruct data; [rewrite zlen_nil in *; lia | done].
  - intros ->. destruct Hb as [[?|[?|([] & [?|?])]] _]; done.
Qed.

(** [decode_trailers] reads a field block and stops exactly at its end. *)
Lemma parse_trailers_block block slots n t :
  trailer_block block -> parse_trailers block slots = Ok (n, t) -> n = zlen block.
Proof.
  intros Hb H. unfold parse_trailers in H.
  destruct (hp_parse_headers block slots) as [[c hs]| |[]] eqn:E; try done.
  destruct (own_headers hs) as [m|[]]; try done. rinv.
  apply law_headers_consumed in E as [Hr He]. destruct Hb as [_ Hn].
  destruct (decide (n = zlen block)); [done|]. exfalso.
  assert (eol block (n - 1) = true); [|by rewrite Hn in H by lia].
  apply eol_ends; [lia|]. by replace (n - 1 + 1) with n by lia.
Qed.

(** With retained [buffer] and future input [fut], the decoder is about to read
    the rest of a body with payload [p] and trailers [t], then [excess]. *)
Definition resumes (d : BodyDecoder) (st : ChunkState) (buffer fut excess p : bytes) (t : HeaderMap) : Prop :=
  dec_ok l d /\ scan_ok st buffer /\
  exists m, wire l (phase st) (extension_bytes d) m p t /\ buffer ++ fut = m ++ excess.

Lemma resumes_more d st buffer f fut excess p t :
  resumes d st buffer (f ++ fut) excess p t -> resumes d st (buffer ++ f) fut excess p t.
Proof.
  intros (? & ? & m & ? & E). split; [done|]. split; [by apply scan_ok_app|].
  exists m. by rewrite <- app_assoc.
Qed.

(** What a call may answer on the way through such a body. *)
Definition call_good (eof : bool) (input fut excess p : bytes) (t : HeaderMap)
    (r : BodyDecoder * result DecodeOutcome DecodeError) : Prop :=
  match r with
  | (d, Ok (NeedMore c)) =>
      eof = false /\ fut <> [] /\ 0 <= c <= zlen input /\
      exists st, state d = ChunkedState st /\ resumes d st (zdrop c input) fut excess p t
  | (d, Ok (OutData s e c)) =>
      0 <= s < c /\ e = c /\ c <= zlen input /\
      exists st q, p = zslice s e input ++ q /\ state d = ChunkedState st /\
        resumes d st (zdrop c input) fut excess q t
  | (d, Ok (OutTrailers t' c)) =>
      state d = Done /\ t' = t /\ p = [] /\ 0 <= c <= zlen input /\ zdrop c input ++ fut = excess
  | (_, Ok (OutEnd _)) => False
  | (_, Err e) => eof = true /\ e = UnexpectedEof /\ fut <> []
  end.

Definition turn_good (cursor : Z) (eof : bool) (input fut excess p : bytes) (t : HeaderMap) (r : Turn) : Prop :=
  match r with
  | Continue d st c => cursor < c <= zlen input /\ resumes d st (zdrop c input) fut excess p t
  | Return r => call_good eof input fut excess p t r
  end.

Lemma cursor_split (input x b : bytes) cursor :
  0 <= cursor <= zlen input -> zdrop cursor input = x ++ b ->
  0 <= cursor + zlen x <= zlen input /\ zdrop (cursor + zlen x) input = b.
Proof.
  intros Hc E. pose proof (zlen_nonneg x). rewrite <- zdrop_zdrop, E, zdrop_app_zlen by lia. split; [|done].
  apply (f_equal zlen) in E. rewrite zlen_zdrop, zlen_app in E by lia. zl.
Qed.

Lemma wire_InSize ext m p t :
  wire l InSize ext m p t ->
  exists line size rest, m = (line ++ [CR; LF]) ++ rest /\ size_line l ext line size /\
    wire l (if size =? 0 then InTrailers else InData size) (ext + extension_len line) rest p t.
Proof.
  intros H. inversion H; subst.
  - exists line, size, rest. rewrite <- app_assoc. bcase; [lia|done].
  - exists line, 0, rest. rewrite <- app_assoc. done.
Qed.

Lemma chunk_size_nonneg line size : chunk_line_size line = Ok size -> 0 <= size.
Proof.
  unfold chunk_line_size. case_match eqn:E; [done|]. intros H'. apply rbind_ok in H' as (n & Hf & H').
  rinv. apply orb_false_iff in E as [_ E]. apply negb_false_iff in E. revert E Hf.
  generalize (trim_end (ztake (default (zlen line) (position (λ b, beq b SEMI) line)) line)) as ds.
  clear. assert (Hg : forall ds v n, 0 <= v -> forallb is_ascii_hexdigit ds = true -> hex_fold v ds = Ok n -> 0 <= n).
  { induction ds as [|b ds IH]; intros v n Ha Hd Hf; simpl in *; [by rinv|].
    apply andb_true_iff in Hd as [Hb Hd].
    unfold checked_mul, checked_add in Hf. repeat case_match; try done.
    eapply IH; [|done..]. simplify_eq. 
    assert (0 <= hex b); [|lia]. revert Hb. clear. by destruct b. }
  intros ds Hd Hf. by eapply Hg.
Qed.

Lemma turn_size d scanned cursor input eof fut excess p t :
  0 <= cursor <= zlen input -> resumes d (Size scanned) (zdrop cursor input) fut excess p t ->
  turn_good cursor eof input fut excess p t (chunk_turn d (Size scanned) cursor input eof).
Proof.
  intros Hc (Hok & Hs & m & (line & size & rest & -> & Hline & Hw)%wire_InSize & E). simpl in *.
  pose proof Hok as (Hl & Hwf & _). rewrite <- Hl in Hline, Hwf. rewrite <- app_assoc in E.
  destruct (app_split _ _ _ _ E) as [(b & Eb & Eb')|(more & Hm & Ex & Ef)].
  - assert (El : (line ++ [CR; LF]) ++ b = line ++ CR :: LF :: b) by (by rewrite <- app_assoc).
    rewrite Eb, El in Hs |- *.
    rewrite (parse_chunk_line_full d Hwf line b size scanned Hline Hs). simpl.
    destruct (cursor_split _ _ _ _ Hc Eb) as [Hc' Ed].
    rewrite zlen_app in Hc', Ed. change (zlen [CR; LF]) with 2 in *.
    pose proof (zlen_nonneg line). split; [lia|]. rewrite Ed.
    split; [done|]. split; [|exists rest; split; [|done]].
    + pose proof Hline as (_ & _ & Hsz & _). apply chunk_size_nonneg in Hsz.
      bcase; simpl; [apply no_eol_before_0 | lia].
    + bcase; exact Hw.
  - destruct (parse_chunk_line_partial d line size _ more scanned Hline Ex Hm Hs) as [-> Hs'].
    simpl. assert (Hf : fut <> []) by (rewrite Ef; by destruct more).
    destruct eof; simpl; [done|]. split_and!; [done|done|lia|lia|].
    eexists; split; [done|]. split; [done|]. split; [done|]. simpl.
    exists ((line ++ [CR; LF]) ++ rest). rewrite <- !app_assoc in *. split; [|done]. simpl.
    rewrite <- Hl in *. destruct (Z.eqb_spec size 0); subst; [eapply wire_last | eapply wire_chunk]; done.
Qed.

Lemma turn_data d n cursor input eof fut excess p t :
  0 <= cursor <= zlen input -> resumes d (Data n) (zdrop cursor input) fut excess p t ->
  turn_good cursor eof input fut excess p t (chunk_turn d (Data n) cursor input eof).
Proof.
  intros Hc (Hok & Hs & m & Hw & E). inversion Hw; subst; simpl in *.
  assert (Hlen : zlen (zdrop cursor input) = zlen input - cursor) by (rewrite zlen_zdrop; lia).
  destruct (Z.eqb_spec cursor (zlen input)) as [->|Hne].
  { assert (Hf : fut <> []).
    { intros ->. rewrite zdrop_all, <- app_assoc in E by lia. destruct data; [rewrite zlen_nil in *; lia | done]. }
    destruct eof; simpl; [done|]. split_and!; [done|done|lia|lia|].
    eexists; split; [done|]. split; [done|]. split; [done|]. by eexists. }
  rewrite <- app_assoc in E.
  destruct (app_split _ _ _ _ E) as [(b & Eb & Eb')|(more & Hm & -> & Ef)].
  - assert (Hd : zlen data <= zlen input - cursor) by (rewrite <- Hlen, Eb, zlen_app; zl).
    rewrite Z.min_r, Z.sub_diag by lia. simpl.
    destruct (cursor_split _ _ _ _ Hc Eb) as [Hc' Ed].
    split_and!; [lia|lia|done|lia|]. eexists _, payload. split; [|split; [done|]].
    + unfold zslice. replace (cursor + zlen data - cursor) with (zlen data) by lia.
      by rewrite Eb, ztake_app_zlen.
    + rewrite Ed. split; [done|]. split; [done|]. by exists rest.
  - rewrite zlen_app in *. assert (0 < zlen more).
    { destruct more; [done|]. rewrite zlen_cons. zl. }
    rewrite Z.min_l by lia. rewrite <- Hlen.
    replace (zlen (zdrop cursor input) + zlen more - _) with (zlen more) by lia.
    destruct (Z.eqb_spec (zlen more) 0); [lia|]. simpl.
    split_and!; [lia|lia|done|lia|]. eexists _, (more ++ payload). split; [|split; [done|]].
    + unfold zslice. rewrite app_assoc. f_equal. by rewrite ztake_all by lia.
    + rewrite zdrop_all by lia. split; [done|]. split; [done|].
      exists (more ++ rest). split; [by eapply wire_data|]. by rewrite <- app_assoc.
Qed.

Lemma turn_crlf d cursor input eof fut excess p t :
  0 <= cursor <= zlen input -> resumes d DataCrlf (zdrop cursor input) fut excess p t ->
  turn_good cursor eof input fut excess p t (chunk_turn d DataCrlf cursor input eof).
Proof.
  intros Hc (Hok & Hs & m & Hw & E). inversion Hw; subst. cbn [chunk_turn].
  destruct (app_split _ _ [CR; LF] (rest ++ excess) E) as [(b & Eb & Eb')|(more & Hm & Ex & Ef)].
  - rewrite Eb. destruct (Z.ltb_spec (zlen ([CR; LF] ++ b)) 2); [rewrite zlen_app in *; change (zlen [CR; LF]) with 2 in *; zl|].
    simpl. destruct (cursor_split _ _ _ _ Hc Eb) as [Hc' Ed]. change (zlen [CR; LF]) with 2 in *.
    split; [lia|]. rewrite Ed. split; [done|]. split; [apply line_scanned_0|]. by exists rest.
  - assert (Hf : fut <> []) by (rewrite Ef; by destruct more).
    assert (Hrem : zdrop cursor input = [] \/ zdrop cursor input = [CR]).
    { destruct (zdrop cursor input) as [|a [|b r]]; [by left|simplify_eq/=; by right|].
      destruct r, more; simplify_eq/=. }
    destruct (Z.ltb_spec (zlen (zdrop cursor input)) 2) as [_|Hge];
      [|destruct Hrem as [Hr|Hr]; rewrite Hr in Hge; done].
    assert ((match head (zdrop cursor input) with Some b => negb (beq b CR) | None => false end) = false) as ->
      by (destruct Hrem as [->| ->]; done).
    destruct eof; [done|]. split_and!; [done|done|lia|lia|].
    eexists; split; [done|]. split; [done|]. split; [done|]. by exists (CR :: LF :: rest).
Qed.

Lemma turn_trailers d scanned cursor input eof fut excess p t :
  0 <= cursor <= zlen input -> resumes d (Trailers scanned) (zdrop cursor input) fut excess p t ->
  turn_good cursor eof input fut excess p t (chunk_turn d (Trailers scanned) cursor input eof).
Proof.
  intros Hc (Hok & Hs & m & Hw & E). inversion Hw as [| | | |? ? ? Hb Hmax Hparse]; subst. simpl in *.
  pose proof Hok as (Hl & Hwf & Hslots). rewrite <- Hl in Hmax.
  assert (Hpos : 0 < max_trailer_bytes (limits d)) by (rewrite Hl; apply Hwf).
  unfold decode_trailers.
  destruct (app_split _ _ _ _ E) as [(b & Eb & Eb')|(more & Hm & Ex & Ef)].
  - rewrite Eb in *. destruct (trailer_end_block d Hpos m b scanned Hb Hmax Hs) as (s & ->).
    rewrite ztake_app_zlen, Hl, Hslots, Hparse. simpl.
    destruct (cursor_split _ _ _ _ Hc Eb) as [Hc' Ed]. rewrite Ed. done.
  - destruct (trailer_end_partial d Hpos m _ more scanned Hb Hmax Ex Hm Hs) as [-> Hs'].
    assert (Hf : fut <> []) by (rewrite Ef; by destruct more).
    destruct eof; [done|]. split_and!; [done|done|lia|lia|].
    eexists; split; [done|]. split; [done|]. split; [done|]. by exists m.
Qed.

Lemma turn_forward d st cursor input eof fut excess p t :
  0 <= cursor <= zlen input -> resumes d st (zdrop cursor input) fut excess p t ->
  turn_good cursor eof input fut excess p t (chunk_turn d st cursor input eof).
Proof. destruct st; [apply turn_size | apply turn_data | apply turn_crlf | apply turn_trailers]. Qed.

(** At most three turns: how many a state may still take. *)
Definition turns_left (st : ChunkState) : nat :=
  match st with
  | DataCrlf => 3
  | Size _ => 2
  | Data _ | Trailers _ => 1
  end.

Lemma chunk_turn_decreases d st cursor input eof d' st' c' :
  chunk_turn d st cursor input eof = Continue d' st' c' -> (turns_left st' < turns_left st)%nat.
Proof.
  destruct st; simpl.
  - destruct (parse_chunk_line _ _ _) as [[[? [[size ?]|]] ?]|]; [|destruct eof|]; try done.
    intros ?. simplify_eq. destruct (size =? 0); simpl; lia.
  - repeat case_match; done.
  - repeat case_match; try done. intros ?. simplify_eq. simpl. lia.
  - done.
Qed.

(** The turn bound is never what ends the loop. *)
Lemma decode_chunked_turns fuel fuel' d st cursor input eof :
  (turns_left st <= fuel)%nat -> (turns_left st <= fuel')%nat ->
  decode_chunked_loop fuel d st cursor input eof = decode_chunked_loop fuel' d st cursor input eof.
Proof.
  revert fuel' d st cursor. induction fuel as [|fuel IH]; intros fuel' d st cursor H1 H2; [by destruct st; simpl in H1; lia|].
  destruct fuel' as [|fuel']; [by destruct st; simpl in H2; lia|]. simpl.
  destruct (chunk_turn d st cursor input eof) as [d' st' c'|r] eqn:E; [|done].
  apply chunk_turn_decreases in E. apply IH; lia.
Qed.

Lemma loop_forward fuel d st cursor input eof fut excess p t :
  (turns_left st <= fuel)%nat -> 0 <= cursor <= zlen input ->
  resumes d st (zdrop cursor input) fut excess p t ->
  call_good eof input fut excess p t (decode_chunked_loop fuel d st cursor input eof).
Proof.
  revert d st cursor. induction fuel as [|fuel IH]; intros d st cursor Hf Hc Hr;
    [by destruct st; simpl in Hf; lia|]. simpl.
  pose proof (turn_forward d st cursor input eof fut excess p t Hc Hr) as Hg.
  destruct (chunk_turn d st cursor input eof) as [d' st' c'|r] eqn:E; [|done].
  apply chunk_turn_decreases in E. destruct Hg as [Hc' Hr']. apply IH; [lia|lia|done].
Qed.

Lemma decode_forward d st input eof fut excess p t :
  state d = ChunkedState st -> resumes d st input fut excess p t ->
  call_good eof input fut excess p t (decode d input eof).
Proof.
  intros Es Hr. unfold decode. rewrite Es. apply loop_forward; [destruct st; simpl; lia|zl|].
  by rewrite zdrop_0 by lia.
Qed.

End Steps.

Lemma zslice_prefix (input x b : bytes) cursor :
  0 <= cursor -> zdrop cursor input = x ++ b -> zslice cursor (cursor + zlen x) input = x.
Proof.
  intros Hc E. unfold zslice. rewrite E. replace (cursor + zlen x - cursor) with (zlen x) by lia.
  apply ztake_app_zlen.
Qed.

Section Soundness.
Context {http : HttpCrate} {hp : Httparse} {laws : HttparseLaws hp}.
Context (l : DecodeLimits).

(** Reading [x] and delivering [q] moves from one phase to another. *)
Definition leads (ph : Phase) (ext : Z) (x q : bytes) (ph' : Phase) (ext' : Z) : Prop :=
  forall m p t, wire l ph' ext' m p t -> wire l ph ext (x ++ m) (q ++ p) t.

Lemma leads_refl ph ext : leads ph ext [] [] ph ext.
Proof. by intros m p t H. Qed.

Lemma leads_trans ph ext x q ph1 ext1 y r ph2 ext2 :
  leads ph ext x q ph1 ext1 -> leads ph1 ext1 y r ph2 ext2 -> leads ph ext (x ++ y) (q ++ r) ph2 ext2.
Proof. intros H1 H2 m p t H. rewrite <- !app_assoc. by apply H1, H2. Qed.

Definition steady (d : BodyDecoder) (st : ChunkState) (buffer : bytes) : Prop :=
  dec_ok l d /\ scan_ok st buffer.

Lemma steady_more d st buffer f : steady d st buffer -> steady d st (buffer ++ f).
Proof. intros []. split; auto with vakya. Qed.

Definition call_sound (ph : Phase) (ext cursor : Z) (input : bytes) (eof : bool)
    (r : BodyDecoder * result DecodeOutcome DecodeError) : Prop :=
  match r with
  | (d, Ok (NeedMore c)) =>
      eof = false /\ cursor <= c <= zlen input /\
      exists st, state d = ChunkedState st /\ steady d st (zdrop c input) /\
        leads ph ext (zslice cursor c input) [] (phase st) (extension_bytes d)
  | (d, Ok (OutData s e c)) =>
      cursor <= s < e /\ e = c /\ c <= zlen input /\
      exists st, state d = ChunkedState st /\ steady d st (zdrop c input) /\
        leads ph ext (zslice cursor c input) (zslice s e input) (phase st) (extension_bytes d)
  | (d, Ok (OutTrailers t c)) =>
      state d = Done /\ cursor <= c <= zlen input /\ wire l ph ext (zslice cursor c input) [] t
  | (_, Ok (OutEnd _)) => False
  | (d, Err e) => state d = Failed e
  end.

Definition turn_sound (ph : Phase) (ext cursor : Z) (input : bytes) (eof : bool) (r : Turn) : Prop :=
  match r with
  | Continue d st c =>
      cursor < c <= zlen input /\ steady d st (zdrop c input) /\
      leads ph ext (zslice cursor c input) [] (phase st) (extension_bytes d)
  | Return r => call_sound ph ext cursor input eof r
  end.

Lemma turn_backward d st cursor input eof :
  0 <= cursor <= zlen input -> steady d st (zdrop cursor input) ->
  turn_sound (phase st) (extension_bytes d) cursor input eof (chunk_turn d st cursor input eof).
Proof.
  intros Hc [Hok Hs]. pose proof Hok as (Hl & Hwf & Hslots). destruct st as [scanned|n| |scanned]; simpl in *.
  - destruct (parse_chunk_line d (zdrop cursor input) scanned) as [[[d' r] s]|e] eqn:E; [|done].
    rewrite <- Hl in Hwf. apply (parse_chunk_line_inv d Hwf) in E; [|done].
    destruct r as [[size consumed]|].
    + destruct E as (line & tail & Ei & -> & Hline & ->).
      replace (line ++ CR :: LF :: tail) with ((line ++ [CR; LF]) ++ tail) in Ei by (by rewrite <- app_assoc).
      destruct (cursor_split _ _ _ _ Hc Ei) as [Hc' Ed]. apply zslice_prefix in Ei; [|lia].
      rewrite zlen_app in *. change (zlen [CR; LF]) with 2 in *. pose proof (zlen_nonneg line).
      split; [lia|]. rewrite Ed, Ei. pose proof Hline as (_ & _ & Hsz & _). apply chunk_size_nonneg in Hsz.
      rewrite Hl in Hline. split.
      * split; [done|]. bcase; simpl; [apply no_eol_before_0|lia].
      * intros m p t Hw. rewrite <- app_assoc. simpl.
        destruct (Z.eqb_spec size 0); subst; [eapply wire_last | eapply wire_chunk]; done.
    + destruct E as (-> & -> & Hs'). destruct eof; simpl; [done|]. split_and!; [done|lia|lia|].
      eexists; split; [done|]. split; [done|]. rewrite zslice_self. apply leads_refl.
  - assert (Hlen : zlen (zdrop cursor input) = zlen input - cursor) by (rewrite zlen_zdrop; lia).
    destruct (Z.eqb_spec cursor (zlen input)) as [->|Hne].
    { destruct eof; simpl; [done|]. split_and!; [done|lia|lia|].
      eexists; split; [done|]. split; [done|]. rewrite zslice_self. apply leads_refl. }
    set (count := Z.min (zlen input - cursor) n). simpl. split_and!; [lia|lia|done|lia|].
    eexists; split; [done|].
    assert (Hx : zlen (zslice cursor (cursor + count) input) = count).
    { unfold zslice. rewrite zlen_ztake by lia. lia. }
    destruct (Z.eqb_spec (n - count) 0); (split; [by split; simpl; [|try lia]|]); intros m p t Hw; simpl in *.
    + apply wire_data; [lia|lia|done].
    + inversion Hw; subst. rewrite !app_assoc. apply wire_data; [rewrite zlen_app; lia|lia|done].
  - set (rem := zdrop cursor input) in *. destruct (Z.ltb_spec (zlen rem) 2).
    + case_match; [done|]. destruct eof; [done|]. split_and!; [done|lia|lia|].
      eexists; split; [done|]. split; [done|]. rewrite zslice_self. apply leads_refl.
    + destruct (bytes_eqb (ztake 2 rem) [CR; LF]) eqn:E; [|done]. simpl. apply bytes_eqb_true in E.
      assert (Er : zdrop cursor input = [CR; LF] ++ zdrop 2 rem) by (by rewrite <- E, ztake_zdrop).
      destruct (cursor_split _ _ _ _ Hc Er) as [Hc' Ed]. apply zslice_prefix in Er; [|lia].
      change (zlen [CR; LF]) with 2 in *. rewrite Er, Ed. split; [lia|].
      split; [split; [done | apply line_scanned_0]|]. intros m p t Hw. by apply wire_crlf.
  - assert (Hpos : 0 < max_trailer_bytes (limits d)) by (rewrite Hl; apply Hwf).
    unfold decode_trailers. destruct (trailer_end d (zdrop cursor input) scanned) as [[[n|] s]|e] eqn:E; [| |done].
    + apply (trailer_end_found d Hpos) in E as (En & Hb & Hmax); [|done].
      rewrite Hl, Hslots. destruct (parse_trailers _ _) as [[c t]|e] eqn:Ep; [|done]. simpl.
      pose proof (parse_trailers_block _ _ _ _ Hb Ep) as Hcn. rewrite En in Hcn. subst c.
      assert (Er : zdrop cursor input = ztake n (zdrop cursor input) ++ zdrop n (zdrop cursor input)) by (by rewrite ztake_zdrop).
      destruct (cursor_split _ _ _ _ Hc Er) as [Hc' _]. apply zslice_prefix in Er; [|lia].
      rewrite En in Hc', Er. pose proof (zlen_nonneg (ztake n (zdrop cursor input))).
      split_and!; [done|lia|lia|]. rewrite Er. apply wire_trailers; [done|by rewrite En, <- Hl|]. by rewrite En.
    + pose proof (trailer_end_spec d Hpos _ _ Hs) as H'. rewrite E in H'. destruct H' as (-> & Hs' & _).
      destruct eof; [done|]. split_and!; [done|lia|lia|].
      eexists; split; [done|]. split; [done|]. rewrite zslice_self. apply leads_refl.
Qed.

Lemma call_sound_trans ph ext cursor c ph' ext' input eof r :
  0 <= cursor <= c -> leads ph ext (zslice cursor c input) [] ph' ext' ->
  call_sound ph' ext' c input eof r -> call_sound ph ext cursor input eof r.
Proof.
  intros Hc Hl. destruct r as [d [[n|s e n|t n|n]|e]]; simpl; [| | |done|done].
  - intros (? & ? & st & ? & ? & H). split_and!; [done|lia|lia|]. exists st. split_and!; [done..|].
    rewrite <- (zslice_app_slices input cursor c n) by lia. apply (leads_trans _ _ _ [] _ _ _ [] _ _ Hl H).
  - intros (? & ? & ? & st & ? & ? & H). split_and!; [lia|lia|done|lia|]. exists st. split_and!; [done..|].
    rewrite <- (zslice_app_slices input cursor c n) by lia. apply (leads_trans _ _ _ [] _ _ _ _ _ _ Hl H).
  - intros (? & ? & H). split_and!; [done|lia|lia|].
    rewrite <- (zslice_app_slices input cursor c n) by lia. apply (Hl _ [] _ H).
Qed.

Lemma loop_backward fuel d st cursor input eof :
  (turns_left st <= fuel)%nat -> 0 <= cursor <= zlen input -> steady d st (zdrop cursor input) ->
  call_sound (phase st) (extension_bytes d) cursor input eof (decode_chunked_loop fuel d st cursor input eof).
Proof.
  revert d st cursor. induction fuel as [|fuel IH]; intros d st cursor Hf Hc Hr;
    [by destruct st; simpl in Hf; lia|]. simpl.
  pose proof (turn_backward d st cursor input eof Hc Hr) as Hg.
  destruct (chunk_turn d st cursor input eof) as [d' st' c'|r] eqn:E; [|done].
  apply chunk_turn_decreases in E. destruct Hg as (Hc' & Hr' & Hl).
  eapply call_sound_trans; [|exact Hl|]; [lia|]. apply IH; [lia|lia|done].
Qed.

Lemma decode_backward d st input eof :
  state d = ChunkedState st -> steady d st input ->
  call_sound (phase st) (extension_bytes d) 0 input eof (decode d input eof).
Proof.
  intros Es Hr. unfold decode. rewrite Es. apply loop_backward; [destruct st; simpl; lia|zl|].
  by rewrite zdrop_0 by lia.
Qed.

(** * The whole body, over any fragmentation *)

(** How many calls the loop makes at most: every payload call consumes input,
    every other call takes a fragment or the end of the transport. *)
Definition calls (buffer : bytes) (frags : list bytes) (eof : bool) : Z :=
  zlen buffer + zlen (concat frags) + zlen frags + (if eof then 1 else 2).

Lemma drive_forward fuel d st buffer frags eof acc missing excess p t :
  state d = ChunkedState st -> calls buffer frags eof <= Z.of_nat fuel ->
  resumes l d st buffer (concat frags ++ missing) excess p t ->
  (eof = true -> frags = []) ->
  (exists rest unread, drive fuel d buffer frags eof acc = Finished (acc ++ p) (Some t) rest unread /\
     rest ++ concat unread ++ missing = excess) \/
  (missing <> [] /\ exists q, drive fuel d buffer frags eof acc = DriveFailed (acc ++ q) UnexpectedEof).
Proof.
  revert d st buffer frags eof acc p.
  induction fuel as [|fuel IH]; intros d st buffer frags eof acc p Es Hf Hr He; unfold calls in Hf.
  { pose proof (zlen_nonneg (concat frags)). destruct eof; zl. }
  pose proof (decode_forward l d st buffer eof _ excess p t Es Hr) as Hg. simpl.
  destruct (decode d buffer eof) as [d' [[c|s e c|t' c|c]|e]]; simpl in Hg.
  - destruct Hg as (-> & Hne & Hc & st' & Es' & Hr').
    assert (zlen (zdrop c buffer) <= zlen buffer) by (rewrite zlen_zdrop by lia; lia).
    destruct frags as [|f frags].
    + eapply IH; [done| |done|done]. unfold calls. zl.
    + eapply IH; [done| |apply resumes_more; by rewrite app_assoc|done].
      unfold calls. simpl in Hf. rewrite ?zlen_app, ?zlen_cons in *. zl.
  - destruct Hg as (Hs & -> & Hc & st' & q & -> & Es' & Hr').
    edestruct IH as [(rest & unread & E & Ee)|(Hm & q' & E)]; [done| |exact Hr'|done|..].
    + unfold calls. rewrite zlen_zdrop by lia. destruct eof; lia.
    + left. exists rest, unread. by rewrite E, <- app_assoc.
    + right. split; [done|]. eexists. by rewrite E, <- app_assoc.
  - destruct Hg as (_ & -> & -> & Hc & E). left. exists (zdrop c buffer), frags.
    by rewrite app_nil_r.
  - done.
  - destruct Hg as (-> & -> & Hne). rewrite (He eq_refl) in Hne. right. split; [done|].
    exists []. by rewrite app_nil_r.
Qed.

Lemma drive_backward fuel d st buffer frags eof acc acc' tr rest unread :
  state d = ChunkedState st -> steady d st buffer ->
  drive fuel d buffer frags eof acc = Finished acc' tr rest unread ->
  exists m p t, tr = Some t /\ acc' = acc ++ p /\ wire l (phase st) (extension_bytes d) m p t /\
    buffer ++ concat frags = m ++ rest ++ concat unread.
Proof.
  revert d st buffer frags eof acc. induction fuel as [|fuel IH]; intros d st buffer frags eof acc Es Hst; [done|].
  simpl. pose proof (decode_backward d st buffer eof Es Hst) as Hg.
  destruct (decode d buffer eof) as [d' [[c|s e c|t' c|c]|e]]; simpl in Hg; [| | |done|done];
    rewrite ?zslice_0 in Hg.
  - destruct Hg as (-> & Hc & st' & Es' & Hst' & Hl).
    destruct frags as [|f frags]; intros H.
    + apply (IH _ _ _ _ _ _ Es' Hst') in H as (m & p & t & -> & -> & Hw & E).
      exists (ztake c buffer ++ m), p, t. split_and!; [done..|by apply (Hl m p t)|].
      by rewrite <- (ztake_zdrop c buffer) at 1; rewrite <- !app_assoc, E.
    + apply (IH _ _ _ _ _ _ Es' (steady_more _ _ _ f Hst')) in H as (m & p & t & -> & -> & Hw & E).
      exists (ztake c buffer ++ m), p, t. split_and!; [done..|by apply (Hl m p t)|].
      simpl. rewrite <- (ztake_zdrop c buffer) at 1. rewrite <- !app_assoc in *. by rewrite E.
  - destruct Hg as (Hs & -> & Hc & st' & Es' & Hst' & Hl). intros H.
    apply (IH _ _ _ _ _ _ Es' Hst') in H as (m & p & t & -> & -> & Hw & E).
    exists (ztake c buffer ++ m), (zslice s c buffer ++ p), t. split_and!; [done|by rewrite app_assoc|by apply Hl|].
    by rewrite <- (ztake_zdrop c buffer) at 1; rewrite <- !app_assoc, E.
  - destruct Hg as (_ & Hc & Hw). intros ?. simplify_eq.
    exists (ztake c buffer), [], t'. split_and!; [done|by rewrite app_nil_r|done|].
    by rewrite app_assoc, ztake_zdrop.
Qed.

End Soundness.

(** ** Chunked bodies: the decoder implements the grammar *)

Section ChunkedTheorems.
Context {http : HttpCrate} {hp : Httparse} {laws : HttparseLaws hp}.

Lemma fresh_steady l buffer : wf_limits l -> steady l (with_limits BodyChunked l) (Size 0) buffer.
Proof. intros. split; [done | apply line_scanned_0]. Qed.

(** C3: The chunked decoder refines the wire grammar, under every
    fragmentation. A fresh decoder fed a stream in any pieces finishes with a
    payload and trailers, leaving [excess] in its buffer and unread, exactly
    when the stream is a chunked body of that payload and those trailers
    followed by [excess]. In particular the result does not depend on where
    the transport cuts the stream. *)
Theorem chunked_decoder_refines l frags fuel payload tr excess :
  wf_limits l -> zlen (concat frags) + zlen frags + 2 <= Z.of_nat fuel ->
  (exists rest unread,
     drive fuel (with_limits BodyChunked l) [] frags false [] = Finished payload tr rest unread /\
     rest ++ concat unread = excess) <->
  (exists m t, tr = Some t /\ chunked_body l m payload t /\ concat frags = m ++ excess).
Proof.
  intros Hw Hf. split.
  - intros (r & u & H & E). apply (drive_backward l _ _ (Size 0)) in H as (m & p & t & -> & -> & Hm & Em);
      [|done|by apply fresh_steady].
    exists m, t. split_and!; [done|done|]. by rewrite <- E.
  - intros (m & t & -> & Hm & E).
    destruct (drive_forward l fuel (with_limits BodyChunked l) (Size 0) [] frags false [] []
      excess payload t) as [(r & u & H & Er)|[? _]]; try done.
    + split; [done|]. split; [apply line_scanned_0|]. exists m.
      split; [done|]. simpl. by rewrite app_nil_r.
    + exists r, u. by rewrite app_nil_r in Er.
Qed.

(** A truncated chunked body is never taken for a complete one: when the
    transport ends inside a body, however the bytes arrived, the decoder fails
    with an unexpected end of file. *)
Theorem chunked_truncation l frags fuel missing payload t :
  wf_limits l -> zlen (concat frags) + zlen frags + 2 <= Z.of_nat fuel ->
  chunked_body l (concat frags ++ missing) payload t -> missing <> [] ->
  exists q, drive fuel (with_limits BodyChunked l) [] frags false [] = DriveFailed q UnexpectedEof.
Proof.
  intros Hw Hf Hm Hne.
  destruct (drive_forward l fuel (with_limits BodyChunked l) (Size 0) [] frags false [] missing [] payload t)
    as [(r & u & H & Er)|[_ (q & E)]]; try done.
  - split; [done|]. split; [apply line_scanned_0|]. exists (concat frags ++ missing).
    split; [done|]. by rewrite app_nil_r.
  - apply app_eq_nil in Er as [_ Er]. apply app_eq_nil in Er as [_ Er]. done.
  - by exists q.
Qed.

End ChunkedTheorems.

(** * The other modes *)

Section OtherModes.
Context {http : HttpCrate} {hp : Httparse}.

Lemma drive_fixed fuel d n buffer frags eof acc :
  state d = Fixed n -> 0 <= n -> calls buffer frags eof <= Z.of_nat fuel -> (eof = true -> frags = []) ->
  let stream := buffer ++ concat frags in
  if n <=? zlen stream
  then exists rest unread, drive fuel d buffer frags eof acc = Finished (acc ++ ztake n stream) None rest unread /\
         rest ++ concat unread = zdrop n stream
  else drive fuel d buffer frags eof acc = DriveFailed (acc ++ stream) UnexpectedEof.
Proof.
  revert d n buffer frags eof acc.
  induction fuel as [|fuel IH]; intros d n buffer frags eof acc Es Hn Hf He; unfold calls in Hf.
  { pose proof (zlen_nonneg (concat frags)). destruct eof; zl. }
  cbv zeta. cbn [drive]. unfold decode. rewrite Es.
  pose proof (zlen_nonneg (concat frags)). pose proof (zlen_nonneg buffer).
  destruct (Z.eqb_spec n 0) as [->|Hn0].
  { bcase; [|rewrite zlen_app in *; lia]. exists buffer, frags.
    rewrite ztake_0, app_nil_r, !zdrop_0 by lia. done. }
  destruct buffer as [|b buffer]; simpl negb; cbv iota.
  - destruct frags as [|f frags].
    + simpl. rewrite zlen_nil. bcase; [lia|]. destruct eof; [by rewrite app_nil_r|].
      specialize (IH d n [] [] true acc Es Hn). cbv zeta in IH. simpl in IH.
      rewrite zlen_nil in IH. destruct (Z.leb_spec n 0); [lia|]. apply IH; [unfold calls; zl | done].
    + destruct eof; [by specialize (He eq_refl)|].
      specialize (IH d n f frags false acc Es Hn). cbv zeta in IH. simpl in *. apply IH; [|done].
      unfold calls. rewrite ?zlen_nil, ?zlen_cons, ?zlen_app in *. lia.
  - set (buf := b :: buffer) in *.
    assert (0 < zlen buf) by (unfold buf; rewrite zlen_cons; zl).
    set (c := Z.min (zlen buf) n). cbv iota. assert (Hc : 0 < c <= zlen buf /\ c <= n) by lia.
    specialize (IH (set_state d (Fixed (n - c))) (n - c) (zdrop c buf) frags eof (acc ++ zslice 0 c buf)
      eq_refl ltac:(lia)).
    cbv zeta in IH. rewrite zslice_0 in IH |- *.
    assert (Hsplit : buf ++ concat frags = ztake c buf ++ zdrop c buf ++ concat frags)
      by (by rewrite app_assoc, ztake_zdrop).
    assert (Hl : zlen (zdrop c buf ++ concat frags) = zlen (buf ++ concat frags) - c).
    { rewrite !zlen_app, zlen_zdrop by lia. lia. }
    assert (Ht : zlen (ztake c buf) = c) by (rewrite zlen_ztake; lia).
    rewrite Hl in IH. destruct (Z.leb_spec n (zlen (buf ++ concat frags))).
    + destruct (Z.leb_spec (n - c) (zlen (buf ++ concat frags) - c)); [|lia].
      destruct IH as (rest & unread & -> & E); [unfold calls; rewrite zlen_zdrop by lia; destruct eof; lia|done|].
      exists rest, unread. rewrite E, Hsplit, <- app_assoc.
      rewrite (ztake_app_ge n (ztake c buf)), (zdrop_app_ge n (ztake c buf)) by lia. by rewrite Ht.
    + destruct (Z.leb_spec (n - c) (zlen (buf ++ concat frags) - c)); [lia|].
      rewrite IH; [|unfold calls; rewrite zlen_zdrop by lia; destruct eof; lia|done].
      by rewrite Hsplit, <- app_assoc.
Qed.

(** A fixed-length body: under every fragmentation the decoder delivers
    exactly the first [n] bytes of the stream and leaves the rest untouched,
    and fails with an unexpected end of file when the stream is shorter. *)
Theorem fixed_decoder_exact l n frags fuel :
  is_u64 n -> zlen (concat frags) + zlen frags + 2 <= Z.of_nat fuel ->
  if n <=? zlen (concat frags)
  then exists rest unread,
         drive fuel (with_limits (BodyFixed n) l) [] frags false [] =
         Finished (ztake n (concat frags)) None rest unread /\
         rest ++ concat unread = zdrop n (concat frags)
  else drive fuel (with_limits (BodyFixed n) l) [] frags false [] = DriveFailed (concat frags) UnexpectedEof.
Proof.
  intros [Hn _] Hf. apply (drive_fixed fuel (with_limits (BodyFixed n) l) n [] frags false []); try done.
Qed.

Lemma drive_until_eof fuel d buffer frags eof acc :
  state d = UntilEof \/ (state d = Done /\ buffer = [] /\ frags = []) ->
  calls buffer frags eof <= Z.of_nat fuel -> (eof = true -> frags = []) ->
  drive fuel d buffer frags eof acc = Finished (acc ++ buffer ++ concat frags) None [] [].
Proof.
  revert d buffer frags eof acc.
  induction fuel as [|fuel IH]; intros d buffer frags eof acc Es Hf He; unfold calls in Hf.
  { pose proof (zlen_nonneg (concat frags)). destruct eof; zl. }
  cbn [drive]. unfold decode. pose proof (zlen_nonneg (concat frags)).
  destruct Es as [Es|(Es & -> & ->)]; rewrite Es; [|by rewrite app_nil_r].
  destruct buffer as [|b buffer]; simpl negb; cbv iota.
  - destruct eof; [rewrite (He eq_refl); simpl; by rewrite app_nil_r|].
    destruct frags as [|f frags].
    + rewrite IH; [done|by left|unfold calls; simpl in *; zl|done].
    + rewrite IH; [done|by left| |done].
      unfold calls. simpl in *. rewrite ?zlen_nil, ?zlen_cons, ?zlen_app in *. lia.
  - set (buf := b :: buffer) in *.
    assert (0 < zlen buf) by (unfold buf; rewrite zlen_cons; zl).
    rewrite IH.
    + rewrite zslice_0, ztake_all, zdrop_all, <- app_assoc by lia. done.
    + destruct eof; [right|by left]. rewrite zdrop_all by lia. auto.
    + unfold calls. rewrite zlen_zdrop by lia. destruct eof; lia.
    + done.
Qed.

(** A body delimited by the end of the connection is everything the
    transport delivers, under every fragmentation. *)
Theorem until_eof_decoder_exact l frags fuel :
  zlen (concat frags) + zlen frags + 2 <= Z.of_nat fuel ->
  drive fuel (with_limits BodyUntilEof l) [] frags false [] = Finished (concat frags) None [] [].
Proof. intros Hf. apply (drive_until_eof _ _ []); [by left|done|done]. Qed.

End OtherModes.

(** * Contract of every call *)

Lemma scan_chunk_line_range input i rest k :
  0 <= i -> scan_chunk_line input i rest = Ok (Some k) -> i <= k < i + zlen rest /\ 0 < k.
Proof.
  revert i. induction rest as [|b rest IH]; intros i Hi; simpl; [done|]. rewrite zlen_cons.
  pose proof (zlen_nonneg rest). destruct (beq b LF).
  - destruct (Z.eqb_spec i 0); [done|]. case_match; [done|]. intros ?. simplify_eq. lia.
  - case_match; [done|]. intros Hk%IH; lia.
Qed.

Lemma scan_trailers_range input i rest k :
  scan_trailers input i rest = Some k -> i <= k < i + zlen rest.
Proof.
  revert i. induction rest as [|b rest IH]; intros i; simpl; [done|]. rewrite zlen_cons.
  pose proof (zlen_nonneg rest). case_match; [intros; simplify_eq; lia|]. intros Hk%IH. lia.
Qed.

Definition wf_chunk (st : ChunkState) : Prop :=
  match st with
  | Size s | Trailers s => 0 <= s
  | Data n => 0 < n
  | DataCrlf => True
  end.

(** The decoder's own invariant, whatever the caller passes in. *)
Definition wf_decoder (d : BodyDecoder) : Prop :=
  wf_limits (limits d) /\ 0 <= extension_bytes d <= max_chunk_extension_bytes (limits d) /\
  match state d with
  | Fixed n => 0 <= n
  | ChunkedState st => wf_chunk st
  | _ => True
  end.

Section Contract.
Context {http : HttpCrate} {hp : Httparse} {laws : HttpLaws http} {hp_laws : HttparseLaws hp}.

Definition no_forbidden (t : HeaderMap) : Prop :=
  Forall (fun n => hm_get_all t n = []) forbidden_trailers.

Lemma validate_trailers_ok t : validate_trailers t = Ok tt <-> no_forbidden t.
Proof.
  unfold validate_trailers, no_forbidden. rewrite Forall_forall.
  destruct (existsb _ (hm_keys t)) eqn:E.
  - split; [done|]. intros H. apply existsb_exists in E as (n & Hn & E).
    apply existsb_exists in E as (n' & Hn' & E). apply bytes_eqb_true in E as <-.
    apply list_elem_of_In, law_keys in Hn. by apply H in Hn'.
  - split; [|done]. intros _ n Hn. rewrite <- not_true_iff_false, existsb_exists in E.
    destruct (decide (hm_get_all t n = [])) as [|Hne]; [done|]. exfalso. apply E.
    exists n. split; [apply list_elem_of_In; by apply law_keys|].
    apply existsb_exists. exists n. split; [done | by apply bytes_eqb_true].
Qed.

Lemma parse_trailers_ok block slots n t :
  parse_trailers block slots = Ok (n, t) -> 0 < n <= zlen block /\ no_forbidden t.
Proof.
  unfold parse_trailers. destruct (hp_parse_headers block slots) as [[c hs]| |[]] eqn:E; try done.
  destruct (own_headers hs) as [m|[]]; try done. intros H.
  apply rbind_ok in H as ([] & Hv & H). rinv.
  apply law_headers_consumed in E as [E _]. split; [done | by apply validate_trailers_ok].
Qed.

(** What a call promises about its answer. *)
Definition call_ok (d : BodyDecoder) (input : bytes) (eof : bool)
    (r : BodyDecoder * result DecodeOutcome DecodeError) : Prop :=
  let d' := fst r in
  wf_decoder d' /\ limits d' = limits d /\ extension_bytes d <= extension_bytes d' /\
  match snd r with
  | Ok (NeedMore c) => eof = false /\ 0 <= c <= zlen input
  | Ok (OutData s e c) => 0 <= s < e /\ e = c /\ c <= zlen input
  | Ok (OutTrailers t c) => state d' = Done /\ 0 <= c <= zlen input /\ no_forbidden t
  | Ok (OutEnd c) => state d' = Done /\ c = 0
  | Err e => state d' = Failed e
  end.

Lemma call_ok_fail d d' input eof e :
  wf_decoder d' -> limits d' = limits d -> extension_bytes d <= extension_bytes d' ->
  call_ok d input eof (fail d' e).
Proof. intros (? & ? & _) ? ?. by split_and!; simpl. Qed.

Lemma parse_chunk_line_ok d input scanned d' r s :
  wf_decoder d -> 0 <= scanned -> parse_chunk_line d input scanned = Ok (d', r, s) ->
  wf_decoder d' /\ limits d' = limits d /\ extension_bytes d <= extension_bytes d' /\ 0 <= s /\
  match r with Some (size, c) => 0 <= size /\ 1 < c <= zlen input | None => True end.
Proof.
  intros Hwf Hs. unfold parse_chunk_line.
  assert (Hs' : 0 <= (if zlen input <? scanned then 0 else scanned) <= zlen input) by (bcase; zl).
  set (from := if zlen input <? scanned then 0 else scanned) in *. intros H.
  apply rbind_ok in H as ([k|] & Hk & H).
  - apply scan_chunk_line_range in Hk as [Hr H0]; [|lia]. rewrite zlen_zdrop in Hr by lia.
    bcase; [done|]. apply rbind_ok in H as (n & Hn & H). apply rbind_ok in H as (d1 & Hc & H). rinv.
    apply chunk_size_nonneg in Hn. pose proof Hwf as (Hl & He & Hst).
    apply charge_extensions_spec in Hc as [Hf ->]; [|done].
    pose proof (extension_len_nonneg (ztake (k - 1) input)).
    split_and!; simpl; try lia; try done. split; [done|]. simpl. split; [destruct Hf; lia | done].
  - bcase; [done|]. rinv. pose proof (zlen_nonneg input). by split_and!; try lia.
Qed.

Lemma chunk_turn_ok d st cursor input eof :
  wf_decoder d -> wf_chunk st -> 0 <= cursor <= zlen input ->
  match chunk_turn d st cursor input eof with
  | Continue d' st' c =>
      wf_decoder d' /\ limits d' = limits d /\ extension_bytes d <= extension_bytes d' /\
      wf_chunk st' /\ cursor < c <= zlen input
  | Return r => call_ok d input eof r
  end.
Proof.
  intros Hwf Hst Hc.
  assert (Hset : forall st' d', wf_decoder d' -> wf_chunk st' -> wf_decoder (set_state d' (ChunkedState st')))
    by (by intros st' d' (? & ? & _)).
  destruct st as [scanned|n| |scanned]; simpl in *.
  - destruct (parse_chunk_line d (zdrop cursor input) scanned) as [[[d' r] s]|e] eqn:E; [|by apply call_ok_fail].
    apply parse_chunk_line_ok in E as (Hd & Hl & He & Hs & Hr); [|done..]. rewrite zlen_zdrop in Hr by lia.
    destruct r as [[size c]|].
    + split_and!; try done; try lia. bcase; simpl; lia.
    + destruct eof; [by apply call_ok_fail|]. split_and!; simpl; try done; try lia; by apply Hset.
  - destruct (Z.eqb_spec cursor (zlen input)).
    + destruct eof; [by apply call_ok_fail|]. split_and!; simpl; try done; try lia; by apply Hset.
    + split_and!; simpl; try done; try lia; apply Hset; [done|]; bcase; simpl; lia.
  - destruct (Z.ltb_spec (zlen (zdrop cursor input)) 2) as [_|H2].
    + destruct (match head _ with Some b => negb (beq b CR) | None => false end); [by apply call_ok_fail|].
      destruct eof; [by apply call_ok_fail|]. split_and!; simpl; try done; try lia; by apply Hset.
    + destruct (negb _); [by apply call_ok_fail|]. rewrite zlen_zdrop in H2 by lia.
      split_and!; try done; lia.
  - unfold decode_trailers. unfold trailer_end.
    set (from := if zlen (zdrop cursor input) <? scanned then 0 else scanned).
    assert (Hmax : 0 < max_trailer_bytes (limits d)) by apply Hwf.
    set (bounded := Z.min (zlen (zdrop cursor input)) (max_trailer_bytes (limits d))).
    pose proof (zlen_nonneg (zdrop cursor input)).
    destruct (scan_trailers _ _ _) as [k|] eqn:E.
    + apply scan_trailers_range in E. simpl.
      assert (Hw : wf_decoder (mkBodyDecoder (state d) (limits d) (extension_bytes d)
        (Some (default (max_trailers (limits d)) (trailer_workspace d))))) by done.
      destruct (parse_trailers _ _) as [[c t]|e] eqn:Ep; [|by apply call_ok_fail].
      apply parse_trailers_ok in Ep as [Hn Hf].
      assert (zlen (ztake (k + 1) (zdrop cursor input)) <= zlen input - cursor).
      { unfold ztake, zlen. rewrite length_take. fold (zlen (zdrop cursor input)).
        pose proof (zlen_zdrop cursor input ltac:(lia)) as Hz. unfold zlen in Hz, Hc |- *. lia. }
      split_and!; simpl; try done; [by destruct Hwf as (? & ? & _)|]. split_and!; (done || lia).
    + destruct (max_trailer_bytes (limits d) <? zlen (zdrop cursor input)); [by apply call_ok_fail|].
      destruct eof; [by apply call_ok_fail|]. split_and!; simpl; try done; try lia.
      apply Hset; [done|]. simpl. lia.
Qed.

Lemma decode_chunked_loop_ok fuel d st cursor input eof :
  wf_decoder d -> wf_chunk st -> 0 <= cursor <= zlen input -> (turns_left st <= fuel)%nat ->
  call_ok d input eof (decode_chunked_loop fuel d st cursor input eof).
Proof.
  revert d st cursor. induction fuel as [|fuel IH]; intros d st cursor Hwf Hst Hc Hf;
    [by destruct st; simpl in Hf; lia|]. simpl.
  pose proof (chunk_turn_ok d st cursor input eof Hwf Hst Hc) as Ht.
  destruct (chunk_turn d st cursor input eof) as [d' st' c|r] eqn:E; [|done].
  apply chunk_turn_decreases in E. destruct Ht as (Hd & Hl & He & Hst' & Hc').
  destruct (IH d' st' c Hd Hst' ltac:(lia) ltac:(lia)) as (H1 & H2 & H3 & H4).
  split_and!; [done|congruence|lia|done].
Qed.

Lemma decode_ok d input eof : wf_decoder d -> call_ok d input eof (decode d input eof).
Proof.
  intros Hwf. pose proof Hwf as (Hl & He & Hs). unfold decode. pose proof (zlen_nonneg input).
  destruct (state d) as [|n|st| | |e] eqn:Es.
  - by split_and!; simpl.
  - destruct (Z.eqb_spec n 0); [by split_and!; simpl|].
    case_bool_decide as Hi; simpl.
    + destruct eof; [by apply call_ok_fail|]. by split_and!; simpl.
    + assert (0 < zlen input) by (destruct input; [done|]; rewrite zlen_cons; zl).
      split_and!; simpl; try done; try lia. split_and!; simpl; try done; lia.
  - apply decode_chunked_loop_ok; [done|done|lia|]. destruct st; simpl; lia.
  - case_bool_decide as Hi; simpl.
    + destruct eof; by split_and!; simpl.
    + assert (0 < zlen input) by (destruct input; [done|]; rewrite zlen_cons; zl).
      destruct eof; split_and!; simpl; try done; try lia.
  - by split_and!; simpl.
  - by split_and!; simpl.
Qed.

(** Every call of the decoder, on any input, keeps its invariant and its
    promises: the consumed length and the payload range lie inside the input,
    a payload range is never empty, more input is only asked for before the
    end of the transport, the extension bytes charged never exceed their
    budget, and no forbidden field is ever delivered as a trailer. *)
Theorem decode_contract d input eof : wf_decoder d -> call_ok d input eof (decode d input eof).
Proof. apply decode_ok. Qed.

Definition drive_ended (r : Drive) : Prop :=
  match r with
  | Finished _ _ _ _ | DriveFailed _ _ => True
  | Starved | OutOfFuel => False
  end.

Lemma drive_ends fuel d buffer frags eof acc :
  wf_decoder d -> calls buffer frags eof <= Z.of_nat fuel -> (eof = true -> frags = []) ->
  drive_ended (drive fuel d buffer frags eof acc).
Proof.
  revert d buffer frags eof acc.
  induction fuel as [|fuel IH]; intros d buffer frags eof acc Hwf Hc He; unfold calls in Hc;
    pose proof (zlen_nonneg (concat frags)).
  { destruct eof; zl. }
  cbn [drive]. pose proof (decode_ok d buffer eof Hwf) as (Hd & _ & _ & Hr).
  destruct (decode d buffer eof) as [d' [[c|s e c|t c|c]|e]]; simpl in *; try done.
  - destruct Hr as [-> Hr]. destruct frags as [|f frags]; apply IH; try done; unfold calls.
    + rewrite zlen_zdrop by lia. simpl in *. zl.
    + simpl in *. rewrite ?zlen_app, ?zlen_cons, zlen_zdrop in * by lia. lia.
  - apply IH; try done. unfold calls. rewrite zlen_zdrop by lia. destruct eof; lia.
Qed.

(** Termination: however the input is cut and whatever it holds, driving a
    decoder makes at most one call per byte, fragment and end of transport, and
    it always ends with a body or an error, never waiting for input after the
    end of the transport. *)
Theorem drive_total d frags fuel :
  wf_decoder d -> zlen (concat frags) + zlen frags + 2 <= Z.of_nat fuel ->
  drive_ended (drive fuel d [] frags false []).
Proof. intros Hwf Hf. by apply drive_ends. Qed.

End Contract.

(** * Sticky answers *)

Section Sticky.
Context {http : HttpCrate} {hp : Httparse}.

Lemma chunk_turn_failed d st cursor input eof d' e :
  chunk_turn d st cursor input eof = Return (d', Err e) -> state d' = Failed e.
Proof.
  destruct st; simpl; unfold fail, decode_trailers; intros; repeat case_match; by simplify_eq/=.
Qed.

Lemma decode_err_failed d input eof d' e :
  decode d input eof = (d', Err e) -> state d' = Failed e.
Proof.
  unfold decode. destruct (state d) as [|n|st| | |e'] eqn:Es; unfold fail.
  - intros [=].
  - intros H. destruct (n =? 0), (negb (bool_decide (input = []))), eof; simplify_eq/=; done.
  - unfold decode_chunked. generalize 3%nat as fuel, 0 as cursor. intros fuel. clear Es. revert d st.
    induction fuel as [|fuel IH]; intros d st cursor; simpl; [by intros [= <- <-]|].
    destruct (chunk_turn d st cursor input eof) as [d1 st1 c1|r] eqn:E; [apply IH|].
    intros ->. by eapply chunk_turn_failed.
  - intros H. destruct (negb (bool_decide (input = []))), eof; simplify_eq/=.
  - intros [=].
  - intros H. injection H as <- <-. done.
Qed.

Lemma decode_chunked_no_end fuel d st cursor input eof d' c :
  decode_chunked_loop fuel d st cursor input eof <> (d', Ok (OutEnd c)).
Proof.
  revert d st cursor. induction fuel as [|fuel IH]; intros d st cursor; simpl; [done|].
  destruct (chunk_turn d st cursor input eof) as [d1 st1 c1|r] eqn:E; [apply IH|].
  intros ->. revert E. destruct st; simpl; unfold decode_trailers; intros; repeat case_match; by simplify_eq/=.
Qed.

(** A failed decoder stays failed: after an error every later call, on any
    input, returns the same error and changes nothing. *)
Theorem decode_failure_sticky d input eof d' e :
  decode d input eof = (d', Err e) -> forall input' eof', decode d' input' eof' = (d', Err e).
Proof. intros H%decode_err_failed input' eof'. unfold decode. by rewrite H. Qed.

(** [is_complete] is exact: it holds precisely when the framing is over
    without further input, that is when every next call reports the end and
    consumes nothing. *)
Theorem is_complete_exact d :
  is_complete d = true <-> forall input eof, decode d input eof = (set_state d Done, Ok (OutEnd 0)).
Proof.
  unfold is_complete, decode. split.
  - intros H input eof. destruct d as [st l ext tw]; simpl in *. destruct st; try done. by rewrite H.
  - intros H. specialize (H [] false). destruct (state d) eqn:Es; try done.
    + by destruct (remaining =? 0).
    + by apply decode_chunked_no_end in H.
Qed.

End Sticky.

(** * The extension loop terminates within its fuel *)

Lemma chunk_extension_shorter input rest : chunk_extension input = Ok rest -> zlen rest < zlen input.
Proof.
  unfold chunk_extension. case_bool_decide as Hh; simpl; [|done].
  pose proof (trim_ows_length input) as L0. set (i0 := trim_ows input) in *.
  pose proof (trim_ows_length (zdrop 1 i0)) as L1. rewrite zlen_zdrop in L1 by lia.
  assert (0 < zlen i0) by (destruct i0; [done|]; rewrite zlen_cons; zl).
  set (i1 := trim_ows (zdrop 1 i0)) in *. case_match; [done|].
  pose proof (trim_ows_length (zdrop (take_while_count is_tchar i1) i1)) as L2.
  rewrite zlen_zdrop in L2 by apply take_while_count_nonneg.
  pose proof (take_while_count_nonneg is_tchar i1). pose proof (zlen_nonneg i1).
  set (i2 := trim_ows (zdrop _ i1)) in *. intros H'. apply rbind_ok in H' as (i3 & H3 & H').
  assert (zlen i3 <= zlen i2).
  { destruct (bool_decide (head i2 = Some EQUALS)); [|injection H3 as E3; rewrite E3; lia]. apply rbind_ok in H3 as (n & Hn & H3). rinv.
    assert (0 <= n).
    { destruct (bool_decide (head (trim_ows (zdrop 1 i2)) = Some DQUOTE));
        [rinv; apply quoted_string_len_bound in Hn; lia|].
      destruct (take_while_count is_tchar (trim_ows (zdrop 1 i2)) =? 0); [done|].
      rinv. apply take_while_count_nonneg. }
    pose proof (trim_ows_length (zdrop n (trim_ows (zdrop 1 i2)))) as L4.
    pose proof (trim_ows_length (zdrop 1 i2)) as L5. pose proof (zlen_nonneg i2).
    rewrite zlen_zdrop in L4, L5 by lia. pose proof (zlen_nonneg (trim_ows (zdrop 1 i2))). lia. }
  case_match; [done|]. rinv. lia.
Qed.

Lemma extensions_fuel f1 f2 input :
  zlen input <= Z.of_nat f1 -> zlen input <= Z.of_nat f2 -> extensions_loop f1 input = extensions_loop f2 input.
Proof.
  revert f2 input. induction f1 as [|f1 IH]; intros f2 input H1 H2.
  - assert (zlen input = 0) as ->%zlen_0_nil by (pose proof (zlen_nonneg input); lia). by destruct f2.
  - destruct input as [|b input]; [by destruct f2|].
    destruct f2 as [|f2]; [rewrite zlen_cons in H2; pose proof (zlen_nonneg input); lia|].
    cbn [extensions_loop]. destruct (chunk_extension (b :: input)) as [rest|] eqn:E; [|done].
    apply chunk_extension_shorter in E. simpl. apply IH; lia.
Qed.

(** The loop's own unrolled equation: its turn bound never ends it. *)
Lemma validate_extensions_unroll input :
  validate_extensions input =
  match input with
  | [] => Ok tt
  | _ => let? rest := chunk_extension input in validate_extensions rest
  end.
Proof.
  unfold validate_extensions. destruct input as [|b input]; [done|].
  cbn [length extensions_loop]. destruct (chunk_extension (b :: input)) as [rest|] eqn:E; [|done]. simpl.
  apply chunk_extension_shorter in E. unfold zlen in E. simpl in E.
  apply extensions_fuel; unfold zlen; lia.
Qed.

(** ** Evaluated bodies *)

Definition hello_frags : list bytes :=
  [bs "5;a=b" ++ [CR]; [LF] ++ bs "hel"; bs "lo" ++ [CR; LF; Byte.x30; CR]; [LF; CR]; [LF] ++ bs "next"].

Lemma default_limits_wf : wf_limits DecodeLimits_default.
Proof. by unfold wf_limits, usize_max; simpl. Qed.

Lemma hello_drive :
  @drive AssocHttp EmptyFields 64 (with_limits BodyChunked DecodeLimits_default) [] hello_frags false [] =
  @Finished AssocHttp (bs "hello") (Some []) (bs "next") [].
Proof. vm_cast_no_check (eq_refl (@Finished AssocHttp (bs "hello") (Some []) (bs "next") [])). Qed.

Lemma hello_calls : zlen (concat hello_frags) + zlen hello_frags + 2 <= Z.of_nat 64.
Proof. vm_compute. discriminate. Qed.

Lemma chunked_decoder_refines_witness :
  exists m t, Some (@nil (bytes * bytes)) = Some t /\
    @chunked_body AssocHttp EmptyFields DecodeLimits_default m (bs "hello") t /\
    concat hello_frags = m ++ bs "next".
Proof.
  apply (proj1 (@chunked_decoder_refines AssocHttp EmptyFields EmptyFields_laws DecodeLimits_default
    hello_frags 64 (bs "hello") (Some []) (bs "next") default_limits_wf hello_calls)).
  exists (bs "next"), []. split; [exact hello_drive | reflexivity].
Defined.

Definition hello_body : bytes := bs "5" ++ [CR; LF] ++ bs "hello" ++ [CR; LF; Byte.x30; CR; LF; CR; LF].

Lemma hello_body_drive :
  @drive AssocHttp EmptyFields 64 (with_limits BodyChunked DecodeLimits_default) [] [hello_body] false [] =
  @Finished AssocHttp (bs "hello") (Some []) [] [].
Proof. vm_cast_no_check (eq_refl (@Finished AssocHttp (bs "hello") (Some []) [] [])). Qed.

Lemma hello_is_body : @chunked_body AssocHttp EmptyFields DecodeLimits_default hello_body (bs "hello") [].
Proof.
  pose proof hello_body_drive as H.
  apply (drive_backward DecodeLimits_default _ _ (Size 0)) in H as (m & p & t & [= <-] & -> & Hw & E);
    [|done|apply fresh_steady, default_limits_wf].
  rewrite app_nil_r in E. change ([] ++ concat [hello_body]) with hello_body in E. by rewrite E.
Qed.

Lemma chunked_truncation_witness :
  exists q, @drive AssocHttp EmptyFields 64 (with_limits BodyChunked DecodeLimits_default) []
    [ztake 4 hello_body; zslice 4 9 hello_body] false [] = DriveFailed q UnexpectedEof.
Proof.
  apply (@chunked_truncation AssocHttp EmptyFields DecodeLimits_default
    [ztake 4 hello_body; zslice 4 9 hello_body] 64 (zdrop 9 hello_body) (bs "hello") []).
  - exact default_limits_wf.
  - vm_compute. discriminate.
  - exact hello_is_body.
  - vm_compute. discriminate.
Defined.

Lemma fixed_decoder_exact_witness :
  exists rest unread,
    @drive AssocHttp EmptyFields 16 (with_limits (BodyFixed 3) DecodeLimits_default) []
      [bs "ab"; bs "cd"] false [] = Finished (bs "abc") None rest unread /\
    rest ++ concat unread = bs "d".
Proof.
  exact (@fixed_decoder_exact AssocHttp EmptyFields DecodeLimits_default 3 [bs "ab"; bs "cd"] 16
    ltac:(unfold is_u64, u64_max; lia) ltac:(vm_compute; discriminate)).
Defined.

Lemma until_eof_decoder_exact_witness :
  @drive AssocHttp EmptyFields 16 (with_limits BodyUntilEof DecodeLimits_default) []
    [bs "ab"; bs "cd"] false [] = Finished (bs "abcd") None [] [].
Proof.
  exact (@until_eof_decoder_exact AssocHttp EmptyFields DecodeLimits_default [bs "ab"; bs "cd"] 16
    ltac:(vm_compute; discriminate)).
Defined.

Lemma chunked_decoder_wf : wf_decoder (with_limits BodyChunked DecodeLimits_default).
Proof. split; [exact default_limits_wf|]. simpl. lia. Qed.

Lemma decode_contract_witness :
  wf_decoder (fst (@decode AssocHttp EmptyFields (with_limits BodyChunked DecodeLimits_default) hello_body false)).
Proof.
  exact (proj1 (@decode_contract AssocHttp EmptyFields AssocHttp_laws EmptyFields_laws
    (with_limits BodyChunked DecodeLimits_default) hello_body false chunked_decoder_wf)).
Defined.

Lemma drive_total_witness :
  drive_ended (@drive AssocHttp EmptyFields 64 (with_limits BodyChunked DecodeLimits_default) []
    hello_frags false []).
Proof.
  exact (@drive_total AssocHttp EmptyFields AssocHttp_laws EmptyFields_laws
    (with_limits BodyChunked DecodeLimits_default) hello_frags 64 chunked_decoder_wf hello_calls).
Defined.

Lemma decode_failure_sticky_witness :
  let d := set_state (with_limits BodyChunked DecodeLimits_default) (Failed InvalidChunkSize) in
  @decode AssocHttp EmptyFields d (bs "0") true = (d, Err InvalidChunkSize).
Proof.
  exact (@decode_failure_sticky AssocHttp EmptyFields (with_limits BodyChunked DecodeLimits_default)
    (bs "zz" ++ [CR; LF]) false _ InvalidChunkSize eq_refl (bs "0") true).
Defined.
