(* ===== verification/Body.v ===== *)
(** Bodies: size hints, frames, the [Body] interface and its wrappers
    (src/src/body.rs and src/src/body/{size_hint, frame, simple, exact_length,
    limited, combinator, map_data}.rs).

    [Body] is the trait as a type class; every wrapper is an instance over an
    arbitrary inner body. An awaited call is its result; [Panics] is a failed
    [expect]. *)

From Stdlib Require Import ZArith Lia.
From stdpp Require Import base list option.
From S2P Require Import Prelude Http Errors.

(** ** Size hints *)

Record SizeHint := mkSizeHint {
  lower : Z;
  upper : option Z;
}.

#[export] Instance SizeHint_eq_dec : EqDecision SizeHint.
Proof. solve_decision. Defined.

Definition SizeHint_new : SizeHint := mkSizeHint 0 None.
Definition with_exact (n : Z) : SizeHint := mkSizeHint n (Some n).

Definition with_bounds (lo : Z) (up : option Z) : result SizeHint Error :=
  match up with
  | Some u =>
      if u <? lo
      then Err (Error_new LocalMessage "body size upper bound is below its lower bound")
      else Ok (mkSizeHint lo up)
  | None => Ok (mkSizeHint lo up)
  end.

Definition exact (h : SizeHint) : option Z :=
  match upper h with
  | Some u => if u =? lower h then Some u else None
  | None => None
  end.

(** Hints the constructors can build. *)
Definition hint_ok (h : SizeHint) : Prop :=
  is_u64 (lower h) /\ match upper h with Some u => lower h <= u <= u64_max | None => True end.

Inductive TrailerHint : Type :=
| TrailersNone
| TrailersMayHave.

#[export] Instance TrailerHint_eq_dec : EqDecision TrailerHint.
Proof. solve_decision. Defined.

(** ** Frames *)

Section Frames.
Context {http : HttpCrate}.

Inductive Frame (D : Type) : Type :=
| DataFrame (data : D)
| TrailersFrame (trailers : HeaderMap).

End Frames.
Arguments DataFrame {http D} data.
Arguments TrailersFrame {http D} trailers.

Section FrameOps.
Context {http : HttpCrate} {D : Type}.

Definition data_ref (f : Frame D) : option D :=
  match f with
  | DataFrame d => Some d
  | TrailersFrame _ => None
  end.

Definition trailers_ref (f : Frame D) : option HeaderMap :=
  match f with
  | DataFrame _ => None
  | TrailersFrame t => Some t
  end.

Definition into_data (f : Frame D) : result D (Frame D) :=
  match f with
  | DataFrame d => Ok d
  | TrailersFrame _ => Err f
  end.

Definition into_trailers (f : Frame D) : result HeaderMap (Frame D) :=
  match f with
  | DataFrame _ => Err f
  | TrailersFrame t => Ok t
  end.

End FrameOps.

(** [Frame::map_data] with a closure [F] that may change its captured state. *)
Class FnMut (F A B : Type) := call_mut : F -> A -> F * B.

Definition map_data {http : HttpCrate} {D T F} `{FnMut F D T} (f : F) (frame : Frame D) : F * Frame T :=
  match frame with
  | DataFrame d => let '(f, t) := call_mut f d in (f, DataFrame t)
  | TrailersFrame t => (f, TrailersFrame t)
  end.

(** ** The interface *)

(** [karmaio::buf::IoBuf::as_init] *)
Class IoBuf (D : Type) := as_init : D -> bytes.

#[export] Instance bytes_IoBuf : IoBuf bytes := fun d => d.

(** A call returns or fails an [expect]. *)
Inductive call (A : Type) : Type :=
| Returns (a : A)
| Panics.
Arguments Returns {A} a.
Arguments Panics {A}.

Class Body {http : HttpCrate} (B D E : Type) := {
  next_frame : B -> B * call (result (option (Frame D)) E);
  size_hint : B -> call SizeHint;
  trailer_hint : B -> call TrailerHint;
  is_end_stream : B -> bool;
  recycle : B -> D -> B;
}.

(** The answers to [n] successive calls of [next_frame]. *)
Fixpoint next_frames {http : HttpCrate} {B D E} `{!Body B D E} (n : nat) (b : B)
    : list (call (result (option (Frame D)) E)) :=
  match n with
  | O => []
  | S n => let '(b, r) := next_frame b in r :: next_frames n b
  end.

(** The body after [n] calls. *)
Fixpoint after_frames {http : HttpCrate} {B D E} `{!Body B D E} (n : nat) (b : B) : B :=
  match n with
  | O => b
  | S n => after_frames n (fst (next_frame b))
  end.

(** ** Simple bodies *)

Inductive Empty := EmptyBody.

Inductive Infallible : Type := .

#[export] Instance Empty_Body {http : HttpCrate} : Body Empty bytes Infallible := {
  next_frame b := (b, Returns (Ok None));
  size_hint _ := Returns (with_exact 0);
  trailer_hint _ := Returns TrailersNone;
  is_end_stream _ := true;
  recycle b _ := b;
}.

Inductive Full (D : Type) : Type :=
| FullReady (data : D)
| FullDone.
Arguments FullReady {D} data.
Arguments FullDone {D}.

Definition Full_next_frame {http : HttpCrate} {D} (b : Full D)
    : Full D * call (result (option (Frame D)) Infallible) :=
  match b with
  | FullReady d => (FullDone, Returns (Ok (Some (DataFrame d))))
  | FullDone => (FullDone, Returns (Ok None))
  end.

#[export] Instance Full_Body {http : HttpCrate} {D} `{IoBuf D} : Body (Full D) D Infallible := {
  next_frame := Full_next_frame;
  size_hint b := Returns (with_exact (match b with FullReady d => zlen (as_init d) | FullDone => 0 end));
  trailer_hint _ := Returns TrailersNone;
  is_end_stream b := match b with FullReady _ => false | FullDone => true end;
  recycle b _ := b;
}.

(** ** Exact length *)

Inductive ExactLengthError (E : Type) : Type :=
| ExactSource (e : E)
| TooShort (remaining : Z)
| TooLong (remaining frame_bytes : Z)
| UnexpectedTrailers
| RepeatedTrailers
| DataAfterTrailers.
Arguments ExactSource {E} e.
Arguments TooShort {E} remaining.
Arguments TooLong {E} remaining frame_bytes.
Arguments UnexpectedTrailers {E}.
Arguments RepeatedTrailers {E}.
Arguments DataAfterTrailers {E}.

Record ExactLength (B : Type) := mkExactLength {
  el_body : option B;
  el_remaining : Z;
  el_trailers : TrailerHint;
  el_saw_trailers : bool;
  el_done : bool;
}.
Arguments mkExactLength {B} _ _ _ _ _.
Arguments el_body {B} _.
Arguments el_remaining {B} _.
Arguments el_trailers {B} _.
Arguments el_saw_trailers {B} _.
Arguments el_done {B} _.

Definition ExactLength_new {B} (body : B) (n : Z) (hint : TrailerHint) : ExactLength B :=
  mkExactLength (Some body) n hint false false.

Section ExactLength.
Context {http : HttpCrate} {B D E : Type} `{IoBuf D} `{!Body B D E}.

Definition el_recycle (s : ExactLength B) (d : D) : ExactLength B :=
  mkExactLength (option_map (fun b => recycle b d) (el_body s)) (el_remaining s) (el_trailers s)
    (el_saw_trailers s) (el_done s).

(** The match on the frame's kind: the state to go on with, or a violation. *)
Definition el_check (s : ExactLength B) (f : Frame D) : result (ExactLength B) (ExactLengthError E) :=
  match f with
  | DataFrame d =>
      if el_saw_trailers s then Err DataAfterTrailers
      else if zlen (as_init d) <=? el_remaining s then
        Ok (mkExactLength (el_body s) (el_remaining s - zlen (as_init d)) (el_trailers s)
              (el_saw_trailers s) (el_done s))
      else Err (TooLong (el_remaining s) (zlen (as_init d)))
  | TrailersFrame _ =>
      if el_saw_trailers s then Err RepeatedTrailers
      else if bool_decide (el_trailers s = TrailersNone) then Err UnexpectedTrailers
      else Ok (mkExactLength (el_body s) (el_remaining s) (el_trailers s) true (el_done s))
  end.

Definition el_next_frame (s : ExactLength B)
    : ExactLength B * call (result (option (Frame D)) (ExactLengthError E)) :=
  if el_done s then (s, Returns (Ok None))
  else
    match el_body s with
    | None => (s, Panics)
    | Some b =>
        let '(b, next) := next_frame b in
        let s := mkExactLength (Some b) (el_remaining s) (el_trailers s) (el_saw_trailers s) (el_done s) in
        match next with
        | Panics => (s, Panics)
        | Returns (Err e) =>
            (mkExactLength (el_body s) (el_remaining s) (el_trailers s) (el_saw_trailers s) true,
             Returns (Err (ExactSource e)))
        | Returns (Ok None) =>
            if negb (el_remaining s =? 0) then
              (mkExactLength None (el_remaining s) (el_trailers s) (el_saw_trailers s) true,
               Returns (Err (TooShort (el_remaining s))))
            else (mkExactLength (el_body s) (el_remaining s) (el_trailers s) (el_saw_trailers s) true,
                  Returns (Ok None))
        | Returns (Ok (Some f)) =>
            match el_check s f with
            | Ok s => (s, Returns (Ok (Some f)))
            | Err violation =>
                let s := match f with DataFrame d => el_recycle s d | TrailersFrame _ => s end in
                (mkExactLength None (el_remaining s) (el_trailers s) (el_saw_trailers s) true,
                 Returns (Err violation))
            end
        end
    end.

#[export] Instance ExactLength_Body : Body (ExactLength B) D (ExactLengthError E) := {
  next_frame := el_next_frame;
  size_hint s := Returns (with_exact (if el_done s then 0 else el_remaining s));
  trailer_hint s :=
    Returns (if el_done s || el_saw_trailers s then TrailersNone else el_trailers s);
  is_end_stream := el_done;
  recycle := el_recycle;
}.

End ExactLength.

(** ** Limited *)

Inductive LimitError (E : Type) : Type :=
| LimitSource (e : E)
| LimitExceeded (limit : Z).
Arguments LimitSource {E} e.
Arguments LimitExceeded {E} limit.

Record Limited (B : Type) := mkLimited {
  lm_body : option B;
  lm_limit : Z;
  lm_remaining : Z;
  lm_done : bool;
}.
Arguments mkLimited {B} _ _ _ _.
Arguments lm_body {B} _.
Arguments lm_limit {B} _.
Arguments lm_remaining {B} _.
Arguments lm_done {B} _.

Definition Limited_new {B} (body : B) (max_bytes : Z) : Limited B :=
  mkLimited (Some body) max_bytes max_bytes false.

Section Limited.
Context {http : HttpCrate} {B D E : Type} `{IoBuf D} `{!Body B D E}.

Definition lm_recycle (s : Limited B) (d : D) : Limited B :=
  mkLimited (option_map (fun b => recycle b d) (lm_body s)) (lm_limit s) (lm_remaining s) (lm_done s).

Definition lm_next_frame (s : Limited B) : Limited B * call (result (option (Frame D)) (LimitError E)) :=
  if lm_done s then (s, Returns (Ok None))
  else
    match lm_body s with
    | None => (s, Panics)
    | Some b =>
        let '(b, next) := next_frame b in
        let s := mkLimited (Some b) (lm_limit s) (lm_remaining s) (lm_done s) in
        match next with
        | Panics => (s, Panics)
        | Returns (Err e) =>
            (mkLimited (lm_body s) (lm_limit s) (lm_remaining s) true, Returns (Err (LimitSource e)))
        | Returns (Ok None) => (mkLimited (lm_body s) (lm_limit s) (lm_remaining s) true, Returns (Ok None))
        | Returns (Ok (Some f)) =>
            match data_ref f with
            | Some d =>
                if zlen (as_init d) <=? lm_remaining s then
                  (mkLimited (lm_body s) (lm_limit s) (lm_remaining s - zlen (as_init d)) (lm_done s),
                   Returns (Ok (Some f)))
                else
                  let s := lm_recycle s d in
                  (mkLimited None (lm_limit s) (lm_remaining s) true, Returns (Err (LimitExceeded (lm_limit s))))
            | None => (s, Returns (Ok (Some f)))
            end
        end
    end.

Definition lm_size_hint (s : Limited B) : call SizeHint :=
  if lm_done s then Returns (with_exact 0)
  else
    match lm_body s with
    | None => Panics
    | Some b =>
        match size_hint b with
        | Panics => Panics
        | Returns hint =>
            let lo := if lower hint <=? lm_remaining s then lower hint else 0 in
            match with_bounds lo (Some (Z.min (default (lm_remaining s) (upper hint)) (lm_remaining s))) with
            | Ok h => Returns h
            | Err _ => Panics
            end
        end
    end.

#[export] Instance Limited_Body : Body (Limited B) D (LimitError E) := {
  next_frame := lm_next_frame;
  size_hint := lm_size_hint;
  trailer_hint s :=
    if lm_done s then Returns TrailersNone
    else match lm_body s with Some b => trailer_hint b | None => Panics end;
  is_end_stream := lm_done;
  recycle := lm_recycle;
}.

End Limited.

(** ** Combinators *)

Inductive Either (A B : Type) : Type :=
| Left (a : A)
| Right (b : B).
Arguments Left {A B} a.
Arguments Right {A B} b.

#[export] Instance Either_IoBuf {A B} `{IoBuf A} `{IoBuf B} : IoBuf (Either A B) :=
  fun d => match d with Left a => as_init a | Right b => as_init b end.

Section Combinators.
Context {http : HttpCrate}.

(** [map_frame] with a constructor for the closure. *)
Definition map_frame {D T} (f : D -> T) (frame : option (Frame D)) : option (Frame T) :=
  option_map (fun fr => match fr with DataFrame d => DataFrame (f d) | TrailersFrame t => TrailersFrame t end) frame.

Definition map_call {A T} (f : A -> T) (c : call A) : call T :=
  match c with
  | Returns a => Returns (f a)
  | Panics => Panics
  end.

#[export] Instance Either_Body {A B DA DB EA EB} `{!Body A DA EA} `{!Body B DB EB}
    : Body (Either A B) (Either DA DB) (Either EA EB) := {
  next_frame s :=
    match s with
    | Left a =>
        let '(a, r) := next_frame a in
        (Left a, map_call (fun r => map_err Left (rmap (map_frame Left) r)) r)
    | Right b =>
        let '(b, r) := next_frame b in
        (Right b, map_call (fun r => map_err Right (rmap (map_frame Right) r)) r)
    end;
  size_hint s := match s with Left a => size_hint a | Right b => size_hint b end;
  trailer_hint s := match s with Left a => trailer_hint a | Right b => trailer_hint b end;
  is_end_stream s := match s with Left a => is_end_stream a | Right b => is_end_stream b end;
  recycle s d :=
    match s, d with
    | Left a, Left d => Left (recycle a d)
    | Right b, Right d => Right (recycle b d)
    | _, _ => s
    end;
}.

Record MapError (B F : Type) := mkMapError { me_body : B; me_map : F }.
Arguments mkMapError {B F} _ _.
Arguments me_body {B F} _.
Arguments me_map {B F} _.

#[export] Instance MapError_Body {B D E F E'} `{!Body B D E} `{!FnMut F E E'} : Body (MapError B F) D E' := {
  next_frame s :=
    let '(b, r) := next_frame (me_body s) in
    match r with
    | Panics => (mkMapError b (me_map s), Panics)
    | Returns (Ok f) => (mkMapError b (me_map s), Returns (Ok f))
    | Returns (Err e) => let '(m, e) := call_mut (me_map s) e in (mkMapError b m, Returns (Err e))
    end;
  size_hint s := size_hint (me_body s);
  trailer_hint s := trailer_hint (me_body s);
  is_end_stream s := is_end_stream (me_body s);
  recycle s d := mkMapError (recycle (me_body s) d) (me_map s);
}.

Record InspectFrame (B F : Type) := mkInspectFrame { if_body : B; if_inspect : F }.
Arguments mkInspectFrame {B F} _ _.
Arguments if_body {B F} _.
Arguments if_inspect {B F} _.

#[export] Instance InspectFrame_Body {B D E F} `{!Body B D E} `{!FnMut F (Frame D) unit}
    : Body (InspectFrame B F) D E := {
  next_frame s :=
    let '(b, r) := next_frame (if_body s) in
    match r with
    | Returns (Ok (Some f)) =>
        (mkInspectFrame b (fst (call_mut (if_inspect s) f)), Returns (Ok (Some f)))
    | _ => (mkInspectFrame b (if_inspect s), r)
    end;
  size_hint s := size_hint (if_body s);
  trailer_hint s := trailer_hint (if_body s);
  is_end_stream s := is_end_stream (if_body s);
  recycle s d := mkInspectFrame (recycle (if_body s) d) (if_inspect s);
}.

Record MapFrame (B F : Type) := mkMapFrame { mf_body : B; mf_map : F; mf_done : bool }.
Arguments mkMapFrame {B F} _ _ _.
Arguments mf_body {B F} _.
Arguments mf_map {B F} _.
Arguments mf_done {B F} _.

Definition MapFrame_new {B F} (b : B) (f : F) : MapFrame B F := mkMapFrame b f false.

#[export] Instance MapFrame_Body {B D E F T} `{!Body B D E} `{!FnMut F (Frame D) (Frame T)}
    : Body (MapFrame B F) T E := {
  next_frame s :=
    if mf_done s then (s, Returns (Ok None))
    else
      let '(b, r) := next_frame (mf_body s) in
      match r with
      | Panics => (mkMapFrame b (mf_map s) (mf_done s), Panics)
      | Returns (Ok (Some f)) =>
          let '(m, f) := call_mut (mf_map s) f in
          (mkMapFrame b m (mf_done s), Returns (Ok (Some f)))
      | Returns (Ok None) => (mkMapFrame b (mf_map s) true, Returns (Ok None))
      | Returns (Err e) => (mkMapFrame b (mf_map s) true, Returns (Err e))
      end;
  size_hint s := Returns (if mf_done s then with_exact 0 else SizeHint_new);
  trailer_hint s := Returns (if mf_done s then TrailersNone else TrailersMayHave);
  is_end_stream := mf_done;
  recycle s _ := s;
}.

Record MapData (B F : Type) := mkMapData { md_body : B; md_map : F; md_done : bool }.
Arguments mkMapData {B F} _ _ _.
Arguments md_body {B F} _.
Arguments md_map {B F} _.
Arguments md_done {B F} _.

#[export] Instance MapData_Body {B D E F T} `{!Body B D E} `{!FnMut F D T} : Body (MapData B F) T E := {
  next_frame s :=
    if md_done s then (s, Returns (Ok None))
    else
      let '(b, r) := next_frame (md_body s) in
      match r with
      | Panics => (mkMapData b (md_map s) (md_done s), Panics)
      | Returns (Ok (Some f)) =>
          let '(m, f) := map_data (md_map s) f in
          (mkMapData b m (md_done s), Returns (Ok (Some f)))
      | Returns (Ok None) => (mkMapData b (md_map s) true, Returns (Ok None))
      | Returns (Err e) => (mkMapData b (md_map s) true, Returns (Err e))
      end;
  size_hint s := Returns (if md_done s then with_exact 0 else SizeHint_new);
  trailer_hint s := if md_done s then Returns TrailersNone else trailer_hint (md_body s);
  is_end_stream s := md_done s || is_end_stream (md_body s);
  recycle s _ := s;
}.

Record WithTrailers (B : Type) := mkWithTrailers { wt_body : B; wt_pending : option HeaderMap; wt_done : bool }.
Arguments mkWithTrailers {B} _ _ _.
Arguments wt_body {B} _.
Arguments wt_pending {B} _.
Arguments wt_done {B} _.

Definition WithTrailers_new {B} (b : B) (t : HeaderMap) : WithTrailers B := mkWithTrailers b (Some t) false.

(** The loop over the pending fields; [None] is the [expect] on a missing name. *)
Fixpoint append_fields (fields : HeaderMap) (name : option HeaderName)
    (pending : list (option HeaderName * HeaderValue)) : option HeaderMap :=
  match pending with
  | [] => Some fields
  | (next, value) :: pending =>
      let name := match next with Some _ => next | None => name end in
      match name with
      | Some n => append_fields (hm_append fields n value) name pending
      | None => None
      end
  end.

Definition wt_next_frame {B D E} `{!Body B D E} (s : WithTrailers B)
    : WithTrailers B * call (result (option (Frame D)) E) :=
  if wt_done s then (s, Returns (Ok None))
  else
    let '(b, r) := next_frame (wt_body s) in
    match r with
    | Panics => (mkWithTrailers b (wt_pending s) (wt_done s), Panics)
    | Returns (Ok (Some (DataFrame d))) =>
        (mkWithTrailers b (wt_pending s) (wt_done s), Returns (Ok (Some (DataFrame d))))
    | Returns (Ok (Some (TrailersFrame t))) =>
        match wt_pending s with
        | Some pending =>
            match append_fields t None (hm_into_iter pending) with
            | Some t => (mkWithTrailers b None (wt_done s), Returns (Ok (Some (TrailersFrame t))))
            | None => (mkWithTrailers b None (wt_done s), Panics)
            end
        | None => (mkWithTrailers b None (wt_done s), Returns (Ok (Some (TrailersFrame t))))
        end
    | Returns (Ok None) =>
        (mkWithTrailers b None true, Returns (Ok (option_map TrailersFrame (wt_pending s))))
    | Returns (Err e) => (mkWithTrailers b None true, Returns (Err e))
    end.

#[export] Instance WithTrailers_Body {B D E} `{!Body B D E} : Body (WithTrailers B) D E := {
  next_frame := wt_next_frame;
  size_hint s := if wt_done s then Returns (with_exact 0) else size_hint (wt_body s);
  trailer_hint s :=
    if wt_done s then Returns TrailersNone
    else match wt_pending s with
         | Some _ => Returns TrailersMayHave
         | None => trailer_hint (wt_body s)
         end;
  is_end_stream := wt_done;
  recycle s d := mkWithTrailers (recycle (wt_body s) d) (wt_pending s) (wt_done s);
}.

End Combinators.
Arguments mkWithTrailers {http B} _ _ _.
Arguments wt_body {http B} _.
Arguments wt_pending {http B} _.
Arguments wt_done {http B} _.

(** * What the wrappers guarantee *)

(** ** Exact length *)

Section ExactTheorems.
Context {http : HttpCrate} {B D E : Type} `{IoBuf D} `{!Body B D E}.

Notation answer := (call (result (option (Frame D)) (ExactLengthError E))).

(** The sequences of answers the wrapper promises: data within the length, at
    most one trailers frame after it if trailers are allowed, the end only at
    length zero, an error naming what is wrong; nothing after the end or an
    error. A panic is only ever the source's. *)
Inductive exact_answers : Z -> TrailerHint -> bool -> list answer -> Prop :=
| exact_stop r h saw : exact_answers r h saw []
| exact_data r h d rest :
    zlen (as_init d) <= r -> exact_answers (r - zlen (as_init d)) h false rest ->
    exact_answers r h false (Returns (Ok (Some (DataFrame d))) :: rest)
| exact_trailers r t rest :
    exact_answers r TrailersMayHave true rest ->
    exact_answers r TrailersMayHave false (Returns (Ok (Some (TrailersFrame t))) :: rest)
| exact_end h saw rest :
    Forall (eq (Returns (Ok None))) rest -> exact_answers 0 h saw (Returns (Ok None) :: rest)
| exact_error r h saw e rest :
    match e with
    | ExactSource _ => True
    | TooShort n => n = r /\ 0 < r
    | TooLong n len => n = r /\ r < len /\ saw = false
    | UnexpectedTrailers => h = TrailersNone /\ saw = false
    | RepeatedTrailers | DataAfterTrailers => saw = true
    end ->
    Forall (eq (Returns (Ok None))) rest -> exact_answers r h saw (Returns (Err e) :: rest)
| exact_panic r h saw rest : exact_answers r h saw (Panics :: rest).

Lemma el_done_answers n (s : ExactLength B) :
  el_done s = true -> Forall (eq (Returns (Ok None))) (next_frames n s).
Proof.
  intros Hd. induction n as [|n IH]; [constructor|]. cbn. unfold el_next_frame. rewrite Hd. by constructor.
Qed.

Lemma el_answers n (s : ExactLength B) :
  0 <= el_remaining s -> el_done s = false -> is_Some (el_body s) ->
  exact_answers (el_remaining s) (el_trailers s) (el_saw_trailers s) (next_frames n s).
Proof.
  revert s. induction n as [|n IH]; intros s Hr Hd [b Hb]; [constructor|].
  cbn [next_frames next_frame ExactLength_Body]. unfold el_next_frame. rewrite Hd, Hb.
  destruct (next_frame b) as [b' [[[f|]|e]|]]; cbn [el_remaining el_trailers el_saw_trailers].
  - unfold el_check; cbn [el_remaining el_trailers el_saw_trailers el_done el_body].
    destruct f as [d|t].
    + destruct (el_saw_trailers s) eqn:Es; [by apply exact_error, el_done_answers|].
      bcase; [|apply exact_error; [split_and!; (done || lia)|]; by apply el_done_answers].
      apply exact_data; [done|].
      apply (IH (mkExactLength (Some b') (el_remaining s - zlen (as_init d)) (el_trailers s) false false));
        cbn [el_remaining el_done el_body]; [lia|done|done].
    + destruct (el_saw_trailers s) eqn:Es; [by apply exact_error, el_done_answers|].
      case_bool_decide as Ht; [by apply exact_error, el_done_answers|].
      destruct (el_trailers s) eqn:Eh; [done|]. apply exact_trailers.
      apply (IH (mkExactLength _ _ TrailersMayHave true _)); simpl; done.
  - destruct (Z.eqb_spec (el_remaining s) 0) as [->|]; simpl;
      [by apply exact_end, el_done_answers | apply exact_error; [simpl; lia|]; by apply el_done_answers].
  - by apply exact_error, el_done_answers.
  - apply exact_panic.
Qed.

(** [ExactLength] enforces its contract over any source body, however
    ill-behaved: the answers are data frames within the promised length, at
    most one trailers frame and only when allowed, never data after trailers,
    a successful end only when every promised byte was delivered, and silence
    after the end or an error; the wrapper itself never panics. *)
Theorem exact_length_enforced (b : B) n bytes_ hint :
  is_u64 bytes_ -> exact_answers bytes_ hint false (next_frames n (ExactLength_new b bytes_ hint)).
Proof. intros [Hn _]. by apply (el_answers n (ExactLength_new b bytes_ hint)). Qed.

End ExactTheorems.

(** ** Limited *)

Section LimitedTheorems.
Context {http : HttpCrate} {B D E : Type} `{IoBuf D} `{!Body B D E}.

(** Payload bytes of the data frames among the answers. *)
Fixpoint payload_bytes {E'} (rs : list (call (result (option (Frame D)) E'))) : Z :=
  match rs with
  | Returns (Ok (Some (DataFrame d))) :: rs => zlen (as_init d) + payload_bytes rs
  | _ :: rs => payload_bytes rs
  | [] => 0
  end.

Lemma lm_done_payload n (s : Limited B) : lm_done s = true -> payload_bytes (next_frames n s) = 0.
Proof.
  intros Hd. induction n as [|n IH]; [done|]. cbn. unfold lm_next_frame. by rewrite Hd.
Qed.

Lemma lm_payload n (s : Limited B) :
  0 <= lm_remaining s -> payload_bytes (next_frames n s) <= lm_remaining s.
Proof.
  revert s. induction n as [|n IH]; intros s Hr; [done|].
  cbn [next_frames next_frame Limited_Body]. unfold lm_next_frame.
  destruct (lm_done s) eqn:Hd; [cbn; rewrite lm_done_payload; done|].
  destruct (lm_body s) as [b|]; [|by apply IH].
  destruct (next_frame b) as [b' [[[[d|t]|]|e]|]]; cbn [data_ref lm_remaining lm_body lm_limit lm_done].
  - bcase.
    + cbn [payload_bytes]. etransitivity; [apply Z.add_le_mono_l, (IH (mkLimited _ _ _ _)); simpl; lia|]. simpl. lia.
    + cbn [payload_bytes]. rewrite lm_done_payload by done. lia.
  - cbn [payload_bytes]. by apply (IH (mkLimited _ _ _ _)).
  - cbn [payload_bytes]. by rewrite lm_done_payload.
  - cbn [payload_bytes]. by rewrite lm_done_payload.
  - cbn [payload_bytes]. by apply (IH (mkLimited _ _ _ _)).
Qed.

(** [Limited] never delivers more payload than its limit, over any source
    body and any number of calls. *)
Theorem limited_bounds_payload (b : B) n max_bytes :
  is_u64 max_bytes -> payload_bytes (next_frames n (Limited_new b max_bytes)) <= max_bytes.
Proof. intros [Hm _]. by apply (lm_payload n (Limited_new b max_bytes)). Qed.

Definition lm_inv (s : Limited B) : Prop :=
  is_u64 (lm_remaining s) /\ (lm_done s = false -> is_Some (lm_body s)).

Lemma lm_inv_next s s' r : lm_inv s -> lm_next_frame s = (s', r) -> lm_inv s'.
Proof.
  intros [Hr Hb]. unfold lm_next_frame. destruct (lm_done s) eqn:Hd; [intros [= <- _]; split; [done|congruence]|].
  destruct Hb as [b ->]; [done|]. destruct (next_frame b) as [b' [[[[d|t]|]|e]|]]; simpl.
  - bcase; intros [= <- _]; split; simpl; try done. unfold is_u64 in *. pose proof (zlen_nonneg (as_init d)). lia.
  - intros [= <- _]. by split.
  - intros [= <- _]. by split.
  - intros [= <- _]. by split.
  - intros [= <- _]. by split.
Qed.

Lemma lm_inv_after n s : lm_inv s -> lm_inv (after_frames n s).
Proof.
  revert s. induction n as [|n IH]; intros s Hs; [done|]. simpl. apply IH.
  destruct (lm_next_frame s) as [s' r] eqn:Ew. by eapply lm_inv_next.
Qed.

Lemma lm_size_hint_ok (s : Limited B) :
  lm_inv s -> (forall b, exists h, size_hint b = Returns h /\ hint_ok h) ->
  exists h, lm_size_hint s = Returns h /\ hint_ok h /\
    (lm_done s = true \/ exists u, upper h = Some u /\ u <= lm_remaining s) /\
    (forall b src n, lm_done s = false -> lm_body s = Some b -> size_hint b = Returns src ->
       exact h = Some n -> 0 < n -> lower src = n).
Proof.
  intros [Hr Hb] Hsrc. unfold lm_size_hint. destruct (lm_done s) eqn:Hd.
  { eexists. split; [done|]. split_and!; [by split|by left|done]. }
  destruct Hb as [b Hb]; [done|]. rewrite Hb. destruct (Hsrc b) as (src & Es & Hl & Hu). rewrite Es.
  unfold is_u64 in *. set (lo := if lower src <=? lm_remaining s then lower src else 0).
  set (up := Z.min (default (lm_remaining s) (upper src)) (lm_remaining s)).
  assert (Hlo : 0 <= lo <= up /\ up <= lm_remaining s).
  { unfold lo, up. destruct (upper src) as [u|]; simpl in *; bcase; lia. }
  unfold with_bounds. destruct (Z.ltb_spec up lo); [lia|].
  eexists. split; [done|]. split_and!.
  - split; [unfold is_u64 in *; simpl; lia|]. simpl. unfold is_u64 in *. lia.
  - right. exists up. split; [done|lia].
  - intros b0 src0 n _ Hb0 Es0 He Hn. injection Hb0 as <-. rewrite Es in Es0. injection Es0 as <-.
    unfold exact in He. simpl in He. destruct (Z.eqb_spec up lo) as [Eu|]; [|done].
    injection He as He. unfold lo in Eu. destruct (lower src <=? lm_remaining s); lia.
Qed.

(** [Limited]'s size hint never fails its internal check, after any number
    of calls over any source with well-formed hints: it is a well-formed hint
    whose upper bound is within the remaining allowance, and it never turns
    into an exact length the source did not have as its lower bound. *)
Theorem limited_size_hint (b : B) max_bytes n :
  is_u64 max_bytes -> (forall b : B, exists h, size_hint b = Returns h /\ hint_ok h) ->
  let s := after_frames n (Limited_new b max_bytes) in
  exists h, lm_size_hint s = Returns h /\ hint_ok h /\
    (lm_done s = true \/ exists u, upper h = Some u /\ u <= lm_remaining s) /\
    (forall b src n, lm_done s = false -> lm_body s = Some b -> size_hint b = Returns src ->
       exact h = Some n -> 0 < n -> lower src = n).
Proof. intros Hm Hh. apply lm_size_hint_ok; [|done]. apply lm_inv_after. by split. Qed.

End LimitedTheorems.

(** ** Appended trailers *)

Section TrailerTheorems.
Context {http : HttpCrate} {laws : HttpLaws http} {B D E : Type} `{!Body B D E}.

Lemma append_fields_named t name pending fields :
  named_fields name pending = Some fields ->
  exists t', append_fields t name pending = Some t' /\
    forall n, hm_get_all t' n = hm_get_all t n ++ field_values n fields.
Proof.
  revert t name fields. induction pending as [|[next v] pending IH]; intros t name fields Hn; simpl in *.
  { simplify_eq. exists t. split; [done|]. intros n. by rewrite app_nil_r. }
  set (name' := match next with Some _ => next | None => name end) in *. destruct name' as [n|] eqn:En; [|done].
  destruct (named_fields (Some n) pending) as [fs|] eqn:Ef; simplify_eq.
  destruct (IH (hm_append t n v) _ _ Ef) as (t' & -> & Ht). exists t'. split; [done|]. intros m.
  rewrite Ht, law_get_all_append. unfold field_values. rewrite filter_cons. simpl.
  case_decide; [by rewrite <- app_assoc | done].
Qed.

Definition data_answers (ds : list D) : list (call (result (option (Frame D)) E)) :=
  map (fun d => Returns (Ok (Some (DataFrame d)))) ds.

Lemma wt_data ds k (s : WithTrailers B) rest :
  wt_done s = false -> next_frames (length ds + k) (wt_body s) = data_answers ds ++ rest ->
  exists b, next_frames k b = rest /\
    forall m, next_frames (length ds + m) s = data_answers ds ++ next_frames m (mkWithTrailers b (wt_pending s) false).
Proof.
  revert s. induction ds as [|d ds IH]; intros s Hd Hs.
  { exists (wt_body s). simpl in *. destruct s as [b p []]; [done|]. done. }
  cbn [length Nat.add next_frames data_answers map app] in Hs |- *.
  destruct (next_frame (wt_body s)) as [b r] eqn:Eb. injection Hs as -> Hs.
  destruct (IH (mkWithTrailers b (wt_pending s) false) eq_refl Hs) as (b' & Hb' & E').
  exists b'. split; [done|]. intros m. cbn [next_frame WithTrailers_Body]. unfold wt_next_frame. rewrite Hd, Eb.
  cbn [wt_pending] in *. by rewrite E'.
Qed.

Lemma wt_done_answers n (s : WithTrailers B) :
  wt_done s = true -> next_frames n s = repeat (Returns (Ok None)) n.
Proof.
  intros Hd. induction n as [|n IH]; [done|]. cbn. unfold wt_next_frame. rewrite Hd. by rewrite IH.
Qed.

(** [WithTrailers] attaches its fields exactly once. When the source
    yields its data and ends, the wrapper yields the same data, one trailers
    frame with exactly the supplied fields, then the end; when the source has
    trailers of its own, the supplied values follow the source's under every
    name in that one frame. *)
Theorem with_trailers_once (b : B) ds t n :
  (next_frames (length ds + 1) b = data_answers ds ++ [Returns (Ok None)] ->
   next_frames (length ds + S n) (WithTrailers_new b t) =
   data_answers ds ++ Returns (Ok (Some (TrailersFrame t))) :: repeat (Returns (Ok None)) n) /\
  (forall src,
   next_frames (length ds + 2) b =
     data_answers ds ++ [Returns (Ok (Some (TrailersFrame src))); Returns (Ok None)] ->
   exists merged,
     next_frames (length ds + S n) (WithTrailers_new b t) =
     data_answers ds ++ Returns (Ok (Some (TrailersFrame merged))) :: repeat (Returns (Ok None)) n /\
     forall name, hm_get_all merged name = hm_get_all src name ++ hm_get_all t name).
Proof.
  split.
  - intros Hs. destruct (wt_data ds 1 (WithTrailers_new b t) _ eq_refl Hs) as (b' & Hb & ->). f_equal.
    cbn [next_frames] in Hb |- *. cbn [next_frame WithTrailers_Body]. unfold wt_next_frame. simpl.
    destruct (next_frame b') as [b2 r]. simplify_eq. f_equal. by rewrite wt_done_answers.
  - intros src Hs. destruct (wt_data ds 2 (WithTrailers_new b t) _ eq_refl Hs) as (b' & Hb & Ew).
    destruct (law_into_iter t) as (fields & Hf & Hv).
    destruct (append_fields_named src None _ _ Hf) as (merged & Hm & Hg).
    exists merged. split; [|intros name; by rewrite Hg, Hv]. rewrite Ew. f_equal.
    cbn [next_frames] in Hb |- *. cbn [next_frame WithTrailers_Body]. unfold wt_next_frame at 1. simpl.
    destruct (next_frame b') as [b2 r]. destruct (next_frame b2) as [b3 r3] eqn:E3. simplify_eq.
    rewrite Hm. f_equal. destruct n as [|n]; [done|].
    cbn [next_frames repeat]. cbn [next_frame WithTrailers_Body]. unfold wt_next_frame at 1. simpl.
    rewrite E3. simpl. f_equal. by rewrite wt_done_answers.
Qed.

End TrailerTheorems.

(** ** Evaluated bodies *)

Lemma full_hint_ok (d : bytes) : zlen d <= u64_max -> hint_ok (with_exact (zlen d)).
Proof. intros Hd. pose proof (zlen_nonneg d). split; unfold is_u64; simpl; lia. Qed.

Lemma exact_length_enforced_witness :
  @exact_answers AssocHttp bytes Infallible _ 3 TrailersNone false
    [Returns (Err (TooLong 3 4)); Returns (Ok None)].
Proof.
  exact (@exact_length_enforced AssocHttp (Full bytes) bytes Infallible _ _ (FullReady (bs "abcd")) 2 3
    TrailersNone ltac:(unfold is_u64, u64_max; lia)).
Defined.

Lemma limited_bounds_payload_witness :
  @payload_bytes AssocHttp bytes _ (LimitError Infallible)
    (next_frames 3 (Limited_new (FullReady (bs "abcd")) 3)) <= 3.
Proof.
  exact (@limited_bounds_payload AssocHttp (Full bytes) bytes Infallible _ _ (FullReady (bs "abcd")) 3 3
    ltac:(unfold is_u64, u64_max; lia)).
Defined.

Lemma limited_size_hint_witness :
  exists h,
    @lm_size_hint AssocHttp Empty bytes Infallible _
      (@after_frames AssocHttp (Limited Empty) bytes (LimitError Infallible) _ 1 (Limited_new EmptyBody 3)) =
    Returns h /\ hint_ok h.
Proof.
  destruct (@limited_size_hint AssocHttp Empty bytes Infallible _ _ EmptyBody 3 1
    ltac:(unfold is_u64, u64_max; lia)) as (h & Hh & Ho & _).
  - intros b. exists (with_exact 0). split; [reflexivity|]. split; unfold is_u64, u64_max; simpl; lia.
  - exists h. exact (conj Hh Ho).
Defined.

Definition one_trailer : @HeaderMap AssocHttp := [(bs "x", bs "1")].

Lemma with_trailers_once_witness :
  @next_frames AssocHttp (@WithTrailers AssocHttp (Full bytes)) bytes Infallible _ 3
    (@WithTrailers_new AssocHttp _ (FullReady (bs "ab")) one_trailer) =
  [Returns (Ok (Some (DataFrame (bs "ab")))); Returns (Ok (Some (@TrailersFrame AssocHttp bytes one_trailer)));
   Returns (Ok None)].
Proof.
  exact (proj1 (@with_trailers_once AssocHttp AssocHttp_laws (Full bytes) bytes Infallible _
    (FullReady (bs "ab")) [bs "ab"] one_trailer 1) eq_refl).
Defined.
