(* ===== verification/Encode.v ===== *)
(** Outgoing heads and bodies (src/src/proto/h1/encode.rs, inline.rs,
    header_case.rs).

    A head is planned (framing fields set from the body's metadata), validated
    like a received one and written under a byte limit. [BodyEncoder] frames
    the producer's data and checks it against the promised size. *)

From Stdlib Require Import ZArith Lia.
From stdpp Require Import base list option.
From S2P Require Import Prelude Http Errors Syntax Scan Validate Body Decode.

(** Whether [Vec::try_reserve] succeeds, from the length and the addition. *)
Class Allocator := try_reserve : Z -> Z -> bool.

Record BodyMetadata := mkBodyMetadata {
  md_size : SizeHint;
  md_trailers : TrailerHint;
}.

Record EncodeConfig := mkEncodeConfig {
  max_head_bytes : Z;
  enc_max_trailer_bytes : Z;
  title_case_headers : bool;
}.

(** [EncodeConfig::new]; [None] is the assertion failure. *)
Definition EncodeConfig_new (head trailers : Z) : option EncodeConfig :=
  if (0 <? head) && (0 <? trailers) then Some (mkEncodeConfig head trailers false) else None.

Definition encode_head_error (e : HeadError) : EncodeError :=
  match e with
  | HeadErrorLimit l =>
      EncodeErrorLimit
        (match l with
         | HeadLimitBytes => HeadBytes
         | HeadLimitHeaders => HeaderCount
         | HeadLimitHeaderMap => HeadMapCapacity
         end)
  | UnsupportedTransferCoding | UnsupportedVersion => EncodeUnsupported
  | AmbiguousMessageLength | InvalidContentLength | InvalidTransferEncoding => InvalidFraming
  | _ => InvalidHead
  end.

(** ** The bounded writer *)

Record BoundedWriter := mkBoundedWriter {
  w_kind : LimitKind;
  w_failure : option EncodeError;
  w_bytes : bytes;
  w_limit : Z;
}.

Definition BoundedWriter_new (limit : Z) : BoundedWriter := mkBoundedWriter HeadBytes None [] limit.

Fixpoint title_case (capitalize : bool) (value : bytes) : bytes :=
  match value with
  | [] => []
  | b :: value => (if capitalize then to_ascii_uppercase b else b) :: title_case (beq b DASH) value
  end.

Section Writer.
Context {alloc : Allocator}.

(** The common part of [push] and [push_title_case]: room for [value]. *)
Definition reserve (w : BoundedWriter) (value : bytes) : result unit EncodeError :=
  let? length := ok_or (checked_add usize_max (zlen (w_bytes w)) (zlen value)) (EncodeErrorLimit (w_kind w)) in
  if w_limit w <? length then Err (EncodeErrorLimit (w_kind w))
  else if try_reserve (zlen (w_bytes w)) (zlen value) then Ok tt
  else Err EncodeAllocation.

Definition set_bytes (w : BoundedWriter) (b : bytes) : BoundedWriter :=
  mkBoundedWriter (w_kind w) (w_failure w) b (w_limit w).

Definition push (w : BoundedWriter) (value : bytes) : result BoundedWriter EncodeError :=
  reserve w value ;;? Ok (set_bytes w (w_bytes w ++ value)).

Definition push_title_case (w : BoundedWriter) (value : bytes) : result BoundedWriter EncodeError :=
  reserve w value ;;? Ok (set_bytes w (w_bytes w ++ title_case true value)).

(** [fmt::Write::write_str]: the failure is kept, the error is [fmt::Error]. *)
Definition write_str (w : BoundedWriter) (value : bytes) : BoundedWriter * result unit unit :=
  match push w value with
  | Ok w => (w, Ok tt)
  | Err e => (mkBoundedWriter (w_kind w) (Some e) (w_bytes w) (w_limit w), Err tt)
  end.

(** [write!(w, "{}", value)] over the pieces [Display] writes. *)
Fixpoint write_pieces (w : BoundedWriter) (pieces : list bytes) : BoundedWriter * result unit unit :=
  match pieces with
  | [] => (w, Ok tt)
  | p :: pieces =>
      match write_str w p with
      | (w, Ok _) => write_pieces w pieces
      | (w, Err e) => (w, Err e)
      end
  end.

Definition write_display (w : BoundedWriter) (pieces : list bytes) : result BoundedWriter EncodeError :=
  match write_pieces w pieces with
  | (w, Ok _) => Ok w
  | (w, Err _) => Err (default (EncodeErrorLimit HeadBytes) (w_failure w))
  end.

Definition version_bytes (v : Version) : result bytes EncodeError :=
  match v with
  | HTTP_10 => Ok (bs "HTTP/1.0")
  | HTTP_11 => Ok (bs "HTTP/1.1")
  | _ => Err EncodeUnsupported
  end.

Definition write_header_name (w : BoundedWriter) (name : HeaderName) (original : option bytes) (title : bool)
    : result BoundedWriter EncodeError :=
  match original with
  | Some o => push w o
  | None => if title then push_title_case w name else push w name
  end.

Definition write_field (w : BoundedWriter) (name : HeaderName) (original : option bytes) (value : HeaderValue)
    (title : bool) : result BoundedWriter EncodeError :=
  let? w := write_header_name w name original title in
  let? w := push w (bs ": ") in
  let? w := push w value in
  push w [CR; LF].

(** The inner loop over one name: values with the next spelling, if any. *)
Fixpoint write_values (w : BoundedWriter) (name : HeaderName) (spellings : list bytes)
    (values : list HeaderValue) (title : bool) : result BoundedWriter EncodeError :=
  match values with
  | [] => Ok w
  | v :: values =>
      let? w := write_field w name (head spellings) v title in
      write_values w name (tail spellings) values title
  end.

Context {http : HttpCrate}.

Fixpoint write_names (w : BoundedWriter) (headers original : HeaderMap) (names : list HeaderName) (title : bool)
    : result BoundedWriter EncodeError :=
  match names with
  | [] => Ok w
  | n :: names =>
      let? w := write_values w n (hm_get_all original n) (hm_get_all headers n) title in
      write_names w headers original names title
  end.

Fixpoint write_fields (w : BoundedWriter) (fields : list (HeaderName * HeaderValue)) (title : bool)
    : result BoundedWriter EncodeError :=
  match fields with
  | [] => Ok w
  | (n, v) :: fields =>
      let? w := write_field w n None v title in
      write_fields w fields title
  end.

Definition write_headers (w : BoundedWriter) (headers : HeaderMap) (original_case : option HeaderMap)
    (title : bool) : result BoundedWriter EncodeError :=
  match original_case with
  | Some original => write_names w headers original (hm_keys headers) title
  | None => write_fields w (hm_iter headers) title
  end.

(** ** Planning the framing *)

Definition set_exact_length (headers : HeaderMap) (length : Z) : result HeaderMap EncodeError :=
  let? te := map_err encode_head_error (parse_transfer_encoding headers) in
  match te with
  | Some _ => Err InvalidFraming
  | None =>
      let? cl := map_err encode_head_error (parse_content_length headers) in
      match cl with
      | Some declared => if declared =? length then Ok headers else Err LengthMismatch
      | None => Ok (hm_insert headers CONTENT_LENGTH (header_value_from_u64 length))
      end
  end.

Definition set_chunked (headers : HeaderMap) : result HeaderMap EncodeError :=
  if hm_contains_key headers CONTENT_LENGTH then Err InvalidFraming
  else
    let? te := map_err encode_head_error (parse_transfer_encoding headers) in
    match te with
    | None => Ok (hm_insert headers TRANSFER_ENCODING (bs "chunked"))
    | Some _ => Ok headers
    end.

Definition reject_framing_headers (headers : HeaderMap) : result unit EncodeError :=
  if hm_contains_key headers CONTENT_LENGTH || hm_contains_key headers TRANSFER_ENCODING
  then Err InvalidFraming else Ok tt.

(** The exact length of a body that promises no trailers. *)
Definition exact_without_trailers (m : BodyMetadata) : option Z :=
  if bool_decide (md_trailers m = TrailersNone) then exact (md_size m) else None.

Definition plan_request_framing (headers : HeaderMap) (v : Version) (m : BodyMetadata)
    : result (HeaderMap * BodyMode) EncodeError :=
  match exact_without_trailers m with
  | Some length =>
      let? headers := set_exact_length headers length in
      Ok (headers, BodyFixed length)
  | None =>
      if negb (bool_decide (v = HTTP_11)) then Err EncodeUnsupported
      else
        let? headers := set_chunked headers in
        Ok (headers, BodyChunked)
  end.

Definition plan_representation_framing (headers : HeaderMap) (v : Version) (m : BodyMetadata)
    : result (HeaderMap * BodyMode) EncodeError :=
  match exact_without_trailers m with
  | Some length =>
      let? headers := set_exact_length headers length in
      Ok (headers, BodyFixed length)
  | None =>
      if bool_decide (v = HTTP_11) then
        let? headers := set_chunked headers in
        Ok (headers, BodyChunked)
      else if bool_decide (md_trailers m = TrailersMayHave) then Err TrailersForbidden
      else
        reject_framing_headers headers ;;?
        Ok (headers, BodyUntilEof)
  end.

(** A body of no bytes and no trailers. *)
Definition no_body_promised (m : BodyMetadata) : bool :=
  bool_decide (exact (md_size m) = Some 0) && bool_decide (md_trailers m = TrailersNone).

Definition plan_response_framing (headers : HeaderMap) (v : Version) (status : StatusCode) (m : BodyMetadata)
    (request_method : Method) : result (HeaderMap * BodyMode) EncodeError :=
  let tunnel := bytes_eqb request_method CONNECT && status_is_success status in
  let strictly_forbidden := status_is_informational status || (status =? 204) in
  let metadata_only := bytes_eqb request_method HEAD || (status =? 304) in
  if tunnel || strictly_forbidden then
    if negb (no_body_promised m) then Err BodyForbidden
    else if hm_contains_key headers CONTENT_LENGTH || hm_contains_key headers TRANSFER_ENCODING
    then Err BodyForbidden
    else Ok (headers, BodyNone)
  else if metadata_only then
    let? planned := plan_representation_framing headers v m in
    Ok (fst planned, BodyNone)
  else if status =? 205 then
    if negb (no_body_promised m) || hm_contains_key headers TRANSFER_ENCODING then Err BodyForbidden
    else
      let? headers := set_exact_length headers 0 in
      Ok (headers, BodyNone)
  else plan_representation_framing headers v m.

(** ** Heads *)

Record MessagePlan (H : Type) := mkMessagePlan {
  plan_bytes : bytes;
  plan_head : H;
}.
Arguments mkMessagePlan {H} _ _.
Arguments plan_bytes {H} _.
Arguments plan_head {H} _.

Definition prepare_request_head (method : Method) (target : Uri) (v : Version) (headers : HeaderMap)
    (original_case : option HeaderMap) (m : BodyMetadata) (config : EncodeConfig)
    : result (MessagePlan ValidatedRequestHead) EncodeError :=
  let? planned := plan_request_framing headers v m in
  let '(headers, mode) := planned in
  let? validated := map_err encode_head_error (validate (mkRequestHead method target v headers None)) in
  if negb (bool_decide (vreq_body validated = mode)) then Err InvalidFraming
  else
    let h := vreq_head validated in
    let? w := push (BoundedWriter_new (max_head_bytes config)) (req_method h) in
    let? w := push w [SP] in
    let? w := write_display w (uri_display (req_target h)) in
    let? w := push w [SP] in
    let? vb := version_bytes v in
    let? w := push w vb in
    let? w := push w [CR; LF] in
    let? w := write_headers w (req_headers h) original_case (title_case_headers config) in
    let? w := push w [CR; LF] in
    Ok (mkMessagePlan (w_bytes w) validated).

Definition prepare_response_head (status : StatusCode) (v : Version) (headers : HeaderMap)
    (original_case : option HeaderMap) (m : BodyMetadata) (request_method : Method) (config : EncodeConfig)
    : result (MessagePlan ValidatedResponseHead) EncodeError :=
  let? planned := plan_response_framing headers v status m request_method in
  let '(headers, mode) := planned in
  let? validated :=
    map_err encode_head_error (validate_response (mkResponseHead v status headers None) request_method) in
  if negb (bool_decide (vresp_body validated = mode)) then Err InvalidFraming
  else
    let? vb := version_bytes v in
    let? w := push (BoundedWriter_new (max_head_bytes config)) vb in
    let? w := push w [SP] in
    let? w := push w (status_as_str status) in
    let? w := push w [SP] in
    let? w := push w (default [] (status_canonical_reason status)) in
    let? w := push w [CR; LF] in
    let? w := write_headers w (resp_headers (vresp_head validated)) original_case (title_case_headers config) in
    let? w := push w [CR; LF] in
    Ok (mkMessagePlan (w_bytes w) validated).

End Writer.
Arguments mkMessagePlan {H} _ _.
Arguments plan_bytes {H} _.
Arguments plan_head {H} _.

(** ** Chunk prefixes *)

Record InlineBuf := mkInlineBuf {
  ib_bytes : bytes;
  ib_len : Z;
}.

Definition InlineBuf_empty (n : Z) : InlineBuf := mkInlineBuf (repeat Byte.x00 (Z.to_nat n)) 0.

(** [InlineBuf::<N>::from_parts], [N] the length of the array. *)
Definition from_parts (b : bytes) (len : Z) : call InlineBuf :=
  if len <=? zlen b then Returns (mkInlineBuf b len) else Panics.

Definition inline_as_init (i : InlineBuf) : bytes := ztake (ib_len i) (ib_bytes i).

Definition CHUNK_PREFIX_CAPACITY : Z := 64 / 4 + 2.

(** [usize::BITS - length.leading_zeros()] *)
Definition significant_bits (length : Z) : Z := if length =? 0 then 0 else Z.log2 length + 1.

(** [array[i] = b], with the bounds check. *)
Definition store (a : bytes) (i : Z) (b : byte) : call bytes :=
  if (0 <=? i) && (i <? zlen a) then Returns (<[Z.to_nat i := b]> a) else Panics.

Definition HEX : bytes := bs "0123456789abcdef".

Definition hex_digit (n : Z) : byte := default Byte.x00 (zget HEX n).

(** The [while cursor > 0] loop. *)
Fixpoint hex_loop (cursor : nat) (length : Z) (a : bytes) : call bytes :=
  match cursor with
  | O => Returns a
  | S cursor =>
      match store a (Z.of_nat cursor) (hex_digit (Z.land length 15)) with
      | Returns a => hex_loop cursor (Z.shiftr length 4) a
      | Panics => Panics
      end
  end.

Definition chunk_prefix (length : Z) : call InlineBuf :=
  let digits := (significant_bits length + 3) / 4 in
  match hex_loop (Z.to_nat digits) length (repeat Byte.x00 (Z.to_nat CHUNK_PREFIX_CAPACITY)) with
  | Panics => Panics
  | Returns a =>
      match store a digits CR with
      | Panics => Panics
      | Returns a =>
          match store a (digits + 1) LF with
          | Panics => Panics
          | Returns a => from_parts a (digits + 2)
          end
      end
  end.

(** ** The body encoder *)

Record DataFraming := mkDataFraming {
  df_prefix : InlineBuf;
  df_suffix : bytes;
}.

Definition no_framing : DataFraming := mkDataFraming (InlineBuf_empty CHUNK_PREFIX_CAPACITY) [].

Inductive BodyState : Type :=
| StateNone
| StateFixed
| StateChunked
| StateCloseDelimited
| StateDone
| StateFailed (e : EncodeError).

#[export] Instance BodyState_eq_dec : EqDecision BodyState.
Proof. solve_decision. Defined.

Record BodyEncoder := mkBodyEncoder {
  be_state : BodyState;
  be_max_trailer_bytes : Z;
  be_title_case_headers : bool;
  remaining_lower : Z;
  remaining_upper : option Z;
  be_trailers : TrailerHint;
}.

Definition be_set_state (e : BodyEncoder) (s : BodyState) : BodyEncoder :=
  mkBodyEncoder s (be_max_trailer_bytes e) (be_title_case_headers e) (remaining_lower e) (remaining_upper e)
    (be_trailers e).

Definition BodyEncoder_new (mode : BodyMode) (m : BodyMetadata) (config : EncodeConfig)
    : result BodyEncoder EncodeError :=
  let built (s : BodyState) :=
    Ok (mkBodyEncoder s (enc_max_trailer_bytes config) (title_case_headers config)
          (lower (md_size m)) (upper (md_size m)) (md_trailers m)) in
  match mode with
  | BodyFixed length =>
      if negb (bool_decide (exact (md_size m) = Some length)) || negb (bool_decide (md_trailers m = TrailersNone))
      then Err InvalidFraming
      else built StateFixed
  | BodyUntilEof =>
      if negb (bool_decide (md_trailers m = TrailersNone)) then Err TrailersForbidden
      else built StateCloseDelimited
  | BodyNone => built StateNone
  | BodyChunked => built StateChunked
  end.

Definition be_fail {A} (e : BodyEncoder) (err : EncodeError) : BodyEncoder * call (result A EncodeError) :=
  (be_set_state e (StateFailed err), Returns (Err err)).

(** [BodyEncoder::data] *)
Definition be_data (e : BodyEncoder) (length : Z) : BodyEncoder * call (result DataFraming EncodeError) :=
  match be_state e with
  | StateFailed err => (e, Returns (Err err))
  | StateDone => be_fail e FrameAfterEnd
  | StateNone => be_fail e BodyForbidden
  | _ =>
      if match remaining_upper e with Some u => u <? length | None => false end
      then be_fail e LengthMismatch
      else
        let e := mkBodyEncoder (be_state e) (be_max_trailer_bytes e) (be_title_case_headers e)
                   (saturating_sub (remaining_lower e) length)
                   (option_map (fun u => u - length) (remaining_upper e)) (be_trailers e) in
        match be_state e with
        | StateChunked =>
            if length =? 0 then (e, Returns (Ok no_framing))
            else
              match chunk_prefix length with
              | Returns prefix => (e, Returns (Ok (mkDataFraming prefix [CR; LF])))
              | Panics => (e, Panics)
              end
        | StateFixed | StateCloseDelimited => (e, Returns (Ok no_framing))
        | StateNone => be_fail e BodyForbidden
        | StateDone => be_fail e FrameAfterEnd
        | StateFailed err => (e, Returns (Err err))
        end
  end.

Section BodyEncoder.
Context {alloc : Allocator} {http : HttpCrate}.

(** [BodyEncoder::trailers] *)
Definition be_send_trailers (e : BodyEncoder) (trailers : HeaderMap) : BodyEncoder * call (result bytes EncodeError) :=
  match be_state e with
  | StateFailed err => (e, Returns (Err err))
  | StateDone => be_fail e FrameAfterEnd
  | StateChunked =>
      if negb (remaining_lower e =? 0) then be_fail e LengthMismatch
      else if bool_decide (be_trailers e = TrailersNone) || negb (is_ok (validate_trailers trailers))
      then be_fail e TrailersForbidden
      else
        let w := mkBoundedWriter TrailerBytes None [] (be_max_trailer_bytes e) in
        let written :=
          let? w := push w (bs "0" ++ [CR; LF]) in
          let? w := write_headers w trailers None (be_title_case_headers e) in
          push w [CR; LF] in
        match written with
        | Ok w => (be_set_state e StateDone, Returns (Ok (w_bytes w)))
        | Err err => be_fail e err
        end
  | _ => be_fail e TrailersForbidden
  end.

End BodyEncoder.

(** [BodyEncoder::finish] *)
Definition be_finish (e : BodyEncoder) : BodyEncoder * call (result bytes EncodeError) :=
  match be_state e with
  | StateFailed err => (e, Returns (Err err))
  | StateDone => be_fail e FrameAfterEnd
  | StateNone => (be_set_state e StateDone, Returns (Ok []))
  | StateFixed | StateCloseDelimited =>
      if negb (remaining_lower e =? 0) then be_fail e LengthMismatch
      else (be_set_state e StateDone, Returns (Ok []))
  | StateChunked =>
      if negb (remaining_lower e =? 0) then be_fail e LengthMismatch
      else (be_set_state e StateDone, Returns (Ok (bs "0" ++ [CR; LF; CR; LF])))
  end.

(** * Chunk prefixes *)

Fixpoint hex_digits (k : nat) (n : Z) : bytes :=
  match k with
  | O => []
  | S k => hex_digits k (Z.shiftr n 4) ++ [hex_digit (Z.land n 15)]
  end.

Lemma hex_digits_length k n : length (hex_digits k n) = k.
Proof. revert n. induction k as [|k IH]; intros n; [done|]. simpl. rewrite length_app, IH. simpl. lia. Qed.

Lemma store_ok a i b : 0 <= i < zlen a -> store a i b = Returns (<[Z.to_nat i := b]> a).
Proof. intros [H1 H2]. unfold store. bcase; [|lia]. bcase; [done|lia]. Qed.

Lemma hex_loop_digits k n a :
  (k <= length a)%nat -> hex_loop k n a = Returns (hex_digits k n ++ drop k a).
Proof.
  revert n a. induction k as [|k IH]; intros n a Hk; [by rewrite drop_0|]. cbn [hex_loop hex_digits].
  rewrite store_ok by (unfold zlen; lia). rewrite Nat2Z.id, IH by (rewrite length_insert; lia).
  rewrite <- app_assoc. do 2 f_equal. simpl.
  rewrite (drop_S _ (hex_digit (Z.land n 15)) k) by (apply list_lookup_insert_eq; lia).
  by rewrite drop_insert_lt by lia.
Qed.

Definition is_hex_digit (b : byte) : Prop := is_ascii_hexdigit b = true /\ is_ows b = false /\
  b <> CR /\ b <> LF /\ b <> SEMI.

Lemma hex_digit_spec m : 0 <= m < 16 -> hex (hex_digit m) = m /\ is_hex_digit (hex_digit m).
Proof.
  intros Hm.
  assert (Hc : m = 0 \/ m = 1 \/ m = 2 \/ m = 3 \/ m = 4 \/ m = 5 \/ m = 6 \/ m = 7 \/ m = 8 \/ m = 9 \/
    m = 10 \/ m = 11 \/ m = 12 \/ m = 13 \/ m = 14 \/ m = 15) by lia.
  repeat (destruct Hc as [->|Hc]; [by repeat split|]). subst. by repeat split.
Qed.

Lemma hex_digits_all k n : 0 <= n -> Forall is_hex_digit (hex_digits k n).
Proof.
  revert n. induction k as [|k IH]; intros n Hn; simpl; [done|]. apply Forall_app. split.
  - apply IH, Z.shiftr_nonneg. lia.
  - constructor; [|done]. apply hex_digit_spec.
    change 15 with (Z.ones 4). rewrite Z.land_ones by lia. apply Z.mod_pos_bound. lia.
Qed.

Lemma hex_fold_snoc v ds d :
  hex_fold v (ds ++ [d]) = let? s := hex_fold v ds in hex_fold s [d].
Proof.
  revert v. induction ds as [|b ds IH]; intros v; [done|]. cbn [app hex_fold].
  destruct (checked_mul u64_max v 16); [|done]. destruct (checked_add u64_max _ (hex b)); [|done]. apply IH.
Qed.

Lemma hex_digits_value k n :
  0 <= n < 16 ^ Z.of_nat k -> n <= u64_max -> hex_fold 0 (hex_digits k n) = Ok n.
Proof.
  revert n. induction k as [|k IH]; intros n Hn Hm; [simpl in *; by replace n with 0 by lia|].
  rewrite Nat2Z.inj_succ, Z.pow_succ_r in Hn by lia.
  cbn [hex_digits]. rewrite hex_fold_snoc. rewrite Z.shiftr_div_pow2 by lia. change (2 ^ 4) with 16.
  pose proof (Z.div_mod n 16 ltac:(lia)). pose proof (Z.mod_pos_bound n 16 ltac:(lia)).
  rewrite IH; [|split; [apply Z.div_pos; lia | apply Z.div_lt_upper_bound; lia]|apply Z.le_trans with n; [|done]; apply Z.div_le_upper_bound; lia].
  simpl. change 15 with (Z.ones 4). rewrite Z.land_ones by lia. change (2 ^ 4) with 16.
  unfold checked_mul, checked_add. rewrite (proj1 (hex_digit_spec (n mod 16) ltac:(lia))).
  bcase; [|lia]. bcase; [|lia]. f_equal. lia.
Qed.

(** A line of hexadecimal digits is a size line without extensions. *)
Lemma hex_line_size line n :
  line <> [] -> Forall is_hex_digit line -> hex_fold 0 line = Ok n ->
  chunk_line_size line = Ok n /\ plain line /\ extension_len line = 0.
Proof.
  intros Hne Hd Hv. rewrite Forall_forall in Hd.
  assert (Hp : position (fun b => beq b SEMI) line = None).
  { apply position_None, Forall_forall. intros b Hb. apply beq_false. apply (Hd b Hb). }
  split_and!.
  - unfold chunk_line_size. rewrite Hp. simpl. rewrite ztake_all, zdrop_all by lia.
    rewrite (trim_end_id line).
    2:{ intros b w ->. apply (Hd b). apply in_or_app. simpl. auto. }
    case_bool_decide; [done|]. simpl.
    assert (forallb is_ascii_hexdigit line = true) as -> by (apply forallb_forall; intros b Hb; apply (Hd b Hb)).
    simpl. by rewrite Hv.
  - apply Forall_forall. intros b Hb. destruct (Hd b Hb) as (_ & _ & ? & ? & _). done.
  - unfold extension_len. by rewrite Hp.
Qed.

Lemma chunk_prefix_line length :
  0 < length <= usize_max ->
  exists i line, chunk_prefix length = Returns i /\ inline_as_init i = line ++ [CR; LF] /\
    line <> [] /\ zlen line <= 16 /\ Forall is_hex_digit line /\ hex_fold 0 line = Ok length.
Proof.
  intros Hl. unfold chunk_prefix, significant_bits. destruct (Z.eqb_spec length 0); [lia|].
  pose proof (Z.log2_spec length ltac:(lia)) as [Hlog1 Hlog2].
  assert (Hlog : 0 <= Z.log2 length <= 63).
  { split; [apply Z.log2_nonneg|]. change 63 with (Z.log2 usize_max). apply Z.log2_le_mono. lia. }
  set (digits := (Z.log2 length + 1 + 3) / 4).
  assert (Hdig : Z.log2 length + 1 <= 4 * digits /\ 1 <= digits <= 16).
  { unfold digits. pose proof (Z.div_mod (Z.log2 length + 1 + 3) 4 ltac:(lia)).
    pose proof (Z.mod_pos_bound (Z.log2 length + 1 + 3) 4 ltac:(lia)). lia. }
  change (Z.to_nat CHUNK_PREFIX_CAPACITY) with 18%nat.
  rewrite hex_loop_digits by (rewrite repeat_length; lia).
  set (line := hex_digits (Z.to_nat digits) length).
  assert (Hlen : zlen line = digits) by (unfold zlen, line; rewrite hex_digits_length; lia).
  assert (Hd : exists z0 z1 zs, drop (Z.to_nat digits) (repeat Byte.x00 18) = z0 :: z1 :: zs).
  { destruct (drop (Z.to_nat digits) (repeat Byte.x00 18)) as [|z0 [|z1 zs]] eqn:E; [..|eauto];
      apply (f_equal Datatypes.length) in E; rewrite length_drop, repeat_length in E; simpl in E; lia. }
  destruct Hd as (z0 & z1 & zs & ->).
  assert (Hins : forall x y (l r : bytes), <[Z.to_nat (zlen l) := y]> (l ++ x :: r) = l ++ y :: r).
  { intros x y l r. unfold zlen. rewrite Nat2Z.id.
    replace (Datatypes.length l) with (Datatypes.length l + 0)%nat by lia. by rewrite insert_app_r. }
  rewrite store_ok by (rewrite zlen_app, !zlen_cons; pose proof (zlen_nonneg zs); lia).
  rewrite <- Hlen, Hins. rewrite store_ok by (rewrite zlen_app, !zlen_cons; pose proof (zlen_nonneg zs); lia).
  replace (zlen line + 1) with (zlen (line ++ [CR])) by (rewrite zlen_app; done).
  replace (line ++ CR :: z1 :: zs) with ((line ++ [CR]) ++ z1 :: zs) by (by rewrite <- app_assoc).
  rewrite Hins. unfold from_parts.
  destruct (Z.leb_spec (zlen line + 2) (zlen ((line ++ [CR]) ++ LF :: zs))) as [_|Hbad].
  2:{ rewrite !zlen_app, !zlen_cons, zlen_nil in Hbad. pose proof (zlen_nonneg zs). lia. }
  eexists _, line. split; [done|]. split_and!.
  - unfold inline_as_init. simpl. replace (zlen line + 2) with (zlen (line ++ [CR; LF])) by (rewrite zlen_app; done).
    replace ((line ++ [CR]) ++ LF :: zs) with ((line ++ [CR; LF]) ++ zs) by (by rewrite <- !app_assoc).
    apply ztake_app_zlen.
  - intros E. rewrite E in Hlen. change (zlen []) with 0 in Hlen. lia.
  - lia.
  - apply hex_digits_all. lia.
  - apply hex_digits_value; [|unfold usize_max, u64_max in *; lia]. split; [lia|].
    apply Z.lt_le_trans with (2 ^ Z.succ (Z.log2 length)); [done|].
    change 16 with (2 ^ 4). rewrite <- Z.pow_mul_r by lia. apply Z.pow_le_mono_r; lia.
Qed.

(** Chunk size lines round trip: for every nonzero frame length the
    encoder's prefix is computed without failing a bounds check, fits its
    18-byte inline buffer, and its line is read back by the decoder's size
    parser as exactly that length, without extensions. *)
Theorem chunk_prefix_roundtrip length :
  0 < length <= usize_max ->
  exists i line, chunk_prefix length = Returns i /\ inline_as_init i = line ++ [CR; LF] /\
    zlen (inline_as_init i) <= CHUNK_PREFIX_CAPACITY /\
    chunk_line_size line = Ok length /\ plain line /\ extension_len line = 0.
Proof.
  intros (i & line & Hi & Ha & Hne & Hlen & Hd & Hv)%chunk_prefix_line. exists i, line.
  pose proof (hex_line_size line length Hne Hd Hv) as (Hs & Hp & He). split_and!; try done.
  rewrite Ha, zlen_app. change (zlen [CR; LF]) with 2. change CHUNK_PREFIX_CAPACITY with 18. lia.
Qed.

Lemma chunk_prefix_roundtrip_witness :
  exists i line, chunk_prefix 4096 = Returns i /\ inline_as_init i = line ++ [CR; LF] /\
    zlen (inline_as_init i) <= CHUNK_PREFIX_CAPACITY /\
    chunk_line_size line = Ok 4096 /\ plain line /\ extension_len line = 0.
Proof. apply (chunk_prefix_roundtrip 4096). unfold usize_max. lia. Defined.

(** * Written heads *)

Section WriterTheorems.
Context {alloc : Allocator} {http : HttpCrate}.

Lemma title_case_length c v : zlen (title_case c v) = zlen v.
Proof. revert c. induction v as [|b v IH]; intros c; simpl; [done|]. by rewrite !zlen_cons, IH. Qed.

(** A successful write of [x]: it is appended and the whole stays within the
    limit. *)
Definition wrote (w : BoundedWriter) (x : bytes) (w' : BoundedWriter) : Prop :=
  w_limit w' = w_limit w /\ w_bytes w' = w_bytes w ++ x /\
  (zlen (w_bytes w) <= w_limit w -> zlen (w_bytes w') <= w_limit w).

Lemma wrote_nil w : wrote w [] w.
Proof. split_and!; [done | by rewrite app_nil_r | done]. Qed.

Lemma wrote_app w1 w2 w3 x y : wrote w1 x w2 -> wrote w2 y w3 -> wrote w1 (x ++ y) w3.
Proof.
  intros (L1 & E1 & H1) (L2 & E2 & H2). split_and!; [congruence | by rewrite E2, E1, app_assoc |].
  intros H. rewrite <- L1. apply H2. rewrite L1. auto.
Qed.

Lemma reserve_ok w v : reserve w v = Ok tt -> zlen (w_bytes w) + zlen v <= w_limit w.
Proof.
  unfold reserve. intros H. apply rbind_ok in H as (n & Hn & H). apply ok_or_ok, checked_add_Some in Hn as [-> _].
  bcase; [done|lia].
Qed.

Lemma push_wrote w v w' : push w v = Ok w' -> wrote w v w'.
Proof.
  unfold push. intros H. apply rbind_ok in H as ([] & Hr%reserve_ok & H). rinv.
  split_and!; simpl; [done | done | rewrite zlen_app; lia].
Qed.

Lemma push_title_case_wrote w v w' : push_title_case w v = Ok w' -> wrote w (title_case true v) w'.
Proof.
  unfold push_title_case. intros H. apply rbind_ok in H as ([] & Hr%reserve_ok & H). rinv.
  split_and!; simpl; [done | done | rewrite zlen_app, title_case_length; lia].
Qed.

Lemma write_display_wrote w ps w' : write_display w ps = Ok w' -> wrote w (concat ps) w'.
Proof.
  unfold write_display. destruct (write_pieces w ps) as [w1 [u|u]] eqn:E; [|done]. intros [= ->].
  revert w E. induction ps as [|p ps IH]; intros w E; simpl in E; [simplify_eq; apply wrote_nil|].
  unfold write_str in E. destruct (push w p) as [w2|e] eqn:Ep; [|done].
  apply push_wrote in Ep. simpl. eapply wrote_app; [exact Ep | by apply IH].
Qed.

(** The bytes of a field: the original spelling if there is one, else the
    name, title-cased when asked. *)
Definition field_bytes (name : HeaderName) (original : option bytes) (value : HeaderValue) (title : bool) : bytes :=
  match original with
  | Some o => o
  | None => if title then title_case true name else name
  end ++ bs ": " ++ value ++ [CR; LF].

Fixpoint values_bytes (name : HeaderName) (spellings : list bytes) (values : list HeaderValue) (title : bool)
    : bytes :=
  match values with
  | [] => []
  | v :: values => field_bytes name (head spellings) v title ++ values_bytes name (tail spellings) values title
  end.

(** The bytes of all fields: by name, the values with the original spellings
    in order, or in the map's own order. *)
Definition headers_bytes (headers : HeaderMap) (original_case : option HeaderMap) (title : bool) : bytes :=
  match original_case with
  | Some original =>
      concat (map (fun n => values_bytes n (hm_get_all original n) (hm_get_all headers n) title) (hm_keys headers))
  | None => concat (map (fun f => field_bytes (fst f) None (snd f) title) (hm_iter headers))
  end.

Lemma write_field_wrote w n o v title w' :
  write_field w n o v title = Ok w' -> wrote w (field_bytes n o v title) w'.
Proof.
  unfold write_field. intros H. apply rbind_ok in H as (w1 & H1 & H). apply rbind_ok in H as (w2 & H2%push_wrote & H).
  apply rbind_ok in H as (w3 & H3%push_wrote & H%push_wrote).
  unfold field_bytes. eapply wrote_app; [|by do 2 (eapply wrote_app; [done|])].
  unfold write_header_name in H1. destruct o as [o|]; [by apply push_wrote|].
  destruct title; [by apply push_title_case_wrote | by apply push_wrote].
Qed.

Lemma write_values_wrote vs w n sp title w' :
  write_values w n sp vs title = Ok w' -> wrote w (values_bytes n sp vs title) w'.
Proof.
  revert w sp. induction vs as [|v vs IH]; intros w sp H; simpl in H; [rinv; apply wrote_nil|].
  apply rbind_ok in H as (w1 & H1%write_field_wrote & H). simpl. eapply wrote_app; [done | by eapply IH].
Qed.

Lemma write_headers_wrote w h o title w' :
  write_headers w h o title = Ok w' -> wrote w (headers_bytes h o title) w'.
Proof.
  unfold write_headers, headers_bytes. destruct o as [o|].
  - generalize (hm_keys h) as ns. intros ns. revert w. induction ns as [|n ns IH]; intros w H; simpl in H;
      [rinv; apply wrote_nil|].
    apply rbind_ok in H as (w1 & H1%write_values_wrote & H). simpl. eapply wrote_app; [done | by apply IH].
  - generalize (hm_iter h) as fs. intros fs. revert w. induction fs as [|[n v] fs IH]; intros w H; simpl in H;
      [rinv; apply wrote_nil|].
    apply rbind_ok in H as (w1 & H1%write_field_wrote & H). simpl. eapply wrote_app; [done | by apply IH].
Qed.

(** Turns the writes of a head into what they wrote. *)
Ltac write_chain :=
  repeat match goal with
  | H : rbind _ _ = Ok _ |- _ => let w := fresh "w" in let H1 := fresh "Hw" in apply rbind_ok in H as (w & H1 & H)
  | H : push _ _ = Ok _ |- _ => apply push_wrote in H
  | H : write_display _ _ = Ok _ |- _ => apply write_display_wrote in H
  | H : write_headers _ _ _ _ = Ok _ |- _ => apply write_headers_wrote in H
  end.

Lemma wrote_fresh limit w x :
  0 <= limit -> wrote (BoundedWriter_new limit) x w -> w_bytes w = x /\ zlen (w_bytes w) <= limit.
Proof. intros H (_ & E & Hw). split; [exact E | by apply Hw]. Qed.

(** A prepared request head is exactly its start line, its validated
    fields and the empty line, in the configured spelling, and never exceeds
    the configured byte limit. *)
Theorem prepared_request_exact config method target v headers case m plan :
  0 < max_head_bytes config ->
  prepare_request_head method target v headers case m config = Ok plan ->
  let h := vreq_head (plan_head plan) in
  zlen (plan_bytes plan) <= max_head_bytes config /\
  exists vb, version_bytes v = Ok vb /\
    plan_bytes plan =
      req_method h ++ [SP] ++ concat (uri_display (req_target h)) ++ [SP] ++ vb ++ [CR; LF] ++
      headers_bytes (req_headers h) case (title_case_headers config) ++ [CR; LF].
Proof.
  intros Hc H. unfold prepare_request_head in H.
  apply rbind_ok in H as ([hs mode] & _ & H). apply rbind_ok in H as (val & _ & H).
  destruct (negb _); [done|]. write_chain. injection H as <-. simpl.
  match goal with |- zlen (w_bytes ?w) <= _ /\ _ => destruct (wrote_fresh (max_head_bytes config) w
    (req_method (vreq_head val) ++ [SP] ++ concat (uri_display (req_target (vreq_head val))) ++ [SP] ++ w3 ++
     [CR; LF] ++ headers_bytes (req_headers (vreq_head val)) case (title_case_headers config) ++ [CR; LF]))
    as [E L]; [lia| |] end.
  { by repeat (eapply wrote_app; [eassumption|]). }
  split; [exact L|]. eexists. split; [eassumption | exact E].
Qed.

(** A prepared response head is exactly its status line, its validated
    fields and the empty line, in the configured spelling, and never exceeds
    the configured byte limit. *)
Theorem prepared_response_exact config status v headers case m method plan :
  0 < max_head_bytes config ->
  prepare_response_head status v headers case m method config = Ok plan ->
  zlen (plan_bytes plan) <= max_head_bytes config /\
  exists vb, version_bytes v = Ok vb /\
    plan_bytes plan =
      vb ++ [SP] ++ status_as_str status ++ [SP] ++ default [] (status_canonical_reason status) ++ [CR; LF] ++
      headers_bytes (resp_headers (vresp_head (plan_head plan))) case (title_case_headers config) ++ [CR; LF].
Proof.
  intros Hc H. unfold prepare_response_head in H.
  apply rbind_ok in H as ([hs mode] & _ & H). apply rbind_ok in H as (val & _ & H).
  destruct (negb _); [done|]. apply rbind_ok in H as (vb & Hv & H). write_chain. injection H as <-. simpl.
  match goal with |- zlen (w_bytes ?w) <= _ /\ _ => destruct (wrote_fresh (max_head_bytes config) w
    (vb ++ [SP] ++ status_as_str status ++ [SP] ++ default [] (status_canonical_reason status) ++ [CR; LF] ++
     headers_bytes (resp_headers (vresp_head val)) case (title_case_headers config) ++ [CR; LF]))
    as [E L]; [lia| |] end.
  { by repeat (eapply wrote_app; [eassumption|]). }
  split; [exact L|]. eexists. split; [eassumption | exact E].
Qed.

End WriterTheorems.

(** * Planned framing is what a receiver computes *)

Section Planning.
Context {http : HttpCrate} {laws : HttpLaws http}.

Lemma contains_key_false headers n : hm_contains_key headers n = false <-> hm_get_all headers n = [].
Proof. rewrite law_contains_key. by destruct (hm_get_all headers n). Qed.

Lemma content_length_inserted headers n :
  is_u64 n -> content_length_is (hm_insert headers CONTENT_LENGTH (header_value_from_u64 n)) n.
Proof.
  intros Hn. unfold content_length_is. rewrite law_get_all_insert, decide_True by done.
  split_and!; [done|apply Hn|]. constructor; [|done].
  pose proof (law_value_from_u64_digits n Hn) as Hd. rewrite split_on_none.
  - constructor; [|done]. unfold states_length. rewrite digits_no_ows by done.
    split_and!; [by apply law_value_from_u64_nonempty|done|by apply law_value_from_u64_value].
  - intros Hin%list_elem_of_In. rewrite forallb_forall in Hd. by apply Hd in Hin.
Qed.

Lemma set_exact_length_says headers n headers' :
  is_u64 n -> set_exact_length headers n = Ok headers' ->
  hm_get_all headers' TRANSFER_ENCODING = [] /\ content_length_is headers' n.
Proof.
  intros Hn. unfold set_exact_length. intros H. apply rbind_ok in H as (te & Ht%map_err_ok & H).
  destruct te; [done|]. apply parse_transfer_encoding_None in Ht.
  apply rbind_ok in H as (cl & Hc%map_err_ok & H). destruct cl as [d|].
  - apply parse_content_length_Some in Hc. destruct (Z.eqb_spec d n); [|done]. rinv. done.
  - rinv. split; [by rewrite law_get_all_insert, decide_False | by apply content_length_inserted].
Qed.

Lemma set_chunked_says headers headers' :
  set_chunked headers = Ok headers' ->
  hm_get_all headers' CONTENT_LENGTH = [] /\
  exists t, hm_get_all headers' TRANSFER_ENCODING = [t] /\ is_chunked_value t.
Proof.
  unfold set_chunked. destruct (hm_contains_key headers CONTENT_LENGTH) eqn:Ec; [done|].
  apply contains_key_false in Ec. intros H. apply rbind_ok in H as (te & Ht%map_err_ok & H).
  destruct te as [[]|]; rinv.
  - apply parse_transfer_encoding_chunked in Ht. done.
  - rewrite !law_get_all_insert, decide_False, decide_True by done. split; [done|]. by eexists.
Qed.

Lemma exact_is_u64 m n : hint_ok (md_size m) -> exact_without_trailers m = Some n -> is_u64 n.
Proof.
  intros [Hl Hu]. unfold exact_without_trailers, exact. case_bool_decide; [|done].
  destruct (upper (md_size m)) as [u|]; [|done]. destruct (Z.eqb_spec u (lower (md_size m))); [|done].
  intros [= <-]. subst. done.
Qed.

Lemma plan_request_says headers v m headers' mode :
  hint_ok (md_size m) -> plan_request_framing headers v m = Ok (headers', mode) ->
  framing_says headers' v BodyNone mode /\ mode <> BodyNone.
Proof.
  intros Hm. unfold plan_request_framing. destruct (exact_without_trailers m) as [n|] eqn:En; intros H.
  - apply rbind_ok in H as (h & Hs & H). rinv. simplify_eq. apply set_exact_length_says in Hs as [Ht Hc];
      [|by eapply exact_is_u64]. split; [right; left; by exists n | done].
  - case_bool_decide; simpl in H; [|done]. apply rbind_ok in H as (h & Hs%set_chunked_says & H).
    rinv. simplify_eq. split; [left; naive_solver | done].
Qed.

Lemma plan_representation_says headers v m headers' mode :
  hint_ok (md_size m) -> plan_representation_framing headers v m = Ok (headers', mode) ->
  framing_says headers' v BodyUntilEof mode.
Proof.
  intros Hm. unfold plan_representation_framing. destruct (exact_without_trailers m) as [n|] eqn:En; intros H.
  - apply rbind_ok in H as (h & Hs & H). rinv. simplify_eq. apply set_exact_length_says in Hs as [Ht Hc];
      [|by eapply exact_is_u64]. right; left. by exists n.
  - case_bool_decide as Hv.
    + apply rbind_ok in H as (h & Hs%set_chunked_says & H). rinv. simplify_eq. left. naive_solver.
    + case_bool_decide; [done|]. apply rbind_ok in H as (u & Hr & H). rinv. simplify_eq.
      unfold reject_framing_headers in Hr.
      destruct (hm_contains_key headers' CONTENT_LENGTH) eqn:E1, (hm_contains_key headers' TRANSFER_ENCODING) eqn:E2;
        try done. apply contains_key_false in E1, E2. right; right. done.
Qed.

(** C40: Framing agreement for requests. Whatever framing the sender plans from
    the body's size and trailers, a receiver that validates the planned fields
    computes the same body mode; so the sender's own cross-check on the
    validated head never refuses a plan. *)
Theorem plan_request_agrees headers v m headers' mode :
  hint_ok (md_size m) -> plan_request_framing headers v m = Ok (headers', mode) ->
  message_framing headers' v BodyNone = Ok mode /\
  forall method target case received validated,
    validate_for (mkRequestHead method target v headers' case) received = Ok validated ->
    vreq_body validated = mode.
Proof.
  intros Hm [Hs _]%plan_request_says; [|done]. apply message_framing_says in Hs. split; [done|].
  intros method target case received val H.
  pose proof (validate_for_headers _ _ _ H) as Hg. apply validate_for_stages in H as (c & _ & _ & Hb & _).
  simpl in *. apply message_framing_says in Hb, Hs.
  assert (Hs' : framing_says (req_headers (vreq_head val)) v BodyNone mode).
  { revert Hs. unfold framing_says, content_length_is. by rewrite !Hg by done. }
  apply message_framing_says in Hb, Hs'. congruence.
Qed.

(** Framing agreement for responses. The planned mode of a response is the
    mode its receiver computes from the planned fields, the status and the
    request method; in particular a response that must not have a body is
    planned without one and a tunnel or 1xx/204 head carries no length. *)
Theorem plan_response_agrees headers v status m method headers' mode :
  hint_ok (md_size m) -> plan_response_framing headers v status m method = Ok (headers', mode) ->
  forall case validated,
    validate_response (mkResponseHead v status headers' case) method = Ok validated ->
    vresp_body validated = mode.
Proof.
  intros Hm Hp case val H. unfold validate_response in H. simpl in H.
  destruct (599 <? status); [done|].
  apply rbind_ok in H as (c & _ & H). apply rbind_ok in H as (up & Hup & H).
  apply rbind_ok in H as (body & Hbody & H). injection H as <-. simpl.
  unfold response_has_no_body in Hbody. unfold plan_response_framing in Hp.
  rewrite law_informational in *. rewrite law_success in *.
  assert (Hup' : is_Some up <-> status = 101 \/ (bytes_eqb method CONNECT && ((200 <=? status) && (status <? 300))) = true).
  { destruct (Z.eqb_spec status 101) as [->|].
    - destruct (bool_decide (v = HTTP_11)); simpl in Hup; [|done]. rinv. naive_solver.
    - destruct (bytes_eqb method CONNECT && _); rinv; naive_solver. }
  assert (Hnone : bool_decide (is_Some up) || bytes_eqb method HEAD || ((100 <=? status) && (status <? 200)) ||
    (status =? 204) || (status =? 205) || (status =? 304) = true -> mode = BodyNone -> body = mode).
  { intros E ->. rewrite E in Hbody. by rinv. }
  destruct (bytes_eqb method CONNECT && ((200 <=? status) && (status <? 300))) eqn:Etun;
  [|destruct (((100 <=? status) && (status <? 200)) || (status =? 204)) eqn:Eforb]; simpl in Hp.
  - apply Hnone; [rewrite bool_decide_eq_true_2; [done | by apply Hup'; right]|]. by repeat case_match; simplify_eq.
  - apply Hnone; [|by repeat case_match; simplify_eq].
    apply orb_true_iff in Eforb as [->| ->]; by rewrite ?orb_true_r.
  - apply orb_false_iff in Eforb as [Einf E204].
    assert (Eup : bool_decide (is_Some up) = false).
    { apply bool_decide_eq_false. rewrite Hup'. intros [->|]; [done|congruence]. }
    rewrite Eup, Einf, E204 in Hbody. simpl in Hbody. rewrite Eup, Einf, E204 in Hnone. simpl in Hnone.
    destruct (bytes_eqb method HEAD || (status =? 304)) eqn:Emeta.
    + apply Hnone.
      * apply orb_true_iff in Emeta as [->| ->]; by rewrite ?orb_true_r.
      * apply rbind_ok in Hp as (pl & _ & Hp). by rinv; simplify_eq.
    + apply orb_false_iff in Emeta as [Eh E304]. rewrite Eh, E304 in *. simpl in *.
      destruct (status =? 205) eqn:E205; simpl in *.
      * injection Hbody as <-. destruct (negb (no_body_promised m) || hm_contains_key headers TRANSFER_ENCODING); [done|].
        apply rbind_ok in Hp as (h & _ & Hp). by injection Hp as _ <-.
      * apply plan_representation_says, message_framing_says in Hp; [|done]. congruence.
Qed.

End Planning.

(** * The body encoder keeps its promises *)

(** Frames of the given lengths, in order; [None] after an error or a panic. *)
Fixpoint send_lengths (e : BodyEncoder) (lengths : list Z) : option BodyEncoder :=
  match lengths with
  | [] => Some e
  | n :: lengths =>
      match be_data e n with
      | (e, Returns (Ok _)) => send_lengths e lengths
      | _ => None
      end
  end.

Definition sum_lengths (l : list Z) : Z := fold_right Z.add 0 l.

Definition framing_state (s : BodyState) : Prop := s = StateFixed \/ s = StateChunked \/ s = StateCloseDelimited.

Lemma be_data_ok e n e' f :
  0 <= n -> be_data e n = (e', Returns (Ok f)) ->
  framing_state (be_state e) /\ be_state e' = be_state e /\
  remaining_lower e' = Z.max 0 (remaining_lower e - n) /\
  match remaining_upper e with
  | Some u => n <= u /\ remaining_upper e' = Some (u - n)
  | None => remaining_upper e' = None
  end.
Proof.
  intros Hn. unfold be_data, be_fail, framing_state.
  destruct (be_state e) eqn:Es; try (intros [=]; done);
  (destruct (remaining_upper e) as [u|] eqn:Eu; [destruct (Z.ltb_spec u n); [intros [=]; done|]|]);
  simpl; try (destruct (n =? 0)); try (destruct (chunk_prefix n)); intros [= <- <-] || intros [=];
  unfold saturating_sub; simpl; rewrite ?Eu; simpl; split_and!; auto; lia.
Qed.

Lemma send_lengths_bounds ls e e' :
  Forall (fun n => 0 <= n) ls -> 0 <= remaining_lower e -> send_lengths e ls = Some e' ->
  remaining_lower e' = Z.max 0 (remaining_lower e - sum_lengths ls) /\
  be_state e' = be_state e /\
  match remaining_upper e with
  | Some u => sum_lengths ls <= u \/ ls = []
  | None => True
  end.
Proof.
  intros Hls. revert e. induction Hls as [|n ls Hn Hls IH]; intros e Hl H; simpl in *.
  { simplify_eq. split_and!; [lia|done|]. destruct (remaining_upper e'); auto. }
  destruct (be_data e n) as [e1 [[f|]|]] eqn:E; try done.
  apply be_data_ok in E as (_ & Es & El & Eu); [|done].
  apply IH in H as (H1 & H2 & H3); [|lia]. assert (0 <= sum_lengths ls).
  { clear -Hls. induction Hls; simpl; lia. }
  split_and!; [lia|congruence|]. destruct (remaining_upper e) as [u|]; [|done].
  destruct Eu as [Hu E']. rewrite E' in H3. left. destruct H3 as [H3| ->]; simpl; lia.
Qed.

(** The encoder never sends a body its head did not promise. If a body's
    frames are accepted and the body then finishes, the payload lies between
    the promised bounds; with a fixed length it is exactly that length. *)
Theorem encoder_keeps_length mode m config e lengths e' tail e'' :
  hint_ok (md_size m) -> BodyEncoder_new mode m config = Ok e -> mode <> BodyNone ->
  Forall (fun n => 0 <= n) lengths -> send_lengths e lengths = Some e' ->
  be_finish e' = (e'', Returns (Ok tail)) ->
  lower (md_size m) <= sum_lengths lengths /\
  (forall u, upper (md_size m) = Some u -> sum_lengths lengths <= u) /\
  (forall n, mode = BodyFixed n -> sum_lengths lengths = n).
Proof.
  intros [Hlo Hup] Hnew Hmode Hls Hs Hf.
  assert (He : remaining_lower e = lower (md_size m) /\ remaining_upper e = upper (md_size m) /\ be_state e <> StateNone /\
    forall n, mode = BodyFixed n -> exact (md_size m) = Some n).
  { unfold BodyEncoder_new in Hnew. destruct mode; try done; repeat case_match; rinv; simpl; split_and!; try done.
    all: intros n [= <-]; by match goal with H : negb (bool_decide _) || _ = false |- _ =>
      apply orb_false_iff in H as [H _]; apply negb_false_iff, bool_decide_eq_true in H end. }
  destruct He as (El & Eu & Est & Hex). destruct Hlo as [Hlo _].
  apply send_lengths_bounds in Hs as (H1 & H2 & H3); [|done|lia].
  assert (Hz : remaining_lower e' = 0).
  { unfold be_finish, be_fail in Hf. rewrite H2 in Hf.
    destruct (be_state e); try done; destruct (Z.eqb_spec (remaining_lower e') 0); try done; simplify_eq. }
  rewrite El in H1. rewrite Eu in H3. assert (0 <= sum_lengths lengths).
  { clear -Hls. induction Hls; simpl; lia. }
  assert (Hu : forall u, upper (md_size m) = Some u -> sum_lengths lengths <= u).
  { intros u E. rewrite E in H3, Hup. destruct H3 as [| ->]; [done|]. simpl. lia. }
  split_and!; [lia|done|]. intros n E%Hex. unfold exact in E. destruct (upper (md_size m)) as [u|] eqn:Eu'; [|done].
  destruct (Z.eqb_spec u (lower (md_size m))); [|done]. injection E as <-. specialize (Hu u eq_refl). lia.
Qed.

Section StickyEncoder.
Context {alloc : Allocator} {http : HttpCrate}.

(** A failed encoder stays failed and a finished one accepts nothing: after
    an error every later data, trailers or finish call returns that error, and
    after the end every one is refused, so no byte follows a violation. *)
Theorem encoder_terminal e :
  (forall err, be_state e = StateFailed err ->
     (forall n, be_data e n = (e, Returns (Err err))) /\
     (forall t, be_send_trailers e t = (e, Returns (Err err))) /\
     be_finish e = (e, Returns (Err err))) /\
  (be_state e = StateDone ->
     (forall n, snd (be_data e n) = Returns (Err FrameAfterEnd)) /\
     (forall t, snd (be_send_trailers e t) = Returns (Err FrameAfterEnd)) /\
     snd (be_finish e) = Returns (Err FrameAfterEnd)) /\
  (forall n e1 err, be_data e n = (e1, Returns (Err err)) -> be_state e1 = StateFailed err) /\
  (forall t e1 err, be_send_trailers e t = (e1, Returns (Err err)) -> be_state e1 = StateFailed err) /\
  (forall e1 err, be_finish e = (e1, Returns (Err err)) -> be_state e1 = StateFailed err) /\
  (forall t e1 b, be_send_trailers e t = (e1, Returns (Ok b)) -> be_state e1 = StateDone) /\
  (forall e1 b, be_finish e = (e1, Returns (Ok b)) -> be_state e1 = StateDone).
Proof.
  split_and!.
  - intros err E. unfold be_data, be_send_trailers, be_finish. rewrite E. done.
  - intros E. unfold be_data, be_send_trailers, be_finish. rewrite E. done.
  - intros n e1 err. unfold be_data, be_fail. intros. repeat case_match; simplify_eq/=; done.
  - intros t e1 err. unfold be_send_trailers, be_fail. intros. repeat case_match; simplify_eq/=; done.
  - intros e1 err. unfold be_finish, be_fail. intros. repeat case_match; simplify_eq/=; done.
  - intros t e1 b. unfold be_send_trailers, be_fail. intros. repeat case_match; simplify_eq/=; done.
  - intros e1 b. unfold be_finish, be_fail. intros. repeat case_match; simplify_eq/=; done.
Qed.

End StickyEncoder.

(** ** Evaluated plans *)

Definition three_bytes : BodyMetadata := mkBodyMetadata (with_exact 3) TrailersNone.

Lemma three_bytes_ok : hint_ok (md_size three_bytes).
Proof. split; unfold is_u64, u64_max; simpl; lia. Qed.

Lemma plan_request_agrees_witness :
  @message_framing AssocHttp [(HOST, bs "a"); (CONTENT_LENGTH, bs "3")] HTTP_11 BodyNone = Ok (BodyFixed 3).
Proof.
  exact (proj1 (@plan_request_agrees AssocHttp AssocHttp_laws [(HOST, bs "a")] HTTP_11 three_bytes
    [(HOST, bs "a"); (CONTENT_LENGTH, bs "3")] (BodyFixed 3) three_bytes_ok eq_refl)).
Defined.

Definition three_byte_response : @ResponseHead AssocHttp :=
  @mkResponseHead AssocHttp HTTP_11 200 [(CONTENT_LENGTH, bs "3")] None.

Definition three_byte_validated : @ValidatedResponseHead AssocHttp :=
  mkValidatedResponseHead None three_byte_response (BodyFixed 3) Reusable.

Lemma three_byte_validates : validate_response three_byte_response GET = Ok three_byte_validated.
Proof. vm_cast_no_check (eq_refl (A := result _ HeadError) (Ok three_byte_validated)). Qed.

Lemma plan_response_agrees_witness : vresp_body three_byte_validated = BodyFixed 3.
Proof.
  exact (@plan_response_agrees AssocHttp AssocHttp_laws [] HTTP_11 200 three_bytes GET
    [(CONTENT_LENGTH, bs "3")] (BodyFixed 3) three_bytes_ok eq_refl None three_byte_validated three_byte_validates).
Defined.

Definition small_config : EncodeConfig := mkEncodeConfig 256 256 true.

Definition any_alloc : Allocator := fun _ _ => true.

Definition small_plan : MessagePlan (@ValidatedResponseHead AssocHttp) :=
  mkMessagePlan
    (bs "HTTP/1.1 200 OK" ++ [CR; LF] ++ bs "X-One: 1" ++ [CR; LF] ++ bs "Content-Length: 3" ++ [CR; LF; CR; LF])
    (mkValidatedResponseHead None
       (@mkResponseHead AssocHttp HTTP_11 200 [(bs "x-one", bs "1"); (CONTENT_LENGTH, bs "3")] None)
       (BodyFixed 3) Reusable).

Lemma small_plan_prepared :
  @prepare_response_head any_alloc AssocHttp 200 HTTP_11 [(bs "x-one", bs "1")] None three_bytes GET small_config =
  Ok small_plan.
Proof. vm_cast_no_check (eq_refl (A := result _ EncodeError) (Ok small_plan)). Qed.

Lemma prepared_response_exact_witness : zlen (plan_bytes small_plan) <= 256.
Proof.
  exact (proj1 (@prepared_response_exact any_alloc AssocHttp small_config 200 HTTP_11 [(bs "x-one", bs "1")] None
    three_bytes GET small_plan ltac:(simpl; lia) small_plan_prepared)).
Defined.

Definition small_request_plan : MessagePlan (@ValidatedRequestHead AssocHttp) :=
  mkMessagePlan
    (bs "PUT /a HTTP/1.1" ++ [CR; LF] ++ bs "HOST: a" ++ [CR; LF] ++ bs "Content-Length: 3" ++ [CR; LF; CR; LF])
    (mkValidatedRequestHead
       (@mkRequestHead AssocHttp (bs "PUT") (simple_uri_path (bs "/a")) HTTP_11
          [(HOST, bs "a"); (CONTENT_LENGTH, bs "3")] None)
       (BodyFixed 3) Reusable Origin ExpectNone None).

Lemma small_request_prepared :
  @prepare_request_head any_alloc AssocHttp (bs "PUT") (simple_uri_path (bs "/a")) HTTP_11 [(HOST, bs "a")]
    (Some [(HOST, bs "HOST")]) three_bytes small_config =
  Ok small_request_plan.
Proof. vm_cast_no_check (eq_refl (A := result _ EncodeError) (Ok small_request_plan)). Qed.

Lemma prepared_request_exact_witness : zlen (plan_bytes small_request_plan) <= 256.
Proof.
  exact (proj1 (@prepared_request_exact any_alloc AssocHttp small_config (bs "PUT") (simple_uri_path (bs "/a"))
    HTTP_11 [(HOST, bs "a")] (Some [(HOST, bs "HOST")]) three_bytes small_request_plan ltac:(simpl; lia)
    small_request_prepared)).
Defined.

Definition three_byte_encoder : BodyEncoder := mkBodyEncoder StateFixed 256 true 3 (Some 3) TrailersNone.

Lemma encoder_keeps_length_witness : sum_lengths [1; 2] = 3.
Proof.
  refine (proj2 (proj2 (encoder_keeps_length (BodyFixed 3) three_bytes small_config three_byte_encoder [1; 2]
    (mkBodyEncoder StateFixed 256 true 0 (Some 0) TrailersNone) []
    (mkBodyEncoder StateDone 256 true 0 (Some 0) TrailersNone)
    three_bytes_ok eq_refl _ _ eq_refl eq_refl)) 3 eq_refl).
  - discriminate.
  - repeat constructor; lia.
Defined.
