(* ===== verification/RoundTrip.v ===== *)
(** A chunked body end to end: what [BodyEncoder] writes, [BodyDecoder] reads
    back (encode.rs and decode.rs together).

    [encode_body] is the sequence of encoder calls a body of data frames makes,
    with the bytes around each payload; [drive] of Decode.v is the matching
    sequence of decoder calls. *)

From Stdlib Require Import ZArith Lia.
From stdpp Require Import base list option.
From S2P Require Import Prelude Http Errors Syntax Scan Validate Body Decode Encode.

(** The bytes written for the data frames, and the encoder after them. *)
Fixpoint encode_frames (e : BodyEncoder) (frames : list bytes) : option (BodyEncoder * bytes) :=
  match frames with
  | [] => Some (e, [])
  | d :: frames =>
      match be_data e (zlen d) with
      | (e, Returns (Ok f)) =>
          match encode_frames e frames with
          | Some (e, rest) => Some (e, inline_as_init (df_prefix f) ++ d ++ df_suffix f ++ rest)
          | None => None
          end
      | _ => None
      end
  end.

Definition encode_body (e : BodyEncoder) (frames : list bytes) : option bytes :=
  match encode_frames e frames with
  | Some (e, w) =>
      match be_finish e with
      | (_, Returns (Ok tail)) => Some (w ++ tail)
      | _ => None
      end
  | None => None
  end.

Section RoundTrip.
Context {http : HttpCrate} {hp : Httparse} {laws : HttpLaws http} {hp_laws : HttparseLaws hp}.
Context (l : DecodeLimits).
Hypothesis (Hwf : wf_limits l).
(** The receiver's line limit admits the longest prefix the sender writes. *)
Hypothesis (Hline : CHUNK_PREFIX_CAPACITY <= max_chunk_line_bytes l).

(** The trailers of a body that has none. *)
Definition empty_trailers : HeaderMap := default hm_new (hm_try_with_capacity 0).

Lemma empty_trailers_parse : 2 <= max_trailer_bytes l -> wire l InTrailers 0 [CR; LF] [] empty_trailers.
Proof.
  intros Hmax. apply wire_trailers; [|done|].
  - split; [by right; left|]. intros j Hj. change (zlen [CR; LF]) with 2 in Hj.
    by replace j with 0 by lia.
  - unfold parse_trailers. rewrite law_headers_empty by apply Hwf.
    unfold own_headers, empty_trailers. change (zlen (@nil (bytes * bytes))) with 0.
    destruct law_with_capacity_0 as [m Hm]. rewrite Hm. simpl.
    assert (validate_trailers m = Ok tt) as ->; [|done].
    apply validate_trailers_ok. apply Forall_forall. intros n _. by eapply law_get_all_with_capacity.
Qed.

Lemma send_frame_wire e d e' f m p t :
  be_state e = StateChunked -> zlen d <= usize_max -> be_data e (zlen d) = (e', Returns (Ok f)) ->
  wire l InSize 0 m p t ->
  wire l InSize 0 (inline_as_init (df_prefix f) ++ d ++ df_suffix f ++ m) (d ++ p) t.
Proof.
  intros Es Hd H Hm. unfold be_data in H. rewrite Es in H. case_match; [done|]. simpl in H.
  destruct (Z.eqb_spec (zlen d) 0) as [E%zlen_0_nil|Hne].
  - injection H as _ <-. subst d. done.
  - pose proof (zlen_nonneg d).
    destruct (chunk_prefix_line (zlen d) ltac:(lia)) as (i & line & Hi & Ha & Hl0 & Hlen & Hh & Hv).
    rewrite Hi in H. injection H as _ <-. simpl. rewrite Ha, <- app_assoc. simpl.
    pose proof (hex_line_size line _ Hl0 Hh Hv) as (Hsz & Hp & Hext).
    eapply wire_chunk; [|done|].
    + split_and!; [done| |done|by left]. change CHUNK_PREFIX_CAPACITY with 18 in Hline. lia.
    + rewrite Hext. apply wire_data; [done|lia|]. by apply wire_crlf.
Qed.

Lemma encode_frames_wire frames e e' w m p t :
  be_state e = StateChunked -> Forall (fun d => zlen d <= usize_max) frames ->
  encode_frames e frames = Some (e', w) -> wire l InSize 0 m p t ->
  be_state e' = StateChunked /\ wire l InSize 0 (w ++ m) (concat frames ++ p) t.
Proof.
  intros Es Hf. revert e w Es. induction Hf as [|d frames Hd _ IH]; intros e w Es H Hm; simpl in *.
  { simplify_eq. done. }
  destruct (be_data e (zlen d)) as [e1 [[f|]|]] eqn:Eb; try done.
  destruct (encode_frames e1 frames) as [[e2 rest]|] eqn:Er; simplify_eq.
  pose proof Eb as (_ & Es1 & _)%be_data_ok; [|apply zlen_nonneg].
  destruct (IH e1 rest ltac:(congruence) Er Hm) as [Hs' Hw]. split; [done|].
  rewrite <- !app_assoc. eapply send_frame_wire; [exact Es|exact Hd|exact Eb|exact Hw].
Qed.

Lemma encode_body_wire frames e wire_bytes :
  be_state e = StateChunked -> Forall (fun d => zlen d <= usize_max) frames ->
  2 <= max_trailer_bytes l -> encode_body e frames = Some wire_bytes ->
  chunked_body l wire_bytes (concat frames) empty_trailers.
Proof.
  intros Es Hf Hmax H. unfold encode_body in H.
  destruct (encode_frames e frames) as [[e1 w]|] eqn:Ew; [|done].
  assert (Hlast : wire l InSize 0 (bs "0" ++ [CR; LF; CR; LF]) [] empty_trailers).
  { apply (wire_last l 0 (bs "0") [CR; LF]); [|by apply empty_trailers_parse].
    split_and!; [by repeat constructor| |done|by left]. change CHUNK_PREFIX_CAPACITY with 18 in Hline.
    change (zlen (bs "0")) with 1. lia. }
  destruct (encode_frames_wire frames e e1 w _ _ _ Es Hf Ew Hlast) as [Es1 Hw].
  unfold be_finish in H. rewrite Es1 in H. destruct (negb (remaining_lower e1 =? 0)); simpl in H; [done|]. injection H as <-.
  rewrite app_nil_r in Hw. exact Hw.
Qed.

(** C1: The chunked coding round trips, end to end and under every
    fragmentation. Whatever frames a sender's chunked encoder accepts and
    finishes, a fresh decoder fed those bytes followed by anything else, cut
    anywhere, delivers exactly the concatenated payload and leaves exactly
    what follows the body. *)
Theorem chunked_roundtrip frames e wire_bytes excess frags fuel :
  be_state e = StateChunked -> Forall (fun d => zlen d <= usize_max) frames ->
  2 <= max_trailer_bytes l -> encode_body e frames = Some wire_bytes ->
  concat frags = wire_bytes ++ excess -> zlen (concat frags) + zlen frags + 2 <= Z.of_nat fuel ->
  exists rest unread,
    drive fuel (with_limits BodyChunked l) [] frags false [] =
      Finished (concat frames) (Some empty_trailers) rest unread /\
    rest ++ concat unread = excess.
Proof.
  intros Es Hf Hmax Hs E Hfuel. pose proof (encode_body_wire frames e wire_bytes Es Hf Hmax Hs) as Hw.
  destruct (drive_forward l fuel (with_limits BodyChunked l) (Size 0) [] frags false [] []
    excess (concat frames) empty_trailers) as [(r & u & H & Er)|[? _]]; try done.
  - split; [done|]. split; [apply line_scanned_0|]. exists wire_bytes. split; [done|]. by rewrite app_nil_r.
  - exists r, u. by rewrite app_nil_r in Er.
Qed.

End RoundTrip.

Lemma be_data_accepts e n :
  framing_state (be_state e) -> 0 <= n <= usize_max ->
  (forall u, remaining_upper e = Some u -> n <= u) ->
  exists e' f, be_data e n = (e', Returns (Ok f)).
Proof.
  intros Hs Hn Hu. unfold be_data.
  assert ((match remaining_upper e with Some u => u <? n | None => false end) = false) as ->.
  { destruct (remaining_upper e) as [u|]; [|done]. specialize (Hu u eq_refl). bcase; [lia|done]. }
  destruct Hs as [Es|[Es|Es]]; rewrite Es; simpl; try by eexists _, _.
  destruct (Z.eqb_spec n 0); [by eexists _, _|].
  destruct (chunk_prefix_line n ltac:(lia)) as (i & line & -> & _). by eexists _, _.
Qed.

Lemma encode_frames_accepts frames e :
  framing_state (be_state e) -> 0 <= remaining_lower e -> Forall (fun d => zlen d <= usize_max) frames ->
  (forall u, remaining_upper e = Some u -> zlen (concat frames) <= u) ->
  exists e' w, encode_frames e frames = Some (e', w) /\ framing_state (be_state e') /\
    remaining_lower e' = Z.max 0 (remaining_lower e - zlen (concat frames)).
Proof.
  intros Hs Hl Hf. revert e Hs Hl. induction Hf as [|d frames Hd _ IH]; intros e Hs Hl Hu; simpl in *.
  { exists e, []. split_and!; [done..|]. change (zlen (@nil byte)) with 0. lia. }
  setoid_rewrite zlen_app in Hu. pose proof (zlen_nonneg d). pose proof (zlen_nonneg (concat frames)).
  destruct (be_data_accepts e (zlen d) Hs ltac:(lia)) as (e1 & f & E).
  { intros u Eu. specialize (Hu u Eu). lia. }
  rewrite E. apply be_data_ok in E as (_ & Es & El & Eu); [|lia].
  destruct (IH e1) as (e2 & w & -> & Hs2 & El2); [by rewrite Es|lia| |].
  - intros u Eu1. destruct (remaining_upper e) as [u0|]; [|congruence].
    destruct Eu as [_ Eu]. rewrite Eu in Eu1. injection Eu1 as <-. specialize (Hu u0 eq_refl). lia.
  - eexists _, _. split_and!; [done..|]. rewrite zlen_app, El2, El. lia.
Qed.

(** An encoder in a framing mode accepts every body that keeps its promise:
    frames within the upper bound whose sum reaches the lower bound are framed
    and finished, never refused and without a panic; so a conforming producer
    always gets its body on the wire. *)
Theorem encoder_accepts e frames :
  framing_state (be_state e) -> 0 <= remaining_lower e <= zlen (concat frames) ->
  Forall (fun d => zlen d <= usize_max) frames ->
  (forall u, remaining_upper e = Some u -> zlen (concat frames) <= u) ->
  is_Some (encode_body e frames).
Proof.
  intros Hs Hl Hf Hu. destruct (encode_frames_accepts frames e Hs ltac:(lia) Hf Hu) as (e' & w & E & Hs' & El).
  unfold encode_body. rewrite E. unfold be_finish.
  assert (remaining_lower e' = 0) as -> by lia.
  destruct Hs' as [Es|[Es|Es]]; rewrite Es; simpl; eauto.
Qed.

(** ** Evaluated bodies *)

Definition chunked_encoder : BodyEncoder := mkBodyEncoder StateChunked 256 false 0 None TrailersMayHave.

Definition hello_wire : bytes :=
  bs "2" ++ [CR; LF] ++ bs "he" ++ [CR; LF] ++ bs "3" ++ [CR; LF] ++ bs "llo" ++ [CR; LF] ++ bs "0" ++
  [CR; LF; CR; LF].

Definition hello_pieces : list bytes :=
  [ztake 1 hello_wire; zslice 1 9 hello_wire; zdrop 9 hello_wire ++ bs "ne"; bs "xt"].

Lemma chunked_roundtrip_witness :
  exists rest unread,
    @drive AssocHttp EmptyFields 64 (with_limits BodyChunked DecodeLimits_default) [] hello_pieces false [] =
      Finished (bs "hello") (Some empty_trailers) rest unread /\
    rest ++ concat unread = bs "next".
Proof.
  apply (@chunked_roundtrip AssocHttp EmptyFields AssocHttp_laws EmptyFields_laws DecodeLimits_default
    default_limits_wf ltac:(vm_compute; discriminate)
    [bs "he"; []; bs "llo"] chunked_encoder hello_wire (bs "next") hello_pieces 64 eq_refl).
  - repeat constructor; vm_compute; discriminate.
  - vm_compute. discriminate.
  - reflexivity.
  - reflexivity.
  - vm_compute. discriminate.
Defined.

Lemma encoder_accepts_witness : is_Some (encode_body three_byte_encoder [bs "a"; bs "bc"]).
Proof.
  apply encoder_accepts.
  - left. reflexivity.
  - vm_compute. split; discriminate.
  - repeat constructor; vm_compute; discriminate.
  - intros u [= <-]. vm_compute. discriminate.
Defined.
