(* ===== verification/Send.v ===== *)
(** Owned writes over a transport (src/src/io/send.rs and the [WorkBudget] of
    src/src/future.rs).

    The runtime and the transport are parameters: a world [W] that the awaited
    operations of the [karmaio] crate change, and [Writes], what its
    documentation promises about them. A buffer handed to an operation comes
    back unchanged, so the loops return it as they were given it. *)

From Stdlib Require Import ZArith Lia.
From stdpp Require Import base list option.
From S2P Require Import Prelude Http Errors Body.

(** ** The runtime *)

Class Runtime (W : Type) := {
  (** a task yields to the executor once *)
  rt_yield : W -> W;
  (** [token.is_cancel_requested()] of the scope's token *)
  rt_cancel_requested : W -> bool;
  (** [karmaio::runtime::operation_canceled()] *)
  operation_canceled : IoError;
}.

Class AsyncWrite (W : Type) := {
  aw_write : W -> bytes -> W * result Z IoError;
  aw_write_vectored : W -> list bytes -> W * result Z IoError;
  aw_flush : W -> W * result unit IoError;
  aw_shutdown : W -> W * result unit IoError;
  (** [IoVectoredBuf::slice(buffers, written)]: what is left to write *)
  vec_slice : list bytes -> Z -> list bytes;
}.

(** What a write of [b] answering [r] may have put on the wire: the reported
    prefix; nothing when it was interrupted, so that it can be retried; some
    prefix when it failed otherwise. *)
Definition accepted (b : bytes) (r : result Z IoError) (k : bytes) : Prop :=
  match r with
  | Ok n => 0 <= n /\ k = ztake n b
  | Err e =>
      if bool_decide (io_kind e = IoInterrupted) then k = []
      else exists n, 0 <= n <= zlen b /\ k = ztake n b
  end.

(** Documented behaviour of writers: [wire] is what the transport accepted. *)
Class Writes (W : Type) `{Runtime W} `{AsyncWrite W} := {
  wire : W -> bytes;
  law_yield w : wire (rt_yield w) = wire w;
  law_write w b w' r : aw_write w b = (w', r) -> exists k, wire w' = wire w ++ k /\ accepted b r k;
  law_write_vectored w bs w' r : aw_write_vectored w bs = (w', r) ->
    exists k, wire w' = wire w ++ k /\ accepted (concat bs) r k;
  law_flush w w' r : aw_flush w = (w', r) -> wire w' = wire w;
  law_slice bs n : 0 <= n -> concat (vec_slice bs n) = zdrop n (concat bs);
}.

(** ** The cooperative budget *)

(** [WorkBudget]: ready turns left before a yield. *)
Definition WorkBudget := Z.

Definition WorkBudget_new : WorkBudget := 16.

Definition budget_step {W} `{Runtime W} (budget : WorkBudget) (w : W) : WorkBudget * W :=
  let '(budget, w) := if budget =? 0 then (16, rt_yield w) else (budget, w) in
  (budget - 1, w).

(** ** Progress of one write *)

Definition write_zero : IoError := mkIoError IoWriteZero false false None.
Definition over_reported : IoError := mkIoError IoInvalidData false false None.
Definition length_overflow : IoError := mkIoError IoInvalidInput false false None.

Definition checked_progress (r : result Z IoError) (remaining : Z) : result Z IoError :=
  match r with
  | Ok count =>
      if count =? 0 then Err write_zero
      else if remaining <? count then Err over_reported
      else Ok count
  | Err e => if bool_decide (io_kind e = IoInterrupted) then Ok 0 else Err e
  end.

(** ** The loops

    [None] is a model run out of turns; [cancellation] is whether the caller
    passed a token. *)

Section Loops.
Context {W : Type} `{Runtime W} `{AsyncWrite W}.
Context (cancellation : bool).

Definition canceled (w : W) : bool := cancellation && rt_cancel_requested w.

Fixpoint write_scalar_loop (fuel : nat) (w : W) (buffer : bytes) (written : Z) (budget : WorkBudget)
    : W * option (result Z IoError) :=
  if written <? zlen buffer then
    match fuel with
    | O => (w, None)
    | S fuel =>
        let '(budget, w) := budget_step budget w in
        if canceled w then (w, Some (Err operation_canceled))
        else
          let '(w, r) := aw_write w (zdrop written buffer) in
          match checked_progress r (zlen buffer - written) with
          | Ok count => write_scalar_loop fuel w buffer (written + count) budget
          | Err e => (w, Some (Err e))
          end
    end
  else (w, Some (Ok written)).

Definition write_scalar (fuel : nat) (w : W) (buffer : bytes) : W * option (result Z IoError) :=
  write_scalar_loop fuel w buffer 0 WorkBudget_new.

(** The checked sum of the parts' lengths. *)
Fixpoint total_length (total : Z) (parts : list bytes) : option Z :=
  match parts with
  | [] => Some total
  | p :: parts =>
      match checked_add usize_max total (zlen p) with
      | Some total => total_length total parts
      | None => None
      end
  end.

Fixpoint write_vectors_loop (fuel : nat) (w : W) (buffers : list bytes) (length written : Z) (budget : WorkBudget)
    : W * option (result Z IoError) :=
  if written <? length then
    match fuel with
    | O => (w, None)
    | S fuel =>
        let '(budget, w) := budget_step budget w in
        if canceled w then (w, Some (Err operation_canceled))
        else
          let '(w, r) := aw_write_vectored w (vec_slice buffers written) in
          match checked_progress r (length - written) with
          | Ok count => write_vectors_loop fuel w buffers length (written + count) budget
          | Err e => (w, Some (Err e))
          end
    end
  else (w, Some (Ok written)).

Definition write_vectors (fuel : nat) (w : W) (buffers : list bytes) : W * option (result Z IoError) :=
  match total_length 0 buffers with
  | None => (w, Some (Err length_overflow))
  | Some length => write_vectors_loop fuel w buffers length 0 WorkBudget_new
  end.

(** [write_all] and [write_vectored_all] add the token to the operations'
    scope, which the world already reflects. *)
Definition write_all (fuel : nat) (w : W) (buffer : bytes) : W * option (result Z IoError) :=
  write_scalar fuel w buffer.

Definition write_vectored_all (fuel : nat) (w : W) (buffers : list bytes) : W * option (result Z IoError) :=
  write_vectors fuel w buffers.

Definition write_framed (fuel : nat) (w : W) (prefix data suffix : bytes) : W * option (result Z IoError) :=
  write_vectored_all fuel w [prefix; data; suffix].

(** A write leaves alone what the transport leaves alone. *)
Lemma write_all_keeps {A} (f : W -> A) fuel w b :
  (forall w b, f (fst (aw_write w b)) = f w) -> (forall w, f (rt_yield w) = f w) ->
  f (fst (write_all fuel w b)) = f w.
Proof.
  intros Hwrite Hyield. unfold write_all, write_scalar. generalize 0, WorkBudget_new. revert w.
  induction fuel as [|fuel IH]; intros w i budget; simpl; (destruct (_ <? _); [|done]); [done|].
  assert (f (snd (budget_step budget w)) = f w) as Hb by (unfold budget_step; destruct (budget =? 0); simpl; auto).
  destruct (budget_step budget w) as [budget1 w1]. simpl in Hb. destruct (canceled w1); [done|].
  pose proof (Hwrite w1 (zdrop i b)) as Hw. destruct (aw_write w1 (zdrop i b)) as [w2 r]. simpl in Hw.
  destruct (checked_progress r _); [rewrite IH|simpl]; congruence.
Qed.

Lemma write_framed_keeps {A} (f : W -> A) fuel w prefix data suffix :
  (forall w bs, f (fst (aw_write_vectored w bs)) = f w) -> (forall w, f (rt_yield w) = f w) ->
  f (fst (write_framed fuel w prefix data suffix)) = f w.
Proof.
  intros Hwrite Hyield. unfold write_framed, write_vectored_all, write_vectors. destruct (total_length 0 _) as [length|]; [|done].
  generalize 0, WorkBudget_new. revert w. induction fuel as [|fuel IH]; intros w i budget; simpl; (destruct (_ <? _); [|done]); [done|].
  assert (f (snd (budget_step budget w)) = f w) as Hb by (unfold budget_step; destruct (budget =? 0); simpl; auto).
  destruct (budget_step budget w) as [budget1 w1]. simpl in Hb. destruct (canceled w1); [done|].
  match goal with |- context [aw_write_vectored w1 ?x] => pose proof (Hwrite w1 x) as Hw; destruct (aw_write_vectored w1 x) as [w2 r] end.
  simpl in Hw. destruct (checked_progress r _); [rewrite IH|simpl]; congruence.
Qed.

End Loops.

(** * What the loops guarantee *)

Section Written.
Context {W : Type} `{Runtime W} `{AsyncWrite W} `{!Writes W}.
Context (cancellation : bool).

(** A loop's answer about a message [b]: success means all of it went out, in
    order and once; a failure leaves a prefix of it on the wire. *)
Definition wrote_answer (w : W) (b : bytes) (w' : W) (r : option (result Z IoError)) : Prop :=
  match r with
  | Some (Ok n) => n = zlen b /\ wire w' = wire w ++ b
  | _ => exists n, 0 <= n <= zlen b /\ wire w' = wire w ++ ztake n b
  end.

Lemma budget_step_wire budget (w : W) : wire (snd (budget_step budget w)) = wire w.
Proof. unfold budget_step. destruct (budget =? 0); simpl; [apply law_yield | done]. Qed.

Lemma checked_progress_ok r remaining n :
  checked_progress r remaining = Ok n ->
  (exists e, r = Err e /\ io_kind e = IoInterrupted /\ n = 0) \/ (r = Ok n /\ n <> 0 /\ n <= remaining).
Proof.
  unfold checked_progress. destruct r as [c|e].
  - destruct (Z.eqb_spec c 0); [done|]. destruct (Z.ltb_spec remaining c); [done|]. intros [= ->]. right. lia || auto.
  - case_bool_decide; [|done]. intros [= <-]. left. eauto.
Qed.

Lemma ztake_step (b : bytes) i n : 0 <= i -> 0 <= n -> ztake i b ++ ztake n (zdrop i b) = ztake (i + n) b.
Proof.
  intros Hi Hn. unfold ztake, zdrop. rewrite Z2Nat.inj_add by lia.
  rewrite <- (take_drop (Z.to_nat i) b) at 3.
  destruct (decide (Z.to_nat i <= length b)%nat).
  - rewrite take_app_ge by (rewrite length_take; lia). rewrite length_take.
    do 2 f_equal. lia.
  - rewrite drop_ge by lia. rewrite take_nil, !app_nil_r, !take_take. f_equal. lia.
Qed.

(** One turn of either loop: writing what is left after [i] bytes. *)
Lemma turn_wire (b k : bytes) i r :
  0 <= i <= zlen b -> accepted (zdrop i b) r k ->
  match checked_progress r (zlen b - i) with
  | Ok n => 0 <= n /\ i + n <= zlen b /\ k = ztake n (zdrop i b)
  | Err _ => exists n, 0 <= n /\ i + n <= zlen b /\ k = ztake n (zdrop i b)
  end.
Proof.
  intros Hi Hk. assert (zlen (zdrop i b) = zlen b - i) as Hl by (rewrite zlen_zdrop; lia).
  destruct r as [n|e]; simpl in *.
  - destruct Hk as [Hn ->]. destruct (Z.eqb_spec n 0) as [->|]; [exists 0; split_and!; [lia..|done]|].
    destruct (Z.ltb_spec (zlen b - i) n); [|split_and!; [lia..|done]].
    exists (zlen b - i). rewrite !ztake_all by lia. split_and!; [lia..|done].
  - case_bool_decide; [subst k; rewrite ztake_0 by lia; split_and!; [lia..|done]|].
    destruct Hk as (n & Hn & ->). exists n. split_and!; [lia..|done].
Qed.

(** Both loops are this one, over a step that writes what is left after [i]
    bytes. *)
Fixpoint write_loop (step : W -> Z -> W * result Z IoError) (length : Z) (fuel : nat) (w : W) (i : Z)
    (budget : WorkBudget) : W * option (result Z IoError) :=
  if i <? length then
    match fuel with
    | O => (w, None)
    | S fuel =>
        let '(budget, w) := budget_step budget w in
        if canceled cancellation w then (w, Some (Err operation_canceled))
        else
          let '(w, r) := step w i in
          match checked_progress r (length - i) with
          | Ok count => write_loop step length fuel w (i + count) budget
          | Err e => (w, Some (Err e))
          end
    end
  else (w, Some (Ok i)).

Lemma write_scalar_loop_is fuel w b i budget :
  write_scalar_loop cancellation fuel w b i budget =
  write_loop (fun w i => aw_write w (zdrop i b)) (zlen b) fuel w i budget.
Proof.
  revert w i budget. induction fuel as [|fuel IH]; intros w i budget; simpl; [done|].
  destruct (i <? zlen b); [|done]. destruct (budget_step budget w) as [b1 w1].
  destruct (canceled _ w1); [done|]. destruct (aw_write w1 _) as [w2 q]. destruct (checked_progress q _); [apply IH|done].
Qed.

Lemma write_vectors_loop_is fuel w bs length i budget :
  write_vectors_loop cancellation fuel w bs length i budget =
  write_loop (fun w i => aw_write_vectored w (vec_slice bs i)) length fuel w i budget.
Proof.
  revert w i budget. induction fuel as [|fuel IH]; intros w i budget; simpl; [done|].
  destruct (i <? length); [|done]. destruct (budget_step budget w) as [b1 w1].
  destruct (canceled _ w1); [done|]. destruct (aw_write_vectored w1 _) as [w2 q].
  destruct (checked_progress q _); [apply IH|done].
Qed.

Section OneLoop.
Context (step : W -> Z -> W * result Z IoError) (b : bytes).
Context (Hstep : forall w i w' r, 0 <= i -> step w i = (w', r) ->
  exists k, wire w' = wire w ++ k /\ accepted (zdrop i b) r k).

Lemma write_loop_wire fuel w i budget w' r :
  0 <= i <= zlen b -> write_loop step (zlen b) fuel w i budget = (w', r) ->
  match r with
  | Some (Ok n) => n = zlen b /\ wire w' = wire w ++ zdrop i b
  | _ => exists n, 0 <= n /\ i + n <= zlen b /\ wire w' = wire w ++ ztake n (zdrop i b)
  end.
Proof.
  assert (Hnone : forall w i, 0 <= i <= zlen b ->
    exists n, 0 <= n /\ i + n <= zlen b /\ wire w = wire w ++ ztake n (zdrop i b)).
  { intros w0 i0 Hi0. exists 0. rewrite ztake_0, app_nil_r by lia. split_and!; [lia..|done]. }
  revert w i budget. induction fuel as [|fuel IH]; intros w i budget Hi; simpl;
    (destruct (Z.ltb_spec i (zlen b)) as [Hlt|Hge];
     [|intros [= <- <-]; assert (i = zlen b) as -> by lia; rewrite zdrop_all by lia; by rewrite app_nil_r]).
  { intros [= <- <-]. by apply Hnone. }
  pose proof (budget_step_wire budget w) as Hb. destruct (budget_step budget w) as [budget1 w1]. simpl in Hb.
  destruct (canceled cancellation w1). { intros [= <- <-]. rewrite Hb. by apply Hnone. }
  destruct (step w1 i) as [w2 q] eqn:Ew. apply Hstep in Ew as (k & Hw & Hk); [|lia]. rewrite Hb in Hw.
  pose proof (turn_wire b k i q Hi Hk) as Ht.
  destruct (checked_progress q (zlen b - i)) as [n|e].
  - destruct Ht as (Hn & Hle & ->).
    intros Hr. apply IH in Hr; [|lia]. rewrite Hw in Hr. rewrite <- !app_assoc in Hr.
    destruct r as [[m|e]|].
    + destruct Hr as [-> ->]. split; [done|]. f_equal. rewrite <- zdrop_zdrop by lia. by rewrite ztake_zdrop.
    + destruct Hr as (m & Hm & Hle2 & ->). exists (n + m). split_and!; [lia..|].
      rewrite <- app_assoc, <- zdrop_zdrop by lia. by rewrite ztake_step.
    + destruct Hr as (m & Hm & Hle2 & ->). exists (n + m). split_and!; [lia..|].
      rewrite <- app_assoc, <- zdrop_zdrop by lia. by rewrite ztake_step.
  - intros [= <- <-]. destruct Ht as (n & Hn & Hle & ->). exists n. done.
Qed.

(** A step that is never interrupted makes progress, so the loop ends. *)
Lemma write_loop_total fuel w i budget :
  (forall w i w' e, step w i = (w', Err e) -> io_kind e <> IoInterrupted) ->
  0 <= i <= zlen b -> zlen b - i <= Z.of_nat fuel ->
  is_Some (snd (write_loop step (zlen b) fuel w i budget)).
Proof.
  intros Hint. revert w i budget. induction fuel as [|fuel IH]; intros w i budget Hi Hf; simpl;
    (destruct (Z.ltb_spec i (zlen b)) as [Hlt|Hge]; [|by eexists]); [lia|].
  destruct (budget_step budget w) as [budget1 w1]. destruct (canceled cancellation w1); [by eexists|].
  destruct (step w1 i) as [w2 q] eqn:Ew. destruct (checked_progress q (zlen b - i)) as [n|e] eqn:Ep; [|by eexists].
  pose proof (Hstep _ _ _ _ (proj1 Hi) Ew) as (k & _ & Hk).
  apply checked_progress_ok in Ep as [(e & -> & He & ->)|(-> & Hn & Hle)]; [by apply Hint in Ew|].
  destruct Hk as [Hn0 _]. apply IH; lia.
Qed.

End OneLoop.

Lemma scalar_step b w i w' r : 0 <= i -> aw_write w (zdrop i b) = (w', r) ->
  exists k, wire w' = wire w ++ k /\ accepted (zdrop i b) r k.
Proof. intros _. apply law_write. Qed.

Lemma vectored_step bs w i w' r : 0 <= i -> aw_write_vectored w (vec_slice bs i) = (w', r) ->
  exists k, wire w' = wire w ++ k /\ accepted (zdrop i (concat bs)) r k.
Proof. intros Hi Ew%law_write_vectored. by rewrite law_slice in Ew. Qed.

Lemma total_length_concat parts total n :
  0 <= total -> total_length total parts = Some n -> n = total + zlen (concat parts).
Proof.
  revert total. induction parts as [|p parts IH]; intros total Ht; simpl.
  - intros [= ->]. change (zlen (@nil byte)) with 0. lia.
  - destruct (checked_add _ total (zlen p)) as [t|] eqn:E; [|done]. apply checked_add_Some in E as [-> _].
    pose proof (zlen_nonneg p). intros Hr%IH; [|lia]. rewrite zlen_app. lia.
Qed.

Lemma wrote_answer_nothing w b r : match r with Some (Ok _) => False | _ => True end -> wrote_answer w b w r.
Proof.
  intros Hr. unfold wrote_answer. pose proof (zlen_nonneg b).
  destruct r as [[]|]; [done|..]; exists 0; rewrite ztake_0, app_nil_r by lia; (split; [lia|done]).
Qed.

Lemma write_all_answer fuel w b w' r : write_all cancellation fuel w b = (w', r) -> wrote_answer w b w' r.
Proof.
  unfold write_all, write_scalar. rewrite write_scalar_loop_is. pose proof (zlen_nonneg b).
  intros Hr. apply (write_loop_wire _ b (scalar_step b)) in Hr; [|lia]. rewrite zdrop_0 in Hr by lia.
  unfold wrote_answer. destruct r as [[n|e]|]; [done|..]; destruct Hr as (n & ? & ? & ->); exists n; (split; [lia|done]).
Qed.

Lemma write_vectored_answer fuel w bs w' r :
  write_vectored_all cancellation fuel w bs = (w', r) -> wrote_answer w (concat bs) w' r.
Proof.
  unfold write_vectored_all, write_vectors. destruct (total_length 0 bs) as [length|] eqn:El.
  2:{ intros [= <- <-]. by apply wrote_answer_nothing. }
  apply total_length_concat in El; [|lia]. subst length. rewrite Z.add_0_l, write_vectors_loop_is.
  pose proof (zlen_nonneg (concat bs)).
  intros Hr. apply (write_loop_wire _ (concat bs) (vectored_step bs)) in Hr; [|lia].
  rewrite zdrop_0 in Hr by lia.
  unfold wrote_answer. destruct r as [[n|e]|]; [done|..]; destruct Hr as (n & ? & ? & ->); exists n; (split; [lia|done]).
Qed.

Lemma write_framed_answer fuel w prefix data suffix w' r :
  write_framed cancellation fuel w prefix data suffix = (w', r) ->
  wrote_answer w (prefix ++ data ++ suffix) w' r.
Proof. intros Hr%write_vectored_answer. simpl in Hr. by rewrite app_nil_r in Hr. Qed.

(** Owned writes. Over any transport that keeps the documented contract,
    however it splits, interrupts, refuses or cancels writes, a scalar or
    vectored write reports success only when the whole message went out, in
    order and once, and reports its length; and whatever else it reports, what
    went out is a prefix of the message. *)
Theorem writes_exact fuel w b bs w' r :
  (write_all cancellation fuel w b = (w', r) -> wrote_answer w b w' r) /\
  (write_vectored_all cancellation fuel w bs = (w', r) -> wrote_answer w (concat bs) w' r).
Proof. split; [apply write_all_answer | apply write_vectored_answer]. Qed.

(** Owned writes end. A transport that does not interrupt its writes makes
    every write loop answer within one turn per byte of the message: a write of
    zero bytes or of more than was offered is an error, not a retry. *)
Theorem writes_total fuel w b bs :
  (forall w b w' e, aw_write w b = (w', Err e) -> io_kind e <> IoInterrupted) ->
  (forall w bs w' e, aw_write_vectored w bs = (w', Err e) -> io_kind e <> IoInterrupted) ->
  (zlen b <= Z.of_nat fuel -> is_Some (snd (write_all cancellation fuel w b))) /\
  (zlen (concat bs) <= Z.of_nat fuel -> is_Some (snd (write_vectored_all cancellation fuel w bs))).
Proof.
  intros H1 H2. split; intros Hf.
  - unfold write_all, write_scalar. rewrite write_scalar_loop_is. pose proof (zlen_nonneg b).
    apply (write_loop_total _ b (scalar_step b)); [|lia..]. intros w0 i. apply H1.
  - unfold write_vectored_all, write_vectors. destruct (total_length 0 bs) as [length|] eqn:El; [|by eexists].
    apply total_length_concat in El; [|lia]. subst length. rewrite Z.add_0_l, write_vectors_loop_is.
    pose proof (zlen_nonneg (concat bs)).
    apply (write_loop_total _ (concat bs) (vectored_step bs)); [|lia..]. intros w0 i. apply H2.
Qed.

End Written.

(** ** A transport that accepts at most two bytes at a time *)

Definition SlowWire := bytes.

#[export] Instance SlowWire_runtime : Runtime SlowWire := {
  rt_yield w := w;
  rt_cancel_requested _ := false;
  operation_canceled := mkIoError IoOther false true None;
}.

#[export] Instance SlowWire_write : AsyncWrite SlowWire := {
  aw_write w b := (w ++ ztake 2 b, Ok (Z.min 2 (zlen b)));
  aw_write_vectored w bs := (w ++ ztake 2 (concat bs), Ok (Z.min 2 (zlen (concat bs))));
  aw_flush w := (w, Ok tt);
  aw_shutdown w := (w, Ok tt);
  vec_slice bs n := [zdrop n (concat bs)];
}.

Lemma ztake_min n (b : bytes) : 0 <= n -> ztake n b = ztake (Z.min n (zlen b)) b.
Proof.
  intros Hn. destruct (Z.leb_spec n (zlen b)); [by rewrite Z.min_l|].
  rewrite Z.min_r by lia. rewrite !ztake_all by lia. done.
Qed.

#[export] Instance SlowWire_writes : Writes SlowWire.
Proof.
  refine {| wire (w : SlowWire) := (w : bytes) |}; try done.
  - intros w b w' r [= <- <-]. eexists; split; [done|]. pose proof (zlen_nonneg b). split; [lia | by apply ztake_min].
  - intros w bs w' r [= <- <-]. eexists; split; [done|]. pose proof (zlen_nonneg (concat bs)).
    split; [lia | by apply ztake_min].
  - by intros w w' r [= <- <-].
  - intros bs n _. simpl. by rewrite app_nil_r.
Defined.

Lemma writes_exact_witness :
  write_framed true 8 ([] : SlowWire) (bs "2") (bs "hi") (bs "!") = (bs "2hi!", Some (Ok 4)) /\
  wrote_answer ([] : SlowWire) (bs "2hi!") (bs "2hi!" : SlowWire) (Some (Ok 4)).
Proof.
  split; [vm_compute; reflexivity|].
  apply (proj2 (writes_exact true 8 ([] : SlowWire) [] [bs "2"; bs "hi"; bs "!"] (bs "2hi!") (Some (Ok 4)))).
  vm_compute. reflexivity.
Defined.

Lemma writes_total_witness : is_Some (snd (write_all true 4 ([] : SlowWire) (bs "2hi!"))).
Proof.
  apply (writes_total true 4 ([] : SlowWire) (bs "2hi!") []); [discriminate | discriminate |].
  vm_compute. discriminate.
Defined.
