(* ===== verification/Collect.v ===== *)
(** Bounded collection of a body (src/src/body/collect.rs).

    The allocator is a parameter: it may refuse a request, and otherwise gives at
    least what was asked. [None] of a loop is a model run out of turns. *)

From Stdlib Require Import ZArith Lia.
From stdpp Require Import base list option.
From S2P Require Import Prelude Http Errors Body Send.

(** ** Storage *)

Class VecAllocator := {
  allocate : Z -> option Z;
  law_allocate n c : allocate n = Some c -> n <= c;
}.

(** A [Vec<u8>], with the requests made for it. *)
Record Vec := mkVec {
  vec_bytes : bytes;
  vec_capacity : Z;
  vec_requests : list Z;
}.

Definition Vec_new : Vec := mkVec [] 0 [].

Inductive CollectError (E : Type) : Type :=
| CollectBody (e : E)
| LimitExceeded (limit : Z)
| LengthOverflow
| CollectAllocation
| LengthMismatch
| CollectUnexpectedTrailers
| InvalidSequence.
Arguments CollectBody {E} e.
Arguments LimitExceeded {E} limit.
Arguments LengthOverflow {E}.
Arguments CollectAllocation {E}.
Arguments LengthMismatch {E}.
Arguments CollectUnexpectedTrailers {E}.
Arguments InvalidSequence {E}.

Inductive AggregateError : Type :=
| AggregateOverflow
| AggregateLimit (limit : Z).

Definition checked_total (current additional limit : Z) : result Z AggregateError :=
  match checked_add usize_max current additional with
  | None => Err AggregateOverflow
  | Some total => if limit <? total then Err (AggregateLimit limit) else Ok total
  end.

Definition CollectError_from {E} (e : AggregateError) : CollectError E :=
  match e with
  | AggregateOverflow => LengthOverflow
  | AggregateLimit limit => LimitExceeded limit
  end.

Record Collected {http : HttpCrate} := mkCollected {
  collected_data : bytes;
  collected_trailers : option HeaderMap;
}.
Arguments mkCollected {http} _ _.

Section Collect.
Context {http : HttpCrate} {va : VecAllocator}.
Context {W : Type} `{Runtime W}.
Context {B D E : Type} `{IoBuf D} `{!Body B D E}.

(** [Vec::try_reserve_exact] *)
Definition try_reserve_exact (v : Vec) (additional : Z) : Vec * bool :=
  let needed := zlen (vec_bytes v) + additional in
  if needed <=? vec_capacity v then (v, true)
  else
    let requests := vec_requests v ++ [needed] in
    match allocate needed with
    | Some c => (mkVec (vec_bytes v) c requests, true)
    | None => (mkVec (vec_bytes v) (vec_capacity v) requests, false)
    end.

(** [Panics] is the underflow of [target - data.len()]. *)
Definition reserve_for_append (v : Vec) (new_len limit : Z) : Vec * call bool :=
  if new_len <=? vec_capacity v then (v, Returns true)
  else
    let target := Z.min (Z.max (saturating_mul usize_max (vec_capacity v) 2) new_len) limit in
    match checked_sub target (zlen (vec_bytes v)) with
    | None => (v, Panics)
    | Some additional => let '(v, ok) := try_reserve_exact v additional in (v, Returns ok)
    end.

Definition append (v : Vec) (frame : bytes) (limit : Z) (hint : SizeHint) (after_trailers : bool)
    : Vec * call (result unit (CollectError E)) :=
  if after_trailers then (v, Returns (Err InvalidSequence))
  else
    match checked_total (zlen (vec_bytes v)) (zlen frame) limit with
    | Err e => (v, Returns (Err (CollectError_from e)))
    | Ok new_len =>
        if match upper hint with Some upper => upper <? new_len | None => false end then
          (v, Returns (Err LengthMismatch))
        else
          let '(v, r) := reserve_for_append v new_len limit in
          match r with
          | Panics => (v, Panics)
          | Returns false => (v, Returns (Err CollectAllocation))
          | Returns true => (mkVec (vec_bytes v ++ frame) (vec_capacity v) (vec_requests v), Returns (Ok tt))
          end
    end.

Definition answer : Type := option (call (result Collected (CollectError E))).

Fixpoint collect_loop (fuel : nat) (w : W) (body : B) (max_bytes : Z) (hint : SizeHint) (trailer : TrailerHint)
    (v : Vec) (trailers : option HeaderMap) (budget : WorkBudget) : W * B * Vec * answer :=
  match fuel with
  | O => (w, body, v, None)
  | S fuel =>
      let '(budget, w) := budget_step budget w in
      let '(body, r) := next_frame body in
      match r with
      | Panics => (w, body, v, Some Panics)
      | Returns (Err e) => (w, body, v, Some (Returns (Err (CollectBody e))))
      | Returns (Ok None) =>
          (w, body, v, Some (Returns (
            if zlen (vec_bytes v) <? lower hint then Err LengthMismatch
            else Ok (mkCollected (vec_bytes v) trailers))))
      | Returns (Ok (Some (DataFrame frame))) =>
          let '(v, r) := append v (as_init frame) max_bytes hint (bool_decide (is_Some trailers)) in
          match r with
          | Panics => (w, body, v, Some Panics)
          | Returns r =>
              let body := recycle body frame in
              match r with
              | Err e => (w, body, v, Some (Returns (Err e)))
              | Ok _ => collect_loop fuel w body max_bytes hint trailer v trailers budget
              end
          end
      | Returns (Ok (Some (TrailersFrame fields))) =>
          if bool_decide (is_Some trailers) then (w, body, v, Some (Returns (Err InvalidSequence)))
          else if bool_decide (trailer = TrailersNone) then
            (w, body, v, Some (Returns (Err CollectUnexpectedTrailers)))
          else collect_loop fuel w body max_bytes hint trailer v (Some fields) budget
      end
  end.

Definition collect (fuel : nat) (w : W) (body : B) (max_bytes : Z) : W * B * Vec * answer :=
  match size_hint body, trailer_hint body with
  | Returns hint, Returns trailer =>
      if max_bytes <? lower hint then (w, body, Vec_new, Some (Returns (Err (LimitExceeded max_bytes))))
      else
        let initial_capacity :=
          match exact hint with
          | None => Ok 0
          | Some length => if usize_max <? length then Err LengthOverflow else Ok length
          end in
        match initial_capacity with
        | Err e => (w, body, Vec_new, Some (Returns (Err e)))
        | Ok initial_capacity =>
            let '(v, ok) := try_reserve_exact Vec_new initial_capacity in
            if ok then collect_loop fuel w body max_bytes hint trailer v None WorkBudget_new
            else (w, body, v, Some (Returns (Err CollectAllocation)))
        end
  | _, _ => (w, body, Vec_new, Some Panics)
  end.

(** ** What is collected *)

(** A body that yields [frames], each data frame handed back at once, and then
    ends cleanly or with an error. *)
Fixpoint feeds (b : B) (frames : list (Frame D)) (last : option E) : Prop :=
  match frames with
  | [] => exists b', next_frame b = (b', Returns (match last with None => Ok None | Some e => Err e end))
  | f :: frames =>
      exists b', next_frame b = (b', Returns (Ok (Some f))) /\
        feeds (match f with DataFrame d => recycle b' d | TrailersFrame _ => b' end) frames last
  end.

Definition trailer_frames (t : option HeaderMap) : list (Frame D) :=
  match t with None => [] | Some t => [TrailersFrame t] end.

(** The collection [c] is what a body of these promises and frames holds. *)
Definition holds_body (limit : Z) (hint : SizeHint) (trailer : TrailerHint) (frames : list (Frame D))
    (last : option E) (c : Collected) : Prop :=
  exists ds,
    last = None /\ frames = map DataFrame ds ++ trailer_frames (collected_trailers c) /\
    collected_data c = concat (map as_init ds) /\
    lower hint <= zlen (collected_data c) <= limit /\
    (forall u, upper hint = Some u -> zlen (collected_data c) <= u) /\
    (collected_trailers c <> None -> trailer <> TrailersNone).

Definition vec_ok (limit : Z) (v : Vec) : Prop :=
  zlen (vec_bytes v) <= vec_capacity v /\ zlen (vec_bytes v) <= limit /\
  Forall (fun n => 0 <= n <= limit) (vec_requests v).

Definition refused (v : Vec) : Prop := exists n, n ∈ vec_requests v /\ allocate n = None.

Definition within (hint : SizeHint) (n : Z) : Prop := forall u, upper hint = Some u -> n <= u.

Lemma try_reserve_ok limit v additional v' ok :
  vec_ok limit v -> 0 <= additional -> zlen (vec_bytes v) + additional <= limit ->
  try_reserve_exact v additional = (v', ok) ->
  vec_bytes v' = vec_bytes v /\ vec_ok limit v' /\
  if ok then zlen (vec_bytes v) + additional <= vec_capacity v' else refused v'.
Proof.
  intros (Hc & Hl & Hr) Ha Hn. unfold try_reserve_exact. pose proof (zlen_nonneg (vec_bytes v)).
  assert (Hreq : Forall (fun n => 0 <= n <= limit) (vec_requests v ++ [zlen (vec_bytes v) + additional])).
  { apply Forall_app. split; [done|]. repeat constructor; lia. }
  destruct (Z.leb_spec (zlen (vec_bytes v) + additional) (vec_capacity v)); [by intros [= <- <-]|].
  destruct (allocate _) as [c|] eqn:Ea; intros [= <- <-]; unfold vec_ok; simpl; split_and!; try done.
  - apply law_allocate in Ea. lia.
  - by apply law_allocate.
  - eexists. split; [|exact Ea]. apply elem_of_app. right. by apply list_elem_of_singleton.
Qed.

Lemma reserve_for_append_ok limit v new_len v' r :
  vec_ok limit v -> zlen (vec_bytes v) <= new_len <= limit ->
  reserve_for_append v new_len limit = (v', r) ->
  exists ok, r = Returns ok /\ vec_bytes v' = vec_bytes v /\ vec_ok limit v' /\
    if ok then new_len <= vec_capacity v' else refused v'.
Proof.
  intros Hv Hn. unfold reserve_for_append.
  destruct (Z.leb_spec new_len (vec_capacity v)); [intros [= <- <-]; by exists true|].
  set (target := Z.min _ limit). assert (new_len <= target <= limit) by lia.
  rewrite (proj2 (checked_sub_Some target _ (target - zlen (vec_bytes v)))) by lia.
  destruct (try_reserve_exact _ _) as [v1 ok] eqn:Er. intros [= <- <-].
  apply (try_reserve_ok limit) in Er as (Hb & Hv1 & Hok); [|done|lia..]. exists ok. split_and!; try done.
  destruct ok; [lia|done].
Qed.

Lemma append_ok limit v frame hint after_trailers v' r :
  vec_ok limit v -> limit <= usize_max -> append v frame limit hint after_trailers = (v', r) ->
  exists res, r = Returns res /\ vec_ok limit v' /\
    match res with
    | Ok _ => after_trailers = false /\ vec_bytes v' = vec_bytes v ++ frame /\ within hint (zlen (vec_bytes v ++ frame))
    | Err e =>
        e = CollectAllocation /\ refused v' \/
        after_trailers = true \/ limit < zlen (vec_bytes v ++ frame) \/ ~ within hint (zlen (vec_bytes v ++ frame))
    end.
Proof.
  intros Hv Hl. unfold append. destruct after_trailers; [intros [= <- <-]; eexists; split; [done|]; eauto|].
  unfold checked_total. rewrite zlen_app.
  destruct (checked_add _ _ _) as [total|] eqn:Et.
  2:{ intros [= <- <-]. eexists. split; [done|]. split; [done|]. right; right; left.
      unfold checked_add in Et. destruct (Z.leb_spec (zlen (vec_bytes v) + zlen frame) usize_max); [done|lia]. }
  apply checked_add_Some in Et as [-> ?].
  destruct (Z.ltb_spec limit (zlen (vec_bytes v) + zlen frame)); [intros [= <- <-]; eexists; split; [done|]; eauto|].
  case_match eqn:Eu.
  { intros [= <- <-]. eexists. split; [done|]. split; [done|]. right; right; right. intros Hu.
    destruct (upper hint) as [u|] eqn:Er; [|done]. specialize (Hu u Er). apply Z.ltb_lt in Eu. lia. }
  assert (within hint (zlen (vec_bytes v) + zlen frame)).
  { intros u Er. rewrite Er in Eu. by apply Z.ltb_ge in Eu. }
  destruct (reserve_for_append _ _ _) as [v1 r1] eqn:Er. pose proof (zlen_nonneg frame).
  apply reserve_for_append_ok in Er as (ok & -> & Hb & Hv1 & Hok); [|done|lia].
  destruct ok; intros [= <- <-]; eexists; (split; [done|]); [|split; [done|]; by left].
  rewrite Hb. split_and!; try done. unfold vec_ok in *. simpl. rewrite zlen_app. rewrite Hb in *. split_and!; try lia. tauto.
Qed.

Section Loop.
Context (limit : Z) (hint : SizeHint) (trailer : TrailerHint) (last : option E).
Context (Hlimit : limit <= usize_max).

(** What the frames to come must be, with [v] and [t] collected. *)
Definition completes (v : bytes) (t : option HeaderMap) (frames : list (Frame D)) (c : Collected) : Prop :=
  last = None /\ lower hint <= zlen (collected_data c) <= limit /\ within hint (zlen (collected_data c)) /\
  match t with
  | Some _ => frames = [] /\ c = mkCollected v t
  | None =>
      exists ds, frames = map DataFrame ds ++ trailer_frames (collected_trailers c) /\
        collected_data c = v ++ concat (map as_init ds) /\
        (collected_trailers c <> None -> trailer <> TrailersNone)
  end.

Lemma completes_data v d frames c :
  completes v None (DataFrame d :: frames) c <-> completes (v ++ as_init d) None frames c.
Proof.
  unfold completes. split; intros (? & ? & ? & ds & Hf & Hd & Ht); do 3 (split; [done|]).
  - destruct ds as [|d' ds]; simpl in *; [by destruct (collected_trailers c)|].
    injection Hf as <- ->. exists ds. by rewrite <- app_assoc.
  - exists (d :: ds). simpl. by rewrite Hf, app_assoc, Hd.
Qed.

Lemma completes_too_long v d frames c :
  completes v None (DataFrame d :: frames) c ->
  zlen (v ++ as_init d) <= limit /\ within hint (zlen (v ++ as_init d)).
Proof.
  rewrite completes_data. intros (_ & Hz & Hw & ds & _ & Hd & _). rewrite Hd, zlen_app in Hz, Hw.
  pose proof (zlen_nonneg (concat (map as_init ds))). split; [lia|]. intros u Hu. specialize (Hw u Hu). lia.
Qed.

Lemma completes_trailers v t frames c :
  completes v None (TrailersFrame t :: frames) c <-> trailer <> TrailersNone /\ completes v (Some t) frames c.
Proof.
  unfold completes. split.
  - intros (? & Hz & Hw & ds & Hf & Hd & Ht).
    destruct ds; [|done]. simpl in *. destruct c as [data [t'|]]; [|done]. simpl in *. injection Hf as <- ->.
    rewrite app_nil_r in Hd. subst. split; [auto|]. by split_and!; try apply Hz.
  - intros (Ht & ? & Hz & Hw & -> & ->). do 3 (split; [done|]). exists []. by rewrite app_nil_r.
Qed.

Lemma completes_ended v t c :
  within hint (zlen v) -> zlen v <= limit ->
  completes v t [] c <-> last = None /\ lower hint <= zlen v /\ c = mkCollected v t.
Proof.
  intros Hw Hl. unfold completes. split.
  - intros (-> & Hz & _ & Hc). destruct t as [t|]; [destruct Hc as [_ ->]; simpl in *; split_and!; done || lia|].
    destruct Hc as (ds & Hf & Hd & _). destruct ds; [|done]. destruct c as [data [t|]]; [done|]. simpl in *.
    rewrite app_nil_r in Hd. subst. split_and!; done || lia.
  - intros (-> & Hz & ->). simpl. split_and!; try done. destruct t; [done|]. exists []. simpl. by rewrite app_nil_r.
Qed.

(** Either memory was refused, or the answer is [Ok] exactly of the body. *)
Definition decided (v : Vec) (P : Collected -> Prop) (r : result Collected (CollectError E)) : Prop :=
  vec_ok limit v /\
  (r = Err CollectAllocation /\ refused v \/ forall c, r = Ok c <-> P c).

Lemma decided_err v (P : Collected -> Prop) e : vec_ok limit v -> (forall c, ~ P c) -> decided v P (Err e).
Proof. intros Hv HP. split; [done|]. right. intros c. split; [done|]. by intros []%HP. Qed.

Lemma decided_iff v P Q r : (forall c, P c <-> Q c) -> decided v P r -> decided v Q r.
Proof. intros HP [Hv [?|Hr]]; split; eauto. right. intros c. by rewrite Hr. Qed.

Lemma collect_loop_ok frames : forall fuel w b v t budget,
  (length frames < fuel)%nat -> feeds b frames last -> vec_ok limit v -> within hint (zlen (vec_bytes v)) ->
  exists w' b' v' r, collect_loop fuel w b limit hint trailer v t budget = (w', b', v', Some (Returns r)) /\
    decided v' (completes (vec_bytes v) t frames) r.
Proof.
  induction frames as [|f frames IH]; intros [|fuel] w b v t budget Hf Hb Hv Hw; simpl in *; try lia.
  - destruct Hb as [b' ->]. destruct (budget_step budget w) as [budget' w'].
    destruct last as [e|] eqn:El; (do 4 eexists; split; [reflexivity|]).
    + apply decided_err; [done|]. intros c (? & _). congruence.
    + split; [done|]. right. intros c. rewrite completes_ended, El by (done || apply Hv).
      destruct (Z.ltb_spec (zlen (vec_bytes v)) (lower hint)); split; try done.
      * intros (_ & ? & _). lia.
      * by intros [= <-].
      * by intros (_ & _ & ->).
  - destruct Hb as (b' & -> & Hb). destruct (budget_step budget w) as [budget' w'].
    destruct f as [d|fields].
    + destruct (append _ _ _ _ _) as [v1 r1] eqn:Ea.
      apply append_ok in Ea as (res & -> & Hv1 & Hres); [|done..].
      destruct res as [[]|e].
      * destruct Hres as (Ht & Hd & Hw1). apply bool_decide_eq_false in Ht. destruct t as [t|]; [by destruct Ht|].
        rewrite <- Hd in Hw1. destruct (IH fuel w' (recycle b' d) v1 None budget') as (w2 & b2 & v2 & r & -> & Hr); [lia|done..|].
        do 4 eexists. split; [done|]. eapply decided_iff; [|exact Hr]. intros c. by rewrite Hd, completes_data.
      * do 4 eexists. split; [reflexivity|]. destruct Hres as [[-> Hr]|Hr]; [split; [done|]; by left|].
        apply decided_err; [done|]. intros c Hc. destruct t as [t|]; [by destruct Hc as (_ & _ & _ & ? & _)|].
        apply completes_too_long in Hc. destruct Hr as [?|[?|?]]; [done|lia|tauto].
    + destruct t as [t|]; simpl.
      * do 4 eexists. split; [reflexivity|]. apply decided_err; [done|]. by intros c (_ & _ & _ & ? & _).
      * case_bool_decide as Htr.
        -- do 4 eexists. split; [reflexivity|]. apply decided_err; [done|]. intros c [? _]%completes_trailers. done.
        -- destruct (IH fuel w' b' v (Some fields) budget') as (w2 & b2 & v2 & r & -> & Hr); [lia|done..|].
           do 4 eexists. split; [done|]. eapply decided_iff; [|exact Hr]. intros c. rewrite completes_trailers. tauto.
Qed.

End Loop.

(** C30: For every body that ends, collecting it ends, never panics and asks the
    allocator for no more than the limit. Unless the allocator refuses, it
    succeeds exactly when the body ended cleanly with data frames, at most one
    and then last trailers frame, payload within the limit and within the size
    the body announced, and trailers only if it announced them; what is collected
    is then exactly that payload and those trailers. *)
Theorem collect_exact (fuel : nat) (w : W) (b : B) (frames : list (Frame D)) (last : option E) limit hint trailer :
  is_usize limit -> hint_ok hint -> size_hint b = Returns hint -> trailer_hint b = Returns trailer ->
  feeds b frames last -> (length frames < fuel)%nat ->
  exists w' b' v r, collect fuel w b limit = (w', b', v, Some (Returns r)) /\
    Forall (fun n => 0 <= n <= limit) (vec_requests v) /\
    (r = Err CollectAllocation /\ refused v \/
     forall c, r = Ok c <-> holds_body limit hint trailer frames last c).
Proof.
  intros [Hl0 Hl] [Hlo Hup] Hs Ht Hb Hf. unfold collect. rewrite Hs, Ht.
  destruct (Z.ltb_spec limit (lower hint)).
  { do 4 eexists. split; [reflexivity|]. split; [constructor|]. right. intros c. split; [done|].
    intros (ds & _ & _ & _ & ? & _). lia. }
  assert (Hv0 : vec_ok limit Vec_new) by (split_and!; simpl; rewrite ?zlen_nil; [lia|lia|constructor]).
  assert (exists n, match exact hint with None => Ok 0 | Some length => if usize_max <? length then Err LengthOverflow else Ok length end
            = @Ok Z (CollectError E) n /\ 0 <= n <= limit) as (n & -> & Hn).
  { unfold exact, is_u64 in *. destruct (upper hint) as [u|]; [|by exists 0].
    destruct (Z.eqb_spec u (lower hint)); [|by exists 0].
    rewrite (proj2 (Z.ltb_ge usize_max u)) by lia. exists u. split; [done|lia]. }
  destruct (try_reserve_exact Vec_new n) as [v ok] eqn:Ev.
  apply (try_reserve_ok limit) in Ev as (Hvb & Hv & Hok); [|done|lia|by simpl; rewrite zlen_nil; lia].
  destruct ok; [|do 4 eexists; split; [reflexivity|]; split; [apply Hv|by left]].
  destruct (collect_loop_ok limit hint trailer last Hl frames fuel w b v None WorkBudget_new)
    as (w' & b' & v' & r & -> & (Hv' & Hr)); [done..| |].
  { rewrite Hvb. simpl. rewrite zlen_nil. intros u Hu. rewrite Hu in Hup. unfold is_u64 in *. lia. }
  do 4 eexists. split; [reflexivity|]. split; [apply Hv'|]. destruct Hr as [?|Hr]; [by left|right].
  intros c. rewrite Hr, Hvb. unfold completes, holds_body. simpl. split.
  - intros (-> & ? & ? & ds & ? & ? & ?). exists ds. by split_and!; try lia.
  - intros (ds & -> & ? & ? & ? & ? & ?). do 3 (split; [done|]). by exists ds.
Qed.

End Collect.

(** ** A concrete collection *)

#[local] Instance unit_runtime : Runtime unit := {|
  rt_yield w := w;
  rt_cancel_requested _ := false;
  operation_canceled := mkIoError IoInterrupted true false None;
|}.

#[local] Instance exact_vec : VecAllocator.
Proof. refine {| allocate n := Some n |}. intros n c [= ->]. lia. Defined.

#[local] Existing Instance AssocHttp.

Definition three : Full bytes := FullReady (bs "abc").

Lemma collect_exact_witness :
  exists w' b' v r, collect (W := unit) 2 tt three 5 = (w', b', v, Some (Returns r)) /\
    r = Ok (mkCollected (bs "abc") None).
Proof.
  destruct (collect_exact (W := unit) 2 tt three [DataFrame (bs "abc")] None 5 (with_exact 3) TrailersNone)
    as (w' & b' & v & r & E & _ & [[-> _]|Hr]);
    [unfold is_usize, usize_max; lia|unfold hint_ok, is_u64, u64_max; simpl; lia|done|done| |simpl; lia| |].
  - eexists. split; [reflexivity|]. eexists. reflexivity.
  - apply (f_equal (fun x => match snd x with Some (Returns (Ok _)) => true | _ => false end)) in E. discriminate E.
  - exists w', b', v, r. split; [exact E|]. apply Hr. exists [bs "abc"]. split_and!; try done.
    intros u [= <-]. done.
Defined.
