(* ===== verification/Streams.v ===== *)
(** Bodies over streams, streams over bodies and erased bodies
    (src/src/body/stream.rs and src/src/body/boxed.rs).

    As for [Body], an asynchronous [next] is its completed call. *)

From Stdlib Require Import ZArith Lia.
From stdpp Require Import base list option.
From S2P Require Import Prelude Http Errors Body Send.

(** [karmaio::io::Stream] *)
Class Stream (S I : Type) := next_item : S -> S * call (option I).

Fixpoint next_items {S I} `{Stream S I} (n : nat) (s : S) : list (call (option I)) :=
  match n with
  | O => []
  | Datatypes.S n => let '(s, r) := next_item s in r :: next_items n s
  end.

Definition transpose {A E} (o : option (result A E)) : result (option A) E :=
  match o with
  | None => Ok None
  | Some (Ok a) => Ok (Some a)
  | Some (Err e) => Err e
  end.

Definition untranspose {A E} (r : result (option A) E) : option (result A E) :=
  match r with
  | Ok None => None
  | Ok (Some a) => Some (Ok a)
  | Err e => Some (Err e)
  end.

Definition is_frame {A E} (r : result (option A) E) : bool := match r with Ok (Some _) => true | _ => false end.

(** ** A body over a stream of frames *)

Record StreamBody (S : Type) := mkStreamBody {
  sb_stream : S;
  sb_done : bool;
}.
Arguments mkStreamBody {S} _ _.
Arguments sb_stream {S} _.
Arguments sb_done {S} _.

Definition StreamBody_new {S} (stream : S) : StreamBody S := mkStreamBody stream false.

Section StreamBody.
Context {http : HttpCrate} {S D E : Type} `{!Stream S (result (Frame D) E)}.

Definition sb_next_frame (b : StreamBody S) : StreamBody S * call (result (option (Frame D)) E) :=
  if sb_done b then (b, Returns (Ok None))
  else
    let '(stream, r) := next_item (sb_stream b) in
    match r with
    | Panics => (mkStreamBody stream false, Panics)
    | Returns r => let r := transpose r in (mkStreamBody stream (negb (is_frame r)), Returns r)
    end.

#[export] Instance StreamBody_Body : Body (StreamBody S) D E := {
  next_frame := sb_next_frame;
  size_hint b := Returns (if sb_done b then with_exact 0 else SizeHint_new);
  trailer_hint b := Returns (if sb_done b then TrailersNone else TrailersMayHave);
  is_end_stream := sb_done;
  recycle b _ := b;
}.

End StreamBody.

(** ** Streams over a body *)

Record BodyStream (B : Type) := mkBodyStream {
  bs_body : B;
  bs_done : bool;
}.
Arguments mkBodyStream {B} _ _.
Arguments bs_body {B} _.
Arguments bs_done {B} _.

Definition BodyStream_new {B} (body : B) : BodyStream B := mkBodyStream body false.

Record BodyDataStream (B : Type) := mkBodyDataStream { bd_frames : BodyStream B }.
Arguments mkBodyDataStream {B} _.
Arguments bd_frames {B} _.

Definition BodyDataStream_new {B} (body : B) : BodyDataStream B := mkBodyDataStream (BodyStream_new body).

Section BodyStream.
Context {http : HttpCrate} {B D E : Type} `{!Body B D E}.

#[export] Instance BodyStream_Stream : Stream (BodyStream B) (result (Frame D) E) := fun s =>
  if bs_done s then (s, Returns None)
  else
    let '(body, r) := next_frame (bs_body s) in
    match r with
    | Panics => (mkBodyStream body false, Panics)
    | Returns r => (mkBodyStream body (negb (is_frame r)), Returns (untranspose r))
    end.

Context {W : Type} `{Runtime W}.

(** The [loop] of [next]; [None] is a model run out of turns. *)
Fixpoint data_loop (fuel : nat) (w : W) (s : BodyStream B) (budget : WorkBudget)
    : W * BodyStream B * option (call (option (result D E))) :=
  match fuel with
  | O => (w, s, None)
  | Datatypes.S fuel =>
      let '(budget, w) := budget_step budget w in
      let '(s, r) := next_item s in
      match r with
      | Panics => (w, s, Some Panics)
      | Returns None => (w, s, Some (Returns None))
      | Returns (Some (Err e)) => (w, s, Some (Returns (Some (Err e))))
      | Returns (Some (Ok (DataFrame d))) => (w, s, Some (Returns (Some (Ok d))))
      | Returns (Some (Ok (TrailersFrame _))) => data_loop fuel w s budget
      end
  end.

Definition data_next (fuel : nat) (w : W) (s : BodyDataStream B) : W * BodyDataStream B * option (call (option (result D E))) :=
  let '(w, frames, r) := data_loop fuel w (bd_frames s) WorkBudget_new in (w, mkBodyDataStream frames, r).

(** [n] successive calls. *)
Fixpoint data_items (fuel n : nat) (w : W) (s : BodyDataStream B) : list (option (call (option (result D E)))) :=
  match n with
  | O => []
  | Datatypes.S n => let '(w, s, r) := data_next fuel w s in r :: data_items fuel n w s
  end.

End BodyStream.

(** ** Erased bodies *)

Record BoxBody {http : HttpCrate} (D E : Type) := mkBoxBody {
  erased : Type;
  erased_body : Body erased D E;
  boxed : erased;
}.
Arguments mkBoxBody {http D E} _ _ _.
Arguments erased {http D E} _.
Arguments erased_body {http D E} _.
Arguments boxed {http D E} _.

Section BoxBody.
Context {http : HttpCrate} {D E : Type}.

Definition BoxBody_new {B} `{!Body B D E} (body : B) : BoxBody D E := mkBoxBody B _ body.

Definition box_next_frame (b : BoxBody D E) : BoxBody D E * call (result (option (Frame D)) E) :=
  match b with mkBoxBody T body x => let '(x, r) := next_frame (Body := body) x in (mkBoxBody T body x, r) end.

Definition box_recycle (b : BoxBody D E) (d : D) : BoxBody D E :=
  match b with mkBoxBody T body x => mkBoxBody T body (recycle (Body := body) x d) end.

#[export] Instance BoxBody_Body : Body (BoxBody D E) D E := {
  next_frame := box_next_frame;
  size_hint b := match b with mkBoxBody _ body x => size_hint (Body := body) x end;
  trailer_hint b := match b with mkBoxBody _ body x => trailer_hint (Body := body) x end;
  is_end_stream b := match b with mkBoxBody _ body x => is_end_stream (Body := body) x end;
  recycle := box_recycle;
}.

End BoxBody.

(** ** What the adapters answer *)

(** Answers cut at the first end or error. *)
Fixpoint fuse {A E} (l : list (call (result (option A) E))) : list (call (result (option A) E)) :=
  match l with
  | [] => []
  | Returns (Ok (Some a)) :: l => Returns (Ok (Some a)) :: fuse l
  | Returns r :: l => Returns r :: map (fun _ => Returns (Ok None)) l
  | Panics :: l => Panics :: fuse l
  end.

Lemma untranspose_transpose {A E} (o : option (result A E)) : untranspose (transpose o) = o.
Proof. by destruct o as [[|]|]. Qed.

Lemma transpose_untranspose {A E} (r : result (option A) E) : transpose (untranspose r) = r.
Proof. by destruct r as [[|]|]. Qed.

Lemma map_call_transpose {A E} (l : list (call (result (option A) E))) :
  map (map_call transpose) (map (map_call untranspose) l) = l.
Proof.
  rewrite map_map. rewrite <- (map_id l) at 2. apply map_ext. intros [r|]; simpl; [by rewrite transpose_untranspose|done].
Qed.

Lemma fuse_idemp {A E} (l : list (call (result (option A) E))) : fuse (fuse l) = fuse l.
Proof. induction l as [|[[[a|]|e]|] l IH]; simpl; f_equal; try done; rewrite map_map; done. Qed.

Section Answers.
Context {http : HttpCrate} {D E : Type}.

Lemma stream_body_done {S} `{!Stream S (result (Frame D) E)} n (s : S) :
  next_frames n (mkStreamBody s true) = repeat (Returns (Ok None)) n.
Proof. induction n as [|n IH]; simpl; [done|]. by rewrite IH. Qed.

Lemma stream_body_answers {S} `{!Stream S (result (Frame D) E)} n (s : S) :
  next_frames n (StreamBody_new s) = fuse (map (map_call transpose) (next_items n s)).
Proof.
  revert s. induction n as [|n IH]; intros s; simpl; [done|]. unfold sb_next_frame, StreamBody_new in *. simpl.
  destruct (next_item s) as [s1 [[[f|e]|]|]]; simpl; f_equal; try apply IH; rewrite stream_body_done;
    clear; revert s1; induction n as [|n IH]; intros s1; simpl; try done; destruct (next_item s1); simpl; by f_equal.
Qed.

Lemma body_stream_done {B} `{!Body B D E} n (b : B) : next_items n (mkBodyStream b true) = repeat (Returns None) n.
Proof. induction n as [|n IH]; simpl; [done|]. by rewrite IH. Qed.

Lemma body_stream_answers {B} `{!Body B D E} n (b : B) :
  next_items n (BodyStream_new b) = map (map_call untranspose) (fuse (next_frames n b)).
Proof.
  revert b. induction n as [|n IH]; intros b; simpl; [done|]. unfold BodyStream_new in *. unfold next_item at 1, BodyStream_Stream. simpl.
  destruct (next_frame b) as [b1 [[[f|]|e]|]]; simpl; (f_equal; []); try exact (IH b1).
  all: etransitivity; [apply body_stream_done|].
  all: clear; revert b1; induction n as [|n IH]; intros b1; simpl; try done; destruct (next_frame b1); simpl; by f_equal.
Qed.


(** An answer of the frame stream as one of the data stream; trailers are none. *)
Definition data_answer (r : call (option (result (Frame D) E))) : option (call (option (result D E))) :=
  match r with
  | Panics => Some Panics
  | Returns None => Some (Returns None)
  | Returns (Some (Err e)) => Some (Returns (Some (Err e)))
  | Returns (Some (Ok (DataFrame d))) => Some (Returns (Some (Ok d)))
  | Returns (Some (Ok (TrailersFrame _))) => None
  end.

Context {B W : Type} `{!Body B D E} `{Runtime W}.

Lemma data_loop_answers m fuel (w : W) (s : BodyStream B) budget x xs :
  (m <= fuel)%nat -> omap data_answer (next_items m s) = x :: xs ->
  exists w' s' m', (m' < m)%nat /\ data_loop fuel w s budget = (w', s', Some x) /\ omap data_answer (next_items m' s') = xs.
Proof.
  revert fuel w s budget. induction m as [|m IH]; intros fuel w s budget Hf Hx; [done|]. destruct fuel as [|fuel]; [lia|]. simpl in *.
  destruct (budget_step budget w) as [budget1 w1]. destruct (next_item s) as [s1 r]. simpl in Hx.
  destruct r as [[[[d|t]|e]|]|]; simpl in Hx; simplify_eq; try (exists w1, s1, m; split_and!; [lia|done..]).
  destruct (IH fuel w1 s1 budget1 ltac:(lia) Hx) as (w' & s' & m' & ? & ? & ?). exists w', s', m'. split_and!; [lia|done..].
Qed.

Lemma data_items_answers n m fuel (w : W) (s : BodyStream B) :
  (m <= fuel)%nat -> (n <= length (omap data_answer (next_items m s)))%nat ->
  data_items fuel n w (mkBodyDataStream s) = map Some (take n (omap data_answer (next_items m s))).
Proof.
  revert m w s. induction n as [|n IH]; intros m w s Hm Hn; [done|].
  destruct (omap data_answer (next_items m s)) as [|x xs] eqn:Hx; simpl in Hn; [lia|].
  destruct (data_loop_answers m fuel w s WorkBudget_new x xs Hm Hx) as (w1 & s1 & m1 & Hm1 & He & <-).
  simpl. unfold data_next. simpl. rewrite He. simpl. f_equal. apply IH; lia.
Qed.

(** A data stream yields exactly a body's payloads. Whatever the body
    answers, trailers are skipped and every payload, the first error and the end
    come out once and in order; a call answers within as many turns as the body
    has frames to give. *)
Theorem data_stream_exact n m fuel (w : W) (b : B) :
  let wanted := omap data_answer (map (map_call untranspose) (fuse (next_frames m b))) in
  (m <= fuel)%nat -> (n <= length wanted)%nat ->
  data_items fuel n w (BodyDataStream_new b) = map Some (take n wanted).
Proof.
  simpl. rewrite <- body_stream_answers. intros Hm Hn. by apply data_items_answers.
Qed.

End Answers.

(** ** Erasure *)

Section Erasure.
Context {http : HttpCrate} {D E : Type}.

Inductive BodyCall : Type :=
| CallNext
| CallRecycle (d : D)
| CallHints.

(** What a call shows of a body. *)
Inductive Shown : Type :=
| ShownFrame (r : call (result (option (Frame D)) E))
| ShownHints (size : call SizeHint) (trailers : call TrailerHint) (ended : bool).

Fixpoint shown {B} `{!Body B D E} (cs : list BodyCall) (b : B) : list Shown :=
  match cs with
  | [] => []
  | CallNext :: cs => let '(b, r) := next_frame b in ShownFrame r :: shown cs b
  | CallRecycle d :: cs => shown cs (recycle b d)
  | CallHints :: cs => ShownHints (size_hint b) (trailer_hint b) (is_end_stream b) :: shown cs b
  end.

(** Erasing a body cannot be observed. Any sequence of calls, recycling and
    metadata included, shows the same of an erased body and of the body inside. *)
Theorem box_transparent {B} `{!Body B D E} cs (b : B) : shown cs (BoxBody_new b) = shown cs b.
Proof.
  revert b. unfold BoxBody_new. induction cs as [|[|d|] cs IH]; intros b; simpl; [done| | |by f_equal].
  - destruct (next_frame b) as [b1 r]. simpl. by f_equal.
  - apply IH.
Qed.

End Erasure.

(** ** Evaluated *)

Section Evaluated.
#[local] Existing Instance AssocHttp.

#[local] Instance list_Stream {I} : Stream (list I) I := fun s =>
  match s with
  | [] => ([], Returns None)
  | x :: s => (s, Returns (Some x))
  end.

#[local] Instance unit_Runtime : Runtime unit := {
  rt_yield w := w;
  rt_cancel_requested _ := false;
  operation_canceled := mkIoError IoOther false true None;
}.

(** A payload, trailers and a late error, then more. *)
Definition late_error : list (result (Frame bytes) nat) :=
  [Ok (DataFrame (bs "a")); Ok (TrailersFrame []); Err 7%nat; Ok (DataFrame (bs "b"))].

Lemma data_stream_exact_witness :
  data_items 5 3 tt (BodyDataStream_new (StreamBody_new late_error)) =
    [Some (Returns (Some (Ok (bs "a")))); Some (Returns (Some (Err 7%nat))); Some (Returns None)].
Proof.
  etransitivity; [exact (data_stream_exact 3 5 5 tt (StreamBody_new late_error) ltac:(lia) ltac:(vm_compute; lia))|]. reflexivity.
Defined.

End Evaluated.
