(* ===== verification/Pipe.v ===== *)
(** The capacity-one body rendezvous (src/src/body/pipe.rs).

    A producer (the connection) and a consumer (the application's body) share a
    slot. Their operations are futures polled by an executor that may drop them
    at any time. [Shared] is the shared allocation, each poll and drop is a
    function on it, and [act] interleaves them the way Rust's borrow rules
    allow: an endpoint has at most one future, and is not finished or dropped
    while it has one. *)

From Stdlib Require Import ZArith Lia.
From stdpp Require Import base list option.
From S2P Require Import Prelude Body.

Section Pipe.
Context {T E : Type}.

(** ** The shared slot *)

Inductive State : Type :=
| Idle
| Demanded
| Offered (item : T)
| Closed
| Disconnected
| Failed (e : E)
| Abandoned (item : option T).

(** A waker is the identity of the task it wakes. *)
Definition Waker := nat.

Record Shared := mkShared {
  state : State;
  producer_waker : option Waker;
  consumer_waker : option Waker;
}.

Definition channel : Shared := mkShared Idle None None.

Definition set_state (s : Shared) (st : State) : Shared :=
  mkShared st (producer_waker s) (consumer_waker s).
Definition set_producer_waker (s : Shared) (w : option Waker) : Shared :=
  mkShared (state s) w (consumer_waker s).
Definition set_consumer_waker (s : Shared) (w : option Waker) : Shared :=
  mkShared (state s) (producer_waker s) w.

Definition replace_waker (slot : option Waker) (w : Waker) : option Waker :=
  match slot with
  | Some registered => if Nat.eqb registered w then slot else Some w
  | None => Some w
  end.

Inductive Poll (A : Type) : Type :=
| Ready (a : A)
| Pending.
Arguments Ready {A} a.
Arguments Pending {A}.

(** What an operation wakes: the producer's task, the consumer's task. *)
Record Wakes := mkWakes {
  wake_producer : option Waker;
  wake_consumer : option Waker;
}.
Definition no_wakes : Wakes := mkWakes None None.

(** ** Producer operations *)

Inductive DemandError := DemandAbandoned | DemandClosed.

Definition demand_poll (s : Shared) (w : Waker) : Shared * Poll (result unit DemandError) :=
  match state s with
  | Demanded => (s, Ready (Ok tt))
  | Idle => (set_producer_waker s (replace_waker (producer_waker s) w), Pending)
  | Abandoned _ => (s, Ready (Err DemandAbandoned))
  | Closed | Disconnected | Failed _ => (s, Ready (Err DemandClosed))
  | Offered _ => (s, Ready (Ok tt))
  end.

(** The [Drop] of [Demand] and of [Abandoned]. *)
Definition clear_producer_waker (s : Shared) : Shared := set_producer_waker s None.

Inductive OfferLifecycle : Type :=
| OfferPending (item : T)
| Submitted.

Inductive OfferError : Type :=
| OfferAbandoned (item : T)
| OfferClosed (item : T).

Definition offer_poll (s : Shared) (life : OfferLifecycle) (w : Waker)
    : Shared * OfferLifecycle * Wakes * call (Poll (result unit OfferError)) :=
  match life with
  | OfferPending item =>
      match state s with
      | Idle | Demanded =>
          let wake := consumer_waker s in
          (mkShared (Offered item) (replace_waker (producer_waker s) w) None, Submitted,
           mkWakes None wake, Returns Pending)
      | Abandoned _ => (s, Submitted, no_wakes, Returns (Ready (Err (OfferAbandoned item))))
      | Closed | Disconnected | Failed _ =>
          (s, Submitted, no_wakes, Returns (Ready (Err (OfferClosed item))))
      | Offered _ => (s, Submitted, no_wakes, Panics)
      end
  | Submitted =>
      match state s with
      | Offered _ =>
          (set_producer_waker s (replace_waker (producer_waker s) w), Submitted, no_wakes, Returns Pending)
      | Idle | Demanded => (s, Submitted, no_wakes, Returns (Ready (Ok tt)))
      | Abandoned (Some item) =>
          (set_state s (Abandoned None), Submitted, no_wakes, Returns (Ready (Err (OfferAbandoned item))))
      | Abandoned None => (s, Submitted, no_wakes, Returns (Ready (Ok tt)))
      | Closed | Disconnected | Failed _ => (s, Submitted, no_wakes, Panics)
      end
  end.

(** [Drop for Offer]: the item it lets go of, if any. *)
Definition offer_drop (s : Shared) (life : OfferLifecycle) : Shared * Wakes * option T :=
  let s := set_producer_waker s None in
  match life with
  | OfferPending item => (s, no_wakes, Some item)
  | Submitted =>
      match state s with
      | Offered item =>
          (set_consumer_waker (set_state s Idle) None, mkWakes None (consumer_waker s), Some item)
      | Abandoned item => (set_state s (Abandoned None), no_wakes, item)
      | _ => (s, no_wakes, None)
      end
  end.

Definition is_abandoned (s : Shared) : bool :=
  match state s with
  | Abandoned _ => true
  | _ => false
  end.

Definition abandoned_poll (s : Shared) (w : Waker) : Shared * Poll unit :=
  if is_abandoned s then (s, Ready tt)
  else (set_producer_waker s (replace_waker (producer_waker s) w), Pending).

(** [Producer::finish] of an active producer. *)
Definition finish (s : Shared) (terminal : State) : Shared * Wakes * call unit :=
  match state s with
  | Idle | Demanded =>
      (mkShared terminal (producer_waker s) None, mkWakes None (consumer_waker s), Returns tt)
  | Abandoned _ => (s, no_wakes, Returns tt)
  | Offered _ => (s, no_wakes, Panics)
  | Closed | Disconnected | Failed _ => (s, no_wakes, Returns tt)
  end.

(** ** Consumer operations *)

Inductive TakeError : Type :=
| TakeFailed (e : E)
| TakeDisconnected.

(** The boolean is the consumer's lifecycle becoming [Complete]. *)
Definition take_poll (s : Shared) (w : Waker)
    : Shared * Wakes * bool * call (Poll (result (option T) TakeError)) :=
  match state s with
  | Idle | Demanded =>
      (mkShared Demanded None (replace_waker (consumer_waker s) w), mkWakes (producer_waker s) None, false,
       Returns Pending)
  | Offered item =>
      (mkShared Idle None (consumer_waker s), mkWakes (producer_waker s) None, false,
       Returns (Ready (Ok (Some item))))
  | Closed => (s, no_wakes, true, Returns (Ready (Ok None)))
  | Failed e => (set_state s Closed, no_wakes, true, Returns (Ready (Err (TakeFailed e))))
  | Disconnected => (set_state s Closed, no_wakes, true, Returns (Ready (Err TakeDisconnected)))
  | Abandoned item => (s, no_wakes, false, Panics)
  end.

Definition clear_consumer_waker (s : Shared) : Shared := set_consumer_waker s None.

(** [Drop for Consumer] of an active consumer. *)
Definition consumer_drop (s : Shared) : Shared * Wakes :=
  match state s with
  | Closed | Disconnected | Failed _ => (s, no_wakes)
  | Offered item =>
      (mkShared (Abandoned (Some item)) None (consumer_waker s), mkWakes (producer_waker s) None)
  | Abandoned item => (mkShared (Abandoned item) None (consumer_waker s), mkWakes (producer_waker s) None)
  | Idle | Demanded => (mkShared (Abandoned None) None (consumer_waker s), mkWakes (producer_waker s) None)
  end.

(** ** Executions

    A future is new (never polled), waiting (its last poll was pending) or
    finished (its last poll was ready); in every case it is dropped before its
    endpoint is used again. *)

Inductive Status := New | Waiting | Finished.

Inductive ProducerFuture : Type :=
| DemandFuture (st : Status)
| OfferFuture (life : OfferLifecycle) (st : Status)
| AbandonedFuture (st : Status).

(** What became of an offered item. *)
Inductive Fate := Delivered | ReturnedAbandoned | ReturnedClosed | Dropped.

(** The system: the slot, the endpoints and their futures; [offered] and
    [fates] record history, [producer_woken] and [consumer_woken] whether the
    endpoint's task was woken since its future was last polled. *)
Record Sys := mkSys {
  shared : Shared;
  producer_gone : bool;
  consumer_gone : bool;
  consumer_complete : bool;
  producer_future : option ProducerFuture;
  consumer_future : option Status;
  producer_woken : bool;
  consumer_woken : bool;
  offered : list T;
  fates : list (T * Fate);
  panicked : bool;
}.

Definition start : Sys := mkSys channel false false false None None false false [] [] false.

Inductive Action : Type :=
| StartDemand
| PollDemand (w : Waker)
| StartOffer (item : T)
| PollOffer (w : Waker)
| StartAbandoned
| PollAbandoned (w : Waker)
| DropProducerFuture
| CloseProducer
| FailProducer (e : E)
| DropProducer
| StartTake
| PollTake (w : Waker)
| DropTake
| DropConsumer.

Definition with_shared (y : Sys) (s : Shared) (wk : Wakes) : Sys :=
  mkSys s (producer_gone y) (consumer_gone y) (consumer_complete y) (producer_future y) (consumer_future y)
    (producer_woken y || bool_decide (is_Some (wake_producer wk)))
    (consumer_woken y || bool_decide (is_Some (wake_consumer wk)))
    (offered y) (fates y) (panicked y).

Definition with_producer (y : Sys) (f : option ProducerFuture) (woken : bool) : Sys :=
  mkSys (shared y) (producer_gone y) (consumer_gone y) (consumer_complete y) f (consumer_future y)
    woken (consumer_woken y) (offered y) (fates y) (panicked y).

Definition with_consumer (y : Sys) (f : option Status) (woken complete : bool) : Sys :=
  mkSys (shared y) (producer_gone y) (consumer_gone y) complete (producer_future y) f
    (producer_woken y) woken (offered y) (fates y) (panicked y).

Definition with_fate (y : Sys) (f : list (T * Fate)) : Sys :=
  mkSys (shared y) (producer_gone y) (consumer_gone y) (consumer_complete y) (producer_future y)
    (consumer_future y) (producer_woken y) (consumer_woken y) (offered y) (fates y ++ f) (panicked y).

Definition panic (y : Sys) : Sys :=
  mkSys (shared y) (producer_gone y) (consumer_gone y) (consumer_complete y) (producer_future y)
    (consumer_future y) (producer_woken y) (consumer_woken y) (offered y) (fates y) true.

(** Finishing consumes the producer; the later [Drop] finds it complete. *)
Definition end_producer (y : Sys) (terminal : State) : Sys :=
  let '(s, wk, r) := finish (shared y) terminal in
  let y := with_shared y s wk in
  let y := mkSys (shared y) true (consumer_gone y) (consumer_complete y) None (consumer_future y)
             (producer_woken y) (consumer_woken y) (offered y) (fates y) (panicked y) in
  match r with
  | Returns _ => y
  | Panics => panic y
  end.

Definition producer_free (y : Sys) : bool :=
  negb (producer_gone y) && match producer_future y with None => true | Some _ => false end.
Definition consumer_free (y : Sys) : bool :=
  negb (consumer_gone y) && match consumer_future y with None => true | Some _ => false end.

Definition status_of {A} (p : Poll A) : Status :=
  match p with
  | Ready _ => Finished
  | Pending => Waiting
  end.

(** What the answer of an offer says about its item. *)
Definition offer_fate (r : Poll (result unit OfferError)) : list (T * Fate) :=
  match r with
  | Ready (Err (OfferAbandoned item)) => [(item, ReturnedAbandoned)]
  | Ready (Err (OfferClosed item)) => [(item, ReturnedClosed)]
  | _ => []
  end.

Definition act (y : Sys) (a : Action) : option Sys :=
  if panicked y then None
  else
    match a with
    | StartDemand => if producer_free y then Some (with_producer y (Some (DemandFuture New)) false) else None
    | PollDemand w =>
        match producer_future y with
        | Some (DemandFuture (New | Waiting)) =>
            let '(s, r) := demand_poll (shared y) w in
            Some (with_producer (with_shared y s no_wakes) (Some (DemandFuture (status_of r))) false)
        | _ => None
        end
    | StartOffer item =>
        if producer_free y then
          Some (mkSys (shared y) (producer_gone y) (consumer_gone y) (consumer_complete y)
                  (Some (OfferFuture (OfferPending item) New)) (consumer_future y) false (consumer_woken y)
                  (offered y ++ [item]) (fates y) (panicked y))
        else None
    | PollOffer w =>
        match producer_future y with
        | Some (OfferFuture life (New | Waiting)) =>
            let '(s, life, wk, r) := offer_poll (shared y) life w in
            match r with
            | Returns r =>
                Some (with_producer (with_fate (with_shared y s wk) (offer_fate r))
                        (Some (OfferFuture life (status_of r))) false)
            | Panics => Some (panic y)
            end
        | _ => None
        end
    | StartAbandoned => if producer_free y then Some (with_producer y (Some (AbandonedFuture New)) false) else None
    | PollAbandoned w =>
        match producer_future y with
        | Some (AbandonedFuture (New | Waiting)) =>
            let '(s, r) := abandoned_poll (shared y) w in
            Some (with_producer (with_shared y s no_wakes) (Some (AbandonedFuture (status_of r))) false)
        | _ => None
        end
    | DropProducerFuture =>
        match producer_future y with
        | Some (DemandFuture _) | Some (AbandonedFuture _) =>
            Some (with_producer (with_shared y (clear_producer_waker (shared y)) no_wakes) None false)
        | Some (OfferFuture life _) =>
            let '(s, wk, item) := offer_drop (shared y) life in
            let y := with_producer (with_shared y s wk) None false in
            Some (match item with Some i => with_fate y [(i, Dropped)] | None => y end)
        | None => None
        end
    | CloseProducer => if producer_free y then Some (end_producer y Closed) else None
    | FailProducer e => if producer_free y then Some (end_producer y (Failed e)) else None
    | DropProducer => if producer_free y then Some (end_producer y Disconnected) else None
    | StartTake => if consumer_free y then Some (with_consumer y (Some New) false (consumer_complete y)) else None
    | PollTake w =>
        match consumer_future y with
        | Some (New | Waiting) =>
            let '(s, wk, complete, r) := take_poll (shared y) w in
            match r with
            | Returns r =>
                let y := with_consumer (with_shared y s wk) (Some (status_of r)) false (consumer_complete y || complete) in
                Some (match r with Ready (Ok (Some item)) => with_fate y [(item, Delivered)] | _ => y end)
            | Panics => Some (panic y)
            end
        | _ => None
        end
    | DropTake =>
        match consumer_future y with
        | Some _ =>
            Some (with_consumer (with_shared y (clear_consumer_waker (shared y)) no_wakes) None false
                    (consumer_complete y))
        | None => None
        end
    | DropConsumer =>
        if consumer_free y then
          let '(s, wk) := if consumer_complete y then (shared y, no_wakes) else consumer_drop (shared y) in
          let y := with_shared y s wk in
          Some (mkSys (shared y) (producer_gone y) true (consumer_complete y) (producer_future y) None
                  (producer_woken y) (consumer_woken y) (offered y) (fates y) (panicked y))
        else None
    end.

(** The systems some interleaving reaches. *)
Inductive reachable : Sys -> Prop :=
| reach_start : reachable start
| reach_act y a y' : reachable y -> act y a = Some y' -> reachable y'.

End Pipe.
Arguments Sys : clear implicits.
Arguments Action : clear implicits.
Arguments State : clear implicits.
Arguments Ready {A} a.
Arguments Pending {A}.

(** * Safety, conservation and wakeups *)

Section PipeTheorems.
Context {T E : Type}.
Implicit Types (y : Sys T E) (st : State T E).

(** The item the slot holds. *)
Definition slot st : option T :=
  match st with
  | Offered i => Some i
  | Abandoned o => o
  | _ => None
  end.

Definition terminal st : Prop :=
  match st with
  | Closed | Disconnected | Failed _ => True
  | _ => False
  end.

(** The items still on their way, in a pending offer or in the slot. *)
Definition in_flight y : list T :=
  match producer_future y with
  | Some (OfferFuture (OfferPending i) _) => [i]
  | Some (OfferFuture Submitted _) => option_list (slot (state (shared y)))
  | _ => []
  end.

(** Who may hold an item: only a submitted, unfinished offer has one in the
    slot. *)
Definition slot_owned y : Prop :=
  match producer_future y with
  | Some (OfferFuture (OfferPending _) s) => s = New /\ slot (state (shared y)) = None
  | Some (OfferFuture Submitted s) => s <> New /\ (s = Finished -> slot (state (shared y)) = None)
  | _ => slot (state (shared y)) = None
  end.

(** A waiting future is registered for what it waits on, or was woken. *)
Definition consumer_wake_ok y : Prop :=
  consumer_future y = Some Waiting ->
  consumer_woken y = true \/
  (is_Some (consumer_waker (shared y)) /\ (state (shared y) = Idle \/ state (shared y) = Demanded)).

Definition producer_wake_ok y : Prop :=
  match producer_future y with
  | Some (DemandFuture Waiting) =>
      producer_woken y = true \/ (is_Some (producer_waker (shared y)) /\ state (shared y) = Idle)
  | Some (OfferFuture _ Waiting) =>
      producer_woken y = true \/
      (is_Some (producer_waker (shared y)) /\ exists i, state (shared y) = Offered i)
  | Some (AbandonedFuture Waiting) =>
      producer_woken y = true \/ (is_Some (producer_waker (shared y)) /\ is_abandoned (shared y) = false)
  | _ => True
  end.

Record pipe_inv y : Prop := {
  inv_no_panic : panicked y = false;
  inv_abandoned : is_abandoned (shared y) = true -> consumer_gone y = true;
  inv_consumer_gone : consumer_gone y = true -> consumer_future y = None;
  inv_producer_gone : producer_gone y = true -> producer_future y = None;
  inv_terminal : terminal (state (shared y)) -> producer_gone y = true;
  inv_slot : slot_owned y;
  inv_items : offered y = map fst (fates y) ++ in_flight y;
  inv_consumer_wake : consumer_wake_ok y;
  inv_producer_wake : producer_wake_ok y;
}.

Lemma replace_waker_some o w : is_Some (replace_waker o w).
Proof. destruct o as [r|]; simpl; [destruct (Nat.eqb r w)|]; eauto. Qed.

Lemma pipe_inv_start : pipe_inv start.
Proof. by split. Qed.

Lemma bool_is_Some {A} (o : option A) : bool_decide (is_Some o) = match o with Some _ => true | None => false end.
Proof. destruct o; [by apply bool_decide_eq_true; eauto | apply bool_decide_eq_false; intros [? ?]; done]. Qed.

(** Unfolds an action and the invariant around it. *)
Ltac pipe_open y :=
  let st := fresh "st" in let pw := fresh "pw" in let cw := fresh "cw" in
  destruct y as [[st pw cw] pg cg cc pf cf pwk cwk off ft pan];
  intros [H1 H2 H3 H4 H5 H6 H7 H8 H9];
  unfold slot_owned, in_flight, consumer_wake_ok, producer_wake_ok, is_abandoned in *;
  cbn in *; subst pan off; unfold producer_free, consumer_free; cbn.

Ltac pipe_close :=
  split; unfold slot_owned, in_flight, consumer_wake_ok, producer_wake_ok, is_abandoned in *; cbn in *;
  rewrite ?map_app, ?app_nil_r, ?orb_true_r, ?orb_false_r, ?bool_is_Some in *;
  eauto 6 using replace_waker_some; try done; try (intros; simplify_eq; done);
  try (let G := fresh in intros G; match goal with H : _ = true -> Some _ = None |- _ => discriminate (H G) end);
  try (let G := fresh in intros G;
       match goal with H : _ = Some Waiting -> _ |- _ =>
         destruct (H G) as [->|[[? ->] [?|?]]]; simplify_eq/=; rewrite ?orb_true_r; by eauto 6
       end);
  try (match goal with H : _ \/ (is_Some _ /\ _) |- _ =>
         destruct H as [->|[[? ->] ?]]; simplify_eq/=; rewrite ?orb_true_r; by eauto 6
       end).

Lemma start_future_inv y f :
  pipe_inv y -> (f = DemandFuture New \/ f = AbandonedFuture New) -> producer_free y = true ->
  pipe_inv (with_producer y (Some f) false).
Proof.
  pipe_open y. intros Hf Hp. destruct pg; [done|]. destruct pf; [done|].
  destruct Hf as [-> | ->]; pipe_close.
Qed.

Lemma poll_demand_inv y w y' : pipe_inv y -> act y (PollDemand w) = Some y' -> pipe_inv y'.
Proof.
  pipe_open y. intros Ha. destruct pf as [[s|l s|s]|]; try done.
  destruct s; try done; destruct st; simplify_eq/=; pipe_close.
Qed.

Lemma start_offer_inv y i y' : pipe_inv y -> act y (StartOffer i) = Some y' -> pipe_inv y'.
Proof.
  pipe_open y. intros Ha. destruct pg; [done|]. destruct pf; [done|]. simplify_eq/=. pipe_close.
Qed.

Lemma poll_offer_inv y w y' : pipe_inv y -> act y (PollOffer w) = Some y' -> pipe_inv y'.
Proof.
  pipe_open y. intros Ha. destruct pf as [[s|l s|s]|]; try done.
  destruct l as [i|].
  - destruct H6 as [-> Hs]. destruct st; simplify_eq/=; try (by discriminate (H4 (H5 I))); pipe_close.
  - destruct H6 as [Hs Hf]. destruct s; try done. destruct st as [| |i| | |e|[i|]]; simplify_eq/=;
      try (by discriminate (H4 (H5 I))); pipe_close.
Qed.

Lemma poll_abandoned_inv y w y' : pipe_inv y -> act y (PollAbandoned w) = Some y' -> pipe_inv y'.
Proof.
  pipe_open y. intros Ha. destruct pf as [[s|l s|s]|]; try done.
  destruct s; try done; destruct st; simplify_eq/=; pipe_close.
Qed.

Lemma drop_producer_future_inv y y' : pipe_inv y -> act y DropProducerFuture = Some y' -> pipe_inv y'.
Proof.
  pipe_open y. intros Ha. destruct pf as [[s|l s|s]|]; [simplify_eq/=; pipe_close| |simplify_eq/=; pipe_close|done].
  destruct l as [i|].
  - destruct H6 as [-> Hs]. simplify_eq/=. pipe_close.
  - destruct H6 as [Hs Hf]. destruct st as [| |i| | |e|[i|]]; simplify_eq/=; pipe_close.
Qed.

Lemma end_producer_inv y st :
  pipe_inv y -> terminal st -> producer_free y = true -> pipe_inv (end_producer y st).
Proof.
  pipe_open y. intros Ht Hp. destruct pg; [done|]. destruct pf; [done|].
  destruct st0; simplify_eq/=; destruct st; try done; pipe_close.
Qed.

Lemma start_take_inv y y' : pipe_inv y -> act y StartTake = Some y' -> pipe_inv y'.
Proof.
  pipe_open y. intros Ha. destruct cg; [done|]. destruct cf; [done|]. simplify_eq/=. pipe_close.
Qed.

Lemma poll_take_inv y w y' : pipe_inv y -> act y (PollTake w) = Some y' -> pipe_inv y'.
Proof.
  pipe_open y. intros Ha. assert (cg = false) as -> by (destruct cg; [by rewrite H3 in Ha | done]).
  destruct cf as [[]|]; try done; destruct st as [| |i| | |e|[i|]]; simplify_eq/=; try (by specialize (H2 eq_refl));
    destruct pf as [[[]|[?|] []|[]]|]; destruct_and?; simplify_eq/=; try done;
    try (by discriminate (H4 (H5 I))); pipe_close.
Qed.

Lemma drop_take_inv y y' : pipe_inv y -> act y DropTake = Some y' -> pipe_inv y'.
Proof. pipe_open y. intros Ha. destruct cf; [|done]. simplify_eq/=. pipe_close. Qed.

Lemma drop_consumer_inv y y' : pipe_inv y -> act y DropConsumer = Some y' -> pipe_inv y'.
Proof.
  pipe_open y. intros Ha. destruct cg; [done|]. destruct cf; [done|].
  destruct cc, st as [| |i| | |e|[i|]]; simplify_eq/=;
    destruct pf as [[[]|[?|] []|[]]|]; destruct_and?; simplify_eq/=; try done;
    try (by discriminate (H4 (H5 I))); pipe_close.
Qed.

Lemma pipe_act_inv y a y' : pipe_inv y -> act y a = Some y' -> pipe_inv y'.
Proof.
  intros Hi Ha. destruct a.
  2: by eapply poll_demand_inv.
  2: by eapply start_offer_inv.
  2: by eapply poll_offer_inv.
  3: by eapply poll_abandoned_inv.
  3: by eapply drop_producer_future_inv.
  6: by eapply start_take_inv.
  6: by eapply poll_take_inv.
  6: by eapply drop_take_inv.
  6: by eapply drop_consumer_inv.
  all: unfold act in Ha; rewrite (inv_no_panic _ Hi) in Ha; destruct (producer_free y) eqn:Hp; [|done];
    injection Ha as <-.
  1-2: by apply start_future_inv; auto.
  all: by apply end_producer_inv.
Qed.

Lemma reachable_inv y : reachable y -> pipe_inv y.
Proof. induction 1; [apply pipe_inv_start | by eapply pipe_act_inv]. Qed.

(** No interleaving of polls, cancellations, closes and drops of the two
    endpoints reaches one of the pipe's [unreachable!] branches. *)
Theorem pipe_never_panics y : reachable y -> panicked y = false.
Proof. intros H%reachable_inv. apply H. Qed.

(** C23: Items are conserved: in every interleaving the items offered so far
    are, in order and each exactly once, those whose fate is settled
    (delivered, returned to the producer or dropped) followed by the at most
    one still in flight. Nothing is lost, duplicated or reordered. *)
Theorem pipe_conserves_items y :
  reachable y -> offered y = map fst (fates y) ++ in_flight y /\ (length (in_flight y) <= 1)%nat.
Proof.
  intros H%reachable_inv. split; [apply H|]. unfold in_flight.
  destruct (producer_future y) as [[|[]|]|]; simpl; try lia. destruct (slot _); simpl; lia.
Qed.

(** C22: No wakeup is lost. Whenever a waiting take could now make progress (an
    item, the end or an error is there), the consumer's task has been woken
    since it last polled; whenever a waiting demand, offer or abandonment wait
    could make progress, the producer's task has. *)
Theorem pipe_no_lost_wakeup y :
  reachable y ->
  (consumer_future y = Some Waiting ->
   state (shared y) <> Idle -> state (shared y) <> Demanded -> consumer_woken y = true) /\
  (producer_future y = Some (DemandFuture Waiting) -> state (shared y) <> Idle -> producer_woken y = true) /\
  (producer_future y = Some (OfferFuture Submitted Waiting) ->
   (forall i, state (shared y) <> Offered i) -> producer_woken y = true) /\
  (producer_future y = Some (AbandonedFuture Waiting) ->
   is_abandoned (shared y) = true -> producer_woken y = true).
Proof.
  intros Hr%reachable_inv. pose proof (inv_consumer_wake _ Hr) as Hc. pose proof (inv_producer_wake _ Hr) as Hp.
  unfold consumer_wake_ok, producer_wake_ok in *. split_and!.
  - intros Hf H1 H2. destruct (Hc Hf) as [|[_ [|]]]; done.
  - intros Hf H1. rewrite Hf in Hp. destruct Hp as [|[_ ?]]; done.
  - intros Hf H1. rewrite Hf in Hp. destruct Hp as [|[_ [i ?]]]; [done|]. by apply H1 in H.
  - intros Hf H1. rewrite Hf in Hp. destruct Hp as [|[_ ?]]; congruence.
Qed.

(** A submitted offer that still waits but whose item left the slot was
    delivered. *)
Definition offer_settled y : Prop :=
  producer_future y = Some (OfferFuture Submitted Waiting) -> slot (state (shared y)) = None ->
  exists fs i, fates y = fs ++ [(i, Delivered)].

Lemma act_offer_settled y a y' :
  pipe_inv y -> offer_settled y -> act y a = Some y' -> offer_settled y'.
Proof.
  unfold offer_settled. pipe_open y. intros Hs Ha.
  destruct a; cbn in Ha; unfold producer_free, consumer_free, end_producer in Ha; cbn in Ha;
    repeat (case_match; simplify_eq/=; try done); rewrite ?app_nil_r; eauto 3;
    intros; simplify_eq/=; eauto 3.
  all: unfold consumer_drop in *; simplify_eq/=; eauto.
Qed.

Lemma reachable_offer_settled y : reachable y -> offer_settled y.
Proof. induction 1; [done|]. eauto using act_offer_settled, reachable_inv. Qed.

(** An offer's answer tells the truth about its item. Polling a submitted
    offer in any reachable interleaving never panics; it answers success only
    when its item, the last one offered, was delivered to the consumer; an
    error hands back exactly that item, whose fate was still open; and it waits
    only while the item is in the slot. *)
Theorem offer_answer_truthful y w :
  reachable y -> producer_future y = Some (OfferFuture Submitted Waiting) ->
  exists s life wk r, offer_poll (shared y) Submitted w = (s, life, wk, Returns r) /\
    match r with
    | Ready (Ok _) => exists before i, offered y = before ++ [i] /\ exists fs, fates y = fs ++ [(i, Delivered)]
    | Ready (Err (OfferAbandoned i)) => offered y = map fst (fates y) ++ [i] /\ consumer_gone y = true
    | Ready (Err (OfferClosed _)) => False
    | Pending => exists i, offered y = map fst (fates y) ++ [i] /\ state (shared y) = Offered i
    end.
Proof.
  intros Hr Hf. pose proof (reachable_offer_settled _ Hr Hf) as Hs. apply reachable_inv in Hr.
  destruct Hr as [_ Hab _ Hpg Ht _ Hi _ _]. unfold in_flight in Hi. rewrite Hf in Hi, Hpg.
  unfold offer_poll, is_abandoned in *.
  assert (Hd : forall fs i, fates y = fs ++ [(i, Delivered)] -> slot (state (shared y)) = None ->
    exists before i, offered y = before ++ [i] /\ exists fs, fates y = fs ++ [(i, Delivered)]).
  { intros fs i Hfs Hn. exists (map fst fs), i. rewrite Hn, app_nil_r in Hi. rewrite Hi, Hfs, map_app. eauto. }
  destruct (state (shared y)) as [| |i| | |e|[i|]]; simpl in *;
    try (by discriminate (Hpg (Ht I))); do 4 eexists; (split; [done|]); simpl; eauto.
  all: destruct (Hs eq_refl) as (fs & i & Hfs); eauto.
Qed.

End PipeTheorems.

(** ** A run: one item taken, the next abandoned *)

Definition run (y : Sys nat unit) (l : list (Action nat unit)) : option (Sys nat unit) :=
  foldl (fun o a => match o with Some y => act y a | None => None end) (Some y) l.

Lemma run_reachable l y : run start l = Some y -> reachable y.
Proof.
  unfold run. revert y. induction l as [|a l IH] using rev_ind; intros y; simpl.
  - intros [= <-]. constructor.
  - rewrite foldl_app. simpl. destruct (foldl _ _ l) eqn:Hf; [|done]. intros Ha. by eapply reach_act; eauto.
Qed.

(** The consumer takes 7; 8 is offered and the consumer is dropped while the
    offer waits. *)
Definition abandoned_run : list (Action nat unit) :=
  [StartTake; PollTake 1%nat; StartDemand; PollDemand 2%nat; DropProducerFuture;
   StartOffer 7%nat; PollOffer 2%nat; PollTake 1%nat; PollOffer 2%nat; DropProducerFuture; DropTake;
   StartOffer 8%nat; PollOffer 2%nat; DropConsumer].

Definition abandoned_sys : Sys nat unit := Eval vm_compute in default start (run start abandoned_run).

Lemma abandoned_sys_reachable : reachable abandoned_sys.
Proof. apply (run_reachable abandoned_run). vm_compute. reflexivity. Qed.

Lemma pipe_never_panics_witness : panicked abandoned_sys = false.
Proof. apply (pipe_never_panics abandoned_sys). apply abandoned_sys_reachable. Defined.

Lemma pipe_conserves_items_witness :
  offered abandoned_sys = [7%nat; 8%nat] /\ fates abandoned_sys = [(7%nat, Delivered)] /\
  offered abandoned_sys = map fst (fates abandoned_sys) ++ in_flight abandoned_sys.
Proof.
  split; [reflexivity | split; [reflexivity|]].
  apply (pipe_conserves_items abandoned_sys). apply abandoned_sys_reachable.
Defined.

Lemma pipe_no_lost_wakeup_witness : producer_woken abandoned_sys = true.
Proof.
  destruct (pipe_no_lost_wakeup abandoned_sys abandoned_sys_reachable) as (_ & _ & H & _).
  apply H; [reflexivity | discriminate].
Defined.

Lemma offer_answer_truthful_witness :
  exists s life wk r, offer_poll (shared abandoned_sys) Submitted 2%nat = (s, life, wk, Returns r) /\
    match r with
    | Ready (Ok _) => exists before i, offered abandoned_sys = before ++ [i] /\
        exists fs, fates abandoned_sys = fs ++ [(i, Delivered)]
    | Ready (Err (OfferAbandoned i)) =>
        offered abandoned_sys = map fst (fates abandoned_sys) ++ [i] /\ consumer_gone abandoned_sys = true
    | Ready (Err (OfferClosed _)) => False
    | Pending => exists i, offered abandoned_sys = map fst (fates abandoned_sys) ++ [i] /\
        state (shared abandoned_sys) = Offered i
    end.
Proof. apply (offer_answer_truthful abandoned_sys); [apply abandoned_sys_reachable | reflexivity]. Defined.
