(* ===== verification/Future.v ===== *)
(** Futures polled by hand and the two combinators of src/src/future.rs.

    A future is a state with a poll; [S] is what it shares with the other
    futures of its task. [suspend] is what the rest of the program does while
    the task waits. *)

From Stdlib Require Import ZArith Lia.
From stdpp Require Import base list option.
From S2P Require Import Prelude Pipe.

Class Future (F S A : Type) := poll : F -> S -> F * S * Poll A.

Class Suspends (S : Type) := suspend : S -> S.

(** Polling to completion; [None] is a model run out of polls. *)
Fixpoint await {F S A} `{Future F S A} `{Suspends S} (fuel : nat) (f : F) (s : S) : F * S * option A :=
  match fuel with
  | O => (f, s, None)
  | Datatypes.S fuel =>
      let '(f, s, r) := poll f s in
      match r with
      | Ready a => (f, s, Some a)
      | Pending => await fuel f (suspend s)
      end
  end.

(** A future that answers within [n] polls, whatever happens around it. *)
Fixpoint ready_within {F S A} `{Future F S A} (n : nat) (f : F) : Prop :=
  match n with
  | O => False
  | Datatypes.S n => forall s, match poll f s with (f', _, Pending) => ready_within n f' | (_, _, Ready _) => True end
  end.

(** [f] answers [a] and leaves [e], whatever else happens between its polls. *)
Inductive answers {F S A} `{Future F S A} : F -> S -> A -> Prop :=
| answers_now f s f' e a : poll f s = (f', e, Ready a) -> answers f e a
| answers_later f s f' s' e a : poll f s = (f', s', Pending) -> answers f' e a -> answers f e a.

Section Await.
Context {F S A : Type} `{Future F S A} `{Suspends S}.

Lemma await_answers n f s f' s' a : await n f s = (f', s', Some a) -> answers f s' a.
Proof.
  revert f s. induction n as [|n IH]; intros f s; simpl; [done|].
  destruct (poll f s) as [[f1 s1] [b|]] eqn:E; [intros [= _ <- <-]; by eapply answers_now|].
  intros Hr. eapply answers_later; [exact E|by eapply IH].
Qed.

Lemma ready_within_S n f : ready_within n f -> ready_within (Datatypes.S n) f.
Proof.
  revert f. induction n as [|n IH]; intros f; [done|]. intros Hf s. specialize (Hf s).
  destruct (poll f s) as [[f' s'] [a|]]; [done|]. by apply IH.
Qed.

Lemma ready_within_le n m f : (n <= m)%nat -> ready_within n f -> ready_within m f.
Proof. induction 1; [done|]. intros. by apply ready_within_S, IHle. Qed.

Lemma await_ready n f s : ready_within n f -> is_Some (snd (await n f s)).
Proof.
  revert f s. induction n as [|n IH]; intros f s; [done|]. intros Hf. simpl. specialize (Hf s).
  destruct (poll f s) as [[f' s'] [a|]]; [by eexists|]. by apply IH.
Qed.

End Await.

(** ** [race] *)

Inductive Race (A B : Type) : Type :=
| First (a : A)
| Second (b : B).
Arguments First {A B} a.
Arguments Second {A B} b.

Section Race.
Context {F G S A B : Type} `{Future F S A} `{Future G S B}.

(** The future [race] returns borrows both of its arguments. *)
#[export] Instance race : Future (F * G) S (Race A B) := fun fg s =>
  let '(f, s, r) := poll (fst fg) s in
  match r with
  | Ready a => ((f, snd fg), s, Ready (First a))
  | Pending =>
      let '(g, s, r) := poll (snd fg) s in
      ((f, g), s, match r with Ready b => Ready (Second b) | Pending => Pending end)
  end.

Lemma race_first f g s f' s' a :
  poll f s = (f', s', Ready a) -> poll (f, g) s = ((f', g), s', Ready (First a)).
Proof. intros Hf. unfold poll, race. simpl. by rewrite Hf. Qed.

Lemma race_second f g s f' s' g' s'' b :
  poll f s = (f', s', Pending) -> poll g s' = (g', s'', Ready b) -> poll (f, g) s = ((f', g'), s'', Ready (Second b)).
Proof. intros Hf Hg. unfold poll, race. simpl. by rewrite Hf, Hg. Qed.

Lemma race_ready n f g : ready_within n f \/ ready_within n g -> ready_within (F := F * G) n (f, g).
Proof.
  revert f g. induction n as [|n IH]; intros f g; [by intros [|]|]. intros Hr s. unfold poll, race. simpl.
  destruct (poll f s) as [[f' s'] [a|]] eqn:Ef; [done|].
  destruct (poll g s') as [[g' s''] [b|]] eqn:Eg; [done|]. apply IH. destruct Hr as [Hf|Hg].
  - left. specialize (Hf s). by rewrite Ef in Hf.
  - right. specialize (Hg s'). by rewrite Eg in Hg.
Qed.

End Race.

(** ** [cancellable_wait]

    [token] is the token's cancellation, [None] when the caller has none; a
    canceled wait drops its future. *)

Section CancellableWait.
Context {F S A : Type} `{Future F S A} (token : option (S -> bool)).

Inductive Waiting : Type :=
| Waits (f : F)
| WaitDropped.

#[local] Instance cancelled : Future unit S unit := fun u s =>
  (u, s, match token with Some canceled => if canceled s then Ready tt else Pending | None => Pending end).

#[local] Instance cancellable_wait : Future Waiting S (option A) := fun f s =>
  match f with
  | WaitDropped => (WaitDropped, s, Pending)
  | Waits f =>
      match token with
      | None =>
          let '(f, s, r) := poll f s in
          match r with Ready a => (WaitDropped, s, Ready (Some a)) | Pending => (Waits f, s, Pending) end
      | Some _ =>
          let '(uf, s, r) := poll (tt, f) s in
          match r with
          | Ready (First _) => (WaitDropped, s, Ready None)
          | Ready (Second a) => (WaitDropped, s, Ready (Some a))
          | Pending => (Waits (snd uf), s, Pending)
          end
      end
  end.

(** A cancellation that is there wins over a future that is ready. *)
Lemma cancellable_wait_poll f s :
  poll (Waits f) s =
  if match token with Some canceled => canceled s | None => false end then (WaitDropped, s, Ready None)
  else match poll f s with
       | (f', s', Ready a) => (WaitDropped, s', Ready (Some a))
       | (f', s', Pending) => (Waits f', s', Pending)
       end.
Proof.
  unfold poll at 1, cancellable_wait. destruct token as [c|] eqn:Et; [|done].
  unfold poll at 1, race. simpl. unfold poll at 1, cancelled. rewrite Et. destruct (c s); [done|].
  unfold poll. by destruct (H f s) as [[f' s'] [a|]].
Qed.

End CancellableWait.
Arguments Waiting : clear implicits.

(** ** Futures that answer after a number of polls, for evaluation *)

Definition Delayed (A : Type) : Type := nat * A.

#[local] Instance delayed {S A} : Future (Delayed A) S A := fun f s =>
  match f with
  | (O, a) => (f, s, Ready a)
  | (Datatypes.S n, a) => ((n, a), s, Pending)
  end.

Lemma delayed_ready {S A} n (a : A) : ready_within (S := S) (Datatypes.S n) ((n, a) : Delayed A).
Proof. induction n as [|n IH]; intros s; [done|]. exact IH. Qed.

Lemma delayed_answers {S A} n (a : A) (s : S) : answers ((n, a) : Delayed A) s a.
Proof. induction n as [|n IH]; [by eapply (answers_now _ s)|]. eapply (answers_later _ s); [reflexivity|exact IH]. Qed.

(** ** Activities *)

(** A program answers and changes what it shares; [None]: it does not end. *)
Class Program (P S A : Type) := run_program : P -> S -> S * option A.

Section Activity.
Context {P S A : Type} `{!Program P S A}.

Inductive Activity : Type :=
| Before (n m : nat) (program : P)
| After (m : nat) (a : A)
| Stuck.

Definition observe_after (m : nat) (a : A) (s : S) : Activity * S * Poll A :=
  match m with
  | O => (Stuck, s, Ready a)
  | Datatypes.S m => (After m a, s, Pending)
  end.

#[export] Instance activity : Future Activity S A := fun x s =>
  match x with
  | Before (Datatypes.S n) m program => (Before n m program, s, Pending)
  | Before O m program =>
      let '(s, r) := run_program program s in
      match r with
      | None => (Stuck, s, Pending)
      | Some a => observe_after m a s
      end
  | After m a => observe_after m a s
  | Stuck => (Stuck, s, Pending)
  end.

(** What a program leaves alone its activity leaves alone. *)
Lemma activity_keeps {V} (view : S -> V) x s :
  (forall program s, view (fst (run_program program s)) = view s) -> view (snd (fst (poll x s))) = view s.
Proof.
  intros Hp. destruct x as [[|n] m program|[|m] a|]; simpl; try done.
  pose proof (Hp program s) as E. unfold poll. simpl. destruct (run_program program s) as [s1 [a|]]; simpl in *; [|done]. by destruct m.
Qed.

End Activity.
Arguments Activity : clear implicits.
