(* ===== verification/Incoming.v ===== *)
(** Received bodies (src/src/body/incoming.rs): payload views, the drain
    budget shared with the connection, and the [Incoming] body.

    The rendezvous behind a body is the interface [Consumer]; Pipe.v models the
    one the crate uses. *)

From Stdlib Require Import ZArith Lia.
From stdpp Require Import base list option.
From S2P Require Import Prelude Http Errors Body Pipe.

(** ** Payload views

    [StorageManaged buffer start finish] is a view into a pooled receive
    buffer, [StorageBytes] an ordinary shared allocation. *)

Inductive IncomingData : Type :=
| StorageBytes (b : bytes)
| StorageManaged (buffer : bytes) (start finish : Z).

Definition as_ref (d : IncomingData) : bytes :=
  match d with
  | StorageBytes b => b
  | StorageManaged buffer start finish => zslice start finish buffer
  end.

#[export] Instance IncomingData_IoBuf : IoBuf IncomingData := as_ref.

Definition into_bytes (d : IncomingData) : bytes :=
  match d with
  | StorageBytes b => b
  | StorageManaged buffer start finish => zslice start finish buffer
  end.

Definition from_bytes (b : bytes) : IncomingData := StorageBytes b.

(** [held] is the connection's [ManagedLeasePermit]; the buffer's permit comes
    back when its last view is dropped. *)
Definition from_managed (buffer : bytes) (start finish : Z) (held : bool)
    : bool * result IncomingData Error :=
  if (finish <? start) || (zlen buffer <? finish) then
    (held, Err (Error_new Internal "managed incoming-data view lies outside initialized bytes"))
  else if held then
    (true, Err (Error_new Internal "connection attempted to transfer multiple managed leases"))
  else (true, Ok (StorageManaged buffer start finish)).

Definition data_len (d : IncomingData) : Z :=
  match d with
  | StorageBytes b => zlen b
  | StorageManaged _ start finish => finish - start
  end.

Definition data_is_empty (d : IncomingData) : bool := data_len d =? 0.

Inductive Bound : Type :=
| Included (n : Z)
| Excluded (n : Z)
| Unbounded.

Definition range_start (lo : Bound) : option Z :=
  match lo with
  | Included n => Some n
  | Excluded n => checked_add usize_max n 1
  | Unbounded => Some 0
  end.

Definition range_end (hi : Bound) (len : Z) : option Z :=
  match hi with
  | Included n => checked_add usize_max n 1
  | Excluded n => Some n
  | Unbounded => Some len
  end.

(** [Panics] is a failed [expect] or [assert!]. *)
Definition normalize_range (lo hi : Bound) (len : Z) : call (Z * Z) :=
  match range_start lo with
  | None => Panics
  | Some start =>
      match range_end hi len with
      | None => Panics
      | Some finish => if (start <=? finish) && (finish <=? len) then Returns (start, finish) else Panics
      end
  end.

(** [Bytes::slice] checks a range the same way. *)
Definition slice (d : IncomingData) (lo hi : Bound) : call IncomingData :=
  match d with
  | StorageBytes b =>
      map_call (fun r => StorageBytes (zslice (fst r) (snd r) b)) (normalize_range lo hi (zlen b))
  | StorageManaged buffer start finish =>
      map_call (fun r => StorageManaged buffer (start + fst r) (start + snd r))
        (normalize_range lo hi (finish - start))
  end.

(** [Buf::advance] *)
Definition advance (d : IncomingData) (count : Z) : call IncomingData :=
  match d with
  | StorageBytes b => if count <=? zlen b then Returns (StorageBytes (zdrop count b)) else Panics
  | StorageManaged buffer start finish =>
      if count <=? finish - start then Returns (StorageManaged buffer (start + count) finish) else Panics
  end.

(** Views the crate builds lie inside their buffer. *)
Definition wf_data (d : IncomingData) : Prop :=
  match d with
  | StorageBytes _ => True
  | StorageManaged buffer start finish => 0 <= start <= finish /\ finish <= zlen buffer
  end.

(** ** The drain budget *)

(** Remaining wire and payload bytes once a consumer opted into draining. *)
Definition DrainPolicy := option (Z * Z).

Definition charge_drain (p : DrainPolicy) (consumed payload : Z) : DrainPolicy * result unit LimitKind :=
  match p with
  | None => (p, Ok tt)
  | Some (wire, data) =>
      match checked_sub data payload with
      | None => (p, Err DrainPayload)
      | Some data =>
          match checked_sub wire consumed with
          | None => (p, Err DrainWire)
          | Some wire => (Some (wire, data), Ok tt)
          end
      end
  end.

Definition drain_budget (n wire_allowance : Z) : DrainPolicy :=
  Some (saturating_add u64_max n wire_allowance, n).

(** ** The body *)

(** [DrainConfig]; the timeout is in nanoseconds. *)
Record DrainConfig := mkDrainConfig {
  drain_timeout : Z;
  wire_allowance : Z;
}.

Definition DrainConfig_default : DrainConfig := mkDrainConfig (5 * 10 ^ 9) (64 * 1024).

(** The consuming endpoint: [take] awaited to its answer, whether the drain
    deadline elapses while the next [take] waits, and the shared budget. *)
Class Consumer {http : HttpCrate} (C : Type) := {
  take_frame : C -> C * result (option (Frame IncomingData)) (@TakeError Error);
  deadline_elapses : C -> bool;
  set_budget : C -> DrainPolicy -> C;
}.

Record Incoming (C : Type) := mkIncoming {
  in_consumer : option C;
  in_size : SizeHint;
  in_trailers : TrailerHint;
  in_trailers_seen : bool;
  in_drain : DrainConfig;
}.
Arguments mkIncoming {C} _ _ _ _ _.
Arguments in_consumer {C} _.
Arguments in_size {C} _.
Arguments in_trailers {C} _.
Arguments in_trailers_seen {C} _.
Arguments in_drain {C} _.

Section Incoming.
Context {http : HttpCrate} {C : Type} `{!Consumer C}.

Definition Incoming_empty : Incoming C :=
  mkIncoming None (with_exact 0) TrailersNone false DrainConfig_default.

Definition Incoming_channel (c : C) (size : SizeHint) (trailers : TrailerHint) : Incoming C :=
  mkIncoming (Some c) size trailers false DrainConfig_default.

Definition with_drain_config (s : Incoming C) (config : DrainConfig) : Incoming C :=
  mkIncoming (in_consumer s) (in_size s) (in_trailers s) (in_trailers_seen s) config.

Definition incoming_finish (s : Incoming C) : Incoming C :=
  mkIncoming None (with_exact 0) TrailersNone (in_trailers_seen s) (in_drain s).

Definition observe (s : Incoming C) (f : Frame IncomingData) : Incoming C * result unit Error :=
  match f with
  | DataFrame d =>
      let length := data_len d in
      if in_trailers_seen s || match upper (in_size s) with Some u => u <? length | None => false end then
        (s, Err (Error_new InvalidMessage "received body violated its framing metadata"))
      else
        match with_bounds (saturating_sub (lower (in_size s)) length)
                (option_map (fun u => u - length) (upper (in_size s))) with
        | Ok size => (mkIncoming (in_consumer s) size (in_trailers s) (in_trailers_seen s) (in_drain s), Ok tt)
        | Err e => (s, Err e)
        end
  | TrailersFrame _ =>
      if bool_decide (in_trailers s = TrailersNone) || in_trailers_seen s || negb (lower (in_size s) =? 0) then
        (s, Err (Error_new InvalidMessage "received trailers violated body framing"))
      else (mkIncoming (in_consumer s) (with_exact 0) TrailersNone true (in_drain s), Ok tt)
  end.

Definition incoming_next_frame (s : Incoming C) : Incoming C * result (option (Frame IncomingData)) Error :=
  match in_consumer s with
  | None => (s, Ok None)
  | Some c =>
      let '(c, taken) := take_frame c in
      let s := mkIncoming (Some c) (in_size s) (in_trailers s) (in_trailers_seen s) (in_drain s) in
      let '(s, r) :=
        match taken with
        | Ok (Some f) =>
            let '(s, o) := observe s f in
            (s, match o with Ok _ => Ok (Some f) | Err e => Err e end)
        | Ok None =>
            if negb (lower (in_size s) =? 0) then
              (s, Err (Error_new InvalidMessage "received body ended before its declared length"))
            else (s, Ok None)
        | Err (TakeFailed e) => (s, Err e)
        | Err TakeDisconnected =>
            (s, Err (with_detail (Error_new Errors.Closed "incoming body driver ended without framing completion") DriverLost))
        end in
      match r with
      | Ok (Some _) => (s, r)
      | _ => (incoming_finish s, r)
      end
  end.

#[export] Instance Incoming_Body : Body (Incoming C) IncomingData Error := {
  next_frame s := let '(s, r) := incoming_next_frame s in (s, Returns r);
  size_hint s := Returns (in_size s);
  trailer_hint s := Returns (in_trailers s);
  is_end_stream s := match in_consumer s with None => true | Some _ => false end;
  recycle s _ := s;
}.

(** ** Draining *)

Definition drain_exceeded : Error :=
  with_detail (Error_new Limit "body drain payload limit exceeded") (IncomingLimit DrainPayload).
Definition drain_timed_out : Error :=
  with_detail (Error_new Timeout "body drain deadline exceeded") (DetailTimeout PhaseDrain).

(** [None] is a model run out of turns. *)
Fixpoint drain_loop (fuel : nat) (s : Incoming C) (remaining : Z) : Incoming C * option (result unit Error) :=
  match fuel with
  | O => (s, None)
  | S fuel =>
      if match in_consumer s with Some c => deadline_elapses c | None => false end then
        (s, Some (Err drain_timed_out))
      else
        let '(s, r) := incoming_next_frame s in
        match r with
        | Err e => (s, Some (Err e))
        | Ok None => (s, Some (Ok tt))
        | Ok (Some f) =>
            match into_data f with
            | Ok d =>
                match checked_sub remaining (data_len d) with
                | Some remaining => drain_loop fuel s remaining
                | None => (s, Some (Err drain_exceeded))
                end
            | Err _ => drain_loop fuel s remaining
            end
        end
  end.

(** The budget is handed to the connection before anything is discarded. *)
Definition opt_in (s : Incoming C) (max_payload_bytes : Z) : Incoming C :=
  match in_consumer s with
  | Some c =>
      mkIncoming (Some (set_budget c (drain_budget max_payload_bytes (wire_allowance (in_drain s)))))
        (in_size s) (in_trailers s) (in_trailers_seen s) (in_drain s)
  | None => s
  end.

(** [representable] is whether the deadline [now + timeout] exists. *)
Definition drain (fuel : nat) (representable : bool) (s : Incoming C) (max_payload_bytes : Z)
    : Incoming C * option (result unit Error) :=
  let s := opt_in s max_payload_bytes in
  if representable then drain_loop fuel s max_payload_bytes
  else (s, Some (Err (Error_new LocalMessage "invalid drain timeout duration"))).

End Incoming.

(** * Views are the bytes they show *)

(** What an operation on a view is on plain bytes. *)
Definition same_view (r r' : call IncomingData) : Prop :=
  match r, r' with
  | Returns d, Returns d' => wf_data d /\ wf_data d' /\ as_ref d = as_ref d'
  | Panics, Panics => True
  | _, _ => False
  end.

Lemma managed_length buffer start finish :
  wf_data (StorageManaged buffer start finish) -> zlen (zslice start finish buffer) = finish - start.
Proof. intros [? ?]. unfold zslice. rewrite zlen_ztake, zlen_zdrop by lia. lia. Qed.

Lemma normalize_range_ok lo hi len start finish :
  (forall n, lo = Included n \/ lo = Excluded n -> 0 <= n) -> 0 <= len ->
  normalize_range lo hi len = Returns (start, finish) -> 0 <= start <= finish /\ finish <= len.
Proof.
  intros Hn Hl. unfold normalize_range.
  assert (Hs : forall s, range_start lo = Some s -> 0 <= s).
  { intros s Hs. destruct lo as [n|n|]; simpl in Hs.
    - injection Hs as <-. apply Hn. by left.
    - apply checked_add_Some in Hs as [-> _]. specialize (Hn n (or_intror eq_refl)). lia.
    - injection Hs as <-. lia. }
  destruct (range_start lo) as [s|]; [|done]. specialize (Hs s eq_refl).
  destruct (range_end hi len) as [f|]; [|done].
  destruct (Z.leb_spec s f), (Z.leb_spec f len); simpl; intros Hr; simplify_eq; lia.
Qed.

Lemma zslice_zslice (b : bytes) s f s' f' :
  0 <= s -> 0 <= s' <= f' -> f' <= f - s -> zslice s' f' (zslice s f b) = zslice (s + s') (s + f') b.
Proof.
  intros Hs Hs' Hf. unfold zslice, ztake, zdrop. rewrite skipn_firstn_comm, firstn_firstn, drop_drop.
  f_equal; [|f_equal]; lia.
Qed.

Lemma zdrop_zslice (b : bytes) s f n :
  0 <= s -> 0 <= n <= f - s -> zdrop n (zslice s f b) = zslice (s + n) f b.
Proof.
  intros Hs Hn. unfold zslice, ztake, zdrop. rewrite skipn_firstn_comm, drop_drop. f_equal; [|f_equal]; lia.
Qed.

(** A pooled receive buffer is observationally an ordinary allocation:
    length, content, conversion, slicing and advancing of a managed view are
    those of the bytes it shows, out-of-range requests included, and every view
    built this way stays inside its buffer. *)
Theorem managed_view_is_bytes d lo hi n :
  wf_data d -> 0 <= n -> (forall m, lo = Included m \/ lo = Excluded m -> 0 <= m) ->
  let plain := from_bytes (as_ref d) in
  data_len d = data_len plain /\ data_is_empty d = data_is_empty plain /\ into_bytes d = as_ref d /\
  same_view (slice d lo hi) (slice plain lo hi) /\ same_view (advance d n) (advance plain n).
Proof.
  intros Hwf Hn Hlo. destruct d as [b|buffer start finish]; simpl.
  - split_and!; [done..| |].
    + destruct (normalize_range lo hi (zlen b)) as [[s f]|]; simpl; [|done]. done.
    + destruct (n <=? zlen b); simpl; done.
  - pose proof (managed_length _ _ _ Hwf) as Hlen. pose proof Hwf as [Hr Hb].
    unfold data_is_empty. simpl. rewrite Hlen. split_and!; [done..| |].
    + destruct (normalize_range lo hi (finish - start)) as [[s f]|] eqn:E; simpl; [|done].
      apply normalize_range_ok in E; [|done|lia]. split_and!; [lia..|]. rewrite zslice_zslice by lia. done.
    + destruct (Z.leb_spec n (finish - start)); simpl; [|done]. split_and!; [lia..|].
      by rewrite zdrop_zslice by lia.
Qed.

Lemma managed_view_is_bytes_witness :
  same_view (slice (StorageManaged (bs "xhellox") 1 6) (Included 1) Unbounded)
    (slice (from_bytes (bs "hello")) (Included 1) Unbounded).
Proof.
  refine (proj1 (proj2 (proj2 (proj2
    (managed_view_is_bytes (StorageManaged (bs "xhellox") 1 6) (Included 1) Unbounded 0 _ _ _))))).
  - vm_compute. repeat split; discriminate.
  - lia.
  - intros m [[= <-]|]; [lia|discriminate].
Defined.

(** * What a received body yields *)

Section IncomingTheorems.
Context {http : HttpCrate} {C : Type} `{!Consumer C}.

Notation answer := (call (result (option (Frame IncomingData)) Error)).

(** The answers framing metadata allows: [lo] and [up] bound the payload still
    to come, [allowed] is whether a trailers frame may still come, [seen]
    whether it did. *)
Inductive framed_answers : Z -> option Z -> bool -> bool -> list answer -> Prop :=
| fa_nil lo up allowed seen : framed_answers lo up allowed seen []
| fa_data lo up allowed d rest :
    match up with Some u => data_len d <= u | None => True end ->
    framed_answers (Z.max 0 (lo - data_len d)) (option_map (fun u => u - data_len d) up) allowed false rest ->
    framed_answers lo up allowed false (Returns (Ok (Some (DataFrame d))) :: rest)
| fa_trailers up t rest :
    framed_answers 0 (Some 0) false true rest ->
    framed_answers 0 up true false (Returns (Ok (Some (TrailersFrame t))) :: rest)
| fa_end up allowed seen rest :
    Forall (eq (Returns (Ok None))) rest ->
    framed_answers 0 up allowed seen (Returns (Ok None) :: rest)
| fa_error lo up allowed seen e rest :
    Forall (eq (Returns (Ok None))) rest ->
    framed_answers lo up allowed seen (Returns (Err e) :: rest).

Definition trailers_allowed (h : TrailerHint) : bool :=
  match h with
  | TrailersNone => false
  | TrailersMayHave => true
  end.

Lemma incoming_finished_answers n (s : Incoming C) :
  in_consumer s = None -> Forall (eq (Returns (Ok None))) (next_frames n s).
Proof.
  revert s. induction n as [|n IH]; intros s Hs; simpl; [constructor|].
  unfold incoming_next_frame. rewrite Hs. constructor; [done | by apply IH].
Qed.

(** Every body the crate builds: a finished one promises nothing more. *)
Definition wf_incoming (s : Incoming C) : Prop :=
  0 <= lower (in_size s) /\ (in_consumer s = None -> lower (in_size s) = 0).

Lemma incoming_answers n (s : Incoming C) :
  wf_incoming s ->
  framed_answers (lower (in_size s)) (upper (in_size s)) (trailers_allowed (in_trailers s)) (in_trailers_seen s)
    (next_frames n s).
Proof.
  revert s. induction n as [|n IH]; intros s [Hlo Hfin]; simpl; [constructor|].
  unfold incoming_next_frame. destruct (in_consumer s) as [c|] eqn:Ec.
  2:{ rewrite (Hfin eq_refl). constructor. by apply incoming_finished_answers. }
  destruct (take_frame c) as [c1 taken]. destruct taken as [[f|]|[e|]].
  - destruct f as [d|t]; simpl.
    + destruct (in_trailers_seen s) eqn:Et; simpl.
      { constructor. by apply incoming_finished_answers. }
      destruct (match upper (in_size s) with Some u => _ | None => _ end) eqn:Eu.
      { constructor. by apply incoming_finished_answers. }
      destruct (with_bounds _ _) as [size|] eqn:Ew; [|constructor; by apply incoming_finished_answers].
      assert (size = mkSizeHint (Z.max 0 (lower (in_size s) - data_len d))
        (option_map (fun u => u - data_len d) (upper (in_size s)))) as ->.
      { unfold with_bounds, saturating_sub in Ew. destruct (option_map _ _) as [u|]; [destruct (u <? _)|]; congruence. }
      constructor; [destruct (upper (in_size s)); [|done]; by apply Z.ltb_ge|].
      match goal with |- framed_answers _ _ _ _ (next_frames n ?s') => apply (IH s') end. split; simpl; [lia|done].
    + destruct (in_trailers s); simpl; [constructor; by apply incoming_finished_answers|].
      destruct (in_trailers_seen s); simpl; [constructor; by apply incoming_finished_answers|].
      destruct (Z.eqb_spec (lower (in_size s)) 0) as [->|]; simpl; [|constructor; by apply incoming_finished_answers].
      constructor.
      match goal with |- framed_answers _ _ _ _ (next_frames n ?s') => apply (IH s') end. split; simpl; [lia|done].
  - simpl. destruct (Z.eqb_spec (lower (in_size s)) 0) as [->|]; simpl; constructor; by apply incoming_finished_answers.
  - simpl. constructor. by apply incoming_finished_answers.
  - simpl. constructor. by apply incoming_finished_answers.
Qed.

(** A received body never shows more or less than its framing declared,
    whatever its driver hands over: data stays within the declared upper
    bound and never follows trailers, trailers come at most once, only when
    declared and only after the declared lower bound, the body ends cleanly
    only once that bound is reached, and after the end or an error it is
    silent. *)
Theorem incoming_keeps_framing (c : C) size trailers n :
  hint_ok size ->
  framed_answers (lower size) (upper size) (trailers_allowed trailers) false
    (next_frames n (Incoming_channel c size trailers)).
Proof.
  intros [[Hlo _] _]. apply (incoming_answers n (Incoming_channel c size trailers)). by split.
Qed.

(** ** Draining *)

(** The payload of the frames a drain takes before it stops. *)
Fixpoint drained (fuel : nat) (s : Incoming C) : Z :=
  match fuel with
  | O => 0
  | S fuel =>
      match incoming_next_frame s with
      | (s, Ok (Some (DataFrame d))) => data_len d + drained fuel s
      | (s, Ok (Some (TrailersFrame _))) => drained fuel s
      | _ => 0
      end
  end.

Lemma drain_loop_bounded fuel (s : Incoming C) remaining s' :
  drain_loop fuel s remaining = (s', Some (Ok tt)) -> drained fuel s <= remaining \/ remaining < 0.
Proof.
  revert s remaining. induction fuel as [|fuel IH]; intros s remaining; simpl; [done|].
  destruct (match in_consumer s with Some c => _ | None => _ end); [done|].
  destruct (incoming_next_frame s) as [s1 [[[d|t]|]|e]]; simpl; [| | |done].
  - destruct (checked_sub remaining (data_len d)) as [r|] eqn:E; [|done].
    apply checked_sub_Some in E as [-> ?]. intros [?|?]%IH; lia.
  - apply IH.
  - intros _. lia.
Qed.

(** A drain that succeeds discarded at most the payload its caller
    allowed; it stops at the first frame beyond it. *)
Theorem drain_bounded fuel representable (s : Incoming C) max_payload_bytes s' :
  0 <= max_payload_bytes ->
  drain fuel representable s max_payload_bytes = (s', Some (Ok tt)) ->
  drained fuel (opt_in s max_payload_bytes) <= max_payload_bytes.
Proof.
  unfold drain. intros Hm H. destruct representable; [|done].
  destruct (drain_loop_bounded _ _ _ _ H); lia.
Qed.

End IncomingTheorems.

(** ** The shared drain budget *)

(** Successive charges, each of the consumed wire bytes and their payload. *)
Fixpoint charge_all (p : DrainPolicy) (charges : list (Z * Z)) : DrainPolicy * result unit LimitKind :=
  match charges with
  | [] => (p, Ok tt)
  | (consumed, payload) :: charges =>
      match charge_drain p consumed payload with
      | (p, Ok _) => charge_all p charges
      | (p, Err e) => (p, Err e)
      end
  end.

Definition wire_sum (charges : list (Z * Z)) : Z := fold_right (fun c n => fst c + n) 0 charges.
Definition payload_sum (charges : list (Z * Z)) : Z := fold_right (fun c n => snd c + n) 0 charges.

Lemma charge_all_exact charges wire data :
  Forall (fun c => 0 <= fst c /\ 0 <= snd c) charges ->
  match charge_all (Some (wire, data)) charges with
  | (p, Ok _) => p = Some (wire - wire_sum charges, data - payload_sum charges) /\
      (charges = [] \/ wire_sum charges <= wire /\ payload_sum charges <= data)
  | (_, Err DrainPayload) => data < payload_sum charges
  | (_, Err DrainWire) => wire < wire_sum charges
  | (_, Err _) => False
  end.
Proof.
  intros Hc. revert wire data. induction Hc as [|[w d] charges [Hw Hd] Hc IH]; intros wire data; simpl.
  { split; [f_equal; f_equal; lia | by left]. }
  assert (0 <= wire_sum charges /\ 0 <= payload_sum charges) as [Hws Hps].
  { clear IH. induction Hc as [|[w' d'] charges' [? ?] _ [IH1 IH2]]; simpl in *; lia. }
  simpl in Hw, Hd. destruct (checked_sub data d) as [data'|] eqn:Ed; simpl.
  2:{ unfold checked_sub in Ed. destruct (Z.leb_spec d data); [done|]. lia. }
  apply checked_sub_Some in Ed as [-> Hd'].
  destruct (checked_sub wire w) as [wire'|] eqn:Ew; simpl.
  2:{ unfold checked_sub in Ew. destruct (Z.leb_spec w wire); [done|]. lia. }
  apply checked_sub_Some in Ew as [-> Hw'].
  specialize (IH (wire - w) (data - d)).
  destruct (charge_all (Some (wire - w, data - d)) charges) as [p [u|e]].
  - destruct IH as [-> Hs]. split; [f_equal; f_equal; lia|]. right. destruct Hs as [->|?]; simpl; lia.
  - destruct e; try done; lia.
Qed.

(** The drain budget is exact. Once a consumer opts into draining [n]
    payload bytes, the connection's charges are accepted exactly while their
    payload stays within [n] and their wire bytes within [n] plus the
    allowance (saturating at the integer's width), and a refusal names the
    budget that was exceeded; without opting in nothing is charged. *)
Theorem drain_budget_exact n allowance charges :
  is_u64 n -> 0 <= allowance -> Forall (fun c => 0 <= fst c /\ 0 <= snd c) charges ->
  charge_all None charges = (None, Ok tt) /\
  match snd (charge_all (drain_budget n allowance) charges) with
  | Ok _ => payload_sum charges <= n /\ wire_sum charges <= Z.min u64_max (n + allowance)
  | Err DrainPayload => n < payload_sum charges
  | Err DrainWire => Z.min u64_max (n + allowance) < wire_sum charges
  | Err _ => False
  end.
Proof.
  intros [Hn Hn'] Ha Hc. split; [induction Hc as [|[? ?] ? _ _ IH]; [done | exact IH]|].
  unfold drain_budget, saturating_add.
  pose proof (charge_all_exact charges (Z.min u64_max (n + allowance)) n Hc) as H.
  destruct (charge_all _ charges) as [p [u|e]]; simpl; [|done].
  unfold u64_max in *. destruct H as [_ [->|?]]; simpl; lia.
Qed.

(** ** Evaluated bodies *)

(** A consumer that plays a script. *)
Definition Script {http : HttpCrate} := list (result (option (Frame IncomingData)) (@TakeError Error)).

#[export] Instance Script_Consumer {http : HttpCrate} : Consumer Script := {
  take_frame c := match c with [] => ([], Err TakeDisconnected) | r :: c => (c, r) end;
  deadline_elapses _ := false;
  set_budget c _ := c;
}.

Section Evaluated.
#[local] Existing Instance AssocHttp.

Definition three_frames : Script :=
  [Ok (Some (DataFrame (StorageBytes (bs "ab")))); Ok (Some (DataFrame (StorageManaged (bs "-c-") 1 2))); Ok None].

Lemma incoming_keeps_framing_witness :
  framed_answers 3 (Some 3) false false
    (next_frames 4 (Incoming_channel three_frames (with_exact 3) TrailersNone)).
Proof.
  apply (incoming_keeps_framing three_frames (with_exact 3) TrailersNone 4). vm_compute. repeat split; discriminate.
Defined.

Lemma drain_bounded_witness :
  drained 4 (opt_in (Incoming_channel three_frames (with_exact 3) TrailersNone) 3) <= 3.
Proof.
  apply (drain_bounded 4 true (Incoming_channel three_frames (with_exact 3) TrailersNone) 3
    (fst (drain 4 true (Incoming_channel three_frames (with_exact 3) TrailersNone) 3))); [lia|].
  reflexivity.
Defined.

End Evaluated.

Lemma drain_budget_exact_witness :
  snd (charge_all (drain_budget 3 2) [(3, 1); (2, 2)]) = Ok tt /\
  payload_sum [(3, 1); (2, 2)] <= 3 /\ wire_sum [(3, 1); (2, 2)] <= Z.min u64_max (3 + 2).
Proof.
  split; [reflexivity|].
  refine (proj2 (drain_budget_exact 3 2 [(3, 1); (2, 2)] _ _ _)).
  - vm_compute. split; discriminate.
  - lia.
  - repeat constructor; simpl; lia.
Defined.
