(* ===== verification/Recv.v ===== *)
(** Retained input (src/src/io/recv.rs, src/src/io/managed.rs and the lease
    permit of src/src/body/incoming.rs).

    The transport is a parameter: [AsyncRead] with [Reads], what its
    documentation promises. A [BytesMut] is its content and its capacity; the
    allocator chooses capacities. *)

From Stdlib Require Import ZArith Lia.
From stdpp Require Import base list option.
From S2P Require Import Prelude Http Errors Body Incoming Send.

(** ** The transport and the allocator *)

Class AsyncRead (W : Type) := {
  (** [reader.read(buffer.slice(start..start + target))]: the reported count and
      the bytes initialized after [start] *)
  ar_read : W -> Z -> W * (result Z IoError * bytes);
  (** [reader.read_managed(requested)] *)
  ar_read_managed : W -> Z -> W * result (option bytes) IoError;
}.

(** [received] is what the transport has handed over. A read initializes at
    most the slice it is given, a managed one at most what was requested. *)
Class Reads (W : Type) `{AsyncRead W} := {
  received : W -> bytes;
  law_read w target w' r fill : 0 < target -> ar_read w target = (w', (r, fill)) ->
    zlen fill <= target /\ received w' = received w ++ fill;
  law_read_managed w requested w' r : ar_read_managed w requested = (w', r) ->
    received w' = received w ++ match r with Ok (Some b) => b | _ => [] end;
  law_requested w requested w' b : 0 < requested -> ar_read_managed w requested = (w', Ok (Some b)) -> zlen b <= requested;
}.

(** Capacities the [bytes] crate gives to [with_capacity] and [reserve]. *)
Class BytesAllocator := {
  capacity_for : Z -> Z;
  reserved_capacity : Z -> Z -> Z;
}.

(** ** Storage *)

Record BytesMut := mkBytesMut {
  bm_bytes : bytes;
  bm_capacity : Z;
}.

Definition BytesMut_new : BytesMut := mkBytesMut [] 0.

Inductive ReceiveStorage : Type :=
| Portable (b : BytesMut)
| Managed (buffer : bytes) (start finish : Z).

Definition storage_bytes (s : ReceiveStorage) : bytes :=
  match s with
  | Portable b => bm_bytes b
  | Managed buffer start finish => zslice start finish buffer
  end.

Inductive ReadStatus : Type :=
| StatusData (n : Z)
| StatusEof.

(** [managed_permit] is the shared [held] cell, once a lease was received. *)
Record RecvBuffer := mkRecvBuffer {
  storage : ReceiveStorage;
  managed_permit : option bool;
  preferred_read : Z;
  max_retained : Z;
}.

Definition set_storage (b : RecvBuffer) (s : ReceiveStorage) : RecvBuffer :=
  mkRecvBuffer s (managed_permit b) (preferred_read b) (max_retained b).

Definition set_permit (b : RecvBuffer) (p : option bool) : RecvBuffer :=
  mkRecvBuffer (storage b) p (preferred_read b) (max_retained b).

Definition recv_bytes (b : RecvBuffer) : bytes := storage_bytes (storage b).
Definition recv_len (b : RecvBuffer) : Z := zlen (recv_bytes b).

Section RecvBuffer.
Context {alloc : BytesAllocator}.

Definition with_capacity (n : Z) : BytesMut := mkBytesMut [] (capacity_for n).

Definition RecvBuffer_new (preferred_read max_retained : Z) : result RecvBuffer Error :=
  if (preferred_read =? 0) || (max_retained <? preferred_read) then
    Err (Error_new Limit "receive limits must be nonzero and ordered")
  else Ok (mkRecvBuffer (Portable (with_capacity preferred_read)) None preferred_read max_retained).

(** A large allocation is not kept for an empty buffer, and a managed lease
    goes back once it is read. *)
Definition compact_if_empty (b : RecvBuffer) : RecvBuffer :=
  match storage b with
  | Portable m =>
      let replacement_threshold := Z.min (saturating_mul usize_max (preferred_read b) 4) (max_retained b) in
      if (zlen (bm_bytes m) =? 0) && (replacement_threshold <? bm_capacity m) then
        set_storage b (Portable (with_capacity (preferred_read b)))
      else b
  | Managed _ start finish =>
      if start =? finish then set_storage b (Portable BytesMut_new) else b
  end.

Definition make_portable (b : RecvBuffer) : RecvBuffer :=
  match storage b with
  | Portable _ => b
  | Managed buffer start finish =>
      let kept := zslice start finish buffer in
      set_storage b (Portable (mkBytesMut kept (capacity_for (zlen kept))))
  end.

(** [BytesMut::advance] and the rest of [split_to] *)
Definition bm_advance (m : BytesMut) (count : Z) : BytesMut :=
  mkBytesMut (zdrop count (bm_bytes m)) (bm_capacity m - count).

Definition consume (b : RecvBuffer) (count : Z) : RecvBuffer * result unit Error :=
  if recv_len b <? count then (b, Err (Error_new Internal "receive buffer consumed beyond initialized bytes"))
  else
    let b :=
      match storage b with
      | Portable m => set_storage b (Portable (bm_advance m count))
      | Managed buffer start finish => set_storage b (Managed buffer (start + count) finish)
      end in
    (compact_if_empty b, Ok tt).

Definition take_shared_prefix (b : RecvBuffer) (count : Z) : RecvBuffer * result bytes Error :=
  if recv_len b <? count then (b, Err (Error_new Internal "receive buffer split beyond initialized bytes"))
  else
    match storage b with
    | Portable m =>
        (compact_if_empty (set_storage b (Portable (bm_advance m count))), Ok (ztake count (bm_bytes m)))
    | Managed buffer start finish =>
        let split := start + count in
        (compact_if_empty (set_storage b (Managed buffer split finish)), Ok (zslice start split buffer))
    end.

(** [Panics] is the [expect] on a missing permit. *)
Definition take_payload (b : RecvBuffer) (from to consumed : Z)
    : RecvBuffer * call (result IncomingData Error) :=
  if (to <? from) || (consumed <? to) || (recv_len b <? consumed) then
    (b, Returns (Err (Error_new Internal "decoder returned an invalid receive-buffer range")))
  else
    match storage b with
    | Portable m =>
        let consumed_bytes := zdrop from (ztake to (ztake consumed (bm_bytes m))) in
        (compact_if_empty (set_storage b (Portable (bm_advance m consumed))),
         Returns (Ok (from_bytes consumed_bytes)))
    | Managed buffer start finish =>
        let rest :=
          if start + consumed <? finish then
            let suffix := zslice (start + consumed) finish buffer in
            mkBytesMut suffix (capacity_for (zlen suffix))
          else BytesMut_new in
        let b := set_storage b (Portable rest) in
        match managed_permit b with
        | None => (b, Panics)
        | Some held =>
            let '(held, r) := from_managed buffer (start + from) (start + to) held in
            (set_permit b (Some held), Returns r)
        end
    end.

Definition take_all (b : RecvBuffer) : RecvBuffer * bytes :=
  (set_storage b (Portable BytesMut_new), recv_bytes b).

(** The last view of a lease is dropped: [Drop for ManagedIncoming], with its
    [debug_assert!]. *)
Definition release_lease (b : RecvBuffer) : RecvBuffer * call unit :=
  match managed_permit b with
  | Some true => (set_permit b (Some false), Returns tt)
  | p => (set_permit b (option_map (fun _ => false) p), Panics)
  end.

(** ** Reads

    [tls] is whether the TLS feature is compiled in, [cancellation] whether the
    caller passed a token. [Panics] is an [unreachable!] or an underflow. *)

Context {W : Type} `{Runtime W} `{AsyncRead W} (tls : bool).

Definition retained_limit : Error :=
  with_detail (Error_new Limit "receive buffer limit reached") (IncomingLimit RetainedInput).

Definition read_status (r : result Z IoError) (target start len : Z) : result ReadStatus Error :=
  match r with
  | Ok count =>
      if (target <? count) || negb (len =? start + count) then
        Err (Error_new Io "reader reported an inconsistent initialized length")
      else if count =? 0 then Ok StatusEof
      else Ok (StatusData count)
  | Err e => Err (from_io tls e)
  end.

Definition recv_read (w : W) (b : RecvBuffer) (cancellation : bool)
    : W * RecvBuffer * call (result ReadStatus Error) :=
  if cancellation && rt_cancel_requested w then (w, b, Returns (Err (from_io tls operation_canceled)))
  else
    let b := make_portable b in
    match checked_sub (max_retained b) (recv_len b) with
    | None => (w, b, Panics)
    | Some available =>
        if available =? 0 then (w, b, Returns (Err retained_limit))
        else
          let target := Z.min available (preferred_read b) in
          let start := recv_len b in
          match storage b with
          | Managed _ _ _ => (w, b, Panics)
          | Portable m =>
              let '(w, (r, fill)) := ar_read w target in
              let m := mkBytesMut (bm_bytes m ++ fill) (reserved_capacity (bm_capacity m) target) in
              let b := set_storage b (Portable m) in
              (w, b, Returns (read_status r target start (recv_len b)))
          end
    end.

(** [io::managed::read] *)
Definition managed_read (w : W) (requested : Z) : W * result (option bytes) Error :=
  let '(w, r) := ar_read_managed w requested in
  (w,
   match r with
   | Ok (Some buffer) =>
       if zlen buffer =? 0 then
         Err (Error_new Internal "managed stream receive returned an empty lease")
       else if negb (requested =? 0) && (requested <? zlen buffer) then
         Err (Error_new Internal "managed stream receive exceeded its requested range")
       else Ok (Some buffer)
   | Ok None => Ok None
   | Err e => Err (from_io tls e)
   end).

Definition read_managed (w : W) (b : RecvBuffer) (cancellation : bool)
    : W * RecvBuffer * call (result ReadStatus Error) :=
  if cancellation && rt_cancel_requested w then (w, b, Returns (Err (from_io tls operation_canceled)))
  else if default false (managed_permit b) then recv_read w b cancellation
  else if negb (zlen (recv_bytes b) =? 0) then recv_read w b cancellation
  else
    let target := Z.min (preferred_read b) (max_retained b) in
    let '(w, r) := managed_read w target in
    match r with
    | Ok (Some buffer) =>
        let count := zlen buffer in
        let b := set_permit b (Some (default false (managed_permit b))) in
        (w, set_storage b (Managed buffer 0 count), Returns (Ok (StatusData count)))
    | Ok None => (w, b, Returns (Ok StatusEof))
    | Err e => (w, b, Returns (Err e))
    end.

End RecvBuffer.

(** * A connection's use of its buffer

    [leases] counts the leases application data still holds; [OpRelease] is the
    application dropping the last view of one, at any moment. *)

Inductive recv_op : Type :=
| OpConsume (count : Z)
| OpPrefix (count : Z)
| OpPayload (from to consumed : Z)
| OpTakeAll
| OpRead (cancellation : bool)
| OpReadManaged (cancellation : bool)
| OpRelease.

Inductive recv_answer : Type :=
| ADone (r : result unit Error)
| APrefix (r : result bytes Error)
| APayload (r : result IncomingData Error)
| AStatus (r : result ReadStatus Error).

Record recv_sys (W : Type) := mkSys {
  sys_world : W;
  sys_buffer : RecvBuffer;
  sys_leases : Z;
}.
Arguments mkSys {W} _ _ _.
Arguments sys_world {W} _.
Arguments sys_buffer {W} _.
Arguments sys_leases {W} _.

Section System.
Context {alloc : BytesAllocator} {W : Type} `{Runtime W} `{AsyncRead W} (tls : bool).

Definition lease_of (a : call (result IncomingData Error)) : Z :=
  match a with
  | Returns (Ok (StorageManaged _ _ _)) => 1
  | _ => 0
  end.

Definition recv_step (s : recv_sys W) (o : recv_op) : recv_sys W * call recv_answer :=
  let w := sys_world s in
  let b := sys_buffer s in
  match o with
  | OpConsume n => let '(b, r) := consume b n in (mkSys w b (sys_leases s), Returns (ADone r))
  | OpPrefix n => let '(b, r) := take_shared_prefix b n in (mkSys w b (sys_leases s), Returns (APrefix r))
  | OpPayload from to consumed =>
      let '(b, r) := take_payload b from to consumed in
      (mkSys w b (sys_leases s + lease_of r), map_call APayload r)
  | OpTakeAll => let '(b, r) := take_all b in (mkSys w b (sys_leases s), Returns (APrefix (Ok r)))
  | OpRead c => let '(w, b, r) := recv_read tls w b c in (mkSys w b (sys_leases s), map_call AStatus r)
  | OpReadManaged c => let '(w, b, r) := read_managed tls w b c in (mkSys w b (sys_leases s), map_call AStatus r)
  | OpRelease =>
      if 0 <? sys_leases s then
        let '(b, r) := release_lease b in
        (mkSys w b (sys_leases s - 1), map_call (fun _ => ADone (Ok tt)) r)
      else (s, Returns (ADone (Ok tt)))
  end.

Fixpoint recv_run (s : recv_sys W) (ops : list recv_op) : recv_sys W * list (call recv_answer) :=
  match ops with
  | [] => (s, [])
  | o :: ops =>
      let '(s, a) := recv_step s o in
      let '(s, answers) := recv_run s ops in
      (s, a :: answers)
  end.

End System.

(** ** The byte queue it is

    [fill] is what the transport handed over during the operation. *)

(** Arguments are [usize] values. *)
Definition op_ok (o : recv_op) : Prop :=
  match o with
  | OpConsume n | OpPrefix n => 0 <= n
  | OpPayload from to consumed => 0 <= from /\ 0 <= to /\ 0 <= consumed
  | _ => True
  end.

(** Bytes an operation removes from the front of the queue. *)
Definition taken (q : bytes) (o : recv_op) : Z :=
  match o with
  | OpConsume n | OpPrefix n => if n <=? zlen q then n else 0
  | OpPayload from to consumed =>
      if (from <=? to) && (to <=? consumed) && (consumed <=? zlen q) then consumed else 0
  | OpTakeAll => zlen q
  | _ => 0
  end.

(** The answer an operation on the queue [q] may give. *)
Definition queue_answer (q : bytes) (o : recv_op) (fill : bytes) (a : recv_answer) : Prop :=
  match o, a with
  | OpConsume n, ADone r => if n <=? zlen q then r = Ok tt else exists e, r = Err e
  | OpPrefix n, APrefix r => if n <=? zlen q then r = Ok (ztake n q) else exists e, r = Err e
  | OpPayload from to consumed, APayload r =>
      if (from <=? to) && (to <=? consumed) && (consumed <=? zlen q) then
        exists d, r = Ok d /\ wf_data d /\ as_ref d = zslice from to q
      else exists e, r = Err e
  | OpTakeAll, APrefix r => r = Ok q
  | OpRead _, AStatus r | OpReadManaged _, AStatus r =>
      match r with
      | Ok (StatusData n) => n = zlen fill /\ 0 < n
      | Ok StatusEof => fill = []
      | Err _ => True
      end
  | OpRelease, ADone r => r = Ok tt
  | _, _ => False
  end.

(** ** Invariant *)

Definition wf_storage (b : RecvBuffer) : Prop :=
  match storage b with
  | Portable _ => True
  | Managed buffer start finish =>
      (0 <= start <= finish /\ finish <= zlen buffer) /\ managed_permit b = Some false
  end.

(** Retained input stays within its limit. A managed buffer is held only while
    no lease is out. *)
Definition wf_recv (b : RecvBuffer) : Prop :=
  0 < preferred_read b <= max_retained b /\ max_retained b <= usize_max /\
  recv_len b <= max_retained b /\ wf_storage b.

Definition wf_sys {W} (s : recv_sys W) : Prop :=
  wf_recv (sys_buffer s) /\
  sys_leases s = match managed_permit (sys_buffer s) with Some true => 1 | _ => 0 end.

Section Invariant.
Context {alloc : BytesAllocator} {W : Type} `{Runtime W} `{AsyncRead W} `{!Reads W} (tls : bool).

(** [b'] holds [q], under the limits and the permit of [b]. *)
Definition holds (b b' : RecvBuffer) (q : bytes) : Prop :=
  recv_bytes b' = q /\ managed_permit b' = managed_permit b /\
  preferred_read b' = preferred_read b /\ max_retained b' = max_retained b /\ wf_storage b'.

Lemma holds_wf b b' q : wf_recv b -> holds b b' q -> zlen q <= max_retained b -> wf_recv b'.
Proof.
  intros (Hp & Hm & _ & _) (Hq & _ & Ep & Em & Hs) Hl. unfold wf_recv, recv_len. rewrite Hq, Ep, Em. done.
Qed.

Lemma compact_holds b b' q : holds b b' q -> holds b (compact_if_empty b') q.
Proof.
  unfold compact_if_empty. intros (Hq & Hp & Epr & Em & Hs). unfold recv_bytes, wf_storage in *.
  destruct (storage b') as [m|buffer start finish] eqn:Es; simpl in Hq.
  - destruct (Z.eqb_spec (zlen (bm_bytes m)) 0) as [E0|]; simpl.
    + apply zlen_0_nil in E0. destruct (_ <? _); unfold holds, recv_bytes, wf_storage; simpl; rewrite ?Es; simpl;
        split_and!; try done; by rewrite <- Hq, E0.
    + unfold holds, recv_bytes, wf_storage. rewrite Es. done.
  - destruct (Z.eqb_spec start finish) as [->|]; unfold holds, recv_bytes, wf_storage; simpl; rewrite ?Es; simpl;
      split_and!; try done; try apply Hs.
    rewrite <- Hq. unfold zslice. by rewrite ztake_0 by lia.
Qed.

Lemma make_portable_holds b : wf_recv b -> holds b (make_portable b) (recv_bytes b).
Proof.
  intros (_ & _ & _ & Hs). unfold make_portable, holds, recv_bytes, wf_storage in *.
  destruct (storage b) eqn:Es; simpl; rewrite ?Es; done.
Qed.

Lemma make_portable_storage b : exists m, storage (make_portable b) = Portable m.
Proof. unfold make_portable. destruct (storage b) eqn:E; simpl; eauto. Qed.

(** Dropping a prefix from either kind of storage. *)
Lemma dropped_holds b count :
  wf_recv b -> 0 <= count <= recv_len b ->
  holds b
    match storage b with
    | Portable m => set_storage b (Portable (bm_advance m count))
    | Managed buffer start finish => set_storage b (Managed buffer (start + count) finish)
    end (zdrop count (recv_bytes b)).
Proof.
  intros (_ & _ & _ & Hs) Hc. unfold holds, recv_len, recv_bytes, wf_storage in *.
  destruct (storage b) as [m|buffer start finish] eqn:Es; simpl in *; [done|].
  destruct Hs as [Hr Hp]. pose proof (managed_length buffer start finish Hr) as Hl.
  split_and!; try done; try lia. rewrite zdrop_zslice by lia. done.
Qed.

Lemma consume_ok b n : wf_recv b -> 0 <= n ->
  let '(b', r) := consume b n in
  holds b b' (zdrop (taken (recv_bytes b) (OpConsume n)) (recv_bytes b)) /\
  queue_answer (recv_bytes b) (OpConsume n) [] (ADone r).
Proof.
  intros Hwf Hn. unfold consume, recv_len. simpl. destruct (Z.ltb_spec (zlen (recv_bytes b)) n).
  - rewrite (proj2 (Z.leb_gt _ _)) by lia. split; [|eauto]. rewrite zdrop_0 by lia.
    split_and!; try done. apply Hwf.
  - rewrite (proj2 (Z.leb_le _ _)) by lia. split; [|done].
    apply compact_holds, dropped_holds; [done | unfold recv_len; lia].
Qed.

Lemma take_shared_prefix_ok b n : wf_recv b -> 0 <= n ->
  let '(b', r) := take_shared_prefix b n in
  holds b b' (zdrop (taken (recv_bytes b) (OpPrefix n)) (recv_bytes b)) /\
  queue_answer (recv_bytes b) (OpPrefix n) [] (APrefix r).
Proof.
  intros Hwf Hn. unfold take_shared_prefix, recv_len. simpl.
  destruct (Z.ltb_spec (zlen (recv_bytes b)) n).
  - rewrite (proj2 (Z.leb_gt _ _)) by lia. split; [|eauto]. rewrite zdrop_0 by lia.
    split_and!; try done. apply Hwf.
  - rewrite (proj2 (Z.leb_le _ _)) by lia.
    assert (Hd : 0 <= n <= recv_len b) by (unfold recv_len; lia).
    pose proof (dropped_holds b n Hwf Hd) as Hh.
    destruct Hwf as (_ & _ & _ & Hs). unfold recv_len, recv_bytes, wf_storage in *.
    destruct (storage b) as [m|buffer start finish] eqn:Es; simpl in *;
      (split; [by apply compact_holds|]); [done|].
    destruct Hs as [Hr _]. rewrite (managed_length _ _ _ Hr) in Hd.
    f_equal. unfold zslice. rewrite ztake_ztake. f_equal. lia.
Qed.

(** Taking a payload leaves the limits as they were; from a managed buffer it
    also takes the lease. *)
Lemma take_payload_ok b from to consumed : wf_recv b -> 0 <= from -> 0 <= to -> 0 <= consumed ->
  let '(b', r) := take_payload b from to consumed in
  wf_recv b' /\
  recv_bytes b' = zdrop (taken (recv_bytes b) (OpPayload from to consumed)) (recv_bytes b) /\
  (exists a, r = Returns a /\ queue_answer (recv_bytes b) (OpPayload from to consumed) [] (APayload a)) /\
  (managed_permit b' = managed_permit b /\ lease_of r = 0 \/
   managed_permit b = Some false /\ managed_permit b' = Some true /\ lease_of r = 1).
Proof.
  intros Hwf Hf Ht Hc. unfold take_payload, recv_len. simpl.
  destruct (Z.ltb_spec to from) as [H1|H1]; simpl;
    [|destruct (Z.ltb_spec consumed to) as [H2|H2]; simpl;
      [|destruct (Z.ltb_spec (zlen (recv_bytes b)) consumed) as [H3|H3]; simpl]].
  1-3: rewrite (proj2 (andb_false_iff _ _)) by (rewrite ?andb_false_iff, ?Z.leb_gt; lia);
    rewrite zdrop_0 by lia; split_and!; [done..|eauto|by left].
  rewrite !(proj2 (Z.leb_le _ _)) by lia. simpl.
  assert (Hd : 0 <= consumed <= recv_len b) by (unfold recv_len; lia).
  pose proof (dropped_holds b consumed Hwf Hd) as Hh.
  pose proof Hwf as (Hp & Hm & Hl & Hs). unfold recv_len, recv_bytes, wf_storage in Hd, H3, Hh, Hs |- *.
  destruct (storage b) as [m|buffer start finish] eqn:Es; simpl in *.
  - apply compact_holds in Hh. split_and!.
    + apply (holds_wf b _ _ Hwf Hh). unfold recv_len, recv_bytes in Hl. rewrite Es in Hl. simpl in Hl.
      rewrite zlen_zdrop; lia.
    + apply Hh.
    + eexists; split; [done|]. eexists; split_and!; [done..|]. simpl. rewrite ztake_ztake, Z.min_l by lia.
      unfold zslice, ztake, zdrop. rewrite skipn_firstn_comm. f_equal. lia.
    + left. split; [apply Hh | done].
  - destruct Hs as [Hr ->]. rewrite (managed_length _ _ _ Hr) in Hd, H3. unfold from_managed.
    rewrite (proj2 (Z.ltb_ge _ _)) by lia. rewrite (proj2 (Z.ltb_ge _ _)) by lia. simpl.
    assert (Hrest : bm_bytes (if start + consumed <? finish
        then mkBytesMut (zslice (start + consumed) finish buffer) (capacity_for (zlen (zslice (start + consumed) finish buffer)))
        else BytesMut_new) = zdrop consumed (zslice start finish buffer)).
    { rewrite zdrop_zslice by lia. destruct (Z.ltb_spec (start + consumed) finish); [done|].
      unfold zslice. by rewrite ztake_0 by lia. }
    split_and!.
    + unfold wf_recv, recv_len, recv_bytes, wf_storage. simpl. rewrite Hrest.
      unfold recv_len, recv_bytes in Hl. rewrite Es in Hl. simpl in Hl. split_and!; try lia; try done.
      rewrite zlen_zdrop, (managed_length _ _ _ Hr) by lia. rewrite (managed_length _ _ _ Hr) in Hl. lia.
    + done.
    + eexists; split; [done|]. eexists; split_and!; [done|simpl; lia..|].
      simpl. rewrite zslice_zslice by lia. done.
    + by right.
Qed.

(** A read that brought nothing in. *)
Ltac no_input := split_and!; try done; eexists; split; [reflexivity|first [exact I | reflexivity]].

Lemma read_status_ok r target start (fill : bytes) :
  match read_status tls r target start (start + zlen fill) with
  | Ok (StatusData n) => n = zlen fill /\ 0 < n
  | Ok StatusEof => fill = []
  | Err _ => True
  end.
Proof.
  unfold read_status. destruct r as [count|e]; [|done].
  destruct (target <? count); simpl; [done|].
  destruct (Z.eqb_spec (start + zlen fill) (start + count)); simpl; [|done].
  pose proof (zlen_nonneg fill).
  destruct (Z.eqb_spec count 0); [apply zlen_0_nil; lia | lia].
Qed.

Lemma recv_read_ok w b c : wf_recv b ->
  let '(w', b', r) := recv_read tls w b c in
  exists fill, received w' = received w ++ fill /\ holds b b' (recv_bytes b ++ fill) /\ wf_recv b' /\
    exists a, r = Returns a /\ queue_answer (recv_bytes b) (OpRead c) fill (AStatus a).
Proof.
  intros Hwf. unfold recv_read.
  assert (Hsame : holds b b (recv_bytes b)) by (split_and!; try done; apply Hwf).
  destruct (c && rt_cancel_requested w); [exists []; rewrite !app_nil_r; no_input|].
  pose proof (make_portable_holds b Hwf) as Hm. pose proof (make_portable_storage b) as [m Es].
  assert (Hwf' : wf_recv (make_portable b)) by (apply (holds_wf _ _ _ Hwf Hm); apply Hwf).
  pose proof Hm as (Hq & Hpm & Hpr & Hmx & _).
  cbv zeta. unfold checked_sub. rewrite (proj2 (Z.leb_le _ _)) by apply Hwf'.
  destruct (Z.eqb_spec (max_retained (make_portable b) - recv_len (make_portable b)) 0) as [E0|E0].
  { exists []. rewrite !app_nil_r. no_input. }
  rewrite Es. destruct (ar_read w _) as [w' [r fill]] eqn:Er. apply law_read in Er as [Hfill Hrec]; [|unfold wf_recv in Hwf'; lia].
  exists fill. unfold recv_bytes in Hq. rewrite Es in Hq. simpl in Hq.
  assert (Hh : forall m', bm_bytes m' = recv_bytes b ++ fill ->
    holds b (set_storage (make_portable b) (Portable m')) (recv_bytes b ++ fill)).
  { intros m' Hm'. split_and!; simpl; done. }
  split_and!; [done|apply Hh; simpl; by rewrite Hq| |].
  - eapply (holds_wf b _ _ Hwf); [apply Hh; simpl; by rewrite Hq|].
    rewrite zlen_app, <- Hmx. change (zlen (recv_bytes b)) with (zlen (storage_bytes (storage b))).
    unfold recv_len, recv_bytes in Hfill, E0. rewrite Es in Hfill, E0. simpl in Hfill, E0. rewrite <- Hq. lia.
  - eexists; split; [done|]. simpl. unfold recv_len, recv_bytes. rewrite Es. simpl. rewrite zlen_app.
    apply read_status_ok.
Qed.

Lemma managed_read_ok w requested :
  0 < requested ->
  let '(w', r) := managed_read tls w requested in
  exists fill, received w' = received w ++ fill /\
    match r with
    | Ok (Some b) => fill = b /\ 0 < zlen b <= requested
    | Ok None | Err _ => fill = []
    end.
Proof.
  intros Hreq. unfold managed_read. destruct (ar_read_managed w requested) as [w' r] eqn:E.
  pose proof (law_read_managed _ _ _ _ E) as Hr. eexists. split; [exact Hr|].
  destruct r as [[b|]|e]; [|done..]. apply law_requested in E; [|done]. pose proof (zlen_nonneg b).
  destruct (Z.eqb_spec (zlen b) 0) as [E0|]; [by apply zlen_0_nil|].
  destruct (Z.ltb_spec requested (zlen b)); [lia|]. rewrite andb_false_r. split; [done|lia].
Qed.

Lemma read_managed_ok w b c : wf_recv b ->
  let '(w', b', r) := read_managed tls w b c in
  exists fill, received w' = received w ++ fill /\ recv_bytes b' = recv_bytes b ++ fill /\ wf_recv b' /\
    default false (managed_permit b') = default false (managed_permit b) /\
    exists a, r = Returns a /\ queue_answer (recv_bytes b) (OpRead c) fill (AStatus a).
Proof.
  intros Hwf. unfold read_managed.
  destruct (c && rt_cancel_requested w); [exists []; rewrite !app_nil_r; no_input|].
  assert (Hread : let '(w', b', r) := recv_read tls w b c in
    exists fill, received w' = received w ++ fill /\ recv_bytes b' = recv_bytes b ++ fill /\ wf_recv b' /\
      default false (managed_permit b') = default false (managed_permit b) /\
      exists a, r = Returns a /\ queue_answer (recv_bytes b) (OpRead c) fill (AStatus a)).
  { pose proof (recv_read_ok w b c Hwf) as Hr. destruct (recv_read tls w b c) as [[w' b'] r].
    destruct Hr as (fill & Hrec & (Hq & Hpm & _) & Hwf' & Ha). exists fill. rewrite Hpm. split_and!; done. }
  destruct (default false (managed_permit b)) eqn:Ep; [exact Hread|].
  destruct (Z.eqb_spec (zlen (recv_bytes b)) 0) as [E0|]; simpl; [|exact Hread]. clear Hread.
  apply zlen_0_nil in E0. pose proof Hwf as (Hp & Hm & Hl & Hs).
  assert (Hreq : 0 < Z.min (preferred_read b) (max_retained b)) by lia.
  pose proof (managed_read_ok w _ Hreq) as Hr. destruct (managed_read tls w _) as [w' r].
  destruct Hr as (fill & Hrec & Hr). destruct r as [[buffer|]|e]; simpl in *; exists fill.
  - destruct Hr as [-> Hlen]. rewrite E0. simpl.
    assert (Hfull : zslice 0 (zlen buffer) buffer = buffer) by (rewrite zslice_0; apply ztake_all; lia).
    unfold wf_recv, wf_storage, recv_len, recv_bytes. simpl. rewrite Hfull. split_and!; try done; try lia.
    eexists; split; [done|]. simpl. lia.
  - subst fill. rewrite app_nil_r in Hrec |- *. rewrite app_nil_r. no_input.
  - subst fill. rewrite app_nil_r in Hrec |- *. rewrite app_nil_r. no_input.
Qed.

(** Every operation, in every state a connection reaches: it answers without
    a panic as the byte queue does and keeps the invariant. *)
Lemma recv_step_ok (s : recv_sys W) o :
  wf_sys s -> op_ok o ->
  let '(s', a) := recv_step tls s o in
  let q := recv_bytes (sys_buffer s) in
  wf_sys s' /\
  exists fill ans, a = Returns ans /\ received (sys_world s') = received (sys_world s) ++ fill /\
    recv_bytes (sys_buffer s') = zdrop (taken q o) q ++ fill /\ queue_answer q o fill ans.
Proof.
  intros [Hwf Hle] Ho. destruct s as [w b leases]. simpl in *.
  assert (Hkeep : forall b' q, holds b b' q -> zlen q <= max_retained b -> wf_sys (mkSys w b' leases)).
  { intros b' q Hh Hq. split; simpl; [by apply (holds_wf b b' q)|]. destruct Hh as (_ & -> & _). done. }
  assert (Hdrop : forall n, zlen (zdrop n (recv_bytes b)) <= max_retained b).
  { intros n. destruct Hwf as (_ & _ & Hl & _). unfold recv_len in Hl. pose proof (zlen_nonneg (recv_bytes b)).
    destruct (Z.le_gt_cases 0 n); [rewrite zlen_zdrop by lia; lia | rewrite zdrop_0 by lia; lia]. }
  destruct o; simpl in Ho |- *.
  - pose proof (consume_ok b count Hwf Ho) as Hc. destruct (consume b count) as [b' r]. destruct Hc as [Hh Ha].
    split; [by eapply Hkeep, Hdrop|]. exists [], (ADone r). rewrite !app_nil_r. split_and!; try done. apply Hh.
  - pose proof (take_shared_prefix_ok b count Hwf Ho) as Hc. destruct (take_shared_prefix b count) as [b' r].
    destruct Hc as [Hh Ha].
    split; [by eapply Hkeep, Hdrop|]. exists [], (APrefix r). rewrite !app_nil_r. split_and!; try done. apply Hh.
  - destruct Ho as (Hf & Ht & Hc). pose proof (take_payload_ok b from to consumed Hwf Hf Ht Hc) as Hp.
    destruct (take_payload b from to consumed) as [b' r]. destruct Hp as (Hwf' & Hq & (a & Hr & Ha) & Hlease).
    split; [split; simpl; [done|]|].
    + rewrite Hle. destruct Hlease as [[-> ->]|(-> & -> & ->)]; [lia|done].
    + exists [], (APayload a). rewrite Hr, !app_nil_r. done.
  - split; [apply (Hkeep _ []); [split_and!; done | destruct Hwf as (? & ? & _); change (zlen (@nil byte)) with 0; lia]|].
    exists [], (APrefix (Ok (recv_bytes b))). rewrite !app_nil_r, zdrop_all by lia. done.
  - pose proof (recv_read_ok w b cancellation Hwf) as Hr. destruct (recv_read tls w b cancellation) as [[w' b'] r].
    destruct Hr as (fill & Hrec & (Hq & Hpm & _) & Hwf' & a & -> & Ha).
    split; [split; simpl; [done|by rewrite Hpm]|]. exists fill, (AStatus a). rewrite zdrop_0 by lia. done.
  - pose proof (read_managed_ok w b cancellation Hwf) as Hr.
    destruct (read_managed tls w b cancellation) as [[w' b'] r].
    destruct Hr as (fill & Hrec & Hq & Hwf' & Hpm & a & -> & Ha).
    split; [split; simpl; [done|]|].
    + rewrite Hle. destruct (managed_permit b) as [[]|], (managed_permit b') as [[]|]; done.
    + exists fill, (AStatus a). rewrite zdrop_0 by lia. done.
  - unfold release_lease. rewrite Hle. destruct (managed_permit b) as [[]|] eqn:Ep; simpl.
    + split; [split; simpl; [|done]|].
      * unfold wf_recv, wf_storage, recv_len, recv_bytes in *. simpl. rewrite Ep in Hwf.
        destruct (storage b); [done|]. destruct Hwf as (_ & _ & _ & _ & ?); done.
      * exists [], (ADone (Ok tt)). rewrite zdrop_0, !app_nil_r by lia. done.
    + split; [split; simpl; [done|]; by rewrite Ep|]. exists [], (ADone (Ok tt)). rewrite zdrop_0, !app_nil_r by lia. done.
    + split; [split; simpl; [done|]; by rewrite Ep|]. exists [], (ADone (Ok tt)). rewrite zdrop_0, !app_nil_r by lia. done.
Qed.

(** ** Whole histories *)

(** [queue_trace q ops answers input removed q']: from the queue [q] the
    operations answer as a byte queue fed [input] and leave [q'], having
    removed [removed] from its front. *)
Inductive queue_trace : bytes -> list recv_op -> list (call recv_answer) -> bytes -> bytes -> bytes -> Prop :=
| qt_nil q : queue_trace q [] [] [] [] q
| qt_step q o ops a answers fill input removed q' :
    queue_answer q o fill a ->
    queue_trace (zdrop (taken q o) q ++ fill) ops answers input removed q' ->
    queue_trace q (o :: ops) (Returns a :: answers) (fill ++ input) (ztake (taken q o) q ++ removed) q'.

Lemma queue_trace_conserves q ops answers input removed q' :
  queue_trace q ops answers input removed q' -> q ++ input = removed ++ q'.
Proof.
  induction 1 as [|q o ops a answers fill input removed q' Ha Ht IH]; [by rewrite app_nil_r|].
  rewrite <- (ztake_zdrop (taken q o) q) at 1. rewrite <- !app_assoc in *. f_equal. exact IH.
Qed.

Lemma recv_run_ok ops (s : recv_sys W) :
  wf_sys s -> Forall op_ok ops ->
  let '(s', answers) := recv_run tls s ops in
  wf_sys s' /\ exists input removed,
    received (sys_world s') = received (sys_world s) ++ input /\
    queue_trace (recv_bytes (sys_buffer s)) ops answers input removed (recv_bytes (sys_buffer s')).
Proof.
  intros Hwf Hops. revert s Hwf. induction Hops as [|o ops Ho Hops IH]; intros s Hwf; simpl.
  { split; [done|]. exists [], []. rewrite app_nil_r. split; [done|constructor]. }
  pose proof (recv_step_ok s o Hwf Ho) as Hs. destruct (recv_step tls s o) as [s1 a].
  destruct Hs as (Hwf1 & fill & ans & -> & Hrec & Hq & Ha). specialize (IH s1 Hwf1).
  destruct (recv_run tls s1 ops) as [s2 answers]. destruct IH as (Hwf2 & input & removed & Hrec2 & Ht).
  split; [done|]. eexists _, _. split; [|econstructor; [exact Ha|rewrite Hq in Ht; exact Ht]].
  by rewrite Hrec2, Hrec, app_assoc.
Qed.

Lemma new_wf w preferred max_retained b :
  0 <= preferred -> is_usize max_retained -> RecvBuffer_new preferred max_retained = Ok b -> wf_sys (mkSys (W := W) w b 0).
Proof.
  unfold RecvBuffer_new, is_usize. intros Hp Hm.
  destruct (Z.eqb_spec preferred 0), (Z.ltb_spec max_retained preferred); simpl; intros [= <-].
  split; simpl; [|done]. unfold wf_recv, recv_len. simpl. split_and!; try lia; [|done].
  change (recv_bytes _) with (@nil byte). change (zlen (@nil byte)) with 0. lia.
Qed.

Lemma fresh_buffer_wf (w : W) preferred max b :
  0 <= preferred -> is_usize max -> RecvBuffer_new preferred max = Ok b -> wf_recv b /\ recv_bytes b = [].
Proof.
  intros Hp Hm Hb. destruct (new_wf w preferred max b Hp Hm Hb) as [Hwf _]. split; [exact Hwf|].
  revert Hb. unfold RecvBuffer_new. destruct (_ || _); [done|]. by intros [= <-].
Qed.

(** C19: A receive buffer is a byte queue: in every history of reads, portable
    or managed, of parses, payload extractions and lease releases, nothing
    panics, each answer is the queue's (a payload is exactly the bytes the
    decoder named), and the bytes removed followed by the bytes retained are
    the bytes the transport delivered. *)
Theorem recv_refines_queue preferred max_retained b (w : W) ops s answers :
  0 <= preferred -> is_usize max_retained -> RecvBuffer_new preferred max_retained = Ok b ->
  Forall op_ok ops -> recv_run tls (mkSys w b 0) ops = (s, answers) ->
  exists input removed, received (sys_world s) = received w ++ input /\
    queue_trace [] ops answers input removed (recv_bytes (sys_buffer s)) /\
    input = removed ++ recv_bytes (sys_buffer s).
Proof.
  intros Hp Hm Hb Hops Hrun. pose proof (new_wf w _ _ _ Hp Hm Hb) as Hwf.
  pose proof (recv_run_ok ops _ Hwf Hops) as Hr. rewrite Hrun in Hr.
  assert (recv_bytes b = []) as Hq0.
  { revert Hb. unfold RecvBuffer_new. destruct (_ || _); [done|]. by intros [= <-]. }
  destruct Hr as (_ & input & removed & Hrec & Ht). simpl in Ht. rewrite Hq0 in Ht.
  exists input, removed. split_and!; [done..|]. by apply queue_trace_conserves in Ht.
Qed.

Lemma compact_max b : max_retained (compact_if_empty b) = max_retained b.
Proof. unfold compact_if_empty. repeat case_match; done. Qed.

Lemma make_portable_max b : max_retained (make_portable b) = max_retained b.
Proof. unfold make_portable. by case_match. Qed.

Lemma recv_read_max w b c : max_retained (snd (fst (recv_read tls w b c))) = max_retained b.
Proof.
  unfold recv_read. destruct (_ && _); [done|]. cbv zeta. destruct (checked_sub _ _); simpl;
    [|apply make_portable_max]. destruct (_ =? 0); [apply make_portable_max|].
  destruct (storage (make_portable b)); [|apply make_portable_max].
  destruct (ar_read w _) as [w' [r fill]]. simpl. apply make_portable_max.
Qed.

(** The limit is fixed for the buffer's life. *)
Lemma recv_step_max (s : recv_sys W) o :
  max_retained (sys_buffer (fst (recv_step tls s o))) = max_retained (sys_buffer s).
Proof.
  destruct s as [w b leases]. destruct o; simpl.
  - unfold consume. destruct (_ <? _); [done|]. simpl. rewrite compact_max. by case_match.
  - unfold take_shared_prefix. destruct (_ <? _); [done|]. destruct (storage b); (etrans; [apply compact_max|done]).
  - unfold take_payload. destruct (_ || _); [done|]. destruct (storage b); simpl; [by etrans; [apply compact_max|]|].
    destruct (managed_permit b); [|done]. by destruct (from_managed _ _ _ _).
  - done.
  - pose proof (recv_read_max w b cancellation) as Hr. by destruct (recv_read tls w b cancellation) as [[? ?] ?].
  - pose proof (recv_read_max w b cancellation) as Hr. unfold read_managed.
    destruct (recv_read tls w b cancellation) as [[? ?] ?]. destruct (_ && _); [done|].
    destruct (default _ _); [done|]. destruct (negb _); [done|]. by destruct (managed_read tls w _) as [? [[|]|]].
  - unfold release_lease. destruct (0 <? leases); [|done]. by destruct (managed_permit b) as [[]|].
Qed.

Lemma recv_run_max ops (s : recv_sys W) :
  max_retained (sys_buffer (fst (recv_run tls s ops))) = max_retained (sys_buffer s).
Proof.
  revert s. induction ops as [|o ops IH]; intros s; simpl; [done|].
  pose proof (recv_step_max s o) as Hs. destruct (recv_step tls s o) as [s1 a].
  specialize (IH s1). destruct (recv_run tls s1 ops) as [s2 answers]. simpl in *. congruence.
Qed.

(** C38: Retained input never exceeds its limit and a connection never has two
    managed leases out, whatever the application keeps and whenever it drops
    it; a buffer still being parsed is never leased. *)
Theorem recv_bounded preferred max b (w : W) ops s answers :
  0 <= preferred -> is_usize max -> RecvBuffer_new preferred max = Ok b ->
  Forall op_ok ops -> recv_run tls (mkSys w b 0) ops = (s, answers) ->
  recv_len (sys_buffer s) <= max /\ 0 <= sys_leases s <= 1 /\
  match storage (sys_buffer s) with Managed _ _ _ => sys_leases s = 0 | Portable _ => True end.
Proof.
  intros Hp Hm Hb Hops Hrun. pose proof (new_wf w _ _ _ Hp Hm Hb) as Hwf.
  pose proof (recv_run_ok ops _ Hwf Hops) as Hr. rewrite Hrun in Hr.
  pose proof (recv_run_max ops (mkSys w b 0)) as Hmax. rewrite Hrun in Hmax. simpl in Hmax.
  assert (max_retained b = max) as Hb'.
  { revert Hb. unfold RecvBuffer_new. destruct (_ || _); [done|]. by intros [= <-]. }
  destruct Hr as (((_ & _ & Hl & Hs) & Hle) & _). split; [by rewrite <- Hb', <- Hmax|]. rewrite Hle. unfold wf_storage in Hs.
  destruct (storage (sys_buffer s)); [|destruct Hs as [_ ->]; done].
  destruct (managed_permit (sys_buffer s)) as [[]|]; done.
Qed.

End Invariant.

(** ** An evaluated history *)

Section Evaluated.

(** A transport that hands over the segments of a script. *)
Record Segments := mkSegments { seg_left : list bytes; seg_received : bytes }.

#[local] Instance Segments_Runtime : Runtime Segments := {
  rt_yield w := w;
  rt_cancel_requested _ := false;
  operation_canceled := mkIoError IoOther false true None;
}.

#[local] Instance Segments_AsyncRead : AsyncRead Segments := {
  ar_read w target :=
    match seg_left w with
    | [] => (w, (Ok 0, []))
    | b :: rest => (mkSegments rest (seg_received w ++ ztake target b), (Ok (zlen (ztake target b)), ztake target b))
    end;
  ar_read_managed w requested :=
    match seg_left w with
    | [] => (w, Ok None)
    | b :: rest => (mkSegments rest (seg_received w ++ ztake requested b), Ok (Some (ztake requested b)))
    end;
}.

#[local] Instance Segments_Allocator : BytesAllocator := { capacity_for n := n; reserved_capacity c n := c + n }.

Lemma zlen_ztake_le (n : Z) (b : bytes) : 0 <= n -> zlen (ztake n b) <= n.
Proof. intros. rewrite zlen_ztake by lia. lia. Qed.

#[local] Instance Segments_Reads : Reads Segments.
Proof.
  refine {| received := seg_received |}.
  - intros w target w' r fill Ht. simpl.
    destruct (seg_left w) as [|b rest]; intros [= <- <- <-]; simpl;
      (split; [|by rewrite ?app_nil_r]); [change (zlen (@nil byte)) with 0; lia | by apply zlen_ztake_le; lia].
  - intros w requested w' r. simpl.
    destruct (seg_left w) as [|b rest]; intros [= <- <-]; simpl; by rewrite ?app_nil_r.
  - intros w requested w' b Hr. simpl.
    destruct (seg_left w) as [|c rest]; intros [=]; subst. apply zlen_ztake_le; lia.
Defined.

(** A head read into a managed lease, its prefix taken, its payload leased to
    the application; the next read is portable until the lease comes back. *)
Definition history : list recv_op :=
  [OpReadManaged true; OpPrefix 4; OpPayload 0 2 3; OpReadManaged true; OpRelease; OpTakeAll; OpReadManaged true].

Definition history_start : recv_sys Segments :=
  mkSys (mkSegments [bs "HEADabxcd"; bs "ef"; bs "g"] []) (mkRecvBuffer (Portable (with_capacity 9)) None 9 16) 0.

Lemma recv_refines_queue_witness :
  exists input removed, received (sys_world (fst (recv_run false history_start history))) = [] ++ input /\
    queue_trace [] history (snd (recv_run false history_start history)) input removed
      (recv_bytes (sys_buffer (fst (recv_run false history_start history)))) /\
    input = removed ++ recv_bytes (sys_buffer (fst (recv_run false history_start history))).
Proof.
  refine (recv_refines_queue false 9 16 (mkRecvBuffer (Portable (with_capacity 9)) None 9 16)
    (mkSegments [bs "HEADabxcd"; bs "ef"; bs "g"] []) history _ _ _ _ _ _ _).
  - lia.
  - vm_compute. split; discriminate.
  - reflexivity.
  - repeat constructor; simpl; lia.
  - apply surjective_pairing.
Defined.

Lemma recv_bounded_witness :
  recv_len (sys_buffer (fst (recv_run false history_start history))) <= 16.
Proof.
  refine (proj1 (recv_bounded false 9 16 (mkRecvBuffer (Portable (with_capacity 9)) None 9 16)
    (mkSegments [bs "HEADabxcd"; bs "ef"; bs "g"] []) history _ _ _ _ _ _ _)).
  - lia.
  - vm_compute. split; discriminate.
  - reflexivity.
  - repeat constructor; simpl; lia.
  - apply surjective_pairing.
Defined.

(** The second read of [history] is portable: the lease is still out. *)
Example history_leases :
  map (fun n => sys_leases (fst (recv_run false history_start (take n history)))) [2; 3; 4; 5; 7]%nat = [0; 1; 1; 0; 0].
Proof. reflexivity. Qed.

End Evaluated.
