(* ===== verification/Readers.v ===== *)
(** Bodies over owned readers and files (src/src/body/reader.rs and
    src/src/body/file.rs).

    The read in progress is a retained future, so these bodies are modelled poll
    by poll. A wait that is dropped leaves the operation where it was: the next
    wait starts at the same state as another poll of the first would, which is
    why a sequence of polls stands for any sequence of waits, finished or
    dropped. *)

From Stdlib Require Import ZArith Lia.
From stdpp Require Import base list option.
From S2P Require Import Prelude Http Errors Body Pipe Future Incoming Recv.

Definition DEFAULT_CHUNK : Z := 16 * 1024.
Definition isize_max : Z := 2 ^ 63 - 1.

(** A reader's operation: [submit] creates [reader.read(buffer.slice(..width))]
    under a cancellation source of its own, [cancel_op] cancels that source; the
    operation gives the reader and the buffer back. *)
Class OwnedReader (R Op : Type) := {
  submit : R -> BytesMut -> Z -> Op;
  cancel_op : Op -> Op;
}.

Definition bm_clear (b : BytesMut) : BytesMut := mkBytesMut [] (bm_capacity b).

(** [BytesMut::reserve] *)
Definition bm_reserve {alloc : BytesAllocator} (b : BytesMut) (additional : Z) : BytesMut :=
  if zlen (bm_bytes b) + additional <=? bm_capacity b then b
  else mkBytesMut (bm_bytes b) (reserved_capacity (bm_capacity b) additional).

Definition inconsistent_progress : IoError := mkIoError IoInvalidData false false None.

Definition validate (result : result Z IoError) (buffer : BytesMut) (width : Z) : Prelude.result Z IoError :=
  if (width <? zlen (bm_bytes buffer)) ||
     match result with Ok count => (width <? count) || negb (count =? zlen (bm_bytes buffer)) | Err _ => false end
  then Err inconsistent_progress
  else result.

(** ** The retained read *)

Section OwnedRead.
Context {alloc : BytesAllocator} {R Op S : Type} `{!OwnedReader R Op} `{Future Op S (R * (result Z IoError * BytesMut))}.

Inductive State : Type :=
| Idle (reader : R)
| PendingRead (operation : Op) (width : Z).

Record OwnedRead := mkOwnedRead {
  or_state : option State;
  or_spare : option BytesMut;
}.

Definition OwnedRead_new (reader : R) : OwnedRead := mkOwnedRead (Some (Idle reader)) None.

(** An idle reader's next operation, in the spare buffer or a new one. *)
Definition submitted (x : OwnedRead) (width : Z) : OwnedRead :=
  match or_state x with
  | Some (Idle reader) =>
      let buffer := match or_spare x with Some b => b | None => with_capacity width end in
      let buffer := bm_reserve (bm_clear buffer) width in
      mkOwnedRead (Some (PendingRead (submit reader buffer width) width)) None
  | _ => x
  end.

Definition read (width : Z) (x : OwnedRead) (s : S) : OwnedRead * S * Poll (call (result Z IoError * BytesMut)) :=
  let x := submitted x width in
  match or_state x with
  | Some (PendingRead operation width) =>
      let '(operation, s, r) := poll operation s in
      match r with
      | Pending => (mkOwnedRead (Some (PendingRead operation width)) (or_spare x), s, Pending)
      | Ready (reader, (result, buffer)) =>
          (mkOwnedRead (Some (Idle reader)) (or_spare x), s, Ready (Returns (validate result buffer width, buffer)))
      end
  | _ => (x, s, Ready Panics)
  end.

Definition or_recycle (x : OwnedRead) (buffer : BytesMut) : OwnedRead :=
  let buffer := bm_clear buffer in
  match or_spare x with
  | None => mkOwnedRead (or_state x) (Some buffer)
  | Some _ => x
  end.

Record ReaderParts := mkReaderParts {
  rp_reader : R;
  rp_buffer : BytesMut;
  rp_result : option (result Z IoError);
}.

(** [into_parts], before and after its cancellation. *)
Inductive Parting : Type :=
| Parts (x : OwnedRead)
| PartsPending (operation : Op) (width : Z)
| PartsDone.

Definition settle_read (operation : Op) (width : Z) (s : S) : Parting * S * Poll (call ReaderParts) :=
  let '(operation, s, r) := poll operation s in
  match r with
  | Pending => (PartsPending operation width, s, Pending)
  | Ready (reader, (result, buffer)) =>
      (PartsDone, s, Ready (Returns (mkReaderParts reader buffer (Some (validate result buffer width)))))
  end.

#[export] Instance into_parts : Future Parting S (call ReaderParts) := fun p s =>
  match p with
  | Parts x =>
      match or_state x with
      | None => (PartsDone, s, Ready Panics)
      | Some (Idle reader) =>
          (PartsDone, s, Ready (Returns (mkReaderParts reader (match or_spare x with Some b => b | None => BytesMut_new end) None)))
      | Some (PendingRead operation width) => settle_read (cancel_op operation) width s
      end
  | PartsPending operation width => settle_read operation width s
  | PartsDone => (PartsDone, s, Pending)
  end.

(** ** The body over a reader *)

Record ReaderBody := mkReaderBody {
  rb_reads : OwnedRead;
  rb_chunk_size : Z;
  rb_done : bool;
}.

Definition ReaderBody_new (reader : R) : ReaderBody := mkReaderBody (OwnedRead_new reader) DEFAULT_CHUNK false.

Definition with_chunk_size (reader : R) (chunk_size : Z) : result ReaderBody IoError :=
  if (chunk_size =? 0) || (isize_max <? chunk_size) then Err (mkIoError IoInvalidInput false false None)
  else Ok (mkReaderBody (OwnedRead_new reader) chunk_size false).

Definition next_chunk (width : Z) (b : ReaderBody) (s : S) : ReaderBody * S * Poll (call (result (option BytesMut) IoError)) :=
  if rb_done b then (b, s, Ready (Returns (Ok None)))
  else
    let '(reads, s, r) := read width (rb_reads b) s in
    let over (buffer : BytesMut) := mkReaderBody (or_recycle reads buffer) (rb_chunk_size b) true in
    let going := mkReaderBody reads (rb_chunk_size b) false in
    match r with
    | Pending => (going, s, Pending)
    | Ready Panics => (going, s, Ready Panics)
    | Ready (Returns (Ok count, buffer)) =>
        if count =? 0 then (over buffer, s, Ready (Returns (Ok None)))
        else (going, s, Ready (Returns (Ok (Some buffer))))
    | Ready (Returns (Err e, buffer)) => (over buffer, s, Ready (Returns (Err e)))
    end.

Definition rb_next_frame (b : ReaderBody) (s : S) : ReaderBody * S * Poll (call (result (option BytesMut) IoError)) :=
  next_chunk (rb_chunk_size b) b s.

Definition rb_size_hint (b : ReaderBody) : SizeHint := if rb_done b then with_exact 0 else SizeHint_new.

Definition rb_recycle (b : ReaderBody) (data : BytesMut) : ReaderBody :=
  if bm_capacity data <=? rb_chunk_size b then mkReaderBody (or_recycle (rb_reads b) data) (rb_chunk_size b) (rb_done b) else b.

End OwnedRead.
Arguments State : clear implicits.
Arguments OwnedRead : clear implicits.
Arguments ReaderParts : clear implicits.
Arguments Parting : clear implicits.
Arguments ReaderBody : clear implicits.

(** ** Files *)

(** [karmaio::fs::File]: its metadata's length and [file.read_at(buffer, offset)] *)
Class AsyncReadAt (File FOp S : Type) := {
  file_len : File -> S -> S * result Z IoError;
  submit_at : File -> BytesMut -> Z -> Z -> FOp;
  cancel_at : FOp -> FOp;
}.

Section FileBody.
Context {alloc : BytesAllocator} {File FOp S : Type} `{!AsyncReadAt File FOp S} `{Future FOp S (File * (result Z IoError * BytesMut))}.

Record PositionalFile := mkPositionalFile {
  pf_file : File;
  pf_offset : Z;
}.

(** A read at [fo_offset]. *)
Record FileOp := mkFileOp {
  fo_op : FOp;
  fo_offset : Z;
}.

Definition offset_overflow : IoError := mkIoError IoInvalidData false false None.

#[export] Instance PositionalFile_reader : OwnedReader PositionalFile FileOp := {
  submit f buffer width := mkFileOp (submit_at f.(pf_file) buffer f.(pf_offset) width) f.(pf_offset);
  cancel_op o := mkFileOp (cancel_at (fo_op o)) (fo_offset o);
}.

#[export] Instance PositionalFile_read : Future FileOp S (PositionalFile * (result Z IoError * BytesMut)) := fun o s =>
  let '(op, s, r) := poll (fo_op o) s in
  let o := mkFileOp op (fo_offset o) in
  match r with
  | Pending => (o, s, Pending)
  | Ready (file, (Ok count, buffer)) =>
      match checked_add u64_max (fo_offset o) count with
      | Some offset => (o, s, Ready (mkPositionalFile file offset, (Ok count, buffer)))
      | None => (o, s, Ready (mkPositionalFile file (fo_offset o), (Err offset_overflow, buffer)))
      end
  | Ready (file, (Err e, buffer)) => (o, s, Ready (mkPositionalFile file (fo_offset o), (Err e, buffer)))
  end.

Record FileBody := mkFileBody {
  fb_reader : ReaderBody PositionalFile FileOp;
  fb_snapshot_len : Z;
  fb_remaining : Z;
  fb_done : bool;
}.

Definition FileBody_new (file : File) (s : S) : S * result FileBody IoError :=
  let '(s, len) := file_len file s in
  (s, rmap (fun snapshot_len =>
        mkFileBody (ReaderBody_new (mkPositionalFile file 0)) snapshot_len snapshot_len false) len).

Definition file_ended : IoError := mkIoError IoUnexpectedEof false false None.

(** The subtraction is checked, as in a build with overflow checks. *)
Definition fb_next_frame (b : FileBody) (s : S) : FileBody * S * Poll (call (result (option BytesMut) IoError)) :=
  let after reader remaining done := mkFileBody reader (fb_snapshot_len b) remaining done in
  if fb_done b then (b, s, Ready (Returns (Ok None)))
  else if fb_remaining b =? 0 then (after (fb_reader b) (fb_remaining b) true, s, Ready (Returns (Ok None)))
  else
    let '(reader, s, r) := next_chunk (Z.min (fb_remaining b) (16 * 1024)) (fb_reader b) s in
    match r with
    | Pending => (after reader (fb_remaining b) false, s, Pending)
    | Ready Panics => (after reader (fb_remaining b) false, s, Ready Panics)
    | Ready (Returns (Ok (Some buffer))) =>
        if fb_remaining b <? zlen (bm_bytes buffer) then (after reader (fb_remaining b) false, s, Ready Panics)
        else (after reader (fb_remaining b - zlen (bm_bytes buffer)) false, s, Ready (Returns (Ok (Some buffer))))
    | Ready (Returns (Ok None)) => (after reader (fb_remaining b) true, s, Ready (Returns (Err file_ended)))
    | Ready (Returns (Err e)) => (after reader (fb_remaining b) true, s, Ready (Returns (Err e)))
    end.

Definition fb_size_hint (b : FileBody) : SizeHint := with_exact (if fb_done b then 0 else fb_remaining b).

Definition fb_is_end_stream (b : FileBody) : bool := fb_done b || (fb_remaining b =? 0).

Definition fb_recycle (b : FileBody) (data : BytesMut) : FileBody :=
  mkFileBody (rb_recycle (fb_reader b) data) (fb_snapshot_len b) (fb_remaining b) (fb_done b).

Record FileParts := mkFileParts {
  fp_file : File;
  fp_snapshot_len : Z;
  fp_offset : Z;
  fp_buffer : BytesMut;
  fp_result : option (result Z IoError);
}.

Definition file_parts (snapshot_len : Z) (p : ReaderParts PositionalFile) : FileParts :=
  mkFileParts (pf_file (rp_reader p)) snapshot_len (pf_offset (rp_reader p)) (rp_buffer p) (rp_result p).

End FileBody.
Arguments PositionalFile : clear implicits.
Arguments FileOp : clear implicits.
Arguments FileBody : clear implicits.
Arguments FileParts : clear implicits.

(** ** Using a body *)

(** A body polled for a frame, and given buffers back. *)
Class PollBody (B S : Type) := {
  frame_poll : B -> S -> B * S * Poll (call (result (option BytesMut) IoError));
  give_back : B -> BytesMut -> B;
}.

#[export] Instance ReaderBody_PollBody {alloc : BytesAllocator} {R Op S} `{!OwnedReader R Op}
    `{Future Op S (R * (result Z IoError * BytesMut))} : PollBody (ReaderBody R Op) S := {
  frame_poll := rb_next_frame;
  give_back := rb_recycle;
}.

#[export] Instance FileBody_PollBody {alloc : BytesAllocator} {File FOp S} `{!AsyncReadAt File FOp S}
    `{Future FOp S (File * (result Z IoError * BytesMut))} : PollBody (FileBody File FOp) S := {
  frame_poll := fb_next_frame;
  give_back := fb_recycle;
}.

Inductive Use : Type :=
| UsePoll
| UseRecycle (d : BytesMut).

(** The answers of a sequence of polls and recyclings; other tasks run after
    each poll. *)
Fixpoint uses {B S} `{!PollBody B S} `{Suspends S} (us : list Use) (b : B) (s : S)
    : B * S * list (call (result (option BytesMut) IoError)) :=
  match us with
  | [] => (b, s, [])
  | UsePoll :: us =>
      let '(b, s, r) := frame_poll b s in
      let '(b, s, out) := uses us b (suspend s) in
      (b, s, match r with Ready a => a :: out | Pending => out end)
  | UseRecycle d :: us => uses us (give_back b d) s
  end.

(** Frames as their bytes. *)
Definition shown_bytes (a : call (result (option BytesMut) IoError)) : call (result (option bytes) IoError) :=
  map_call (rmap (option_map bm_bytes)) a.

(** ** The reader's completions reach the consumer *)

(** [completions] is what the reader's operations have completed with. *)
Class ReadLaws {R Op S : Type} `{Future Op S (R * (result Z IoError * BytesMut))} `{Suspends S} := {
  completions : S -> list (result Z IoError * bytes);
  law_completed op s op' s' reader r buffer : poll op s = (op', s', Ready (reader, (r, buffer))) ->
    completions s' = completions s ++ [(r, bm_bytes buffer)];
  law_uncompleted op s op' s' : poll op s = (op', s', Pending) -> completions s' = completions s;
  law_others s : completions (suspend s) = completions s;
}.
#[global] Arguments ReadLaws R Op S {_ _}.

(** How a completion can be refused. *)
Definition refused (width : Z) (r : result Z IoError) (d : bytes) (e : IoError) : Prop :=
  (zlen d <= width /\ r = Err e) \/
  (e = inconsistent_progress /\ (width < zlen d \/ exists n, r = Ok n /\ n <> zlen d)).

(** What a consumer sees of completions; the boolean is whether it is over. *)
Inductive delivered (width : Z) : list (result Z IoError * bytes) -> list (result (option bytes) IoError) -> bool -> Prop :=
| delivered_open : delivered width [] [] false
| delivered_end k : delivered width [(Ok 0, [])] (Ok None :: repeat (Ok None) k) true
| delivered_failed r d e k : refused width r d e -> delivered width [(r, d)] (Err e :: repeat (Ok None) k) true
| delivered_frame d cs out over : d <> [] -> zlen d <= width -> delivered width cs out over ->
    delivered width ((Ok (zlen d), d) :: cs) (Ok (Some d) :: out) over.

Lemma validate_cases r b width :
  (validate r b width = r /\ zlen (bm_bytes b) <= width /\ (forall n, r = Ok n -> n = zlen (bm_bytes b))) \/
  (validate r b width = Err inconsistent_progress /\ refused width r (bm_bytes b) inconsistent_progress).
Proof.
  unfold validate, refused. destruct (Z.ltb_spec width (zlen (bm_bytes b))); simpl; [naive_solver|].
  destruct r as [n|e]; simpl; [|left; done].
  destruct (Z.ltb_spec width n), (Z.eqb_spec n (zlen (bm_bytes b))); simpl; try lia.
  - right. split; [done|]. right. split; [done|]. right. by exists n.
  - left. split_and!; [done..|]. by intros m [= ->].
  - right. split; [done|]. right. split; [done|]. right. by exists n.
Qed.

Section Reader.
Context {alloc : BytesAllocator} {R Op S : Type} `{!OwnedReader R Op} `{HF : Future Op S (R * (result Z IoError * BytesMut))}.
Context `{!Suspends S} `{!ReadLaws R Op S}.

(** The retained read has the body's width. *)
Definition reading (width : Z) (x : OwnedRead R Op) : Prop :=
  match or_state x with
  | Some (Idle _) => True
  | Some (PendingRead _ w) => w = width
  | None => False
  end.

Lemma recycle_reading width x d : reading width (or_recycle x d) <-> reading width x.
Proof. unfold reading, or_recycle. by destruct (or_spare x). Qed.

(** One poll of a read. *)
Definition read_answer (width : Z) (s s' : S) (r : Poll (call (result Z IoError * BytesMut))) : Prop :=
  match r with
  | Pending => completions s' = completions s
  | Ready Panics => False
  | Ready (Returns (r, buffer)) =>
      exists r0, r = validate r0 buffer width /\ completions s' = completions s ++ [(r0, bm_bytes buffer)]
  end.

Lemma read_ok width x s x' s' r : reading width x -> read width x s = (x', s', r) -> reading width x' /\ read_answer width s s' r.
Proof.
  unfold reading, read, submitted. intros Hx. destruct (or_state x) as [[reader|op w]|] eqn:Ex; [|subst w|done]; simpl.
  all: rewrite ?Ex; destruct (poll _ s) as [[op1 s1] [[reader1 [r1 buffer]]|]] eqn:Ep; intros [= <- <- <-]; simpl; split; try done.
  all: first [by eexists; split; [done|]; eapply law_completed | by eapply law_uncompleted].
Qed.

Lemma over_uses us (b : ReaderBody R Op) s b' s' out : rb_done b = true -> uses us b s = (b', s', out) ->
  rb_done b' = true /\ completions s' = completions s /\ exists k, out = repeat (Returns (Ok None)) k.
Proof.
  revert b s out. induction us as [|[|d] us IH]; intros b s out Hd; simpl.
  - intros [= <- <- <-]. split_and!; [done..|]. by exists 0%nat.
  - unfold rb_next_frame, next_chunk. rewrite Hd. destruct (uses us b (suspend s)) as [[b1 s1] out1] eqn:Eu. intros [= <- <- <-].
    destruct (IH b (suspend s) out1 Hd Eu) as (? & -> & k & ->). rewrite law_others. split_and!; [done..|]. by exists (Datatypes.S k).
  - intros Hu. eapply IH; [|exact Hu]. unfold rb_recycle. by destruct (_ <=? _).
Qed.

(** One poll of the body. *)
Definition frame_answer (width : Z) (b' : ReaderBody R Op) (s s' : S) (r : Poll (call (result (option BytesMut) IoError))) : Prop :=
  match r with
  | Pending => rb_done b' = false /\ completions s' = completions s
  | Ready a => exists r0 d, completions s' = completions s ++ [(r0, d)] /\
      ((rb_done b' = false /\ shown_bytes a = Returns (Ok (Some d)) /\ r0 = Ok (zlen d) /\ d <> [] /\ zlen d <= width) \/
       (rb_done b' = true /\ exists x, shown_bytes a = Returns x /\ forall k, delivered width [(r0, d)] (x :: repeat (Ok None) k) true))
  end.

Lemma frame_ok width b s b' s' r :
  rb_chunk_size b = width -> rb_done b = false -> reading width (rb_reads b) -> rb_next_frame b s = (b', s', r) ->
  rb_chunk_size b' = width /\ reading width (rb_reads b') /\ frame_answer width b' s s' r.
Proof.
  intros Hc Hd Hr. unfold rb_next_frame, next_chunk. rewrite Hd, Hc. destruct (read width (rb_reads b) s) as [[x s1] rr] eqn:Er.
  destruct (read_ok width (rb_reads b) s x s1 rr Hr Er) as [Hx Ha]. destruct rr as [[[rr buffer]|]|]; simpl in Ha; [|done|].
  - destruct Ha as (r0 & -> & Ha). destruct (validate_cases r0 buffer width) as [(-> & Hw & Hn)|[-> Hf]].
    + destruct r0 as [n|e]; [pose proof (Hn n eq_refl) as ->; destruct (Z.eqb_spec (zlen (bm_bytes buffer)) 0) as [Hz|Hz]|];
        intros [= <- <- <-]; simpl; rewrite ?recycle_reading; (split_and!; [done..|]); eexists _, _; (split; [exact Ha|]).
      * right. split; [done|]. eexists. split; [done|]. intros k. rewrite Hz. apply zlen_0_nil in Hz as ->. constructor.
      * left. split_and!; try done. intros Hnil. by rewrite Hnil in Hz.
      * right. split; [done|]. eexists. split; [done|]. intros k. constructor. by left.
    + intros [= <- <- <-]; simpl; rewrite ?recycle_reading. split_and!; [done..|]. eexists _, _. split; [exact Ha|].
      right. split; [done|]. eexists. split; [done|]. intros k. by constructor.
  - intros [= <- <- <-]. done.
Qed.

Lemma reader_uses us width (b : ReaderBody R Op) s b' s' out :
  rb_chunk_size b = width -> rb_done b = false -> reading width (rb_reads b) -> uses us b s = (b', s', out) ->
  exists cs answers, completions s' = completions s ++ cs /\ delivered width cs answers (rb_done b') /\
    map shown_bytes out = map Returns answers.
Proof.
  revert b s out. induction us as [|[|d] us IH]; intros b s out Hc Hd Hr; simpl.
  - intros [= <- <- <-]. exists [], []. rewrite app_nil_r, Hd. split_and!; [done|constructor|done].
  - destruct (rb_next_frame b s) as [[b1 s1] r] eqn:Ef. destruct (uses us b1 (suspend s1)) as [[b2 s2] out1] eqn:Eu. intros [= <- <- <-].
    destruct (frame_ok width b s b1 s1 r Hc Hd Hr Ef) as (Hc1 & Hr1 & Ha). destruct r as [a|]; simpl in Ha.
    + destruct Ha as (r0 & d & Hs & [(Hd1 & Hsh & -> & Hne & Hw)|(Hd1 & x & Hsh & Hx)]).
      * destruct (IH b1 (suspend s1) out1 Hc1 Hd1 Hr1 Eu) as (cs & answers & Hcs & Hdel & Hout).
        exists ((Ok (zlen d), d) :: cs), (Ok (Some d) :: answers). rewrite Hcs, law_others, Hs, <- app_assoc. simpl.
        rewrite Hsh, Hout. split_and!; [done|by constructor|done].
      * destruct (over_uses us b1 (suspend s1) b2 s2 out1 Hd1 Eu) as (Hd2 & Hcs & k & ->).
        exists [(r0, d)], (x :: repeat (Ok None) k). rewrite Hcs, law_others, Hs, Hd2. simpl. rewrite Hsh, !map_repeat.
        split_and!; [done|apply Hx|done].
    + destruct Ha as [Hd1 Hs]. destruct (IH b1 (suspend s1) out1 Hc1 Hd1 Hr1 Eu) as (cs & answers & Hcs & Hdel & Hout).
      exists cs, answers. by rewrite Hcs, law_others, Hs.
  - intros Hu. apply (IH (rb_recycle b d) s out); [..|exact Hu]; unfold rb_recycle; destruct (_ <=? _); simpl; try done.
    by apply recycle_reading.
Qed.

(** What [into_parts] gives back. *)
Definition parted (width : Z) (s s' : S) (p : call (ReaderParts R)) : Prop :=
  exists parts, p = Returns parts /\
    ((rp_result parts = None /\ completions s' = completions s) \/
     exists r, rp_result parts = Some (validate r (rp_buffer parts) width) /\
       completions s' = completions s ++ [(r, bm_bytes (rp_buffer parts))]).

Lemma settle_read_ok width op s p' s' r : settle_read op width s = (p', s', r) ->
  match r with
  | Pending => (exists op', p' = PartsPending op' width) /\ completions s' = completions s
  | Ready p => parted width s s' p
  end.
Proof.
  unfold settle_read. destruct (poll op s) as [[op1 s1] [[reader [rr buffer]]|]] eqn:Ep; intros [= <- <- <-].
  - eexists. split; [done|]. right. eexists. split; [done|]. by eapply law_completed.
  - split; [by eexists|by eapply law_uncompleted].
Qed.

Lemma parts_pending n width op s p' s' p : await n (PartsPending op width) s = (p', s', Some p) -> parted width s s' p.
Proof.
  revert op s. induction n as [|n IH]; intros op s; [done|]. simpl. unfold poll, into_parts. simpl.
  destruct (settle_read op width s) as [[p1 s1] r] eqn:Es. apply settle_read_ok in Es. destruct r as [a|].
  - intros [= <- <- <-]. exact Es.
  - destruct Es as [(op' & ->) Hs]. intros Hp%IH. unfold parted in *. by rewrite law_others, Hs in Hp.
Qed.

Lemma parts_ok n width x s p' s' p : reading width x -> await n (Parts x) s = (p', s', Some p) -> parted width s s' p.
Proof.
  unfold reading. destruct n as [|n]; [done|]. intros Hr. simpl. unfold poll, into_parts. simpl.
  destruct (or_state x) as [[reader|op w]|]; [|subst w|done].
  - intros [= <- <- <-]. eexists. split; [done|]. by left.
  - destruct (settle_read (cancel_op op) width s) as [[p1 s1] r] eqn:Es. apply settle_read_ok in Es. destruct r as [a|].
    + intros [= <- <- <-]. exact Es.
    + destruct Es as [(op' & ->) Hs]. intros Hp%parts_pending. unfold parted in *. by rewrite law_others, Hs in Hp.
Qed.

Lemma uses_reading us width (b : ReaderBody R Op) s b' s' out :
  rb_chunk_size b = width -> reading width (rb_reads b) -> uses us b s = (b', s', out) -> reading width (rb_reads b').
Proof.
  revert b s out. induction us as [|[|d] us IH]; intros b s out Hc Hr; simpl; [by intros [= <- <- <-]|..].
  - destruct (rb_next_frame b s) as [[b1 s1] r] eqn:Ef. destruct (uses us b1 (suspend s1)) as [[b2 s2] out1] eqn:Eu. intros [= <- <- <-].
    destruct (rb_done b) eqn:Hd.
    + unfold rb_next_frame, next_chunk in Ef. rewrite Hd in Ef. simplify_eq. by eapply IH.
    + destruct (frame_ok width b s b1 s1 r Hc Hd Hr Ef) as (Hc1 & Hr1 & _). by eapply IH.
  - intros Hu. eapply IH; [..|exact Hu]; unfold rb_recycle; destruct (_ <=? _); simpl; try done. by apply recycle_reading.
Qed.

(** C28: A body over a reader loses nothing. Whichever frame waits are finished
    or dropped and whatever is recycled in between, the consumer receives the
    reader's completions, each once and in order: non-empty frames within the
    chunk size, then the reader's end or its error, then nothing; a completion
    whose count and initialized bytes disagree is refused. Taking the body apart
    settles a read still in progress and hands its result and its bytes over. *)
Theorem reader_loses_nothing reader chunk b us s b' s' out n p' s'' p :
  with_chunk_size reader chunk = Ok b -> uses us b s = (b', s', out) -> await n (Parts (rb_reads b')) s' = (p', s'', Some p) ->
  exists cs answers, completions s' = completions s ++ cs /\ delivered chunk cs answers (rb_done b') /\
    map shown_bytes out = map Returns answers /\ parted chunk s' s'' p.
Proof.
  unfold with_chunk_size. destruct (_ || _); [done|]. intros [= <-] Hu Hp.
  destruct (reader_uses us chunk (mkReaderBody (OwnedRead_new reader) chunk false) s b' s' out eq_refl eq_refl I Hu)
    as (cs & answers & Hs & Hdel & Hout).
  exists cs, answers. split_and!; [done..|]. eapply parts_ok; [|exact Hp]. by eapply uses_reading in Hu.
Qed.

End Reader.

(** ** A file's body is its content up to the snapshot *)

(** [content] is the file's content, left alone while it is read; [op_at] is the
    offset and the width of an operation. *)
Class FileLaws {File FOp S : Type} `{!AsyncReadAt File FOp S} `{Future FOp S (File * (result Z IoError * BytesMut))} := {
  content : bytes;
  op_at : FOp -> Z * Z;
  law_submit_at f b offset width : op_at (submit_at f b offset width) = (offset, width);
  law_file_pending op s op' s' : poll op s = (op', s', Pending) -> op_at op' = op_at op;
  law_file_ready op s op' s' f n buffer : poll op s = (op', s', Ready (f, (Ok n, buffer))) ->
    bm_bytes buffer = ztake n (zdrop (fst (op_at op)) content);
  law_file_len f s s' n : file_len f s = (s', Ok n) -> is_u64 n;
}.
#[global] Arguments FileLaws File FOp S {_ _}.

Section Files.
Context {alloc : BytesAllocator} {File FOp S : Type} `{!AsyncReadAt File FOp S}.
Context `{HF : Future FOp S (File * (result Z IoError * BytesMut))} `{!Suspends S} `{!FileLaws File FOp S}.

(** The read, idle or retained, continues after the bytes delivered. *)
Definition positioned (offset width : Z) (x : OwnedRead (PositionalFile File) (FileOp FOp)) : Prop :=
  match or_state x with
  | Some (Idle f) => pf_offset f = offset
  | Some (PendingRead op w) => fo_offset op = offset /\ op_at (fo_op op) = (offset, w) /\ w = width
  | None => False
  end.

Lemma recycle_positioned offset width x d : positioned offset width (or_recycle x d) <-> positioned offset width x.
Proof. unfold positioned, or_recycle. by destruct (or_spare x). Qed.

(** One poll of a positioned read. *)
Definition positioned_answer (offset width : Z) (x' : OwnedRead (PositionalFile File) (FileOp FOp))
    (r : Poll (call (result Z IoError * BytesMut))) : Prop :=
  match r with
  | Pending => positioned offset width x'
  | Ready Panics => False
  | Ready (Returns (Err _, _)) => True
  | Ready (Returns (Ok n, buffer)) => n = zlen (bm_bytes buffer) /\ n <= width /\
      bm_bytes buffer = ztake n (zdrop offset content) /\ forall width', positioned (offset + n) width' x'
  end.

Lemma positioned_read offset width x s x' s' r :
  positioned offset width x -> read width x s = (x', s', r) -> positioned_answer offset width x' r.
Proof.
  intros Hx. assert (exists op, or_state (submitted x width) = Some (PendingRead op width) /\ fo_offset op = offset /\
    op_at (fo_op op) = (offset, width)) as (op & Ho & Hoff & Hat).
  { unfold positioned, submitted in *. destruct (or_state x) as [[f|op w]|] eqn:Ex; [|destruct Hx as (? & ? & ->)|done].
    - eexists. split; [done|]. simpl. by rewrite law_submit_at, Hx.
    - eexists. by rewrite Ex. }
  unfold read. rewrite Ho. unfold poll, PositionalFile_read. destruct (poll (fo_op op) s) as [[op1 s1] rr] eqn:Ep.
  destruct rr as [[f [[n|e] buffer]]|]; [unfold poll in Ep; simpl; destruct (checked_add u64_max (fo_offset op) n) as [o|] eqn:Ec|..];
    simpl; intros [= <- <- <-]; simpl.
  - apply checked_add_Some in Ec as [-> _]. destruct (validate_cases (Ok n) buffer width) as [(-> & Hw & Hn)|[-> _]]; [|done].
    specialize (Hn n eq_refl) as ->. split_and!; [done..| |].
    + apply law_file_ready in Ep. by rewrite Hat in Ep.
    + intros width'. unfold positioned. simpl. by rewrite Hoff.
  - by destruct (validate_cases (Err offset_overflow) buffer width) as [(-> & _)|[-> _]].
  - by destruct (validate_cases (Err e) buffer width) as [(-> & _)|[-> _]].
  - unfold positioned. simpl. split_and!; try done. rewrite <- Hat. by eapply law_file_pending.
Qed.

Definition filing (snapshot offset : Z) (b : FileBody File FOp) : Prop :=
  fb_remaining b = snapshot - offset /\ 0 <= fb_remaining b /\ rb_done (fb_reader b) = false /\
  positioned offset (Z.min (fb_remaining b) (16 * 1024)) (rb_reads (fb_reader b)).

(** One poll of the body after [offset] bytes. *)
Definition file_answer (snapshot offset : Z) (b' : FileBody File FOp) (r : Poll (call (result (option BytesMut) IoError))) : Prop :=
  match r with
  | Pending => fb_done b' = false /\ filing snapshot offset b'
  | Ready Panics => False
  | Ready (Returns (Ok (Some buffer))) => fb_done b' = false /\ filing snapshot (offset + zlen (bm_bytes buffer)) b' /\
      0 < zlen (bm_bytes buffer) <= 16 * 1024 /\ bm_bytes buffer = ztake (zlen (bm_bytes buffer)) (zdrop offset content)
  | Ready (Returns (Ok None)) => fb_done b' = true /\ fb_remaining b' = 0 /\ snapshot = offset
  | Ready (Returns (Err _)) => fb_done b' = true /\ fb_remaining b' = snapshot - offset /\ 0 < fb_remaining b'
  end.

Lemma file_frame_ok snapshot offset b s b' s' r : fb_done b = false -> filing snapshot offset b ->
  fb_next_frame b s = (b', s', r) -> file_answer snapshot offset b' r.
Proof.
  intros Hd (Hrem & Hpos & Hrd & Hat). unfold fb_next_frame. rewrite Hd. destruct (Z.eqb_spec (fb_remaining b) 0) as [Hz|Hz].
  { intros [= <- <- <-]. simpl. split_and!; [done..|lia]. }
  unfold next_chunk. rewrite Hrd. destruct (read _ (rb_reads (fb_reader b)) s) as [[x s1] rr] eqn:Er.
  apply (positioned_read offset) in Er; [|done]. destruct rr as [[[[n|e] buffer]|]|]; simpl in Er; [|..].
  - destruct Er as (-> & Hw & Hc & Hx). pose proof (zlen_nonneg (bm_bytes buffer)).
    destruct (Z.eqb_spec (zlen (bm_bytes buffer)) 0); [intros [= <- <- <-]; simpl; split_and!; [done..|lia]|].
    destruct (Z.ltb_spec (fb_remaining b) (zlen (bm_bytes buffer))); [lia|]. intros [= <- <- <-]. simpl.
    split_and!; [done| |lia..|done]. unfold filing. simpl. split_and!; [lia..|done|apply Hx].
  - intros [= <- <- <-]. simpl. split_and!; [done..|lia].
  - done.
  - intros [= <- <- <-]. simpl. split; [done|]. by split_and!.
Qed.

Lemma filed_uses us (b : FileBody File FOp) s b' s' out : fb_done b = true -> uses us b s = (b', s', out) ->
  fb_remaining b' = fb_remaining b /\ exists k, out = repeat (Returns (Ok None)) k.
Proof.
  revert b s out. induction us as [|[|d] us IH]; intros b s out Hd; simpl.
  - intros [= <- <- <-]. split; [done|]. by exists 0%nat.
  - unfold fb_next_frame. rewrite Hd. destruct (uses us b (suspend s)) as [[b1 s1] out1] eqn:Eu. intros [= <- <- <-].
    destruct (IH b (suspend s) out1 Hd Eu) as (-> & k & ->). split; [done|]. by exists (Datatypes.S k).
  - intros Hu. destruct (IH (fb_recycle b d) s out Hd Hu) as [-> Hk]. done.
Qed.

Lemma filing_recycle snapshot offset b d : filing snapshot offset b -> filing snapshot offset (fb_recycle b d).
Proof.
  unfold filing. simpl. unfold rb_recycle. intros (? & ? & ? & ?). destruct (_ <=? _); simpl; split_and!; try done. by apply recycle_positioned.
Qed.

(** What a consumer has seen after [offset] bytes. *)
Inductive filed (snapshot : Z) : Z -> list (call (result (option BytesMut) IoError)) -> Z -> Prop :=
| filed_open offset : offset <= snapshot -> filed snapshot offset [] offset
| filed_end k : filed snapshot snapshot (Returns (Ok None) :: repeat (Returns (Ok None)) k) snapshot
| filed_failed offset e k : offset < snapshot -> filed snapshot offset (Returns (Err e) :: repeat (Returns (Ok None)) k) offset
| filed_frame offset buffer out last : 0 < zlen (bm_bytes buffer) <= 16 * 1024 ->
    bm_bytes buffer = ztake (zlen (bm_bytes buffer)) (zdrop offset content) ->
    filed snapshot (offset + zlen (bm_bytes buffer)) out last -> filed snapshot offset (Returns (Ok (Some buffer)) :: out) last.

Lemma file_uses snapshot us offset (b : FileBody File FOp) s b' s' out :
  fb_done b = false -> filing snapshot offset b -> uses us b s = (b', s', out) -> filed snapshot offset out (snapshot - fb_remaining b').
Proof.
  revert offset b s out. induction us as [|[|d] us IH]; intros offset b s out Hd Hf; simpl.
  - intros [= <- <- <-]. destruct Hf as (-> & ? & _). replace (snapshot - (snapshot - offset)) with offset by lia. constructor. lia.
  - destruct (fb_next_frame b s) as [[b1 s1] r] eqn:Ef. destruct (uses us b1 (suspend s1)) as [[b2 s2] out1] eqn:Eu. intros [= <- <- <-].
    apply (file_frame_ok snapshot offset) in Ef; [|done..]. destruct r as [[[[buffer|]|e]|]|]; simpl in Ef; [| | |done|].
    + destruct Ef as (? & ? & ? & ?). constructor; [done..|]. by eapply IH.
    + destruct Ef as (Hd1 & Hr & <-). destruct (filed_uses us b1 (suspend s1) b2 s2 out1 Hd1 Eu) as (Hr2 & k & ->).
      rewrite Hr2, Hr, Z.sub_0_r. constructor.
    + destruct Ef as (Hd1 & Hr & ?). destruct (filed_uses us b1 (suspend s1) b2 s2 out1 Hd1 Eu) as (Hr2 & k & ->).
      rewrite Hr2, Hr. replace (snapshot - (snapshot - offset)) with offset by lia. constructor. lia.
    + destruct Ef as [? ?]. by eapply IH.
  - intros Hu. eapply IH; [| |exact Hu]; [done|by apply filing_recycle].
Qed.

(** The payloads among the answers. *)
Fixpoint payloads (out : list (call (result (option BytesMut) IoError))) : bytes :=
  match out with
  | Returns (Ok (Some b)) :: out => bm_bytes b ++ payloads out
  | _ :: out => payloads out
  | [] => []
  end.

Definition file_failed (out : list (call (result (option BytesMut) IoError))) : Prop := exists e, Returns (Err e) ∈ out.
Definition file_finished (out : list (call (result (option BytesMut) IoError))) : Prop := Returns (Ok None) ∈ out.

Lemma payloads_nothing k : payloads (repeat (Returns (Ok None)) k) = [].
Proof. by induction k. Qed.

Lemma nothing_failed k : ~ file_failed (repeat (Returns (Ok None)) k).
Proof. intros [e He]. induction k; simpl in He; [by apply elem_of_nil in He|]. apply elem_of_cons in He as [|]; [done|auto]. Qed.

Lemma filed_payloads snapshot offset out last : 0 <= offset -> filed snapshot offset out last ->
  payloads out = ztake (last - offset) (zdrop offset content) /\ zlen (payloads out) = last - offset /\ offset <= last <= snapshot /\
  (file_finished out -> ~ file_failed out -> last = snapshot) /\ Panics ∉ out.
Proof.
  intros Ho Hf. induction Hf as [offset Hle|k|offset e k Hlt|offset buffer out last Hb Hc Hf IH]; simpl.
  - rewrite Z.sub_diag, ztake_0 by lia. split_and!; try done; [lia..|by intros ?%elem_of_nil|by apply not_elem_of_nil].
  - rewrite payloads_nothing, Z.sub_diag, ztake_0 by lia. split_and!; try done; [lia..|]. clear.
    rewrite not_elem_of_cons. split; [done|]. induction k; simpl; [by apply not_elem_of_nil|]. by rewrite not_elem_of_cons.
  - rewrite payloads_nothing, Z.sub_diag, ztake_0 by lia. split_and!; try done; [lia..| |].
    + intros _ []. exists e. by left.
    + clear. rewrite not_elem_of_cons. split; [done|]. induction k; simpl; [by apply not_elem_of_nil|]. by rewrite not_elem_of_cons.
  - destruct (IH ltac:(lia)) as (Hp & Hl & Hlast & Hfin & Hn). split_and!; [|rewrite zlen_app; lia|lia..| |].
    + rewrite Hp, Hc at 1. rewrite <- zdrop_zdrop by lia.
      rewrite <- (ztake_zdrop (zlen (bm_bytes buffer)) (zdrop offset content)) at 3.
      rewrite ztake_app_ge by (rewrite <- Hc; lia). rewrite <- Hc. do 2 f_equal. lia.
    + intros [?|Hx]%elem_of_cons Hno; [done|]. apply Hfin; [done|]. intros [e He]. apply Hno. exists e. by right.
    + rewrite not_elem_of_cons. done.
Qed.


End Files.

(** ** Evaluated: a reader of two segments and a file of five bytes *)

Section Evaluated.
#[local] Instance exact_allocator : BytesAllocator := { capacity_for n := n; reserved_capacity c n := c + n }.

(** A reader that gives its completions one by one, each after one pending poll. *)
Definition Segments : Type := list (result Z IoError * bytes).

#[local] Instance Segments_reader : OwnedReader Segments (bool * Segments) := {
  submit reader _ _ := (false, reader);
  cancel_op op := op;
}.

#[local] Instance Segments_read : Future (bool * Segments) Segments (Segments * (result Z IoError * BytesMut)) := fun op log =>
  match op with
  | (false, reader) => ((true, reader), log, Pending)
  | (true, []) => (op, log ++ [(Ok 0, [])], Ready ([], (Ok 0, BytesMut_new)))
  | (true, (r, d) :: reader) => (op, log ++ [(r, d)], Ready (reader, (r, mkBytesMut d (zlen d))))
  end.

#[local] Instance Segments_suspends : Suspends Segments := fun log => log.

#[local] Instance Segments_laws : ReadLaws Segments (bool * Segments) Segments.
Proof.
  refine {| completions log := log |}; try done; unfold poll, Segments_read.
  - intros [[|] [|[r d] reader]] s op' s' reader' r' buffer [= <- <- <- <- <-]; done.
  - intros [[|] [|[r d] reader]] s op' s'; by intros [= <- <-].
Defined.

Definition two_segments : Segments := [(Ok 2, bs "he"); (Ok 3, bs "llo")].

Definition segments_body : ReaderBody Segments (bool * Segments) := mkReaderBody (OwnedRead_new two_segments) 4 false.
Definition segments_uses : list Use := [UsePoll; UsePoll; UseRecycle (mkBytesMut (bs "he") 4); UsePoll].

Lemma reader_loses_nothing_witness :
  exists cs answers, [(Ok 2, bs "he")] = [] ++ cs /\ delivered 4 cs answers false /\
    map shown_bytes [Returns (Ok (Some (mkBytesMut (bs "he") 2)))] = map Returns answers /\
    parted 4 ([(Ok 2, bs "he")] : Segments) two_segments
      (Returns (mkReaderParts ([] : Segments) (mkBytesMut (bs "llo") 3) (Some (Ok 3)))).
Proof.
  exact (reader_loses_nothing two_segments 4 segments_body segments_uses [] _ _ _ 3 _ _ _ eq_refl eq_refl eq_refl).
Defined.

(** A file whose reads give at most two bytes. *)
#[local] Instance bytes_file : AsyncReadAt bytes (bytes * (Z * Z)) unit := {
  file_len f s := (s, Ok 5);
  submit_at f _ offset width := (f, (offset, width));
  cancel_at op := op;
}.

#[local] Instance bytes_read_at : Future (bytes * (Z * Z)) unit (bytes * (result Z IoError * BytesMut)) := fun op s =>
  let '(f, (offset, width)) := op in
  let d := ztake (Z.min 2 width) (zdrop offset (bs "hello world")) in
  (op, s, Ready (f, (Ok (zlen d), mkBytesMut d 2))).

#[local] Instance unit_suspends : Suspends unit := fun s => s.

#[local] Instance bytes_file_laws : FileLaws bytes (bytes * (Z * Z)) unit.
Proof.
  refine {| content := bs "hello world"; op_at := snd |}; try done; unfold poll, bytes_read_at.
  - by intros [f [o w]].
  - intros [f [o w]] s op' s' f' n buffer [= <- <- <- <- <-]. simpl.
    set (l := zdrop o (bs "hello world")). destruct (Z.le_gt_cases 0 (Z.min 2 w)) as [Hw|Hw].
    + rewrite zlen_ztake by lia. destruct (Z.min_spec (Z.min 2 w) (zlen l)) as [[_ ->]|[? ->]]; [done|].
      rewrite !ztake_all by lia. done.
    + by rewrite (ztake_0 (Z.min 2 w)) by lia.
  - intros f s s' n [= _ <-]. unfold is_u64, u64_max. lia.
Defined.

Definition snapshot_body : FileBody bytes (bytes * (Z * Z)) :=
  mkFileBody (ReaderBody_new (mkPositionalFile (bs "hello world") 0)) 5 5 false.

Definition file_read : FileBody bytes (bytes * (Z * Z)) * unit * list (call (result (option BytesMut) IoError)) :=
  Eval vm_compute in uses [UsePoll; UsePoll; UsePoll; UsePoll] snapshot_body tt.


End Evaluated.
