(* ===== verification/Deadline.v ===== *)
(** Deadline scopes and receive strategies (src/src/io/deadline.rs and
    src/src/io/transport.rs).

    A deadline never abandons an operation: it asks for cancellation and awaits
    the operation's own result. *)

From Stdlib Require Import ZArith Lia.
From stdpp Require Import base list option.
From S2P Require Import Prelude Http Errors Body Incoming Send Recv.

(** The clock and the scope of the operation about to run. *)
Class Timer (W : Type) := {
  (** [Instant::now().checked_add(duration)] *)
  instant_after : W -> Z -> option Z;
  (** the sleep until the deadline ends before the operation does *)
  timer_first : W -> Z -> bool;
  (** [source.cancel()] of the operation's scope *)
  request_cancel : W -> W;
}.

(** [Instant::now() >= deadline] *)
Class Clock (W : Type) := reached : W -> Z -> bool.

Section Deadline.
Context {W : Type} `{Timer W}.

Definition settle {A} (deadline : option Z) (operation : W -> W * A) (w : W) : W * A * bool :=
  match deadline with
  | None => (operation w, false)
  | Some deadline =>
      if timer_first w deadline then (operation (request_cancel w), true)
      else (operation w, false)
  end.

Definition invalid_deadline : IoError := mkIoError IoInvalidInput false false None.

Definition after (w : W) (timeout : option Z) : result (option Z) IoError :=
  match timeout with
  | None => Ok None
  | Some duration =>
      match instant_after w duration with
      | Some deadline => Ok (Some deadline)
      | None => Err invalid_deadline
      end
  end.

Definition configured_after (w : W) (timeout : option Z) : result (option Z) Error :=
  map_err (fun e => with_source LocalMessage "invalid timeout duration" (SrcIo e)) (after w timeout).

Definition deadline_elapsed (phase : TimeoutPhase) : IoError := mkIoError IoTimedOut false false (Some phase).

Definition timed {A} (r : result A IoError) (elapsed : bool) (phase : TimeoutPhase) : result A IoError :=
  if elapsed && match r with Ok _ => true | Err e => io_canceled e end then Err (deadline_elapsed phase)
  else r.

(** One operation of the writer under its progress budget. *)
Definition timed_operation {A} (timeout : option Z) (phase : TimeoutPhase) (operation : W -> W * result A IoError)
    (w : W) : W * result A IoError :=
  match after w timeout with
  | Err e => (w, Err e)
  | Ok deadline =>
      let '(w, r, elapsed) := settle deadline operation w in
      (w, timed r elapsed phase)
  end.

End Deadline.

(** ** The writer with a progress deadline *)

Record Write (W : Type) := mkWrite {
  inner : W;
  timeout : option Z;
}.
Arguments mkWrite {W} _ _.
Arguments inner {W} _.
Arguments timeout {W} _.

Section TimedWriter.
Context {W : Type} `{Runtime W} `{AsyncWrite W} `{Timer W}.

Definition on_inner {A} (s : Write W) (r : W * A) : Write W * A := (mkWrite (fst r) (timeout s), snd r).

#[export] Instance Write_Runtime : Runtime (Write W) := {
  rt_yield s := mkWrite (rt_yield (inner s)) (timeout s);
  rt_cancel_requested s := rt_cancel_requested (inner s);
  operation_canceled := operation_canceled;
}.

#[export] Instance Write_AsyncWrite : AsyncWrite (Write W) := {
  aw_write s b :=
    on_inner s (timed_operation (timeout s) PhaseWriteProgress (fun w => aw_write w b) (inner s));
  aw_write_vectored s bs :=
    on_inner s (timed_operation (timeout s) PhaseWriteProgress (fun w => aw_write_vectored w bs) (inner s));
  aw_flush s := on_inner s (timed_operation (timeout s) PhaseWriteProgress aw_flush (inner s));
  aw_shutdown s := on_inner s (timed_operation (timeout s) PhaseShutdown aw_shutdown (inner s));
  vec_slice := vec_slice;
}.

Context `{!Writes W}.
Context (cancel_wire : forall w : W, wire (request_cancel w) = wire w).

Lemma accepted_prefix b r k : accepted b r k -> exists n, 0 <= n <= zlen b /\ k = ztake n b.
Proof.
  pose proof (zlen_nonneg b). destruct r as [n|e]; simpl.
  - intros [Hn ->]. exists (Z.min n (zlen b)). split; [lia | by apply ztake_min].
  - case_bool_decide; [|done]. intros ->. exists 0. by rewrite ztake_0 by lia.
Qed.

(** A deadline only turns a success or a cancellation into a time-out, so an
    interrupted write is still one that accepted nothing. *)
Lemma timed_accepted b r k elapsed phase : accepted b r k -> accepted b (timed r elapsed phase) k.
Proof.
  intros Hk. unfold timed. destruct (_ && _); [|done]. simpl. by apply accepted_prefix with r.
Qed.

Lemma timed_operation_accepted (op : W -> W * result Z IoError) t phase w w' r b :
  (forall w w' r, op w = (w', r) -> exists k, wire w' = wire w ++ k /\ accepted b r k) ->
  timed_operation t phase op w = (w', r) -> exists k, wire w' = wire w ++ k /\ accepted b r k.
Proof.
  intros Hop. unfold timed_operation. destruct (after w t) as [[d|]|e] eqn:Ea; simpl.
  - destruct (timer_first w d).
    + destruct (op (request_cancel w)) as [w1 r1] eqn:E. apply Hop in E as (k & Hw & Hk).
      intros [= <- <-]. exists k. rewrite Hw, cancel_wire. split; [done | by apply timed_accepted].
    + destruct (op w) as [w1 r1] eqn:E. apply Hop in E as (k & Hw & Hk).
      intros [= <- <-]. exists k. split; [done | by apply timed_accepted].
  - destruct (op w) as [w1 r1] eqn:E. apply Hop in E as (k & Hw & Hk).
    intros [= <- <-]. exists k. split; [done | by apply timed_accepted].
  - intros [= <- <-]. exists []. rewrite app_nil_r. split; [done|].
    unfold after in Ea. destruct t as [t|]; [|done]. destruct (instant_after w t); [done|]. injection Ea as <-.
    simpl. exists 0. pose proof (zlen_nonneg b). by rewrite ztake_0 by lia.
Qed.

Lemma on_inner_eq {A} (s : Write W) (r : W * A) s' a :
  on_inner s r = (s', a) -> exists w', r = (w', a) /\ s' = mkWrite w' (timeout s).
Proof. destruct r as [w' a']. intros [= <- <-]. eauto. Qed.

Lemma timed_flush_wire t phase w w' r : timed_operation t phase aw_flush w = (w', r) -> wire w' = wire w.
Proof.
  unfold timed_operation. destruct (after w t) as [[d|]|e]; simpl; [| |by intros [= <- <-]].
  - destruct (timer_first w d); [destruct (aw_flush (request_cancel w)) as [w1 r1] eqn:E
      | destruct (aw_flush w) as [w1 r1] eqn:E]; apply law_flush in E; intros [= <- <-]; congruence.
  - destruct (aw_flush w) as [w1 r1] eqn:E. apply law_flush in E. intros [= <- <-]. congruence.
Qed.

(** The timed writer keeps the writer's contract. *)
#[export] Instance Write_Writes : Writes (Write W).
Proof using Writes0 cancel_wire.
  refine {| wire s := wire (inner s) |}.
  - intros s. apply law_yield.
  - intros s b s' r (w' & Hr & ->)%on_inner_eq. revert Hr. apply timed_operation_accepted. intros *. apply law_write.
  - intros s bs s' r (w' & Hr & ->)%on_inner_eq. revert Hr. apply timed_operation_accepted. intros *.
    apply law_write_vectored.
  - intros s s' r (w' & Hr & ->)%on_inner_eq. by apply timed_flush_wire in Hr.
  - intros bs n. apply (law_slice (W := W)).
Defined.

(** A write deadline does not corrupt the stream. The timed writer keeps the
    writers' contract, so a message written through it is reported written only
    when all of it went out, in order and once, and otherwise a prefix of it
    did, whenever the deadline strikes; and a deadline replaces only a success
    or a cancellation, every other failure of the transport is reported as it
    is. *)
Theorem deadline_writer_exact cancellation fuel (s : Write W) b s' r :
  (write_all cancellation fuel s b = (s', r) -> wrote_answer s b s' r) /\
  (forall (e : IoError) elapsed phase, io_canceled e = false -> timed (A := Z) (Err e) elapsed phase = Err e).
Proof.
  split; [apply write_all_answer|]. intros e elapsed phase He. unfold timed. rewrite He. by rewrite andb_false_r.
Qed.

End TimedWriter.

(** ** Receive strategies *)

Inductive Strategy : Type :=
| PortableStrategy
| TcpStrategy.

Section Receive.
Context {alloc : BytesAllocator} {W : Type} `{Runtime W} `{AsyncRead W} `{Timer W} (tls : bool).

(** On Linux the TCP strategy uses managed leases. *)
Definition strategy_read (s : Strategy) (b : RecvBuffer) (cancellation : bool) (w : W)
    : W * (RecvBuffer * call (result ReadStatus Error)) :=
  let '(w, b, r) :=
    match s with
    | PortableStrategy => recv_read tls w b cancellation
    | TcpStrategy => read_managed tls w b cancellation
    end in
  (w, (b, r)).

Definition receive_deadline : Error :=
  with_detail (Error_new Timeout "HTTP receive deadline exceeded") (DetailTimeout PhaseHead).

Definition read_until (s : Strategy) (w : W) (b : RecvBuffer) (cancellation : bool) (deadline : option Z)
    : W * RecvBuffer * call (result ReadStatus Error) :=
  let '(w, (b, r), elapsed) := settle deadline (strategy_read s b cancellation) w in
  (w, b,
   map_call (fun r =>
     if elapsed && match r with Ok _ => true | Err e => is_canceled e end then Err receive_deadline else r) r).

(** Reads change nothing the transport and the timer leave alone. *)
Section Keeps.
Context {A : Type} (f : W -> A).
Context (Hread : forall w n, f (fst (ar_read w n)) = f w) (Hmanaged : forall w n, f (fst (ar_read_managed w n)) = f w).
Context (Hcancel : forall w, f (request_cancel w) = f w).

Lemma recv_read_keeps w b c : f (fst (fst (recv_read tls w b c))) = f w.
Proof using Hread.
  unfold recv_read. destruct (_ && _); [done|]. cbv zeta. destruct (checked_sub _ _); [|done].
  destruct (_ =? 0); [done|]. destruct (storage _); [|done].
  match goal with |- context [ar_read w ?n] => pose proof (Hread w n) as Hr; destruct (ar_read w n) as [w' [r fill]] end.
  exact Hr.
Qed.

Lemma strategy_read_keeps s b c w : f (fst (strategy_read s b c w)) = f w.
Proof using Hread Hmanaged.
  unfold strategy_read. pose proof (recv_read_keeps w b c) as Hr. destruct s.
  - by destruct (recv_read tls w b c) as [[w' b'] r].
  - unfold read_managed. destruct (recv_read tls w b c) as [[w' b'] r]. destruct (_ && _); [done|].
    destruct (default _ _); [done|]. destruct (negb _); [done|]. unfold managed_read.
    match goal with |- context [ar_read_managed w ?n] =>
      pose proof (Hmanaged w n) as Hm; destruct (ar_read_managed w n) as [w1 [[o|]|e]] end; simpl in Hm |- *; [|done..].
    destruct (_ =? 0); [done|]. by destruct (_ && _).
Qed.

Lemma read_until_keeps s w b c deadline : f (fst (fst (read_until s w b c deadline))) = f w.
Proof using Hread Hmanaged Hcancel.
  unfold read_until, settle. destruct deadline as [d|]; [destruct (timer_first w d)|].
  - pose proof (strategy_read_keeps s b c (request_cancel w)) as Hs.
    destruct (strategy_read s b c (request_cancel w)) as [w' [b' r]]. simpl in *. by rewrite Hs, Hcancel.
  - pose proof (strategy_read_keeps s b c w) as Hs. by destruct (strategy_read s b c w) as [w' [b' r]].
  - pose proof (strategy_read_keeps s b c w) as Hs. by destruct (strategy_read s b c w) as [w' [b' r]].
Qed.

End Keeps.

Context `{!Reads W}.
Context (cancel_received : forall w : W, received (request_cancel w) = received w).

(** What the answer of a read says about the bytes it brought in. *)
Definition status_says (a : result ReadStatus Error) (fill : bytes) : Prop :=
  match a with
  | Ok (StatusData n) => n = zlen fill /\ 0 < n
  | Ok StatusEof => fill = []
  | Err _ => True
  end.

Lemma strategy_read_ok s b c w : wf_recv b ->
  let '(w', (b', r)) := strategy_read s b c w in
  exists fill, received w' = received w ++ fill /\ recv_bytes b' = recv_bytes b ++ fill /\ wf_recv b' /\
    exists a, r = Returns a /\ status_says a fill.
Proof.
  intros Hwf. unfold strategy_read. destruct s.
  - pose proof (recv_read_ok tls w b c Hwf) as Hr. destruct (recv_read tls w b c) as [[w' b'] r].
    destruct Hr as (fill & Hrec & (Hq & _) & Hwf' & a & -> & Ha). exists fill. split_and!; [done..|].
    exists a. done.
  - pose proof (read_managed_ok tls w b c Hwf) as Hr. destruct (read_managed tls w b c) as [[w' b'] r].
    destruct Hr as (fill & Hrec & Hq & Hwf' & _ & a & -> & Ha). exists fill. split_and!; [done..|].
    exists a. done.
Qed.

(** A read under a deadline keeps whatever arrived, a time-out included. *)
Lemma read_until_ok s b c deadline w : wf_recv b ->
  let '(w', b', r) := read_until s w b c deadline in
  exists fill, received w' = received w ++ fill /\ recv_bytes b' = recv_bytes b ++ fill /\ wf_recv b' /\
    exists a, r = Returns a /\ status_says a fill.
Proof using Reads0 cancel_received.
  intros Hwf. unfold read_until, settle.
  assert (Hgo : forall w0 elapsed, received w0 = received w ->
    let '(w', b', r) := (let '(w', (b', r)) := strategy_read s b c w0 in
      (w', b', map_call (fun r =>
         if elapsed && match r with Ok _ => true | Err e => is_canceled e end then Err receive_deadline else r) r)) in
    exists fill, received w' = received w ++ fill /\ recv_bytes b' = recv_bytes b ++ fill /\ wf_recv b' /\
      exists a, r = Returns a /\ status_says a fill).
  { intros w0 elapsed Hw0. pose proof (strategy_read_ok s b c w0 Hwf) as Hr.
    destruct (strategy_read s b c w0) as [w' [b' r]]. destruct Hr as (fill & Hrec & Hq & Hwf' & a & -> & Ha).
    exists fill. rewrite Hrec, Hw0. split_and!; [done..|]. eexists; split; [done|].
    destruct (_ && _); [done|exact Ha]. }
  destruct deadline as [d|]; [destruct (timer_first w d)|].
  - specialize (Hgo (request_cancel w) true (cancel_received w)).
    by destruct (strategy_read s b c (request_cancel w)) as [w' [b' r]].
  - specialize (Hgo w false eq_refl). by destruct (strategy_read s b c w) as [w' [b' r]].
  - specialize (Hgo w false eq_refl). by destruct (strategy_read s b c w) as [w' [b' r]].
Qed.

End Receive.

(** ** Evaluated: a deadline that strikes during the second write *)

Section Evaluated.

(** Time is the number of bytes accepted. *)
#[local] Instance SlowWire_timer : Timer SlowWire := {
  instant_after _ d := Some d;
  timer_first w d := d <? zlen (w : bytes);
  request_cancel w := w;
}.

Lemma deadline_writer_exact_witness :
  write_all true 4 (mkWrite ([] : SlowWire) (Some 1)) (bs "2hi!") =
    (mkWrite (bs "2hi!" : SlowWire) (Some 1), Some (Err (deadline_elapsed PhaseWriteProgress))) /\
  exists n, 0 <= n <= 4 /\ (bs "2hi!" : bytes) = [] ++ ztake n (bs "2hi!").
Proof.
  split; [vm_compute; reflexivity|].
  refine (proj1 (deadline_writer_exact (fun w : SlowWire => eq_refl (wire w)) true 4
    (mkWrite ([] : SlowWire) (Some 1)) (bs "2hi!") (mkWrite (bs "2hi!" : SlowWire) (Some 1))
    (Some (Err (deadline_elapsed PhaseWriteProgress)))) _).
  vm_compute. reflexivity.
Defined.

End Evaluated.
