(* ===== verification/Receive.v ===== *)
(** The receive half of a body transfer (src/src/proto/h1/body_io.rs:
    [incoming], [receive_body_configured], [read_or_abandoned] and
    [ReceiveEnd::fail]).

    The loop reads through a receive strategy (Deadline.v), decodes (Decode.v)
    and hands frames to the application's body (Incoming.v) through the
    producing end of a rendezvous (Pipe.v), which is the interface
    [BodyProducer]. *)

From Stdlib Require Import ZArith Lia.
From stdpp Require Import base list option.
From S2P Require Import Prelude Http Errors Syntax Scan Body Pipe Incoming Send Recv Deadline Decode.

(** ** The producing end

    Each operation is awaited under the connection's token: [None] is the
    cancellation of the wait. *)

Class BodyProducer {http : HttpCrate} (W : Type) := {
  pr_demand : W -> W * option (result unit DemandError);
  pr_offer : W -> Frame IncomingData -> W * option (result unit (@OfferError (Frame IncomingData)));
  pr_close : W -> W;
  pr_fail : W -> Error -> W;
  pr_is_abandoned : W -> bool;
  (** the consumer goes away before the read about to start ends *)
  pr_abandoned_first : W -> bool;
  (** the drain policy shared with the consumer *)
  pr_policy : W -> DrainPolicy;
  pr_set_policy : W -> DrainPolicy -> W;
}.

Inductive ReceiveEnd : Type :=
| Complete
| AbandonedEnd
| FailedEnd (e : Error).

(** [incoming]: whether the body needs a producer, and the body. *)
Definition incoming {http : HttpCrate} {C} (mode : BodyMode) (c : C) : bool * Incoming C :=
  match mode with
  | BodyNone => (false, Incoming_empty)
  | BodyFixed length =>
      if length =? 0 then (false, Incoming_empty)
      else (true, Incoming_channel c (with_exact length) TrailersNone)
  | BodyChunked => (true, Incoming_channel c SizeHint_new TrailersMayHave)
  | BodyUntilEof => (true, Incoming_channel c SizeHint_new TrailersNone)
  end.

(** [BodyProgress] replaces the phase of a body read's time-out. *)
Definition body_progress (r : result ReadStatus Error) : result ReadStatus Error :=
  map_err (fun e =>
    if bool_decide (detail e = Some (DetailTimeout PhaseHead)) then with_detail e (DetailTimeout PhaseBodyProgress)
    else e) r.

Definition consumed_of {http : HttpCrate} (o : DecodeOutcome) : Z :=
  match o with
  | NeedMore c | OutData _ _ c | OutTrailers _ c | OutEnd c => c
  end.

Definition payload_of {http : HttpCrate} (o : DecodeOutcome) : Z :=
  match o with
  | OutData from to _ => to - from
  | _ => 0
  end.

Section Receive.
Context {http : HttpCrate} {hp : Httparse} {alloc : BytesAllocator}.
Context {W : Type} `{Runtime W} `{AsyncRead W} `{Timer W} `{!BodyProducer W} (tls : bool).
Context (strategy : Strategy) (progress_timeout : option Z).

(** [ReceiveEnd::fail] *)
Definition receive_fail (w : W) (e : Error) : W * ReceiveEnd :=
  let '(incoming, driver) := Error_split e in
  (pr_fail w incoming, FailedEnd driver).

Definition read_or_abandoned (w : W) (b : RecvBuffer) : W * RecvBuffer * call (result ReadStatus Error) :=
  match configured_after w progress_timeout with
  | Err e => (w, b, Returns (Err e))
  | Ok deadline =>
      let w := if pr_abandoned_first w then request_cancel w else w in
      let '(w, b, r) := read_until tls strategy w b true deadline in
      (w, b, map_call body_progress r)
  end.

Definition drain_limit (limit : LimitKind) : Error :=
  with_detail (Error_new Limit "body drain payload or wire limit exceeded") (IncomingLimit limit).

Definition canceled_error : Error := from_io tls operation_canceled.

Definition ends (b : RecvBuffer) (r : W * ReceiveEnd) : W * RecvBuffer * option (call ReceiveEnd) :=
  (fst r, b, Some (Returns (snd r))).

(** [None] is a model run out of turns. *)
Fixpoint receive_loop (fuel : nat) (w : W) (b : RecvBuffer) (d : BodyDecoder) (eof : bool) (work : WorkBudget)
    : W * RecvBuffer * option (call ReceiveEnd) :=
  match fuel with
  | O => (w, b, None)
  | S fuel =>
      let '(work, w) := budget_step work w in
      if is_complete d then ends b (pr_close w, Complete)
      else
        let '(w, demanded) := pr_demand w in
        match demanded with
        | Some (Err _) => ends b (w, AbandonedEnd)
        | None => ends b (receive_fail w canceled_error)
        | Some (Ok _) =>
            let '(d, r) := decode d (recv_bytes b) eof in
            match r with
            | Err e => ends b (receive_fail w (Error_from_decode e))
            | Ok outcome =>
                let '(policy, charged) := charge_drain (pr_policy w) (consumed_of outcome) (payload_of outcome) in
                let w := pr_set_policy w policy in
                match charged with
                | Err limit => ends b (receive_fail w (drain_limit limit))
                | Ok _ =>
                    let offer (w : W) (b : RecvBuffer) (frame : Frame IncomingData) :=
                      let '(w, r) := pr_offer w frame in
                      match r with
                      | Some (Ok _) => receive_loop fuel w b d eof work
                      | Some (Err (OfferAbandoned _)) => ends b (w, AbandonedEnd)
                      | Some (Err (OfferClosed _)) =>
                          ends b (w, FailedEnd (Error_new Errors.Closed "body handoff closed"))
                      | None => ends b (receive_fail w canceled_error)
                      end in
                    match outcome with
                    | NeedMore consumed =>
                        let '(b, r) := consume b consumed in
                        match r with
                        | Err e => ends b (receive_fail w e)
                        | Ok _ =>
                            let '(w, b, r) := read_or_abandoned w b in
                            match r with
                            | Panics => (w, b, Some Panics)
                            | Returns r =>
                                if pr_is_abandoned w then ends b (w, AbandonedEnd)
                                else
                                  match r with
                                  | Ok StatusEof => receive_loop fuel w b d true work
                                  | Ok (StatusData _) => receive_loop fuel w b d eof work
                                  | Err e => ends b (receive_fail w e)
                                  end
                            end
                        end
                    | OutData from to consumed =>
                        let '(b, r) := take_payload b from to consumed in
                        match r with
                        | Panics => (w, b, Some Panics)
                        | Returns (Err e) => ends b (receive_fail w e)
                        | Returns (Ok data) => offer w b (DataFrame data)
                        end
                    | OutTrailers trailers consumed =>
                        let '(b, r) := consume b consumed in
                        match r with
                        | Err e => ends b (receive_fail w e)
                        | Ok _ => offer w b (TrailersFrame trailers)
                        end
                    | OutEnd consumed =>
                        let '(b, r) := consume b consumed in
                        match r with
                        | Err e => ends b (receive_fail w e)
                        | Ok _ => ends b (pr_close w, Complete)
                        end
                    end
                end
            end
        end
  end.

Definition receive_body_configured (fuel : nat) (w : W) (b : RecvBuffer) (d : BodyDecoder)
    : W * RecvBuffer * option (call ReceiveEnd) :=
  receive_loop fuel w b d false WorkBudget_new.

(** Receiving leaves alone what its operations leave alone. *)
Section Keeps.
Context {A : Type} (f : W -> A).
Context (Hread : forall w n, f (fst (ar_read w n)) = f w) (Hmanaged : forall w n, f (fst (ar_read_managed w n)) = f w).
Context (Hcancel : forall w, f (request_cancel w) = f w) (Hyield : forall w, f (rt_yield w) = f w).
Context (Hdemand : forall w, f (fst (pr_demand w)) = f w) (Hoffer : forall w x, f (fst (pr_offer w x)) = f w).
Context (Hclose : forall w, f (pr_close w) = f w) (Hfail : forall w e, f (pr_fail w e) = f w).
Context (Hpolicy : forall w p, f (pr_set_policy w p) = f w).

Lemma receive_loop_keeps fuel w b d eof work : f (fst (fst (receive_loop fuel w b d eof work))) = f w.
Proof using Hread Hmanaged Hcancel Hyield Hdemand Hoffer Hclose Hfail Hpolicy.
  revert w b d eof work. induction fuel as [|fuel IH]; intros w b d eof work; [done|]. simpl.
  assert (f (snd (budget_step work w)) = f w) as Hw by (unfold budget_step; destruct (_ =? 0); simpl; auto).
  destruct (budget_step work w) as [work' w0]. simpl in Hw. rewrite <- Hw. clear w Hw.
  destruct (is_complete d); [apply Hclose|].
  pose proof (Hdemand w0) as Hw. destruct (pr_demand w0) as [w1 [[u|e]|]]; simpl in Hw; rewrite <- Hw; [|done|apply Hfail].
  destruct (decode d (recv_bytes b) eof) as [d1 [o|e]]; [|apply Hfail].
  destruct (charge_drain _ _ _) as [p [u'|l]]; [|simpl; by rewrite Hfail].
  assert (Hof : forall w2 b2 x, f w2 = f w1 ->
    f (fst (fst (let '(w, r) := pr_offer w2 x in
                 match r with
                 | Some (Ok _) => receive_loop fuel w b2 d1 eof work'
                 | Some (Err (OfferAbandoned _)) => ends b2 (w, AbandonedEnd)
                 | Some (Err (OfferClosed _)) => ends b2 (w, FailedEnd (Error_new Errors.Closed "body handoff closed"))
                 | None => ends b2 (receive_fail w canceled_error)
                 end))) = f w1).
  { intros w2 b2 x H2. pose proof (Hoffer w2 x) as Hw2. destruct (pr_offer w2 x) as [w3 [[u2|[]]|]]; simpl in *;
      rewrite ?IH, ?Hfail; congruence. }
  destruct o as [c|from to c|t c|c].
  - destruct (consume b c) as [b1 [u1|e]]; [|simpl; by rewrite Hfail].
    assert (Hrd : f (fst (fst (read_or_abandoned (pr_set_policy w1 p) b1))) = f w1).
    { unfold read_or_abandoned. destruct (configured_after _ _) as [dl|e]; [|simpl; by rewrite Hpolicy].
      pose proof (read_until_keeps tls f Hread Hmanaged Hcancel strategy
        (if pr_abandoned_first (pr_set_policy w1 p) then request_cancel (pr_set_policy w1 p) else pr_set_policy w1 p)
        b1 true dl) as Hk.
      destruct (read_until _ _ _ _ _ _) as [[w3 b3] r3]. simpl in *. rewrite Hk. destruct (pr_abandoned_first _); by rewrite ?Hcancel, Hpolicy. }
    destruct (read_or_abandoned _ b1) as [[w3 b3] [r|]]; simpl in Hrd |- *; [|done].
    destruct (pr_is_abandoned w3); [done|]. destruct r as [[n|]|e]; simpl; rewrite ?IH, ?Hfail; done.
  - destruct (take_payload b from to c) as [b1 [[x|e]|]]; simpl; [apply Hof|by rewrite Hfail|]; apply Hpolicy.
  - destruct (consume b c) as [b1 [u1|e]]; [apply Hof, Hpolicy|simpl; by rewrite Hfail].
  - destruct (consume b c) as [b1 [u1|e]]; simpl; rewrite ?Hclose, ?Hfail; done.
Qed.

End Keeps.

End Receive.

(** * What a decoder still expects

    [expects l d m p t]: the bytes [m] complete the body the decoder is in,
    with payload [p] and trailers [t]. *)

Section Expects.
Context {http : HttpCrate} {hp : Httparse} {laws : HttparseLaws hp}.
Context (l : DecodeLimits).

Definition expects (d : BodyDecoder) (m p : bytes) (t : option HeaderMap) : Prop :=
  match Decode.state d with
  | Decode.Empty | Done => m = [] /\ p = [] /\ t = None
  | Fixed n => m = p /\ zlen p = n /\ t = None
  | ChunkedState st => exists t', t = Some t' /\ Decode.wire l (phase st) (extension_bytes d) m p t'
  | UntilEof => m = p /\ t = None
  | Decode.Failed _ => False
  end.

(** The decoder is in a body of [mode], with [buffer] retained. *)
Definition tracks (mode : BodyMode) (d : BodyDecoder) (buffer : bytes) : Prop :=
  match Decode.state d with
  | Decode.Empty => mode = BodyNone
  | Fixed n => 0 <= n /\ mode <> BodyUntilEof
  | ChunkedState st => steady l d st buffer /\ mode = BodyChunked
  | UntilEof => mode = BodyUntilEof
  | Done => mode = BodyUntilEof -> buffer = []
  | Decode.Failed _ => True
  end.

(** What a call says about the body. *)
Definition call_expects (mode : BodyMode) (d : BodyDecoder) (input : bytes) (eof : bool)
    (r : BodyDecoder * result DecodeOutcome DecodeError) : Prop :=
  match r with
  | (d', Ok (NeedMore c)) =>
      0 <= c <= zlen input /\ eof = false /\
      (forall more, tracks mode d' (zdrop c input ++ more)) /\
      (forall m p t, expects d' m p t -> expects d (ztake c input ++ m) p t)
  | (d', Ok (OutData s e c)) =>
      0 <= s < e /\ e <= c /\ c <= zlen input /\ tracks mode d' (zdrop c input) /\
      (forall m p t, expects d' m p t -> expects d (ztake c input ++ m) (zslice s e input ++ p) t)
  | (d', Ok (OutTrailers t c)) =>
      0 <= c <= zlen input /\ tracks mode d' (zdrop c input) /\ Decode.state d' = Done /\
      expects d (ztake c input) [] (Some t)
  | (d', Ok (OutEnd c)) =>
      c = 0 /\ expects d [] [] None /\ (mode = BodyUntilEof -> input = [])
  | (_, Err _) => True
  end.

Lemma decode_expects mode d input eof :
  tracks mode d input -> is_complete d = false -> call_expects mode d input eof (decode d input eof).
Proof.
  unfold tracks, is_complete. intros Ht Hc. pose proof (zlen_nonneg input) as Hlen.
  destruct (Decode.state d) as [|n|st| | |e] eqn:Es; try done.
  - (* fixed *)
    destruct Ht as [Hn Hmode]. unfold decode. rewrite Es. rewrite Hc. case_bool_decide as Hi; simpl.
    + destruct eof; [done|]. subst input. split_and!; try done.
      * intros more. unfold tracks. by rewrite Es.
    + assert (0 < zlen input) by (destruct input; [done|]; rewrite zlen_cons; zl).
      split_and!; try lia.
      * unfold tracks. simpl. split; [lia|done].
      * intros m p t. unfold expects. simpl. rewrite Es, zslice_0. intros (-> & Hp & ->).
        split_and!; try done. rewrite zlen_app, zlen_ztake; lia.
  - (* chunked *)
    destruct Ht as [Hst Hmode]. pose proof (decode_backward l d st input eof Es Hst) as Hs.
    destruct (decode d input eof) as [d' [[c|s e c|t c|c]|e]]; simpl in *; rewrite ?zslice_0 in Hs; try done.
    + destruct Hs as (-> & Hr & st' & Es' & Hst' & Hl). split_and!; try done; try lia.
      * intros more. unfold tracks. rewrite Es'. split; [by apply steady_more|done].
      * intros m p t. unfold expects. rewrite Es, Es'. intros (t' & -> & Hw). exists t'. split; [done|]. by apply (Hl m p t').
    + destruct Hs as (Hr & -> & Hr' & st' & Es' & Hst' & Hl). split_and!; try lia.
      * unfold tracks. rewrite Es'. done.
      * intros m p t. unfold expects. rewrite Es, Es'. intros (t' & -> & Hw). exists t'. split; [done|]. by apply (Hl m p t').
    + destruct Hs as (Es' & Hr & Hw). split_and!; try done; try lia.
      * unfold tracks. rewrite Es'. by subst mode.
      * unfold expects. rewrite Es. eauto.
  - (* until the end of the transport *)
    unfold decode. rewrite Es. case_bool_decide as Hi; simpl.
    + destruct eof; simpl.
      * split_and!; try done. unfold expects. rewrite Es. done.
      * subst input. split_and!; try done. intros more. unfold tracks. by rewrite Es.
    + assert (0 < zlen input) by (destruct input; [done|]; rewrite zlen_cons; zl).
      assert (Hx : forall d', (Decode.state d' = UntilEof \/ Decode.state d' = Done) -> forall m p t, expects d' m p t ->
        expects d (ztake (zlen input) input ++ m) (zslice 0 (zlen input) input ++ p) t).
      { intros d' Hd' m p t. unfold expects. rewrite Es, zslice_0, ztake_all by lia.
        destruct Hd' as [->| ->]; [intros [-> ->] | intros (-> & -> & ->)]; done. }
      destruct eof; simpl; split_and!; try lia.
      * unfold tracks. simpl. intros _. by apply zdrop_all.
      * apply Hx. by right.
      * unfold tracks. by rewrite Es.
      * apply Hx. by left.
  - unfold decode. by rewrite Es.
Qed.

Lemma complete_expects d mode buffer : tracks mode d buffer -> is_complete d = true ->
  expects d [] [] None /\ (mode = BodyUntilEof -> buffer = []).
Proof.
  unfold tracks, is_complete, expects. destruct (Decode.state d); try done.
  - intros ->. by split.
  - intros [Hn Hm] E%Z.eqb_eq. by subst.
Qed.

End Expects.

(** * What the loop guarantees *)

(** Documented behaviour of the parameters: [delivered] is the frames the
    consumer took, [ended] what the producer declared last. An offer answers
    [Ok] exactly when its frame was taken; a canceled one may still have been. *)
Class ReceiveLaws {http : HttpCrate} (W : Type)
    `{Runtime W} `{AsyncRead W} `{!Reads W} `{Timer W} `{!BodyProducer W} := {
  delivered : W -> list (Frame IncomingData);
  ended : W -> option (result unit Error);
  observed w := (received w, delivered w, ended w);
  law_yields w : observed (rt_yield w) = observed w;
  law_cancels w : observed (request_cancel w) = observed w;
  law_demand w : observed (fst (pr_demand w)) = observed w;
  law_policy w p : observed (pr_set_policy w p) = observed w;
  law_reader w n : (delivered (fst (ar_read w n)), ended (fst (ar_read w n))) = (delivered w, ended w);
  law_managed_reader w n :
    (delivered (fst (ar_read_managed w n)), ended (fst (ar_read_managed w n))) = (delivered w, ended w);
  law_offer w f w' r : pr_offer w f = (w', r) ->
    received w' = received w /\ ended w' = ended w /\
    match r with
    | Some (Ok _) => delivered w' = delivered w ++ [f]
    | Some (Err _) => delivered w' = delivered w
    | None => delivered w' = delivered w \/ delivered w' = delivered w ++ [f]
    end;
  law_close w : observed (pr_close w) = (received w, delivered w, Some (Ok tt));
  law_fail w e : observed (pr_fail w e) = (received w, delivered w, Some (Err e));
}.

(** The frames of a body: its payload in pieces, then its trailers. *)
Definition body_frames {http : HttpCrate} (pieces : list IncomingData) (t : option HeaderMap)
    : list (Frame IncomingData) :=
  map DataFrame pieces ++ match t with Some t => [TrailersFrame t] | None => [] end.

Section Theorems.
Context {http : HttpCrate} {hp : Httparse} {laws : HttparseLaws hp} {alloc : BytesAllocator}.
Context {W : Type} `{Runtime W} `{AsyncRead W} `{!Reads W} `{Timer W} `{!BodyProducer W} `{!ReceiveLaws W}.
Context (tls : bool) (strategy : Strategy) (progress_timeout : option Z).
Context (l : DecodeLimits) (mode : BodyMode).

Lemma budget_step_observed budget (w : W) : observed (snd (budget_step budget w)) = observed w.
Proof. unfold budget_step. destruct (budget =? 0); simpl; [apply law_yields | done]. Qed.

(** How an activity that started in [w] with [b] retained may end. *)
Definition receive_answer (w : W) (b : RecvBuffer) (d : BodyDecoder) (w' : W) (b' : RecvBuffer)
    (r : option (call ReceiveEnd)) : Prop :=
  wf_recv b' /\ exists input frames,
    received w' = received w ++ input /\ delivered w' = delivered w ++ frames /\
    match r with
    | None => ended w' = ended w
    | Some Panics => False
    | Some (Returns Complete) =>
        ended w' = Some (Ok tt) /\
        exists m pieces t, recv_bytes b ++ input = m ++ recv_bytes b' /\ frames = body_frames pieces t /\
          Forall wf_data pieces /\ expects l d m (concat (map as_ref pieces)) t /\ (mode = BodyUntilEof -> recv_bytes b' = [])
    | Some (Returns AbandonedEnd) => ended w' = ended w
    | Some (Returns (FailedEnd e)) =>
        ended w' = ended w \/ exists e', Error_split e' = (e, e) /\ ended w' = Some (Err e)
    end.

Lemma observed_eq (w w' : W) : observed w' = observed w ->
  received w' = received w /\ delivered w' = delivered w /\ ended w' = ended w.
Proof. unfold observed. intros E. by injection E. Qed.

Lemma answer_start (w0 w : W) b d w' b' r :
  observed w = observed w0 -> receive_answer w b d w' b' r -> receive_answer w0 b d w' b' r.
Proof.
  intros (E1 & E2 & E3)%observed_eq. unfold receive_answer. rewrite E1, E2, E3. done.
Qed.

Lemma receive_fail_answer (w : W) b b' d e :
  wf_recv b' -> receive_answer w b d (fst (receive_fail w e)) b' (Some (Returns (snd (receive_fail w e)))).
Proof.
  intros Hb. split; [done|]. exists [], []. rewrite !app_nil_r. unfold receive_fail, Error_split. simpl.
  pose proof (law_fail w (mkError (kind e) (context e) (detail e) (option_map Errors.Shared (option_map source_error (source e)))))
    as Hf. unfold observed in Hf. injection Hf as Hf1 Hf2 Hf3. split_and!; [done..|]. right. exists e. by rewrite Hf3.
Qed.

Lemma read_or_abandoned_ok (w : W) b : wf_recv b ->
  let '(w', b', r) := read_or_abandoned tls strategy progress_timeout w b in
  exists fill, received w' = received w ++ fill /\ delivered w' = delivered w /\ ended w' = ended w /\
    recv_bytes b' = recv_bytes b ++ fill /\ wf_recv b' /\ exists a, r = Returns a /\ status_says a fill.
Proof.
  intros Hb. unfold read_or_abandoned.
  destruct (configured_after w progress_timeout) as [deadline|e];
    [|exists []; rewrite !app_nil_r; split_and!; try done; by eexists].
  set (w1 := if pr_abandoned_first w then request_cancel w else w).
  assert (observed w1 = observed w) as (E1 & E2 & E3)%observed_eq.
  { unfold w1. destruct (pr_abandoned_first w); [apply law_cancels|done]. }
  assert (Hc : forall w, received (request_cancel w) = received w) by (intros w0; by apply observed_eq, law_cancels).
  pose proof (read_until_ok tls Hc strategy b true deadline w1 Hb) as Hr.
  pose proof (read_until_keeps tls (fun w => (delivered w, ended w)) law_reader law_managed_reader) as Hk.
  specialize (Hk ltac:(intros w0; destruct (observed_eq _ _ (law_cancels w0)) as (_ & -> & ->); done)
    strategy w1 b true deadline).
  destruct (read_until tls strategy w1 b true deadline) as [[w' b'] r]. simpl in Hk. injection Hk as Hk1 Hk2.
  destruct Hr as (fill & Hrec & Hq & Hwf & a & -> & Ha). exists fill.
  rewrite Hrec, Hk1, Hk2, E1, E2, E3. split_and!; try done. eexists; split; [done|]. by destruct a as [[]|].
Qed.

(** One more piece in front: the loop went on from [w1] with [b1] retained. *)
Lemma answer_continue (w w1 : W) b b1 d d1 w' b' r c fill pieces p :
  0 <= c <= recv_len b ->
  received w1 = received w ++ fill -> delivered w1 = delivered w ++ map DataFrame pieces -> ended w1 = ended w ->
  recv_bytes b1 = zdrop c (recv_bytes b) ++ fill -> p = concat (map as_ref pieces) -> Forall wf_data pieces ->
  (forall m q t, expects l d1 m q t -> expects l d (ztake c (recv_bytes b) ++ m) (p ++ q) t) ->
  receive_answer w1 b1 d1 w' b' r -> receive_answer w b d w' b' r.
Proof.
  intros Hc Hrec Hdel Hend Hb1 -> Hwfp Hx (Hwf & input & frames & Hr & Hd & Ha). split; [done|].
  exists (fill ++ input), (map DataFrame pieces ++ frames). rewrite Hr, Hd, Hrec, Hdel, <- !app_assoc.
  split_and!; [done..|]. rewrite <- Hend. destruct r as [[[]|]|]; try done.
  destruct Ha as (He & m & pieces' & t & Hm & -> & Hwfp' & Hexp & Hu). split; [done|].
  exists (ztake c (recv_bytes b) ++ m), (pieces ++ pieces'), t. split_and!.
  - rewrite <- app_assoc, <- Hm, Hb1, <- app_assoc, (app_assoc (ztake c _)), ztake_zdrop. done.
  - unfold body_frames. by rewrite map_app, <- app_assoc.
  - by apply Forall_app.
  - rewrite map_app, concat_app. by apply Hx.
  - done.
Qed.

Notation loop := (receive_loop tls strategy progress_timeout).

(** A decoder that is done ends the activity without another frame. *)
Lemma loop_done fuel (w : W) b d eof work :
  is_complete d = true ->
  let '(w', b', r) := loop fuel w b d eof work in
  b' = b /\ received w' = received w /\ delivered w' = delivered w /\
  match r with
  | None => ended w' = ended w
  | Some r => r = Returns Complete /\ ended w' = Some (Ok tt)
  end.
Proof.
  intros Hd. destruct fuel as [|fuel]; simpl; [done|].
  pose proof (budget_step_observed work w) as Hb. destruct (budget_step work w) as [work1 w1]. simpl in Hb.
  rewrite Hd. simpl. pose proof (law_close w1) as Hc. apply observed_eq in Hb as (E1 & E2 & E3).
  unfold observed in Hc. injection Hc as Hc1 Hc2 Hc3. rewrite Hc1, Hc2, E1, E2. done.
Qed.

Lemma consume_fits b c : wf_recv b -> 0 <= c <= recv_len b ->
  exists b', consume b c = (b', Ok tt) /\ wf_recv b' /\ recv_bytes b' = zdrop c (recv_bytes b).
Proof.
  intros Hwf Hc. pose proof (consume_ok b c Hwf (proj1 Hc)) as Hr.
  destruct (consume b c) as [b' r]. simpl in Hr. unfold recv_len in Hc.
  rewrite (proj2 (Z.leb_le _ _)) in Hr by lia. destruct Hr as [Hh ->].
  exists b'. split_and!; [done| |apply Hh]. apply (holds_wf b b' _ Hwf Hh).
  destruct Hwf as (_ & _ & Hl & _). unfold recv_len in Hl. rewrite zlen_zdrop; lia.
Qed.

Lemma take_payload_fits b s e c : wf_recv b -> 0 <= s <= e -> e <= c -> c <= recv_len b ->
  exists b' x, take_payload b s e c = (b', Returns (Ok x)) /\ wf_recv b' /\
    recv_bytes b' = zdrop c (recv_bytes b) /\ as_ref x = zslice s e (recv_bytes b) /\ wf_data x.
Proof.
  intros Hwf Hs He Hc. pose proof (take_payload_ok b s e c Hwf) as Hp.
  destruct (take_payload b s e c) as [b' r]. unfold recv_len in Hc. simpl in Hp.
  rewrite !(proj2 (Z.leb_le _ _)) in Hp by lia. simpl in Hp.
  destruct Hp as (Hwf' & Hq & (a & -> & x & -> & Hwx & Hx) & _); [lia..|]. eauto 10.
Qed.

Lemma closed_answer (w : W) b d b' c :
  wf_recv b' -> 0 <= c <= recv_len b -> recv_bytes b' = zdrop c (recv_bytes b) ->
  expects l d (ztake c (recv_bytes b)) [] None -> (mode = BodyUntilEof -> recv_bytes b' = []) ->
  receive_answer w b d (pr_close w) b' (Some (Returns Complete)).
Proof.
  intros Hwf Hc Hb' Hx Hu. pose proof (law_close w) as Hcl. unfold observed in Hcl.
  injection Hcl as Hc1 Hc2 Hc3. split; [done|]. exists [], []. rewrite !app_nil_r.
  split_and!; [done..|]. exists (ztake c (recv_bytes b)), [], None.
  split_and!; [by rewrite Hb', ztake_zdrop|done|constructor|exact Hx|done].
Qed.

(** The activity went nowhere after [w]: nothing taken, nothing declared. *)
Lemma unchanged_answer (w : W) b d b' r :
  wf_recv b' -> match r with None | Some (Returns AbandonedEnd) => True | _ => False end ->
  receive_answer w b d w b' r.
Proof.
  intros Hwf Hr. split; [done|]. exists [], []. rewrite !app_nil_r. split_and!; [done..|].
  by destruct r as [[[]|]|].
Qed.

(** An offer that did not end in the frame being taken. *)
Lemma refused_answer (w w1 : W) b d b' f r :
  wf_recv b' -> pr_offer w f = (w1, r) ->
  match r with
  | Some (Ok _) => True
  | Some (Err (OfferAbandoned _)) => receive_answer w b d w1 b' (Some (Returns AbandonedEnd))
  | Some (Err (OfferClosed _)) => forall e, receive_answer w b d w1 b' (Some (Returns (FailedEnd e)))
  | None => forall e, receive_answer w b d (fst (receive_fail w1 e)) b' (Some (Returns (snd (receive_fail w1 e))))
  end.
Proof.
  intros Hwf Ho. apply law_offer in Ho as (E1 & E2 & E3). destruct r as [[[]|[]]|]; [done|..].
  - split; [done|]. exists [], []. rewrite !app_nil_r. done.
  - intros e. split; [done|]. exists [], []. rewrite !app_nil_r. split_and!; [done..|]. by left.
  - intros e. destruct (receive_fail_answer w1 b b' d e Hwf) as (_ & input & frames & Hr & Hd & He).
    split; [done|]. exists input. rewrite <- E1. destruct E3 as [E3|E3]; rewrite E3 in Hd.
    + exists frames. split_and!; [done..|]. by rewrite <- E2.
    + exists (f :: frames). rewrite <- app_assoc in Hd. split_and!; [done..|]. by rewrite <- E2.
Qed.

Lemma trailers_answer fuel (w w1 : W) b b1 d d1 eof work c t :
  wf_recv b1 -> 0 <= c <= recv_len b -> recv_bytes b1 = zdrop c (recv_bytes b) ->
  received w1 = received w -> delivered w1 = delivered w ++ [TrailersFrame t] -> ended w1 = ended w ->
  tracks l mode d1 (recv_bytes b1) -> Decode.state d1 = Done ->
  expects l d (ztake c (recv_bytes b)) [] (Some t) ->
  let '(w', b', r) := loop fuel w1 b1 d1 eof work in receive_answer w b d w' b' r.
Proof.
  intros Hwf Hc Hb1 E1 E2 E3 Ht Hs Hx.
  assert (Hd : is_complete d1 = true) by (unfold is_complete; by rewrite Hs).
  pose proof (loop_done fuel w1 b1 d1 eof work Hd) as Hl. destruct (loop fuel w1 b1 d1 eof work) as [[w' b'] r].
  destruct Hl as (-> & Hr & Hdel & He). split; [done|]. exists [], [TrailersFrame t].
  rewrite Hr, Hdel, E1, E2, !app_nil_r. split_and!; [done..|].
  destruct r as [r|]; [destruct He as [-> He]|by rewrite He]. split; [done|].
  exists (ztake c (recv_bytes b)), [], (Some t). split_and!; [by rewrite Hb1, ztake_zdrop|done|constructor|done|].
  by apply (complete_expects l d1 mode).
Qed.

(** Reads off an end of the activity. *)
Ltac ended := unfold ends; cbn [fst snd].

Lemma loop_ok fuel (w : W) b d eof work :
  wf_recv b -> tracks l mode d (recv_bytes b) ->
  let '(w', b', r) := loop fuel w b d eof work in receive_answer w b d w' b' r.
Proof.
  revert w b d eof work. induction fuel as [|fuel IH]; intros w b d eof work Hb Ht; simpl.
  { by apply unchanged_answer. }
  pose proof (budget_step_observed work w) as Hstep. destruct (budget_step work w) as [work1 w1]. simpl in Hstep.
  assert (Hzero : 0 <= 0 <= recv_len b) by (unfold recv_len; pose proof (zlen_nonneg (recv_bytes b)); lia).
  destruct (is_complete d) eqn:Hd.
  { ended. apply (answer_start _ _ _ _ _ _ _ Hstep).
    apply (complete_expects l d mode) in Ht as [Hx Hu]; [|done].
    apply closed_answer with (c := 0); rewrite ?zdrop_0, ?ztake_0 by lia; done. }
  pose proof (law_demand w1) as Hdem. destruct (pr_demand w1) as [w2 demanded]. simpl in Hdem. rewrite Hstep in Hdem.
  destruct demanded as [[[]|]|]; cycle 1.
  { ended. apply (answer_start _ _ _ _ _ _ _ Hdem). by apply unchanged_answer. }
  { ended. apply (answer_start _ _ _ _ _ _ _ Hdem). by apply receive_fail_answer. }
  pose proof (decode_expects l mode d (recv_bytes b) eof Ht Hd) as Hdec.
  destruct (decode d (recv_bytes b) eof) as [d1 [outcome|e]].
  2:{ ended. apply (answer_start _ _ _ _ _ _ _ Hdem). by apply receive_fail_answer. }
  destruct (charge_drain (pr_policy w2) (consumed_of outcome) (payload_of outcome)) as [policy charged].
  pose proof (law_policy w2 policy) as Hpol. rewrite Hdem in Hpol. cbv zeta.
  set (w3 := pr_set_policy w2 policy) in *. clearbody w3. clear Hdem Hstep w1 w2.
  destruct charged as [[]|limit].
  2:{ ended. apply (answer_start _ _ _ _ _ _ _ Hpol). by apply receive_fail_answer. }
  destruct outcome as [c|s e c|t c|c]; simpl in Hdec.
  - destruct Hdec as (Hc & -> & Htr & Hx). destruct (consume_fits b c Hb) as (b1 & -> & Hb1 & Hq1); [done|].
    pose proof (read_or_abandoned_ok w3 b1 Hb1) as Hr.
    destruct (read_or_abandoned tls strategy progress_timeout w3 b1) as [[w4 b2] r].
    destruct Hr as (fill & E1 & E2 & E3 & Hq2 & Hb2 & a & -> & _). rewrite Hq1 in Hq2.
    assert (Hgo : forall w' b' r, receive_answer w4 b2 d1 w' b' r -> receive_answer w b d w' b' r).
    { intros w' b' r Ha. apply (answer_start _ _ _ _ _ _ _ Hpol).
      apply (answer_continue w3 w4 b b2 d d1 w' b' r c fill [] []); try done. by rewrite app_nil_r. }
    destruct (pr_is_abandoned w4); [apply Hgo; by apply unchanged_answer|].
    destruct a as [[n|]|e]; [| |ended; apply Hgo; by apply receive_fail_answer].
    + specialize (IH w4 b2 d1 false work1 Hb2). rewrite Hq2 in IH. specialize (IH (Htr fill)).
      destruct (loop fuel w4 b2 d1 false work1) as [[w' b'] r]. by apply Hgo.
    + specialize (IH w4 b2 d1 true work1 Hb2). rewrite Hq2 in IH. specialize (IH (Htr fill)).
      destruct (loop fuel w4 b2 d1 true work1) as [[w' b'] r]. by apply Hgo.
  - destruct Hdec as (Hs & He & Hc & Htr & Hx).
    destruct (take_payload_fits b s e c Hb) as (b1 & x & -> & Hb1 & Hq1 & Hx1 & Hwx); [lia|done..|].
    destruct (pr_offer w3 (DataFrame x)) as [w4 r] eqn:Eo.
    pose proof (refused_answer w3 w4 b d b1 (DataFrame x) r Hb1 Eo) as Hrf.
    destruct r as [[[]|[]]|]; ended; [|by apply (answer_start _ _ _ _ _ _ _ Hpol)..].
    apply law_offer in Eo as (E1 & E2 & E3).
    specialize (IH w4 b1 d1 eof work1 Hb1). rewrite Hq1 in IH. specialize (IH Htr).
    destruct (loop fuel w4 b1 d1 eof work1) as [[w' b'] r]. apply (answer_start _ _ _ _ _ _ _ Hpol).
    apply (answer_continue w3 w4 b b1 d d1 w' b' r c [] [x] (zslice s e (recv_bytes b))); rewrite ?app_nil_r; try done.
    + unfold recv_len. lia.
    + simpl. by rewrite app_nil_r.
    + by repeat constructor.
  - destruct Hdec as (Hc & Htr & Hs & Hx). destruct (consume_fits b c Hb) as (b1 & -> & Hb1 & Hq1); [done|].
    destruct (pr_offer w3 (TrailersFrame t)) as [w4 r] eqn:Eo.
    pose proof (refused_answer w3 w4 b d b1 (TrailersFrame t) r Hb1 Eo) as Hrf.
    destruct r as [[[]|[]]|]; ended; [|by apply (answer_start _ _ _ _ _ _ _ Hpol)..].
    apply law_offer in Eo as (E1 & E2 & E3). rewrite <- Hq1 in Htr.
    pose proof (trailers_answer fuel w3 w4 b b1 d d1 eof work1 c t Hb1 Hc Hq1 E1 E3 E2 Htr Hs Hx) as Hta.
    destruct (loop fuel w4 b1 d1 eof work1) as [[w' b'] r]. by apply (answer_start _ _ _ _ _ _ _ Hpol).
  - destruct Hdec as (-> & Hx & Hu). destruct (consume_fits b 0 Hb) as (b1 & -> & Hb1 & Hq1); [done|].
    ended. apply (answer_start _ _ _ _ _ _ _ Hpol). apply closed_answer with (c := 0); try done.
    intros Hm. rewrite Hq1, (Hu Hm). done.
Qed.

(** ** The loop ends *)

Section Finite.
Context (bound : Z) (Hbound : forall w : W, zlen (received w) <= bound).

Lemma trailers_consume d c (input : bytes) t : expects l d (ztake c input) [] (Some t) -> 0 < c.
Proof.
  unfold expects. intros Hx. destruct (Z.le_gt_cases c 0); [|done]. rewrite ztake_0 in Hx by done.
  destruct (Decode.state d); try (destruct Hx as (_ & _ & ?); done); try (destruct Hx as (_ & ?); done); [|done].
  destruct Hx as (t' & _ & Hw). by apply wire_nonempty in Hw.
Qed.

(** Every turn takes bytes from the buffer, or from the transport, or reaches
    the end of one. *)
Lemma loop_total fuel (w : W) b d (eof : bool) work :
  wf_recv b -> tracks l mode d (recv_bytes b) ->
  recv_len b + 2 * (bound - zlen (received w)) + (if eof then 1 else 2) <= Z.of_nat fuel ->
  is_Some (snd (loop fuel w b d eof work)).
Proof.
  revert w b d eof work. induction fuel as [|fuel IH]; intros w b d eof work Hb Ht Hf; simpl.
  { specialize (Hbound w). unfold recv_len in Hf. pose proof (zlen_nonneg (recv_bytes b)). destruct eof; lia. }
  pose proof (budget_step_observed work w) as Hstep. destruct (budget_step work w) as [work1 w1]. simpl in Hstep.
  destruct (is_complete d) eqn:Hd; [by eexists|].
  pose proof (law_demand w1) as Hdem. destruct (pr_demand w1) as [w2 [[[]|]|]]; [|by eexists..].
  simpl in Hdem. rewrite Hstep in Hdem.
  pose proof (decode_expects l mode d (recv_bytes b) eof Ht Hd) as Hdec.
  destruct (decode d (recv_bytes b) eof) as [d1 [outcome|e]]; [|by eexists].
  destruct (charge_drain (pr_policy w2) (consumed_of outcome) (payload_of outcome)) as [policy [[]|limit]]; [|by eexists].
  pose proof (law_policy w2 policy) as Hpol. rewrite Hdem in Hpol. apply observed_eq in Hpol as (E1 & _ & _). cbv zeta.
  set (w3 := pr_set_policy w2 policy) in *. clearbody w3. rewrite <- E1 in Hf.
  destruct outcome as [c|s e c|t c|c]; simpl in Hdec.
  - destruct Hdec as (Hc & -> & Htr & _). destruct (consume_fits b c Hb) as (b1 & -> & Hb1 & Hq1); [done|].
    pose proof (read_or_abandoned_ok w3 b1 Hb1) as Hr.
    destruct (read_or_abandoned tls strategy progress_timeout w3 b1) as [[w4 b2] r].
    destruct Hr as (fill & E4 & _ & _ & Hq2 & Hb2 & a & -> & Ha). rewrite Hq1 in Hq2.
    assert (Hlen : recv_len b2 = recv_len b - c + zlen fill).
    { unfold recv_len. rewrite Hq2, zlen_app, zlen_zdrop by lia. lia. }
    destruct (pr_is_abandoned w4); [by eexists|]. destruct a as [[n|]|e]; [| |by eexists]; simpl in Ha.
    + apply IH; [done|by rewrite Hq2|]. rewrite Hlen, E4, zlen_app. lia.
    + apply IH; [done|by rewrite Hq2|]. rewrite Hlen, E4, zlen_app. subst fill. change (zlen (@nil byte)) with 0. lia.
  - destruct Hdec as (Hs & He & Hc & Htr & _).
    destruct (take_payload_fits b s e c Hb) as (b1 & x & -> & Hb1 & Hq1 & _); [lia|done..|].
    destruct (pr_offer w3 (DataFrame x)) as [w4 [[[]|[]]|]] eqn:Eo; [|by eexists..].
    apply law_offer in Eo as (E4 & _ & _). apply IH; [done|by rewrite Hq1|].
    unfold recv_len in *. rewrite Hq1, E4, zlen_zdrop by lia. lia.
  - destruct Hdec as (Hc & Htr & _ & Hx). apply trailers_consume in Hx.
    destruct (consume_fits b c Hb) as (b1 & -> & Hb1 & Hq1); [done|].
    destruct (pr_offer w3 (TrailersFrame t)) as [w4 [[[]|[]]|]] eqn:Eo; [|by eexists..].
    apply law_offer in Eo as (E4 & _ & _). apply IH; [done|by rewrite Hq1|].
    unfold recv_len in *. rewrite Hq1, E4, zlen_zdrop by lia. lia.
  - destruct (consume b c) as [b1 [[]|]]; by eexists.
Qed.

End Finite.

(** ** The properties *)

(** A body of [mode]: its bytes on the wire, its payload, its trailers. *)
Definition is_body (m p : bytes) (t : option HeaderMap) : Prop :=
  match mode with
  | BodyNone => m = [] /\ p = [] /\ t = None
  | BodyFixed n => m = p /\ zlen p = n /\ t = None
  | BodyChunked => exists t', t = Some t' /\ chunked_body l m p t'
  | BodyUntilEof => m = p /\ t = None
  end.

Definition mode_ok : Prop := match mode with BodyFixed n => 0 <= n | _ => True end.

Lemma fresh_tracks buffer : wf_limits l -> mode_ok -> tracks l mode (with_limits mode l) buffer.
Proof.
  intros Hl Hm. unfold tracks, mode_ok in *. destruct mode; simpl; try done.
  split; [by apply fresh_steady | done].
Qed.

Lemma receive_body_complete fuel (w : W) b w' b' :
  wf_limits l -> mode_ok -> wf_recv b ->
  receive_body_configured tls strategy progress_timeout fuel w b (with_limits mode l) =
    (w', b', Some (Returns Complete)) ->
  exists input m pieces t,
    received w' = received w ++ input /\ recv_bytes b ++ input = m ++ recv_bytes b' /\
    is_body m (concat (map as_ref pieces)) t /\ Forall wf_data pieces /\ delivered w' = delivered w ++ body_frames pieces t /\
    ended w' = Some (Ok tt) /\ (mode = BodyUntilEof -> recv_bytes b' = []).
Proof.
  intros Hl Hm Hb Hr. pose proof (loop_ok fuel w b _ false WorkBudget_new Hb (fresh_tracks _ Hl Hm)) as Ha.
  unfold receive_body_configured in Hr. rewrite Hr in Ha.
  destruct Ha as (_ & input & frames & E1 & E2 & E3 & m & pieces & t & E4 & -> & Hwfp & Hx & Hu).
  exists input, m, pieces, t. split_and!; try done. unfold is_body, expects in *. by destruct mode.
Qed.

(** Receiving never panics. *)
Lemma receive_body_safe fuel (w : W) b w' b' r :
  wf_limits l -> mode_ok -> wf_recv b ->
  receive_body_configured tls strategy progress_timeout fuel w b (with_limits mode l) = (w', b', r) ->
  receive_answer w b (with_limits mode l) w' b' r.
Proof.
  intros Hl Hm Hb Hr. pose proof (loop_ok fuel w b _ false WorkBudget_new Hb (fresh_tracks _ Hl Hm)) as Ha.
  unfold receive_body_configured in Hr. by rewrite Hr in Ha.
Qed.

Lemma receive_body_total bound fuel (w : W) b :
  (forall w : W, zlen (received w) <= bound) ->
  wf_limits l -> mode_ok -> wf_recv b ->
  recv_len b + 2 * (bound - zlen (received w)) + 2 <= Z.of_nat fuel ->
  exists e, snd (receive_body_configured tls strategy progress_timeout fuel w b (with_limits mode l)) = Some (Returns e).
Proof.
  intros Hbound Hl Hm Hb Hf. unfold receive_body_configured.
  destruct (loop_total bound Hbound fuel w b (with_limits mode l) false WorkBudget_new Hb (fresh_tracks _ Hl Hm) Hf) as [[e|] He];
    [by exists e|]. pose proof (receive_body_safe fuel w b) as Hs. unfold receive_body_configured in *.
  destruct (loop fuel w b _ false WorkBudget_new) as [[w' b'] r]. simpl in He. subst r.
  by destruct (Hs w' b' (Some Panics) Hl Hm Hb eq_refl) as (_ & ? & ? & _ & _ & []).
Qed.

(** C17: A body is reported complete only when it is. Whatever the transport,
    the application, the timers and cancellation do, when receiving a body
    ends as complete the bytes read are one whole body of the framing mode
    followed by exactly what is still retained, the application took exactly
    its payload in order, then its trailers, and the body was closed cleanly;
    a body delimited by the connection took everything. *)
Theorem receive_complete_exact fuel (w : W) b w' b' :
  wf_limits l -> mode_ok -> wf_recv b ->
  receive_body_configured tls strategy progress_timeout fuel w b (with_limits mode l) =
    (w', b', Some (Returns Complete)) ->
  exists input m pieces t,
    received w' = received w ++ input /\ recv_bytes b ++ input = m ++ recv_bytes b' /\
    is_body m (concat (map as_ref pieces)) t /\ Forall wf_data pieces /\ delivered w' = delivered w ++ body_frames pieces t /\
    ended w' = Some (Ok tt) /\ (mode = BodyUntilEof -> recv_bytes b' = []).
Proof. apply receive_body_complete. Qed.


(** Receiving ends. Over a transport that delivers at most [bound] bytes,
    receiving a body ends after a bounded number of turns, whatever it is
    fed. *)
Theorem receive_total bound fuel (w : W) b :
  (forall w : W, zlen (received w) <= bound) ->
  wf_limits l -> mode_ok -> wf_recv b ->
  recv_len b + 2 * (bound - zlen (received w)) + 2 <= Z.of_nat fuel ->
  is_Some (snd (receive_body_configured tls strategy progress_timeout fuel w b (with_limits mode l))).
Proof.
  intros Hbound Hl Hm Hb Hf. destruct (receive_body_total bound fuel w b Hbound Hl Hm Hb Hf) as [e ->]. by eexists.
Qed.

End Theorems.

(** ** The application's side *)

Section Presented.
Context {http : HttpCrate} {hp : Httparse}.

(** What the consumer takes from a body that was delivered and closed. *)
Definition script_of (frames : list (Frame IncomingData)) : Script :=
  map (fun f => Ok (Some f)) frames ++ [Ok None].

(** The metadata agrees with pieces still to come. *)
Definition agrees (s : Incoming Script) (p : Z) (t : option HeaderMap) : Prop :=
  in_trailers_seen s = false /\ lower (in_size s) <= p /\ 0 <= lower (in_size s) /\
  match upper (in_size s) with Some u => u = p /\ lower (in_size s) = p | None => lower (in_size s) = 0 end /\
  match t with Some _ => in_trailers s = TrailersMayHave | None => True end.

Lemma data_len_ref x : wf_data x -> data_len x = zlen (as_ref x).
Proof. destruct x as [?|buffer start finish]; simpl; [done|]. intros Hx. by rewrite managed_length. Qed.

Lemma presented_data (s : Incoming Script) x c p t :
  in_consumer s = Some (Ok (Some (DataFrame x)) :: c) -> wf_data x -> 0 <= p -> agrees s (zlen (as_ref x) + p) t ->
  exists s1, incoming_next_frame s = (s1, Ok (Some (DataFrame x))) /\ in_consumer s1 = Some c /\ agrees s1 p t.
Proof.
  intros Hc Hx Hp (Hseen & Hlo & Hlo0 & Hup & Htr). apply data_len_ref in Hx. pose proof (zlen_nonneg (as_ref x)) as Hz.
  unfold incoming_next_frame. rewrite Hc. simpl. rewrite Hseen. simpl. unfold with_bounds, saturating_sub.
  destruct (upper (in_size s)) as [u|]; simpl.
  - rewrite (proj2 (Z.ltb_ge _ _)) by lia. rewrite (proj2 (Z.ltb_ge _ _)) by lia.
    eexists; split_and!; [done..|]. unfold agrees. simpl. split_and!; try done; lia.
  - eexists; split_and!; [done..|]. unfold agrees. simpl. split_and!; try done; lia.
Qed.

Lemma presented_frames pieces t (s : Incoming Script) :
  in_consumer s = Some (script_of (body_frames pieces t)) -> Forall wf_data pieces ->
  agrees s (zlen (concat (map as_ref pieces))) t ->
  next_frames (S (length (body_frames pieces t))) s =
  map (fun f => Returns (Ok (Some f))) (body_frames pieces t) ++ [Returns (Ok None)].
Proof.
  intros Hc Hwf. revert s Hc. induction Hwf as [|x pieces Hx Hwf IH]; intros s Hc Ha.
  - destruct Ha as (Hseen & Hlo & Hlo0 & Hup & Htr).
    assert (lower (in_size s) = 0) as Hz by (change (zlen (concat (map as_ref []))) with 0 in Hlo; lia).
    destruct t as [t|]; simpl in *; unfold incoming_next_frame; rewrite Hc; simpl; rewrite ?Htr, ?Hseen, Hz; simpl; done.
  - simpl in Ha. rewrite zlen_app in Ha.
    destruct (presented_data s x (script_of (body_frames pieces t)) _ t Hc Hx (zlen_nonneg _) Ha) as (s1 & Hs & Hc1 & Ha1).
    change (body_frames (x :: pieces) t) with (DataFrame x :: body_frames pieces t).
    specialize (IH s1 Hc1 Ha1). remember (S (length (body_frames pieces t))) as n eqn:En.
    change (length (DataFrame x :: body_frames pieces t)) with (S (length (body_frames pieces t))). rewrite <- En.
    cbn [next_frames next_frame Incoming_Body]. rewrite Hs. cbn [map app]. by rewrite IH.
Qed.

(** The application sees the body that was on the wire. For a received
    body of any framing mode that needs a producer, the [Incoming] built from
    that mode accepts its frames, shows exactly them and ends cleanly: the
    metadata it was given never contradicts what the decoder delivers. *)
Theorem received_body_presented l mode m pieces t :
  mode_ok mode -> is_body l mode m (concat (map as_ref pieces)) t -> Forall wf_data pieces ->
  fst (incoming mode (script_of (body_frames pieces t))) = true ->
  next_frames (S (length (body_frames pieces t))) (snd (incoming mode (script_of (body_frames pieces t)))) =
  map (fun f => Returns (Ok (Some f))) (body_frames pieces t) ++ [Returns (Ok None)].
Proof.
  intros Hm Hb Hwf Hp. destruct mode as [|n| |]; simpl in Hp |- *; [done| | |].
  - destruct (n =? 0); [done|]. simpl. apply presented_frames; [done..|].
    destruct Hb as (_ & Hn & ->). simpl in Hm. unfold agrees. simpl. split_and!; try done; lia.
  - apply presented_frames; [done..|]. destruct Hb as (t' & -> & _).
    unfold agrees. simpl. pose proof (zlen_nonneg (concat (map as_ref pieces))). split_and!; try done; lia.
  - apply presented_frames; [done..|]. destruct Hb as (_ & ->).
    unfold agrees. simpl. pose proof (zlen_nonneg (concat (map as_ref pieces))). split_and!; try done; lia.
Qed.

End Presented.

(** ** An evaluated transfer *)

Section Evaluated.
#[local] Existing Instance AssocHttp.
#[local] Existing Instance EmptyFields.
#[local] Existing Instance EmptyFields_laws.

(** A chunked body with the next message behind it. *)
Definition loop_stream : bytes :=
  bs "5" ++ [CR; LF] ++ bs "hello" ++ [CR; LF] ++ bs "0" ++ [CR; LF; CR; LF] ++ bs "GET".

(** A connection that hands the stream over seven bytes at a time, and a
    consumer that takes everything. *)
Record LoopWorld := mkLoop {
  lw_position : nat;
  lw_delivered : list (Frame IncomingData);
  lw_ended : option (result unit Error);
}.

Definition lw_received (w : LoopWorld) : bytes := take (lw_position w) loop_stream.

#[local] Instance Loop_Runtime : Runtime LoopWorld := {
  rt_yield w := w;
  rt_cancel_requested _ := false;
  operation_canceled := mkIoError IoOther false true None;
}.

Definition lw_take (w : LoopWorld) (n : Z) : LoopWorld * bytes :=
  let b := ztake (Z.min n 7) (drop (lw_position w) loop_stream) in
  (mkLoop (lw_position w + length b) (lw_delivered w) (lw_ended w), b).

#[local] Instance Loop_AsyncRead : AsyncRead LoopWorld := {
  ar_read w n := let '(w, b) := lw_take w n in (w, (Ok (zlen b), b));
  ar_read_managed w n := let '(w, b) := lw_take w n in (w, Ok (if zlen b =? 0 then None else Some b));
}.

#[local] Instance Loop_Timer : Timer LoopWorld := {
  instant_after _ d := Some d;
  timer_first _ _ := false;
  request_cancel w := w;
}.

#[local] Instance Loop_Allocator : BytesAllocator := { capacity_for n := n; reserved_capacity c n := c + n }.

#[local] Instance Loop_Producer : BodyProducer LoopWorld := {
  pr_demand w := (w, Some (Ok tt));
  pr_offer w f := (mkLoop (lw_position w) (lw_delivered w ++ [f]) (lw_ended w), Some (Ok tt));
  pr_close w := mkLoop (lw_position w) (lw_delivered w) (Some (Ok tt));
  pr_fail w e := mkLoop (lw_position w) (lw_delivered w) (Some (Err e));
  pr_is_abandoned _ := false;
  pr_abandoned_first _ := false;
  pr_policy _ := None;
  pr_set_policy w _ := w;
}.

Lemma lw_take_spec w n w' b : 0 < n -> lw_take w n = (w', b) ->
  zlen b <= n /\ lw_received w' = lw_received w ++ b.
Proof.
  intros Hn [= <- <-]. unfold lw_received. simpl. split; [rewrite zlen_ztake; lia|].
  rewrite <- take_take_drop. f_equal. unfold ztake. rewrite length_take.
  destruct (Nat.le_ge_cases (Z.to_nat (Z.min n 7)) (length (drop (lw_position w) loop_stream))).
  - by rewrite Nat.min_l by done.
  - rewrite Nat.min_r, !take_ge by lia. done.
Qed.

Lemma lw_take_any w n w' b : lw_take w n = (w', b) -> lw_received w' = lw_received w ++ b.
Proof.
  destruct (Z.lt_ge_cases 0 n); [intros E; by apply (lw_take_spec w n)|].
  intros [= <- <-]. unfold lw_received. simpl. rewrite ztake_0 by lia. by rewrite Nat.add_0_r, app_nil_r.
Qed.

#[local] Instance Loop_Reads : Reads LoopWorld.
Proof.
  refine {| received := lw_received |}; unfold ar_read, ar_read_managed, Loop_AsyncRead; intros w n.
  - intros w' r fill Hn. destruct (lw_take w n) as [w1 b] eqn:E. intros [= <- <- <-]. by apply lw_take_spec.
  - intros w' r. destruct (lw_take w n) as [w1 b] eqn:E. intros [= <- <-]. apply lw_take_any in E. rewrite E. f_equal.
    destruct (Z.eqb_spec (zlen b) 0) as [->%zlen_0_nil|]; done.
  - intros w' b Hn. destruct (lw_take w n) as [w1 b1] eqn:E. destruct (_ =? 0); intros [= <- <-].
    by apply (lw_take_spec w n w1).
Defined.

#[local] Instance Loop_Laws : ReceiveLaws LoopWorld.
Proof.
  refine {| delivered := lw_delivered; ended := lw_ended |}; try done.
  - intros w f w' r [= <- <-]. done.
Defined.

Definition loop_start : LoopWorld := mkLoop 0 [] None.

Definition loop_buffer : RecvBuffer := mkRecvBuffer (Portable (with_capacity 64)) None 64 128.

Lemma loop_buffer_wf : wf_recv loop_buffer.
Proof. vm_compute. repeat split; discriminate. Qed.

Definition loop_run : LoopWorld * RecvBuffer * option (call ReceiveEnd) :=
  receive_body_configured false TcpStrategy (Some 5) 64 loop_start loop_buffer (with_limits BodyChunked DecodeLimits_default).

Definition loop_end : LoopWorld := Eval vm_compute in fst (fst loop_run).
Definition loop_rest : RecvBuffer := Eval vm_compute in snd (fst loop_run).

Lemma loop_run_complete : loop_run = (loop_end, loop_rest, Some (Returns Complete)).
Proof. vm_cast_no_check (eq_refl (loop_end, loop_rest, Some (@Returns ReceiveEnd Complete))). Qed.

(** The next message is retained. *)
Example loop_rest_bytes : recv_bytes loop_rest = bs "GET".
Proof. reflexivity. Qed.

Lemma receive_complete_exact_witness :
  exists input m pieces t,
    lw_received loop_end = [] ++ input /\ [] ++ input = m ++ recv_bytes loop_rest /\
    is_body DecodeLimits_default BodyChunked m (concat (map as_ref pieces)) t /\ Forall wf_data pieces /\
    lw_delivered loop_end = [] ++ body_frames pieces t /\
    lw_ended loop_end = Some (Ok tt) /\ (BodyChunked = BodyUntilEof -> recv_bytes loop_rest = []).
Proof.
  exact (receive_complete_exact false TcpStrategy (Some 5) DecodeLimits_default BodyChunked 64 loop_start loop_buffer
    loop_end loop_rest default_limits_wf I loop_buffer_wf loop_run_complete).
Defined.


Lemma receive_total_witness :
  is_Some (snd (receive_body_configured false TcpStrategy (Some 5) 64 loop_start loop_buffer
    (with_limits BodyChunked DecodeLimits_default))).
Proof.
  refine (receive_total false TcpStrategy (Some 5) DecodeLimits_default BodyChunked (zlen loop_stream) 64 loop_start
    loop_buffer _ default_limits_wf I loop_buffer_wf _).
  - intros w. change (received w) with (lw_received w). unfold lw_received, zlen. rewrite length_take. lia.
  - vm_compute. discriminate.
Defined.

Lemma received_body_presented_witness :
  next_frames 3 (snd (incoming (BodyFixed 3) (script_of [DataFrame (StorageBytes (bs "ab"));
      DataFrame (StorageManaged (bs "-c-") 1 2)]))) =
  [Returns (Ok (Some (DataFrame (StorageBytes (bs "ab")))));
   Returns (Ok (Some (DataFrame (StorageManaged (bs "-c-") 1 2)))); Returns (Ok None)].
Proof.
  refine (received_body_presented DecodeLimits_default (BodyFixed 3) (bs "abc")
    [StorageBytes (bs "ab"); StorageManaged (bs "-c-") 1 2] None _ _ _ _).
  - simpl. lia.
  - vm_compute. done.
  - repeat constructor; vm_compute; congruence.
  - reflexivity.
Defined.

End Evaluated.
