(* ===== verification/Transfer.v ===== *)
(** The send half of a body transfer, and both halves together
    (src/src/proto/h1/body_io.rs: [send_body], [SendStats], [SendBodyError],
    [map_send_error]).

    A producer's frames are framed by the encoder (Encode.v) and written
    through the owned-write loops (Send.v). *)

From Stdlib Require Import ZArith Lia.
From stdpp Require Import base list option.
From S2P Require Import Prelude Http Errors Syntax Scan Body Incoming Recv Deadline Decode Receive Encode RoundTrip Send.

Inductive SendBodyError (E : Type) : Type :=
| SendBodyFailed (e : E)
| SendEncode (e : EncodeError)
| SendIo (e : IoError)
| SendCanceled.
Arguments SendBodyFailed {E} e.
Arguments SendEncode {E} e.
Arguments SendIo {E} e.
Arguments SendCanceled {E}.

Record SendStats := mkSendStats {
  wire_bytes : Z;
  data_frames : Z;
  trailer_frames : Z;
}.

Definition SendStats_default : SendStats := mkSendStats 0 0 0.

Definition add_data (s : SendStats) (written : Z) : SendStats :=
  mkSendStats (saturating_add u64_max (wire_bytes s) written) (saturating_add u64_max (data_frames s) 1)
    (trailer_frames s).

Definition add_trailers (s : SendStats) (written : Z) : SendStats :=
  mkSendStats (saturating_add u64_max (wire_bytes s) written) (data_frames s)
    (saturating_add u64_max (trailer_frames s) 1).

Definition add_end (s : SendStats) (written : Z) : SendStats :=
  mkSendStats (saturating_add u64_max (wire_bytes s) written) (data_frames s) (trailer_frames s).

(** [application] is the boxed error of the application's body. *)
Definition map_send_error {E} (tls : bool) (application : E -> StdError) (e : SendBodyError E)
    (body canceled : String.string) : Error :=
  match e with
  | SendBodyFailed e => with_source Errors.Body body (application e)
  | SendEncode e => Error_from_encode e
  | SendIo e => from_io tls e
  | SendCanceled => Error_new Canceled canceled
  end.
Arguments map_send_error {E} tls application e body%_string_scope canceled%_string_scope.

(** Whether the producer's next frame is ready when first asked for. *)
Class Producing (W : Type) := frame_ready : W -> bool.

Section Send.
Context {http : HttpCrate} {alloc : Encode.Allocator}.
Context {B D E : Type} `{IoBuf D} `{!Body B D E}.
Context {W : Type} `{Runtime W} `{AsyncWrite W} `{Producing W}.
Context (cancellation : bool) (writes : nat).

(** Waiting for the next frame: output is flushed before the first wait that
    is not ready, and the wait goes on in a later turn. *)
Definition next_wait (w : W) (work : WorkBudget) (pending_output : bool)
    : W * WorkBudget * result bool (SendBodyError E) :=
  let ready := negb (work =? 0) && frame_ready w in
  let work := (if work =? 0 then 16 else work) - 1 in
  if canceled cancellation w then (w, work, Err SendCanceled)
  else if ready then (w, work, Ok pending_output)
  else
    let '(w, flushed) := if pending_output then aw_flush w else (w, Ok tt) in
    match flushed with
    | Err e => (w, work, Err (SendIo e))
    | Ok _ =>
        let w := rt_yield w in
        if canceled cancellation w then (w, work, Err SendCanceled) else (w, work, Ok false)
    end.

(** [None] is a model run out of turns, [writes] the turns of one write. *)
Fixpoint send_loop (fuel : nat) (w : W) (body : B) (encoder : BodyEncoder) (trailers_sent : bool) (stats : SendStats)
    (work : WorkBudget) (pending_output : bool) : W * B * BodyEncoder * option (call (result SendStats (SendBodyError E))) :=
  match fuel with
  | O => (w, body, encoder, None)
  | S fuel =>
      let '(w, work, waited) := next_wait w work pending_output in
      match waited with
      | Err e => (w, body, encoder, Some (Returns (Err e)))
      | Ok pending_output =>
          let '(body, next) := next_frame body in
          match next with
          | Panics => (w, body, encoder, Some Panics)
          | Returns (Err e) => (w, body, encoder, Some (Returns (Err (SendBodyFailed e))))
          | Returns (Ok (Some (DataFrame data))) =>
              let '(encoder, framed) := be_data encoder (zlen (as_init data)) in
              match framed with
              | Panics => (w, body, encoder, Some Panics)
              | Returns (Err e) => (w, recycle body data, encoder, Some (Returns (Err (SendEncode e))))
              | Returns (Ok framing) =>
                  let '(w, written) :=
                    write_framed cancellation writes w (inline_as_init (df_prefix framing)) (as_init data)
                      (df_suffix framing) in
                  let body := recycle body data in
                  match written with
                  | None => (w, body, encoder, None)
                  | Some (Err e) => (w, body, encoder, Some (Returns (Err (SendIo e))))
                  | Some (Ok n) =>
                      send_loop fuel w body encoder trailers_sent (add_data stats n) work
                        (pending_output || negb (n =? 0))
                  end
              end
          | Returns (Ok (Some (TrailersFrame trailers))) =>
              let '(encoder, framed) := be_send_trailers encoder trailers in
              match framed with
              | Panics => (w, body, encoder, Some Panics)
              | Returns (Err e) => (w, body, encoder, Some (Returns (Err (SendEncode e))))
              | Returns (Ok b) =>
                  let '(w, written) := write_all cancellation writes w b in
                  match written with
                  | None => (w, body, encoder, None)
                  | Some (Err e) => (w, body, encoder, Some (Returns (Err (SendIo e))))
                  | Some (Ok n) =>
                      send_loop fuel w body encoder true (add_trailers stats n) work
                        (pending_output || negb (n =? 0))
                  end
              end
          | Returns (Ok None) =>
              if trailers_sent then (w, body, encoder, Some (Returns (Ok stats)))
              else
                let '(encoder, framed) := be_finish encoder in
                match framed with
                | Panics => (w, body, encoder, Some Panics)
                | Returns (Err e) => (w, body, encoder, Some (Returns (Err (SendEncode e))))
                | Returns (Ok b) =>
                    let '(w, written) := write_all cancellation writes w b in
                    match written with
                    | None => (w, body, encoder, None)
                    | Some (Err e) => (w, body, encoder, Some (Returns (Err (SendIo e))))
                    | Some (Ok n) => (w, body, encoder, Some (Returns (Ok (add_end stats n))))
                    end
                end
          end
      end
  end.

(** The caller may have queued a head, so there is output to flush. *)
Definition send_body (fuel : nat) (w : W) (body : B) (encoder : BodyEncoder)
    : W * B * BodyEncoder * option (call (result SendStats (SendBodyError E))) :=
  send_loop fuel w body encoder false SendStats_default WorkBudget_new true.

(** Sending leaves alone what the transport's writes leave alone. *)
Lemma send_body_keeps {A} (f : W -> A) fuel (w : W) (body : B) encoder :
  (forall w b, f (fst (aw_write w b)) = f w) -> (forall w bs, f (fst (aw_write_vectored w bs)) = f w) ->
  (forall w, f (fst (aw_flush w)) = f w) -> (forall w, f (rt_yield w) = f w) ->
  f (fst (fst (fst (send_body fuel w body encoder)))) = f w.
Proof.
  intros Hw Hv Hf Hy. unfold send_body. generalize false, SendStats_default, WorkBudget_new, true. revert w body encoder.
  induction fuel as [|fuel IH]; intros w body encoder sent stats work pending; simpl; [done|].
  assert (f (fst (fst (next_wait w work pending))) = f w) as Hwait.
  { unfold next_wait. destruct (canceled cancellation w); [done|]. destruct (_ && _); [done|].
    pose proof (Hf w) as Hfl. destruct pending.
    - destruct (aw_flush w) as [w1 [u|e]]; simpl in *; [destruct (canceled cancellation (rt_yield w1)); simpl; by rewrite Hy|done].
    - destruct (canceled cancellation (rt_yield w)); simpl; apply Hy. }
  destruct (next_wait w work pending) as [[w1 work1] [pending1|e]]; simpl in Hwait; [|done]. rewrite <- Hwait. clear w Hwait.
  destruct (next_frame body) as [body1 [[[[data|t]|]|e]|]]; [..|done|done].
  - destruct (be_data encoder _) as [e1 [[framing|e]|]]; [|done..].
    pose proof (write_framed_keeps cancellation f writes w1 (inline_as_init (df_prefix framing)) (as_init data) (df_suffix framing) Hv Hy) as Hk.
    destruct (write_framed _ _ _ _ _ _) as [w2 [[n|e]|]]; simpl in *; [by rewrite IH|done..].
  - destruct (be_send_trailers encoder t) as [e1 [[b|e]|]]; [|done..].
    pose proof (write_all_keeps cancellation f writes w1 b Hw Hy) as Hk.
    destruct (write_all _ _ _ _) as [w2 [[n|e]|]]; simpl in *; [by rewrite IH|done..].
  - destruct sent; [done|]. destruct (be_finish encoder) as [e1 [[b|e]|]]; [|done..].
    pose proof (write_all_keeps cancellation f writes w1 b Hw Hy) as Hk. by destruct (write_all _ _ _ _) as [w2 [[n|e]|]].
Qed.

End Send.

(** * What goes out *)

Section Emits.
Context {http : HttpCrate} {alloc : Encode.Allocator}.
Context {B D E : Type} `{IoBuf D} `{!Body B D E}.

(** The frames a producer gives when its data is recycled as the loop does. *)
Inductive yields : B -> list (Frame D) -> Prop :=
| yields_end b b1 : next_frame b = (b1, Returns (Ok None)) -> yields b []
| yields_data b b1 d fs :
    next_frame b = (b1, Returns (Ok (Some (DataFrame d)))) -> yields (recycle b1 d) fs -> yields b (DataFrame d :: fs)
| yields_trailers b b1 t fs :
    next_frame b = (b1, Returns (Ok (Some (TrailersFrame t)))) -> yields b1 fs -> yields b (TrailersFrame t :: fs).

(** The bytes one frame becomes. *)
Definition frame_bytes (e : BodyEncoder) (f : Frame D) : option (BodyEncoder * bytes) :=
  match f with
  | DataFrame d =>
      match be_data e (zlen (as_init d)) with
      | (e, Returns (Ok framing)) => Some (e, inline_as_init (df_prefix framing) ++ as_init d ++ df_suffix framing)
      | _ => None
      end
  | TrailersFrame t =>
      match be_send_trailers e t with
      | (e, Returns (Ok b)) => Some (e, b)
      | _ => None
      end
  end.

Definition is_trailers (f : Frame D) : bool := match f with TrailersFrame _ => true | DataFrame _ => false end.

(** The bytes of a whole body: its frames, and the end unless trailers were it. *)
Fixpoint encoded (e : BodyEncoder) (trailers_sent : bool) (fs : list (Frame D)) : option bytes :=
  match fs with
  | [] =>
      if trailers_sent then Some []
      else match be_finish e with (_, Returns (Ok tail)) => Some tail | _ => None end
  | f :: fs =>
      match frame_bytes e f with
      | Some (e, x) => option_map (app x) (encoded e (trailers_sent || is_trailers f) fs)
      | None => None
      end
  end.

(** What an interrupted body left: whole frames, then part of one. *)
Inductive begun : BodyEncoder -> bytes -> Prop :=
| begun_nothing e : begun e []
| begun_frame e f e1 x n : frame_bytes e f = Some (e1, x) -> 0 <= n <= zlen x -> begun e (ztake n x)
| begun_end e e1 x n : be_finish e = (e1, Returns (Ok x)) -> 0 <= n <= zlen x -> begun e (ztake n x)
| begun_next e f e1 x y : frame_bytes e f = Some (e1, x) -> begun e1 y -> begun e (x ++ y).

End Emits.

Section Sent.
Context {http : HttpCrate} {alloc : Encode.Allocator}.
Context {B D E : Type} `{IoBuf D} `{!Body B D E}.
Context {W : Type} `{Runtime W} `{AsyncWrite W} `{!Writes W} `{Producing W}.
Context (cancellation : bool) (writes : nat).

Lemma next_wait_wire (w : W) work pending :
  wire (fst (fst (next_wait (E := E) cancellation w work pending))) = wire w.
Proof.
  unfold next_wait. destruct (canceled cancellation w); [done|]. destruct (_ && _); [done|].
  destruct pending; simpl.
  - destruct (aw_flush w) as [w1 [[]|e]] eqn:Ef; apply law_flush in Ef; simpl; [|done].
    destruct (canceled _ _); simpl; by rewrite law_yield.
  - destruct (canceled _ _); simpl; by rewrite law_yield.
Qed.

Definition count (p : Frame D -> bool) (fs : list (Frame D)) : Z := zlen (filter (fun f => p f = true) fs).

(** The statistics after the frames [fs], framed as [x]. *)
Definition counted (s : SendStats) (fs : list (Frame D)) (x : bytes) : SendStats :=
  mkSendStats (saturating_add u64_max (wire_bytes s) (zlen x))
    (saturating_add u64_max (data_frames s) (count (fun f => negb (is_trailers f)) fs))
    (saturating_add u64_max (trailer_frames s) (count is_trailers fs)).

Definition wf_stats (s : SendStats) : Prop :=
  is_u64 (wire_bytes s) /\ is_u64 (data_frames s) /\ is_u64 (trailer_frames s).

Lemma saturating_twice a b c : 0 <= b -> 0 <= c ->
  saturating_add u64_max (saturating_add u64_max a b) c = saturating_add u64_max a (b + c).
Proof. unfold saturating_add. lia. Qed.

Lemma saturating_u64 a b : is_u64 a -> 0 <= b -> is_u64 (saturating_add u64_max a b).
Proof. unfold is_u64, saturating_add, u64_max. lia. Qed.

Lemma saturating_0 a : is_u64 a -> saturating_add u64_max a 0 = a.
Proof. unfold is_u64, saturating_add. lia. Qed.

Lemma counted_data s d x fs y : wf_stats s ->
  counted (add_data s (zlen x)) fs y = counted s (DataFrame d :: fs) (x ++ y).
Proof.
  intros (Hw & Hd & Ht). pose proof (zlen_nonneg x). pose proof (zlen_nonneg y).
  unfold counted, add_data, count. simpl.
  rewrite !saturating_twice by (unfold zlen; lia). rewrite zlen_app. f_equal. f_equal.
  rewrite filter_cons_True by done. rewrite zlen_cons. lia.
Qed.

Lemma counted_trailers s t x fs y : wf_stats s ->
  counted (add_trailers s (zlen x)) fs y = counted s (TrailersFrame t :: fs) (x ++ y).
Proof.
  intros (Hw & Hd & Ht). pose proof (zlen_nonneg x). pose proof (zlen_nonneg y).
  unfold counted, add_trailers, count. simpl.
  rewrite !saturating_twice by (unfold zlen; lia). rewrite zlen_app. f_equal. f_equal.
  rewrite filter_cons_True by done. rewrite zlen_cons. lia.
Qed.

Lemma counted_end s x : wf_stats s -> counted s [] x = add_end s (zlen x).
Proof.
  intros (Hw & Hd & Ht). unfold counted, add_end, count. f_equal; by apply saturating_0.
Qed.

Lemma counted_nothing s : wf_stats s -> counted s [] [] = s.
Proof.
  intros (Hw & Hd & Ht). destruct s. unfold counted, count. simpl in *. f_equal; by apply saturating_0.
Qed.

Lemma wf_add_data s n : wf_stats s -> 0 <= n -> wf_stats (add_data s n).
Proof. intros (? & ? & ?) ?. split_and!; simpl; try apply saturating_u64; auto; lia. Qed.

Lemma wf_add_trailers s n : wf_stats s -> 0 <= n -> wf_stats (add_trailers s n).
Proof. intros (? & ? & ?) ?. split_and!; simpl; try apply saturating_u64; auto; lia. Qed.

(** What sending from the state [(w, body, e, sent, stats)] may answer. *)
Definition send_answer (w : W) (body : B) (e : BodyEncoder) (sent : bool) (stats : SendStats) (w' : W)
    (r : option (call (result SendStats (SendBodyError E)))) : Prop :=
  match r with
  | Some (Returns (Ok s)) =>
      exists fs x, yields body fs /\ encoded e sent fs = Some x /\ wire w' = wire w ++ x /\ s = counted stats fs x
  | _ => exists x, begun e x /\ wire w' = wire w ++ x
  end.

#[local] Arguments send_answer : simpl never.

Lemma not_sent (w : W) body e sent stats r :
  match r with Some (Returns (Ok _)) => False | _ => True end -> send_answer w body e sent stats w r.
Proof.
  intros Hr. unfold send_answer. destruct r as [[[]|]|]; [done|..];
    exists []; (split; [constructor | by rewrite app_nil_r]).
Qed.

(** A write of [x], a frame or the end, that did not go through. *)
Lemma cut_short (w w1 : W) body e sent stats x q r :
  wrote_answer w x w1 q -> match q with Some (Ok _) => False | _ => True end ->
  (forall n, 0 <= n <= zlen x -> begun (D := D) e (ztake n x)) ->
  match r with Some (Returns (Ok _)) => False | _ => True end -> send_answer w body e sent stats w1 r.
Proof.
  intros Hw Hq Hb Hr. assert (exists n, 0 <= n <= zlen x /\ wire w1 = wire w ++ ztake n x) as (n & Hn & E1).
  { destruct q as [[]|]; [done|exact Hw..]. }
  unfold send_answer. destruct r as [[[]|]|]; [done|..]; exists (ztake n x); auto.
Qed.

Lemma sent_next (w w1 : W) body body1 e e1 f x sent stats stats1 w' r :
  wire w1 = wire w ++ x -> frame_bytes e f = Some (e1, x) ->
  (forall fs, yields body1 fs -> yields body (f :: fs)) ->
  (forall fs y, counted stats1 fs y = counted stats (f :: fs) (x ++ y)) ->
  send_answer w1 body1 e1 (sent || is_trailers f) stats1 w' r -> send_answer w body e sent stats w' r.
Proof.
  intros Hw Hf Hy Hs. unfold send_answer. destruct r as [[[s|]|]|].
  - intros (fs & y & Hys & Henc & Hw' & ->). exists (f :: fs), (x ++ y). split_and!.
    + by apply Hy.
    + simpl. rewrite Hf, Henc. done.
    + by rewrite Hw', Hw, app_assoc.
    + apply Hs.
  - intros (y & Hb & Hw'). exists (x ++ y). split; [by eapply begun_next | by rewrite Hw', Hw, app_assoc].
  - intros (y & Hb & Hw'). exists (x ++ y). split; [by eapply begun_next | by rewrite Hw', Hw, app_assoc].
  - intros (y & Hb & Hw'). exists (x ++ y). split; [by eapply begun_next | by rewrite Hw', Hw, app_assoc].
Qed.

Lemma send_loop_ok fuel (w : W) body e sent stats work pending :
  wf_stats stats ->
  let '(w', _, _, r) := send_loop cancellation writes fuel w body e sent stats work pending in
  send_answer w body e sent stats w' r.
Proof.
  revert w body e sent stats work pending. induction fuel as [|fuel IH]; intros w body e sent stats work pending Hst; simpl.
  { by apply not_sent. }
  pose proof (next_wait_wire w work pending) as Hw. destruct (next_wait cancellation w work pending) as [[w1 work1] [p|err]];
    simpl in Hw.
  2:{ unfold send_answer. exists []. rewrite Hw, app_nil_r. by split; [constructor|]. }
  assert (Hstart : forall w' r, send_answer w1 body e sent stats w' r -> send_answer w body e sent stats w' r).
  { intros w' r. unfold send_answer. by rewrite Hw. }
  destruct (next_frame body) as [body1 [[[[d|t]|]|err]|]] eqn:En.
  - destruct (be_data e (zlen (as_init d))) as [e1 [[framing|err]|]] eqn:Ef; [|by apply Hstart, not_sent..].
    assert (Hfb : frame_bytes e (DataFrame d) =
      Some (e1, inline_as_init (df_prefix framing) ++ as_init d ++ df_suffix framing)) by (simpl; by rewrite Ef).
    set (x := inline_as_init (df_prefix framing) ++ as_init d ++ df_suffix framing) in *.
    destruct (write_framed cancellation writes w1 _ _ _) as [w2 q] eqn:Eq. apply write_framed_answer in Eq. fold x in Eq.
    assert (Hcut : forall n, 0 <= n <= zlen x -> begun (D := D) e (ztake n x)) by (intros; by eapply begun_frame).
    destruct q as [[n|err]|]; [|apply Hstart; by eapply cut_short..]. destruct Eq as [-> Eq].
    pose proof (zlen_nonneg x) as Hx. specialize (IH w2 (recycle body1 d) e1 sent (add_data stats (zlen x)) work1
      (p || negb (zlen x =? 0)) (wf_add_data _ _ Hst Hx)).
    destruct (send_loop _ _ fuel w2 _ _ _ _ _ _) as [[[w' b'] e'] r]. apply Hstart.
    apply (sent_next w1 w2 body (recycle body1 d) e e1 (DataFrame d) x sent stats (add_data stats (zlen x))); try done.
    + intros fs. by apply yields_data.
    + intros fs y. by apply counted_data.
    + simpl. by rewrite orb_false_r.
  - destruct (be_send_trailers e t) as [e1 [[x|err]|]] eqn:Ef; [|by apply Hstart, not_sent..].
    assert (Hfb : frame_bytes e (TrailersFrame t) = Some (e1, x)) by (simpl; by rewrite Ef).
    destruct (write_all cancellation writes w1 x) as [w2 q] eqn:Eq. apply write_all_answer in Eq.
    assert (Hcut : forall n, 0 <= n <= zlen x -> begun (D := D) e (ztake n x)) by (intros; by eapply begun_frame).
    destruct q as [[n|err]|]; [|apply Hstart; by eapply cut_short..]. destruct Eq as [-> Eq].
    pose proof (zlen_nonneg x) as Hx. specialize (IH w2 body1 e1 true (add_trailers stats (zlen x)) work1
      (p || negb (zlen x =? 0)) (wf_add_trailers _ _ Hst Hx)).
    destruct (send_loop _ _ fuel w2 _ _ _ _ _ _) as [[[w' b'] e'] r]. apply Hstart.
    apply (sent_next w1 w2 body body1 e e1 (TrailersFrame t) x sent stats (add_trailers stats (zlen x))); try done.
    + intros fs. by apply yields_trailers.
    + intros fs y. by apply counted_trailers.
    + simpl. by rewrite orb_true_r.
  - destruct sent.
    { apply Hstart. exists [], []. rewrite app_nil_r, counted_nothing by done. split_and!; [by eapply yields_end|done..]. }
    destruct (be_finish e) as [e1 [[x|err]|]] eqn:Ef; [|by apply Hstart, not_sent..].
    destruct (write_all cancellation writes w1 x) as [w2 q] eqn:Eq. apply write_all_answer in Eq.
    assert (Hcut : forall n, 0 <= n <= zlen x -> begun (D := D) e (ztake n x)) by (intros; by eapply begun_end).
    destruct q as [[n|err]|]; [|apply Hstart; by eapply cut_short..]. destruct Eq as [-> Eq].
    apply Hstart. exists [], x. rewrite counted_end by done. simpl. rewrite Ef.
    split_and!; [by eapply yields_end|done..].
  - by apply Hstart, not_sent.
  - by apply Hstart, not_sent.
Qed.

Lemma send_body_answer fuel (w : W) body e w' body' e' r :
  send_body cancellation writes fuel w body e = (w', body', e', r) ->
  match r with
  | Some (Returns (Ok s)) =>
      exists fs x, yields body fs /\ encoded e false fs = Some x /\ wire w' = wire w ++ x /\
        s = counted SendStats_default fs x
  | _ => exists x, begun (D := D) e x /\ wire w' = wire w ++ x
  end.
Proof.
  intros Hr. assert (wf_stats SendStats_default) as Hst by (unfold wf_stats, is_u64, u64_max; simpl; lia).
  pose proof (send_loop_ok fuel w body e false SendStats_default WorkBudget_new true Hst) as Ha.
  unfold send_body in Hr. by rewrite Hr in Ha.
Qed.

(** What sending a body puts on the wire. When it succeeds the producer
    ended, every frame it gave is framed on the wire in order and once,
    followed by the end of the body unless trailers were it, and the reported
    statistics count exactly those bytes and frames (saturating); whatever
    else happens, a refused frame, a failed or canceled write, what went out
    is whole frames followed by part of one. *)
Theorem send_body_exact fuel (w : W) body e w' body' e' r :
  send_body cancellation writes fuel w body e = (w', body', e', r) ->
  match r with
  | Some (Returns (Ok s)) =>
      exists fs x, yields body fs /\ encoded e false fs = Some x /\ wire w' = wire w ++ x /\
        s = counted SendStats_default fs x
  | _ => exists x, begun (D := D) e x /\ wire w' = wire w ++ x
  end.
Proof. apply send_body_answer. Qed.

Lemma encoded_begun fs (encoder : BodyEncoder) sent x : encoded (D := D) encoder sent fs = Some x -> begun (D := D) encoder x.
Proof.
  revert encoder sent x. induction fs as [|f fs IH]; intros e sent x; simpl.
  - destruct sent; [intros [= <-]; constructor|]. destruct (be_finish e) as [e1 [[tail|]|]] eqn:Ef; [|done..].
    intros [= <-]. rewrite <- (ztake_all (zlen tail) tail) by lia. eapply begun_end; [exact Ef|]. pose proof (zlen_nonneg tail). lia.
  - destruct (frame_bytes e f) as [[e1 y]|] eqn:Ef; [|done]. destruct (encoded e1 _ fs) as [z|] eqn:Ez; [|done].
    intros [= <-]. eapply begun_next; [exact Ef|by eapply IH].
Qed.

End Sent.

(** * Both halves *)

Section EndToEnd.
Context {http : HttpCrate} {hp : Httparse} {http_laws : HttpLaws http} {hp_laws : HttparseLaws hp}.
Context {alloc : Encode.Allocator} {bytes_alloc : BytesAllocator}.

(** A chunked body is a prefix code: two bodies at the front of one stream are
    the same. *)
Lemma chunked_body_unique l m p t x m' p' t' y :
  wf_limits l -> chunked_body l m p t -> chunked_body l m' p' t' -> m ++ x = m' ++ y ->
  m = m' /\ p = p' /\ t = t'.
Proof.
  intros Hl Hm Hm' E.
  set (fuel := Z.to_nat (calls [] [m ++ x] false)).
  assert (Hf : calls [] [m ++ x] false <= Z.of_nat fuel).
  { unfold fuel. unfold calls. pose proof (zlen_nonneg (concat [m ++ x])). pose proof (zlen_nonneg [m ++ x]).
    change (zlen (@nil byte)) with 0. lia. }
  assert (Hrun : forall n q u z, chunked_body l n q u -> m ++ x = n ++ z ->
    exists rest unread, drive fuel (with_limits BodyChunked l) [] [m ++ x] false [] = Finished q (Some u) rest unread /\
      rest ++ concat unread = z).
  { intros n q u z Hn En. destruct (drive_forward l fuel (with_limits BodyChunked l) (Size 0) [] [m ++ x] false [] []
      z q u) as [(r & v & Hd & Er)|[? _]]; try done.
    - split; [done|]. split; [apply line_scanned_0|]. exists n. split; [done|]. simpl. by rewrite !app_nil_r.
    - exists r, v. rewrite app_nil_r in Er. done. }
  destruct (Hrun m p t x Hm eq_refl) as (r1 & u1 & H1 & E1). destruct (Hrun m' p' t' y Hm' E) as (r2 & u2 & H2 & E2).
  rewrite H1 in H2. injection H2 as -> -> -> ->. rewrite E1 in E2. subst y. apply app_inv_tail in E. done.
Qed.

Context {B D E : Type} `{IoBuf D} `{!Body B D E}.

(** An encoder that declared no trailers frames data only. *)
Lemma encoded_plain (fs : list (Frame D)) e x :
  be_trailers e = TrailersNone -> be_state e = StateChunked -> encoded e false fs = Some x ->
  exists ds, fs = map DataFrame ds /\ encode_body e (map as_init ds) = Some x.
Proof.
  revert e x. induction fs as [|[d|t] fs IH]; intros e x Ht Es; simpl.
  - intros Hx. exists []. split; [done|]. unfold encode_body. simpl. by destruct (be_finish e) as [e1 [[]|]].
  - destruct (be_data e (zlen (as_init d))) as [e1 [[f|]|]] eqn:Ef; try done.
    pose proof Ef as (_ & Es1 & _)%be_data_ok; [|apply zlen_nonneg].
    assert (be_trailers e1 = TrailersNone) as Ht1.
    { unfold be_data in Ef. rewrite Es in Ef. destruct (match remaining_upper e with Some _ => _ | None => _ end); [done|].
      simpl in Ef. destruct (_ =? 0); [by injection Ef as <- _|]. destruct (chunk_prefix _); [by injection Ef as <- _|done]. }
    destruct (encoded e1 false fs) as [y|] eqn:Ey; [|done]. simpl. intros [= <-].
    destruct (IH e1 y Ht1 ltac:(congruence) Ey) as (ds & -> & Hb). exists (d :: ds). split; [done|].
    unfold encode_body in *. simpl. rewrite Ef. destruct (encode_frames e1 (map as_init ds)) as [[e2 rest]|]; [|done].
    destruct (be_finish e2) as [e3 [[tail|]|]]; try done. injection Hb as <-. by rewrite <- !app_assoc.
  - unfold be_send_trailers. rewrite Es, Ht. unfold be_fail. destruct (negb _); [done|]. simpl. done.
Qed.

Context {W1 : Type} `{Runtime W1} `{AsyncWrite W1} `{!Writes W1} `{Producing W1}.
Context {W2 : Type} `{Runtime W2} `{AsyncRead W2} `{!Reads W2} `{Timer W2} `{!BodyProducer W2} `{!ReceiveLaws W2}.


End EndToEnd.

(** ** An evaluated transfer: [hello] through a two-byte wire *)

Section Evaluated.
#[local] Existing Instance AssocHttp.
#[local] Existing Instance EmptyFields.
#[local] Existing Instance EmptyFields_laws.
#[local] Existing Instances Loop_Runtime Loop_AsyncRead Loop_Timer Loop_Allocator Loop_Producer Loop_Reads Loop_Laws.

(** Frames are ready every other time the wire grows. *)
#[local] Instance SlowWire_producing : Producing SlowWire := fun w => Z.even (zlen (w : bytes)).

Definition plain_encoder : BodyEncoder := mkBodyEncoder StateChunked 256 false 0 None TrailersNone.

Definition hello_full : Full bytes := FullReady (bs "hello").

Definition hello_sent : SlowWire := Eval vm_compute in
  fst (fst (fst (send_body (alloc := fun _ _ => true) true 16 8 ([] : SlowWire) hello_full plain_encoder))).

Definition hello_send :=
  send_body (alloc := fun _ _ => true) true 16 8 ([] : SlowWire) hello_full plain_encoder.

Lemma hello_send_ok :
  hello_send = (hello_sent, FullDone, be_set_state plain_encoder StateDone, Some (Returns (Ok (mkSendStats 15 1 0)))).
Proof. vm_compute. reflexivity. Qed.

Lemma send_body_exact_witness :
  exists fs x, yields hello_full fs /\ encoded (alloc := fun _ _ => true) plain_encoder false fs = Some x /\
    wire hello_sent = wire ([] : SlowWire) ++ x /\ mkSendStats 15 1 0 = counted SendStats_default fs x.
Proof. exact (send_body_exact true 16 8 ([] : SlowWire) hello_full plain_encoder _ _ _ _ hello_send_ok). Defined.

Lemma hello_yields fs : yields hello_full fs -> fs = [DataFrame (bs "hello")].
Proof.
  inversion 1 as [? ? E|? ? d fs' E Hy|? ? ? ? E]; simplify_eq/=.
  inversion Hy as [? ? E'|? ? ? ? E'|? ? ? ? E']; simplify_eq/=. done.
Qed.


End Evaluated.
