(* ===== verification/Connection.v ===== *)
(** Control of a caller-driven connection (src/src/connection.rs): the shutdown
    state, the wakers a request takes, and how the driver's result is reported.

    Instants are integers. A waker is the identity of its task. *)

From Stdlib Require Import ZArith Lia.
From stdpp Require Import base list option.
From S2P Require Import Prelude Errors Pipe.

(** ** The shutdown state *)

Inductive Shutdown : Type :=
| Running
| Graceful (deadline : option Z)
| Aborted.

#[export] Instance Shutdown_eq_dec : EqDecision Shutdown.
Proof. solve_decision. Defined.

Definition graceful (s : Shutdown) (requested : option Z) : Shutdown :=
  match s with
  | Aborted => Aborted
  | Running => Graceful requested
  | Graceful deadline =>
      Graceful (match deadline, requested with
                | Some old, Some new => Some (Z.min old new)
                | Some old, None => Some old
                | None, new => new
                end)
  end.

(** ** The shared control *)

Record ControlState := mkControl {
  shutdown : Shutdown;
  recover_transport_flag : bool;
  control_driver : option Waker;
  control_admission : option Waker;
  control_idle : option Waker;
}.

Definition ConnectionControl_new : ControlState := mkControl Running false None None None.

Definition set_shutdown (c : ControlState) (s : Shutdown) : ControlState :=
  mkControl s (recover_transport_flag c) (control_driver c) (control_admission c) (control_idle c).

Definition recover_transport (c : ControlState) : ControlState :=
  mkControl (shutdown c) true (control_driver c) (control_admission c) (control_idle c).

Definition recovering (c : ControlState) : bool := recover_transport_flag c.

(** A driver's future with a handle on the shared control [c]: what either way
    of running it leaves in the control, and the future to drive. *)
Definition run_connection {F} (future : F) (c : ControlState) : ControlState * F := (c, future).
Definition run_without_shutdown {F} (future : F) (c : ControlState) : ControlState * F := (recover_transport c, future).

Definition opt_list {A} (o : option A) : list A := match o with Some a => [a] | None => [] end.

(** Every registered waker is taken and woken. *)
Definition wake (c : ControlState) : ControlState * list Waker :=
  (mkControl (shutdown c) (recover_transport_flag c) None None None,
   opt_list (control_driver c) ++ opt_list (control_admission c) ++ opt_list (control_idle c)).

Definition graceful_shutdown (c : ControlState) : ControlState * list Waker :=
  wake (set_shutdown c (graceful (shutdown c) None)).

Definition graceful_shutdown_with_deadline (c : ControlState) (deadline : Z) : ControlState * list Waker :=
  wake (set_shutdown c (graceful (shutdown c) (Some deadline))).

Definition abort (c : ControlState) : ControlState * list Waker := wake (set_shutdown c Aborted).

Definition stopping (c : ControlState) : bool := negb (bool_decide (shutdown c = Running)).

Definition admission_waker (c : ControlState) (w : Waker) : ControlState :=
  mkControl (shutdown c) (recover_transport_flag c) (control_driver c) (Some w) (control_idle c).

Definition register_driver (c : ControlState) (w : Waker) : ControlState :=
  mkControl (shutdown c) (recover_transport_flag c) (Some w) (control_admission c) (control_idle c).

(** [stopped] *)
Definition stopped_poll (c : ControlState) (w : Waker) : ControlState * Poll unit :=
  if stopping c then (c, Ready tt)
  else (mkControl (shutdown c) (recover_transport_flag c) (control_driver c) (control_admission c) (Some w), Pending).

(** ** Waiting for an abort

    The future first watches the state, then times the deadline it found. *)

Inductive AbortWait : Type :=
| Watching
| Timing (deadline : Z).

(** One turn at a deadline that is still the requested one: [true] when it
    struck, which escalates to an abort. *)
Definition deadline_turn (c : ControlState) (deadline now : Z) : ControlState * list Waker * Poll ErrorKind :=
  if deadline <=? now then
    let '(c, woken) := wake (set_shutdown c Aborted) in (c, woken, Ready Timeout)
  else (c, [], Pending).

Definition watch_turn (c : ControlState) (w : Waker) (now : Z)
    : ControlState * AbortWait * list Waker * Poll ErrorKind :=
  let c := register_driver c w in
  match shutdown c with
  | Aborted => (c, Watching, [], Ready Canceled)
  | Graceful (Some deadline) =>
      let '(c, woken, p) := deadline_turn c deadline now in (c, Timing deadline, woken, p)
  | Running | Graceful None => (c, Watching, [], Pending)
  end.

Definition abort_requested_poll (c : ControlState) (phase : AbortWait) (w : Waker) (now : Z)
    : ControlState * AbortWait * list Waker * Poll ErrorKind :=
  match phase with
  | Watching => watch_turn c w now
  | Timing deadline =>
      let c := register_driver c w in
      if bool_decide (shutdown c = Graceful (Some deadline)) then
        let '(c, woken, p) := deadline_turn c deadline now in (c, phase, woken, p)
      else watch_turn c w now
  end.

(** ** The driver's result *)

(** [aborted] is the kind [abort_requested] answered, when it won. *)
Definition drive_result {A} (aborted : option ErrorKind) (r : result A Error) : result A Error :=
  match aborted with
  | None => r
  | Some k =>
      match r with
      | Err e =>
          if negb (is_canceled e) then Err e
          else Err (classified (Error_new k "connection shutdown requested")
                      (if bool_decide (k = Timeout) then Some (DetailTimeout PhaseShutdown) else None))
      | Ok _ => Err (classified (Error_new k "connection shutdown requested")
                      (if bool_decide (k = Timeout) then Some (DetailTimeout PhaseShutdown) else None))
      end
  end.

(** [Drop for Guard]: however the driver ends, admission is over. *)
Definition driver_released (c : ControlState) : ControlState * list Waker := graceful_shutdown c.

(** * Requests accumulate *)

Inductive request : Type :=
| ReqGraceful
| ReqDeadline (d : Z)
| ReqAbort.

Definition apply_request (c : ControlState) (r : request) : ControlState :=
  fst (match r with
       | ReqGraceful => graceful_shutdown c
       | ReqDeadline d => graceful_shutdown_with_deadline c d
       | ReqAbort => abort c
       end).

Definition earliest (a b : option Z) : option Z :=
  match a, b with
  | Some a, Some b => Some (Z.min a b)
  | Some a, None => Some a
  | None, b => b
  end.

Definition deadline_of (r : request) : option Z := match r with ReqDeadline d => Some d | _ => None end.

(** The state any sequence of requests must lead to. *)
Definition requested (rs : list request) : Shutdown :=
  if existsb (fun r => match r with ReqAbort => true | _ => false end) rs then Aborted
  else match rs with
       | [] => Running
       | _ => Graceful (foldr (fun r d => earliest (deadline_of r) d) None rs)
       end.

(** Shutdown requests are monotone and order does not matter: after any
    requests a connection that was running is aborted when one of them was an
    abort, stops gracefully otherwise with the earliest of the deadlines they
    named, and keeps running only when there was none; it refuses admission
    from the first request on. *)
Theorem shutdown_monotone c rs :
  shutdown c = Running ->
  let c' := fold_left apply_request rs c in
  shutdown c' = requested rs /\ (stopping c' = true <-> rs <> []).
Proof.
  intros Hc. cbv zeta.
  assert (Hs : forall c rs, shutdown (fold_left apply_request rs c) =
    fold_left (fun s r => match r with ReqAbort => Aborted | _ => graceful s (deadline_of r) end) rs (shutdown c)).
  { clear. intros c rs. revert c. induction rs as [|r rs IH]; intros c; simpl; [done|]. rewrite IH. by destruct r. }
  assert (Ha : forall rs, fold_left (fun s r => match r with ReqAbort => Aborted | _ => graceful s (deadline_of r) end)
    rs Aborted = Aborted) by (clear; intros rs; induction rs as [|[]]; done).
  assert (Hg : forall rs d, fold_left (fun s r => match r with ReqAbort => Aborted | _ => graceful s (deadline_of r) end)
      rs (Graceful d) =
    if existsb (fun r => match r with ReqAbort => true | _ => false end) rs then Aborted
    else Graceful (earliest d (foldr (fun r d => earliest (deadline_of r) d) None rs))).
  { clear Hs. intros rs'. induction rs' as [|r rs' IH]; intros d; simpl; [by destruct d|].
    destruct r as [|d'|]; simpl; [| |by rewrite Ha]; rewrite IH; destruct (existsb _ rs'); try done; f_equal.
    - by destruct d, (foldr _ None rs').
    - destruct d as [x|], (foldr _ None rs') as [y|]; simpl; try done; f_equal; lia. }
  assert (shutdown (fold_left apply_request rs c) = requested rs) as Hr.
  { rewrite Hs, Hc. destruct rs as [|r rs]; [done|]. unfold requested. simpl.
    destruct r as [|d|]; simpl; [| |by rewrite Ha]; rewrite Hg; destruct (existsb _ rs); done. }
  split; [done|]. unfold stopping. rewrite Hr. unfold requested.
  destruct rs as [|r rs]; simpl; [done|]. by destruct (_ || _).
Qed.

Definition woken_by (c : ControlState) (r : request) : list Waker :=
  snd (match r with
       | ReqGraceful => graceful_shutdown c
       | ReqDeadline d => graceful_shutdown_with_deadline c d
       | ReqAbort => abort c
       end).

Lemma woken_driver c r w : control_driver c = Some w -> In w (woken_by c r).
Proof. intros Hw. destruct r; cbn; rewrite Hw; by left. Qed.

Lemma deadline_turn_spec c deadline now c' woken p :
  deadline_turn c deadline now = (c', woken, p) ->
  (deadline <= now /\ p = Ready Timeout /\ shutdown c' = Aborted) \/ (now < deadline /\ p = Pending /\ c' = c).
Proof. unfold deadline_turn. destruct (Z.leb_spec deadline now); intros [= <- <- <-]; [left|right]; done. Qed.

Lemma watch_turn_spec c w now c' phase' woken p :
  watch_turn c w now = (c', phase', woken, p) ->
  match shutdown c with
  | Aborted => p = Ready Canceled /\ shutdown c' = Aborted
  | Graceful (Some d) =>
      if d <=? now then p = Ready Timeout /\ shutdown c' = Aborted
      else p = Pending /\ shutdown c' = shutdown c /\ control_driver c' = Some w
  | _ => p = Pending /\ shutdown c' = shutdown c /\ control_driver c' = Some w
  end.
Proof.
  unfold watch_turn. simpl. destruct (shutdown c) as [|[d|]|] eqn:Es.
  - intros [= <- <- <- <-]. done.
  - destruct (deadline_turn (register_driver c w) d now) as [[c1 wk] q] eqn:E. apply deadline_turn_spec in E.
    intros [= <- <- <- <-]. destruct (Z.leb_spec d now), E as [(? & -> & Hs)|(? & -> & ->)]; try lia; done.
  - intros [= <- <- <- <-]. done.
  - intros [= <- <- <- <-]. simpl. done.
Qed.

(** Waiting for an abort is exact, whatever it was waiting for before: it
    ends as canceled exactly when the connection is aborted, as timed out
    exactly when the earliest requested deadline has passed, which then aborts
    the connection, and otherwise it waits with its task registered, so that
    every later request wakes it. *)
Theorem abort_wait_exact c phase w now c' phase' woken p :
  abort_requested_poll c phase w now = (c', phase', woken, p) ->
  (p = Ready Canceled <-> shutdown c = Aborted) /\
  (p = Ready Timeout <-> exists d, shutdown c = Graceful (Some d) /\ d <= now) /\
  (p = Pending -> shutdown c' = shutdown c /\ forall r, In w (woken_by c' r)) /\
  (p <> Pending -> shutdown c' = Aborted).
Proof.
  intros Hp.
  assert (match shutdown c with
    | Aborted => p = Ready Canceled /\ shutdown c' = Aborted
    | Graceful (Some d) =>
        if d <=? now then p = Ready Timeout /\ shutdown c' = Aborted
        else p = Pending /\ shutdown c' = shutdown c /\ control_driver c' = Some w
    | _ => p = Pending /\ shutdown c' = shutdown c /\ control_driver c' = Some w
    end) as Hs.
  { unfold abort_requested_poll in Hp. destruct phase as [|d]; [by apply watch_turn_spec in Hp|].
    simpl in Hp. case_bool_decide as E; [|by apply watch_turn_spec in Hp]. rewrite E.
    destruct (deadline_turn (register_driver c w) d now) as [[c1 wk] q] eqn:Ed. apply deadline_turn_spec in Ed.
    injection Hp as <- <- <- <-. destruct (Z.leb_spec d now), Ed as [(? & -> & ?)|(? & -> & ->)]; try lia; done. }
  clear Hp.
  assert (Hpend : p = Pending /\ shutdown c' = shutdown c /\ control_driver c' = Some w ->
    (p = Pending -> shutdown c' = shutdown c /\ forall r, In w (woken_by c' r)) /\ (p <> Pending -> shutdown c' = Aborted)).
  { intros (-> & Hs' & Hw). split; [|done]. intros _. split; [done|]. intros r. by apply woken_driver. }
  destruct (shutdown c) as [|[d|]|]; [| destruct (Z.leb_spec d now)| |].
  - destruct (Hpend Hs) as [H1 H2]. destruct Hs as (-> & _). split_and!; try done. split; [done|by intros (? & [=] & _)].
  - destruct Hs as [-> Hs]. split_and!; try done. split; [|done]. intros _. by exists d.
  - destruct (Hpend Hs) as [H1 H2]. destruct Hs as (-> & _). split_and!; try done.
    split; [done|]. intros (d' & [= <-] & ?). lia.
  - destruct (Hpend Hs) as [H1 H2]. destruct Hs as (-> & _). split_and!; try done. split; [done|by intros (? & [=] & _)].
  - destruct Hs as [-> Hs]. split_and!; try done. split; [done|by intros (? & [=] & _)].
Qed.

(** An abort is reported as one, but never over an originating failure. *)
Lemma drive_result_spec {A} k (r : result A Error) :
  drive_result None r = r /\
  match drive_result (Some k) r with
  | Err e => (r = Err e /\ is_canceled e = false) \/ kind e = k
  | Ok _ => False
  end.
Proof.
  split; [done|]. unfold drive_result. destruct r as [a|e]; simpl; [by right|].
  destruct (is_canceled e) eqn:E; simpl; [by right|by left].
Qed.

(** ** Evaluated *)

Lemma shutdown_monotone_witness :
  let c' := fold_left apply_request [ReqGraceful; ReqDeadline 9; ReqDeadline 5; ReqDeadline 7] ConnectionControl_new in
  shutdown c' = Graceful (Some 5) /\ (stopping c' = true <-> [ReqGraceful; ReqDeadline 9; ReqDeadline 5; ReqDeadline 7] <> []).
Proof. exact (shutdown_monotone ConnectionControl_new [ReqGraceful; ReqDeadline 9; ReqDeadline 5; ReqDeadline 7] eq_refl). Defined.

Definition waiting_control : ControlState := apply_request ConnectionControl_new (ReqDeadline 5).

Lemma abort_wait_exact_witness :
  (Ready Timeout = Ready Timeout <-> exists d, shutdown waiting_control = Graceful (Some d) /\ d <= 5) /\
  shutdown (set_shutdown waiting_control Aborted) = Aborted.
Proof.
  destruct (abort_wait_exact waiting_control (Timing 9) 1%nat 5
    (mkControl Aborted false None None None) (Timing 5) [1%nat] (Ready Timeout) eq_refl) as (_ & H & _).
  split; [exact H|reflexivity].
Defined.
