(* ===== verification/Admission.v ===== *)
(** Bounded request admission (src/src/client/admission.rs).

    One exchange, or one unsubmitted permit, owns the connection, with at most
    one waiting reservation. [State] is the allocation the senders, permits,
    reservations and the driver share; each of their methods is a function on
    it, and [act] interleaves them. *)

From Stdlib Require Import ZArith Lia.
From stdpp Require Import base list option gmap.
From S2P Require Import Prelude Errors Body Pipe Connection.

Section Admission.
Context {J : Type}.

(** ** The shared state; [J] is a queued job. *)

Inductive Admission : Type :=
| AReady
| AReserved (waiter : option Waker)
| AQueued (job : J) (waiter : option Waker)
| AActive (waiter : option Waker)
| AReadyForWaiter
| AClosed.

Definition is_closed (a : Admission) : bool := match a with AClosed => true | _ => false end.

Definition is_busy (a : Admission) : bool :=
  match a with AReserved _ | AQueued _ _ | AActive _ => true | _ => false end.

(** [waiter_mut]: read and written. *)
Definition waiter_of (a : Admission) : option (option Waker) :=
  match a with
  | AReserved w | AQueued _ w | AActive w => Some w
  | AReady | AReadyForWaiter | AClosed => None
  end.

Definition set_waiter (a : Admission) (w : option Waker) : Admission :=
  match a with
  | AReserved _ => AReserved w
  | AQueued j _ => AQueued j w
  | AActive _ => AActive w
  | AReady | AReadyForWaiter | AClosed => a
  end.

Definition take_job (a : Admission) : Admission * option J :=
  match a with
  | AQueued job waiter => (AActive waiter, Some job)
  | a => (a, None)
  end.

Definition close (a : Admission) : Admission * option Waker * option J :=
  match a with
  | AReserved waiter | AActive waiter => (AClosed, waiter, None)
  | AQueued job waiter => (AClosed, waiter, Some job)
  | AReady | AReadyForWaiter | AClosed => (AClosed, None, None)
  end.

Record State := mkState {
  control : ControlState;
  admission : Admission;
  senders : Z;
  driver_waker : option Waker;
}.

Definition set_admission (s : State) (a : Admission) : State :=
  mkState (control s) a (senders s) (driver_waker s).

(** [channel] *)
Definition admission_channel (c : ControlState) : State := mkState c AReady 1 None.

Definition closed_error : Error := Error_new Errors.Closed "request driver closed".
Definition not_ready_error : Error :=
  with_detail (Error_new Busy "request admission is not ready") (DetailBusy RequestAdmission).
Definition waiter_error : Error :=
  with_detail (Error_new Busy "request reservation already occupied") (DetailBusy ReservationWaiter).

(** ** Senders *)

Definition sender_clone (s : State) : State :=
  mkState (control s) (admission s) (senders s + 1) (driver_waker s).

(** [Drop for SendRequest] *)
Definition sender_drop (s : State) : State * list Waker :=
  (mkState (control s) (admission s) (senders s - 1) None, opt_list (driver_waker s)).

Definition sender_is_ready (s : State) : bool :=
  negb (stopping (control s)) && match admission s with AReady => true | _ => false end.

Definition sender_is_closed (s : State) : bool := stopping (control s) || is_closed (admission s).

(** [Ok] is a permit. *)
Definition try_reserve (s : State) : State * result unit Error :=
  if is_closed (admission s) || stopping (control s) then (s, Err closed_error)
  else
    match admission s with
    | AReady => (set_admission s (AReserved None), Ok tt)
    | _ => (s, Err not_ready_error)
    end.

(** One poll of [reserve]; the boolean is the reservation's [registered].
    [Panics] is the [debug_assert!] or the [expect]. *)
Definition reserve_poll (s : State) (registered : bool) (w : Waker)
    : State * bool * call (Poll (result unit Error)) :=
  if is_closed (admission s) || stopping (control s) then (s, registered, Returns (Ready (Err closed_error)))
  else if registered && match admission s with AReadyForWaiter => true | _ => false end then
    (set_admission s (AReserved None), false, Returns (Ready (Ok tt)))
  else if match admission s with AReady => true | _ => false end then
    if registered then (s, registered, Panics)
    else (set_admission s (AReserved None), registered, Returns (Ready (Ok tt)))
  else
    let occupied := match waiter_of (admission s) with None => true | Some waiter => bool_decide (is_Some waiter) end in
    if negb registered && occupied then (s, registered, Returns (Ready (Err waiter_error)))
    else
      let s := mkState (admission_waker (control s) w) (admission s) (senders s) (driver_waker s) in
      match waiter_of (admission s) with
      | None => (s, registered, Panics)
      | Some _ => (set_admission s (set_waiter (admission s) (Some w)), true, Returns Pending)
      end.

(** [Drop for Reservation] *)
Definition reservation_drop (s : State) (registered : bool) : State :=
  if registered then
    match admission s with
    | AReadyForWaiter => set_admission s AReady
    | a => set_admission s (set_waiter a None)
    end
  else s.

(** ** Permits *)

(** [release]; [Panics] is the [unreachable!]. *)
Definition release (s : State) : State * list Waker * call unit :=
  match admission s with
  | AReserved waiter | AActive waiter =>
      let a := match waiter with Some _ => AReadyForWaiter | None => AReady end in
      (mkState (control s) a (senders s) None, opt_list waiter ++ opt_list (driver_waker s), Returns tt)
  | AClosed => (mkState (control s) AClosed (senders s) None, opt_list (driver_waker s), Returns tt)
  | _ => (s, [], Panics)
  end.

(** [RequestPermit::send] before the permit is dropped: [Ok] transfers the job,
    [Err] gives it back. *)
Definition permit_send (s : State) (job : J) : State * list Waker * call (result unit (J * Error)) :=
  if is_closed (admission s) || stopping (control s) then (s, [], Returns (Err (job, closed_error)))
  else
    match admission s with
    | AReserved waiter =>
        (mkState (control s) (AQueued job waiter) (senders s) None, opt_list (driver_waker s), Returns (Ok tt))
    | _ => (s, [], Panics)
    end.

(** ** The driver *)

(** One poll of [Receiver::next]. *)
Definition next_poll (s : State) (w : Waker) : State * Poll (option J) :=
  let '(a, job) := take_job (admission s) in
  let s := set_admission s a in
  match job with
  | Some job => (s, Ready (Some job))
  | None =>
      if is_closed (admission s) || stopping (control s) || ((senders s =? 0) && negb (is_busy (admission s))) then
        (s, Ready None)
      else (mkState (admission_waker (control s) w) (admission s) (senders s) (Some w), Pending)
  end.

(** [Receiver::release] *)
Definition receiver_release (s : State) : State * list Waker * call bool :=
  if stopping (control s) || (senders s =? 0) then (s, [], Returns false)
  else
    let '(s, woken, r) := release s in
    (s, woken, map_call (fun _ => true) r).

(** [Drop for Receiver] *)
Definition receiver_drop (s : State) : State * list Waker * option J :=
  let '(a, waiter, queued) := close (admission s) in
  (mkState (control s) a (senders s) None, opt_list waiter, queued).

(** ** Executions

    The driver's task is [driver_task], each reservation's task its own.
    [woken] are the tasks woken since they were last polled. *)

Definition driver_task : Waker := 0%nat.

Inductive DriverPhase : Type :=
| DIdle
| DWaiting
| DBusy
| DRetiring
| DGone.

Record Sys := mkSys {
  st : State;
  permits : Z;
  reservations : gmap Waker bool;
  driver : DriverPhase;
  woken : gset Waker;
  submitted : list J;
  taken : list J;
  dropped : list J;
}.

Definition start : Sys := mkSys (admission_channel ConnectionControl_new) 0 ∅ DIdle ∅ [] [] [].

Inductive Action : Type :=
| CloneSender
| DropSender
| TryReserve
| StartReserve (w : Waker)
| PollReserve (w : Waker)
| DropReserve (w : Waker)
| SendPermit (job : J)
| DropPermit
| PollNext
| ReleaseDriver
| DropDriver
| Request (r : request).

(** What an action did: nothing it may do, a panic, or a new state. *)
Inductive Outcome : Type :=
| NotAllowed
| Panicked
| Next (y : Sys).

Definition with_st (y : Sys) (s : State) (wk : list Waker) : Sys :=
  mkSys s (permits y) (reservations y) (driver y) (woken y ∪ list_to_set wk) (submitted y) (taken y) (dropped y).

Definition with_permits (y : Sys) (n : Z) : Sys :=
  mkSys (st y) n (reservations y) (driver y) (woken y) (submitted y) (taken y) (dropped y).

Definition with_reservations (y : Sys) (m : gmap Waker bool) : Sys :=
  mkSys (st y) (permits y) m (driver y) (woken y) (submitted y) (taken y) (dropped y).

Definition with_driver (y : Sys) (d : DriverPhase) : Sys :=
  mkSys (st y) (permits y) (reservations y) d (woken y) (submitted y) (taken y) (dropped y).

Definition polled (y : Sys) (w : Waker) : Sys :=
  mkSys (st y) (permits y) (reservations y) (driver y) (woken y ∖ {[w]}) (submitted y) (taken y) (dropped y).

Definition with_jobs (y : Sys) (s t d : list J) : Sys :=
  mkSys (st y) (permits y) (reservations y) (driver y) (woken y) (submitted y ++ s) (taken y ++ t) (dropped y ++ d).

(** The active permit is dropped. *)
Definition drop_permit (y : Sys) : Outcome :=
  let '(s, wk, r) := release (st y) in
  match r with
  | Returns _ => Next (with_permits (with_st y s wk) (permits y - 1))
  | Panics => Panicked
  end.

(** The connection's [drive] polls the abort wait, which registers the
    driver, before it polls [next]. *)
Definition drive_registers (s : State) : State :=
  mkState (register_driver (control s) driver_task) (admission s) (senders s) (driver_waker s).

Definition act (y : Sys) (a : Action) : Outcome :=
  match a with
  | CloneSender => if 0 <? senders (st y) then Next (with_st y (sender_clone (st y)) []) else NotAllowed
  | DropSender =>
      (* a reservation borrows its sender *)
      if (1 <? senders (st y)) || ((senders (st y) =? 1) && bool_decide (reservations y = ∅)) then
        let '(s, wk) := sender_drop (st y) in Next (with_st y s wk)
      else NotAllowed
  | TryReserve =>
      if 0 <? senders (st y) then
        let '(s, r) := try_reserve (st y) in
        Next (with_permits (with_st y s []) (permits y + if is_ok r then 1 else 0))
      else NotAllowed
  | StartReserve w =>
      if (0 <? senders (st y)) && negb (Nat.eqb w driver_task) && bool_decide (reservations y !! w = None) then
        Next (with_reservations y (<[w := false]> (reservations y)))
      else NotAllowed
  | PollReserve w =>
      match reservations y !! w with
      | None => NotAllowed
      | Some registered =>
          let '(s, registered, r) := reserve_poll (st y) registered w in
          let y := polled (with_st y s []) w in
          match r with
          | Panics => Panicked
          | Returns Pending => Next (with_reservations y (<[w := registered]> (reservations y)))
          | Returns (Ready r) =>
              (* the finished future is dropped *)
              let y := with_st y (reservation_drop (st y) registered) [] in
              Next (with_permits (with_reservations y (delete w (reservations y)))
                      (permits y + if is_ok r then 1 else 0))
          end
      end
  | DropReserve w =>
      match reservations y !! w with
      | None => NotAllowed
      | Some registered =>
          Next (with_reservations (with_st y (reservation_drop (st y) registered) []) (delete w (reservations y)))
      end
  | SendPermit job =>
      if 0 <? permits y then
        let '(s, wk, r) := permit_send (st y) job in
        let y := with_st y s wk in
        match r with
        | Panics => Panicked
        | Returns (Ok _) => Next (with_jobs (with_permits y (permits y - 1)) [job] [] [])
        | Returns (Err _) => drop_permit y
        end
      else NotAllowed
  | DropPermit => if 0 <? permits y then drop_permit y else NotAllowed
  | PollNext =>
      match driver y with
      | DIdle | DWaiting =>
          let '(s, p) := next_poll (drive_registers (st y)) driver_task in
          let y := polled (with_st y s []) driver_task in
          match p with
          | Ready (Some job) => Next (with_jobs (with_driver y DBusy) [] [job] [])
          | Ready None => Next (with_driver y DRetiring)
          | Pending => Next (with_driver y DWaiting)
          end
      | _ => NotAllowed
      end
  | ReleaseDriver =>
      match driver y with
      | DBusy =>
          let '(s, wk, r) := receiver_release (st y) in
          match r with
          | Panics => Panicked
          | Returns reopened => Next (with_driver (with_st y s wk) (if reopened then DIdle else DBusy))
          end
      | _ => NotAllowed
      end
  | DropDriver =>
      match driver y with
      | DGone => NotAllowed
      | _ =>
          let '(s, wk, queued) := receiver_drop (st y) in
          Next (with_jobs (with_driver (with_st y s wk) DGone) [] [] (opt_list queued))
      end
  | Request r =>
      let s := st y in
      Next (with_st y (mkState (apply_request (control s) r) (admission s) (senders s) (driver_waker s))
              (woken_by (control s) r))
  end.

(** A run: the actions that are not allowed are skipped; [None] is a panic. *)
Fixpoint run (y : Sys) (actions : list Action) : option Sys :=
  match actions with
  | [] => Some y
  | a :: actions =>
      match act y a with
      | NotAllowed => run y actions
      | Panicked => None
      | Next y => run y actions
      end
  end.

End Admission.

(** * The invariant *)

Section Invariant.
Context {J : Type}.
Implicit Types (a : @Admission J) (y : @Sys J).

Definition queued a : list J := match a with AQueued job _ => [job] | _ => [] end.

(** The driver's [next] would not wait. *)
Definition next_ready (s : @State J) : bool :=
  match admission s with
  | AQueued _ _ => true
  | a => is_closed a || stopping (control s) || ((senders s =? 0) && negb (is_busy a))
  end.

(** What a registered reservation waits for. *)
Definition waits_for a (woken : gset Waker) (w : Waker) : Prop :=
  match a with
  | AReady => False
  | AReserved x | AQueued _ x | AActive x => x = Some w
  | AReadyForWaiter | AClosed => w ∈ woken
  end.

Record Inv y : Prop := {
  (* a permit is what owns a reserved admission *)
  i_permits : match admission (st y) with
              | AReserved _ => permits y = 1
              | AClosed => 0 <= permits y <= 1
              | _ => permits y = 0
              end;
  (* the driver owns an active exchange, and closes when it goes *)
  i_driver : match driver y with
             | DBusy => exists w, admission (st y) = AActive w
             | DGone => admission (st y) = AClosed
             | _ => (forall w, admission (st y) <> AActive w) /\ admission (st y) <> AClosed
             end;
  (* a registered waiter is a live reservation *)
  i_owner : forall w, waiter_of (admission (st y)) = Some (Some w) -> reservations y !! w = Some true;
  i_claim : admission (st y) = AReadyForWaiter -> exists w, reservations y !! w = Some true;
  i_waits : forall w, reservations y !! w = Some true -> waits_for (admission (st y)) (woken y) w;
  i_one : forall v w, reservations y !! v = Some true -> reservations y !! w = Some true -> v = w;
  i_task : reservations y !! driver_task = None;
  i_senders : 0 <= senders (st y) /\ (reservations y <> ∅ -> 1 <= senders (st y));
  i_jobs : submitted y = taken y ++ queued (admission (st y)) ++ dropped y /\
           (admission (st y) <> AClosed -> dropped y = []);
  (* a waiting driver is registered, or has been woken *)
  i_wakes : driver y = DWaiting ->
            (driver_waker (st y) = Some driver_task \/ driver_task ∈ woken y) /\
            (control_driver (control (st y)) = Some driver_task \/ driver_task ∈ woken y) /\
            (next_ready (st y) = true -> driver_task ∈ woken y);
}.

Definition kept (o : @Outcome J) : Prop :=
  match o with
  | NotAllowed => True
  | Panicked => False
  | Next y => Inv y
  end.

Lemma start_inv : Inv start.
Proof. constructor; simpl; try done; try (intros; by simplify_map_eq). Qed.

Lemma waits_mono a (wo wo' : gset Waker) w : waits_for a wo w -> wo ⊆ wo' -> waits_for a wo' w.
Proof. destruct a; simpl; set_solver. Qed.

Ltac open y I :=
  destruct y as [[c a n dw] p m d wo sub tk dr];
  destruct I as [Ip Id Io Ic Iw I1 It Is Ij Ik]; simpl in *.

(** The driver's phase still fits the admission. *)
Ltac same_phase d Id :=
  destruct d; try done; try (by destruct Id); try (by eexists);
  destruct Id as [Id ?]; try done; by destruct (Id _ eq_refl).

(** The jobs are where they were. *)
Ltac same_jobs Ij := let E := fresh in destruct Ij as [E Ij]; split; [exact E|]; intros _; by apply Ij.

Lemma act_clone y : Inv y -> kept (act y CloneSender).
Proof.
  intros I. open y I. destruct (Z.ltb_spec 0 n); [|done].
  constructor; simpl; try done.
  - intros w Hw. eapply waits_mono; [by apply Iw|set_solver].
  - lia.
  - intros Hd. destruct (Ik Hd) as (H1 & H2 & H3). split_and!; [set_solver..|].
    intros Hn. apply elem_of_union_l, H3. unfold next_ready in *. simpl in *.
    rewrite (proj2 (Z.eqb_neq (n + 1) 0)) in Hn by lia. rewrite (proj2 (Z.eqb_neq n 0)) by lia. done.
Qed.

Lemma act_drop_sender y : Inv y -> kept (act y DropSender).
Proof.
  intros I. open y I.
  destruct ((1 <? n) || ((n =? 1) && bool_decide (m = ∅))) eqn:Hn; [|done]. simpl.
  assert (Hn' : 1 < n \/ n = 1 /\ m = ∅).
  { apply orb_true_iff in Hn as [?%Z.ltb_lt|[?%Z.eqb_eq ?%bool_decide_eq_true]%andb_true_iff]; auto. }
  constructor; simpl; try done.
  - intros w Hw. eapply waits_mono; [by apply Iw|set_solver].
  - split; [lia|]. destruct Hn' as [?|[_ ->]]; [lia|done].
  - intros Hd. destruct (Ik Hd) as (H1 & H2 & H3).
    assert (driver_task ∈ wo ∪ list_to_set (opt_list dw)) by (destruct H1 as [->|]; set_solver). split_and!; auto; set_solver.
Qed.

Lemma woken_nil (wo : gset Waker) : wo ∪ list_to_set [] = wo.
Proof. set_solver. Qed.

Lemma act_try_reserve y : Inv y -> kept (act y TryReserve).
Proof.
  intros I. unfold act. destruct (0 <? senders (st y)); [|done]. unfold try_reserve, with_st. rewrite woken_nil.
  assert (Hsame : Inv (with_permits y (permits y + 0))).
  { rewrite Z.add_0_r. destruct y. exact I. }
  destruct (is_closed (admission (st y)) || stopping (control (st y))) eqn:Hc; [by destruct y as [[]]|].
  destruct (admission (st y)) eqn:Ha; simpl; try (destruct y as [[]]; simpl in *; subst; exact Hsame).
  open y I. subst a. constructor; simpl; try done.
  - lia.
  - destruct d; try done. by destruct Id.
  - intros w Hw. by apply Iw in Hw.
  - destruct Ij as [-> Ij]. split; [done|]. intros _. by apply Ij.
  - intros Hd. destruct (Ik Hd) as (H1 & H2 & H3). split_and!; [done..|].
    unfold next_ready. simpl. rewrite andb_false_r, orb_false_r. intros Hst. rewrite Hst in Hc. done.
Qed.

Lemma act_start_reserve y w : Inv y -> kept (act y (StartReserve w)).
Proof.
  intros I. open y I. destruct (Z.ltb_spec 0 n); [|done]. destruct (Nat.eqb_spec w driver_task); [done|]. simpl.
  case_bool_decide as Hw; [|done]. constructor; simpl; try done.
  - intros v Hv. apply Io in Hv. assert (v <> w) by congruence. by rewrite lookup_insert_ne.
  - intros Ha. destruct (Ic Ha) as [v Hv]. exists v. assert (v <> w) by congruence. by rewrite lookup_insert_ne.
  - intros v Hv. apply Iw. destruct (decide (v = w)) as [->|]; by simplify_map_eq.
  - intros v v' Hv Hv'. apply I1; [destruct (decide (v = w)) as [->|] | destruct (decide (v' = w)) as [->|]]; by simplify_map_eq.
  - by rewrite lookup_insert_ne.
  - lia.
Qed.

(** A reservation's future is gone: its task [w] no longer matters. *)
Lemma drop_inv c a n dw p m d (wo wo' : gset Waker) sub tk dr w registered :
  Inv (mkSys (mkState c a n dw) p m d wo sub tk dr) -> m !! w = Some registered -> wo ∖ {[w]} ⊆ wo' ->
  Inv (mkSys (reservation_drop (mkState c a n dw) registered) p (delete w m) d wo' sub tk dr).
Proof.
  intros I Hw Hwo. destruct I as [Ip Id Io Ic Iw I1 It Is Ij Ik]; simpl in *.
  assert (w <> driver_task) as Hw0 by congruence.
  assert (H0 : driver_task ∈ wo -> driver_task ∈ wo') by set_solver.
  assert (Hk : d = DWaiting -> (dw = Some driver_task \/ driver_task ∈ wo') /\ (control_driver c = Some driver_task \/ driver_task ∈ wo') /\
    (next_ready (mkState c a n dw) = true -> driver_task ∈ wo')).
  { intros Hd. destruct (Ik Hd) as (H1 & H2 & H3). split_and!; [by destruct H1; auto|by destruct H2; auto|auto]. }
  assert (Hs : 0 <= n /\ (delete w m <> ∅ -> 1 <= n)).
  { split; [lia|]. intros _. apply Is. intros ->. done. }
  destruct registered; simpl.
  - assert (Hno : forall v, delete w m !! v <> Some true).
    { intros v Hv. apply lookup_delete_Some in Hv as [Hne Hv]. by apply Hne, I1. }
    specialize (Iw w Hw).
    destruct a; simpl in Iw; try done; try subst waiter; constructor; simpl; try done; try (intros v Hv; by apply Hno in Hv);
      try (by intros ? ? Hv; apply Hno in Hv); try by apply lookup_delete_None; auto.
    1,3,5,7: same_phase d Id.
    all: same_jobs Ij.
  - constructor; simpl; try done.
    + intros v Hv. apply Io in Hv. assert (v <> w) by congruence. by rewrite lookup_delete_ne.
    + intros Ha. destruct (Ic Ha) as [v Hv]. exists v. assert (v <> w) by congruence. by rewrite lookup_delete_ne.
    + intros v Hv. apply lookup_delete_Some in Hv as [Hne Hv]. apply Iw in Hv.
      destruct a; simpl in *; try done; set_solver.
    + intros v v' Hv Hv'. apply lookup_delete_Some in Hv as [_ Hv], Hv' as [_ Hv']. by apply I1.
    + apply lookup_delete_None. auto.
Qed.

Lemma act_drop_reserve y w : Inv y -> kept (act y (DropReserve w)).
Proof.
  intros I. unfold act. destruct (reservations y !! w) as [registered|] eqn:Hw; [|done].
  destruct y as [[c a n dw] p m d wo sub tk dr]. simpl in *. unfold with_st, with_reservations. simpl.
  eapply drop_inv; [exact I|exact Hw|set_solver].
Qed.

(** The permit goes to the reservation [w], which ends. *)
Lemma claim_inv c a n dw p m d (wo : gset Waker) sub tk dr w (registered : bool) :
  Inv (mkSys (mkState c a n dw) p m d wo sub tk dr) -> m !! w = Some registered ->
  stopping c = false -> a = (if registered then AReadyForWaiter else AReady) ->
  Inv (mkSys (mkState c (AReserved None) n dw) (p + 1) (delete w m) d (wo ∖ {[w]}) sub tk dr).
Proof.
  intros I Hw Hst Ha. destruct I as [Ip Id Io Ic Iw I1 It Is Ij Ik]; simpl in *.
  assert (w <> driver_task) as Hw0 by congruence.
  assert (Hno : forall v, delete w m !! v <> Some true).
  { intros v Hv. apply lookup_delete_Some in Hv as [Hne Hv]. destruct registered; [by apply Hne, I1|].
    apply Iw in Hv. by subst a. }
  assert (Hp : p = 0) by (by destruct registered; subst a).
  constructor; simpl; try done; try (intros v Hv; by apply Hno in Hv).
  - lia.
  - destruct registered; subst a; same_phase d Id.
  - intros ? ? Hv. by apply Hno in Hv.
  - apply lookup_delete_None. auto.
  - split; [lia|]. intros _. apply Is. intros ->. done.
  - destruct registered; subst a; same_jobs Ij.
  - intros Hd. destruct (Ik Hd) as (H1 & H2 & H3). unfold next_ready. simpl. rewrite Hst, andb_false_r.
    split_and!; [set_solver..|done].
Qed.

(** The reservation [w] registers and waits. *)
Lemma register_inv c a n dw p m d (wo : gset Waker) sub tk dr w (registered : bool) x :
  Inv (mkSys (mkState c a n dw) p m d wo sub tk dr) -> m !! w = Some registered ->
  waiter_of a = Some x -> (registered = false -> x = None) ->
  Inv (mkSys (mkState (admission_waker c w) (set_waiter a (Some w)) n dw) p (<[w := true]> m) d (wo ∖ {[w]}) sub tk dr).
Proof.
  intros I Hw Hx Hreg. destruct I as [Ip Id Io Ic Iw I1 It Is Ij Ik]; simpl in *.
  assert (w <> driver_task) as Hw0 by congruence.
  assert (Honly : forall v, <[w := true]> m !! v = Some true -> v = w).
  { intros v Hv. destruct (decide (v = w)) as [|Hne]; [done|]. rewrite lookup_insert_ne in Hv by done.
    destruct registered; [by apply I1|]. rewrite (Hreg eq_refl) in Hx. apply Iw in Hv.
    destruct a; simpl in *; congruence. }
  constructor; simpl.
  - by destruct a.
  - destruct a; try done; same_phase d Id.
  - intros v Hv. assert (v = w) as ->; [|by simplify_map_eq]. destruct a; simpl in Hv; congruence.
  - intros _. exists w. by simplify_map_eq.
  - intros v ->%Honly. by destruct a.
  - intros v v' ->%Honly ->%Honly. done.
  - by rewrite lookup_insert_ne.
  - split; [lia|]. intros _. apply Is. intros ->. done.
  - destruct a; try done; same_jobs Ij.
  - intros Hd. destruct (Ik Hd) as (H1 & H2 & H3).
    split_and!; [set_solver..|]. unfold next_ready in *. simpl in *. intros Hn.
    assert (driver_task ∈ wo) by (apply H3; by destruct a). set_solver.
Qed.

(** A state reached without waking anyone. *)
Ltac leaf H := simpl; rewrite ?(right_id_L (∅ : gset Waker) (∪)); exact H.

Lemma act_poll_reserve y w : Inv y -> kept (act y (PollReserve w)).
Proof.
  intros I. unfold act. destruct (reservations y !! w) as [registered|] eqn:Hw; [|done].
  destruct y as [[c a n dw] p m d wo sub tk dr]. unfold reserve_poll, polled, with_st, with_permits, with_reservations.
  rewrite !woken_nil. simpl in *.
  assert (Hdrop : Inv (mkSys (reservation_drop (mkState c a n dw) registered) (p + 0) (delete w m) d
    (wo ∖ {[w]}) sub tk dr)).
  { rewrite Z.add_0_r. by eapply drop_inv. }
  destruct (is_closed a || stopping c) eqn:Hc; [leaf Hdrop|].
  apply orb_false_iff in Hc as [Hcl Hst].
  pose proof (claim_inv c a n dw p m d wo sub tk dr w registered I Hw Hst) as Hclaim.
  pose proof (i_waits _ I w) as Hwait. simpl in Hwait.
  destruct a as [|x|job x|x| |]; try done; simpl in *.
  - destruct registered; simpl; [by apply Hwait in Hw|]. leaf (Hclaim eq_refl).
  - rewrite andb_false_r. destruct (negb registered && bool_decide (is_Some x)) eqn:Ho; [leaf Hdrop|]. simpl.
    apply (register_inv c (AReserved x) n dw p m d wo sub tk dr w registered x I Hw eq_refl).
    intros ->. simpl in Ho. apply bool_decide_eq_false in Ho. by destruct x; [destruct Ho|].
  - rewrite andb_false_r. destruct (negb registered && bool_decide (is_Some x)) eqn:Ho; [leaf Hdrop|]. simpl.
    apply (register_inv c (AQueued job x) n dw p m d wo sub tk dr w registered x I Hw eq_refl).
    intros ->. simpl in Ho. apply bool_decide_eq_false in Ho. by destruct x; [destruct Ho|].
  - rewrite andb_false_r. destruct (negb registered && bool_decide (is_Some x)) eqn:Ho; [leaf Hdrop|]. simpl.
    apply (register_inv c (AActive x) n dw p m d wo sub tk dr w registered x I Hw eq_refl).
    intros ->. simpl in Ho. apply bool_decide_eq_false in Ho. by destruct x; [destruct Ho|].
  - destruct registered; simpl; [|leaf Hdrop]. leaf (Hclaim eq_refl).
Qed.

(** The owner lets go: the registered waiter, if any, is woken with priority,
    and so is the driver. *)
Lemma release_inv c a n dw p p' m d d' (wo : gset Waker) sub tk dr x :
  Inv (mkSys (mkState c a n dw) p m d wo sub tk dr) -> a = AReserved x \/ a = AActive x ->
  p' = 0 -> (d' = DIdle \/ d' = d /\ d <> DBusy) ->
  Inv (mkSys (mkState c (match x with Some _ => AReadyForWaiter | None => AReady end) n None) p' m d'
    (wo ∪ list_to_set (opt_list x ++ opt_list dw)) sub tk dr).
Proof.
  intros I Ha -> Hd. destruct I as [Ip Id Io Ic Iw I1 It Is Ij Ik]; simpl in *.
  assert (Hwx : forall w, m !! w = Some true -> x = Some w) by (intros w Hw; apply Iw in Hw; by destruct Ha; subst a).
  constructor; simpl; try done.
  - by destruct x.
  - assert (Hg : (forall w, match x with Some _ => @AReadyForWaiter J | None => AReady end <> AActive w) /\
      match x with Some _ => @AReadyForWaiter J | None => AReady end <> AClosed) by (by destruct x).
    destruct Hd as [->|[-> Hd]]; [done|]. destruct d; try done. by destruct Ha; subst a.
  - by destruct x.
  - destruct x as [w|]; [|done]. intros _. exists w. apply Io. by destruct Ha; subst a.
  - intros w Hw. rewrite (Hwx w Hw). simpl. set_solver.
  - destruct Ij as [Ej Ij]. split; [by destruct Ha, x; subst a|]. intros _. apply Ij. by destruct Ha; subst a.
  - intros ->. destruct Hd as [?|[<- Hd]]; [done|]. destruct (Ik eq_refl) as (H1 & H2 & H3).
    assert (driver_task ∈ wo ∪ list_to_set (opt_list x ++ opt_list dw)) by (destruct H1 as [->|]; set_solver).
    split_and!; auto.
Qed.

(** The owner lets go after the driver went away. *)
Lemma release_closed_inv c n dw p m d (wo : gset Waker) sub tk dr :
  Inv (mkSys (mkState c AClosed n dw) p m d wo sub tk dr) -> 0 < p ->
  Inv (mkSys (mkState c AClosed n None) (p - 1) m d (wo ∪ list_to_set (opt_list dw)) sub tk dr).
Proof.
  intros I Hp. destruct I as [Ip Id Io Ic Iw I1 It Is Ij Ik]; simpl in *.
  constructor; simpl; try done.
  - lia.
  - intros w Hw. apply Iw in Hw. set_solver.
  - intros ->. by destruct Id.
Qed.

Lemma drop_permit_inv y : Inv y -> 0 < permits y -> kept (drop_permit y).
Proof.
  intros I Hp. unfold drop_permit, release. pose proof (i_permits _ I) as Ip. pose proof (i_driver _ I) as Id.
  destruct y as [[c a n dw] p m d wo sub tk dr]; simpl in *.
  destruct a as [|x|job x|x| |]; simpl; try lia.
  - eapply release_inv; [exact I|by left|lia|]. right. split; [done|]. intros ->. by destruct Id.
  - by apply release_closed_inv.
Qed.

Lemma act_drop_permit y : Inv y -> kept (act y DropPermit).
Proof. intros I. unfold act. destruct (Z.ltb_spec 0 (permits y)); [by apply drop_permit_inv|done]. Qed.

Lemma act_send_permit y job : Inv y -> kept (act y (SendPermit job)).
Proof.
  intros I. unfold act. destruct (Z.ltb_spec 0 (permits y)) as [Hp|]; [|done]. unfold permit_send.
  destruct (is_closed (admission (st y)) || stopping (control (st y))) eqn:Hc.
  { assert (with_st y (st y) [] = y) as ->; [|by apply drop_permit_inv]. unfold with_st. rewrite woken_nil. by destruct y. }
  apply orb_false_iff in Hc as [Hcl Hst].
  open y I. destruct a as [|x|q x|x| |]; simpl in *; try lia; try done.
  constructor; simpl; try done.
  - lia.
  - same_phase d Id.
  - rewrite !app_nil_r. destruct Ij as [-> Ij]. rewrite Ij by done. simpl. rewrite !app_nil_r. done.
  - intros Hd. destruct (Ik Hd) as (H1 & H2 & H3).
    assert (driver_task ∈ wo ∪ list_to_set (opt_list dw)) by (destruct H1 as [->|]; set_solver). split_and!; auto.
Qed.

(** The driver polled and nothing was queued. *)
Lemma polled_inv c c' a n dw dw' p m d d' (wo : gset Waker) sub tk dr :
  Inv (mkSys (mkState c a n dw) p m d wo sub tk dr) -> d = DIdle \/ d = DWaiting ->
  stopping c' = stopping c -> control_driver c' = Some driver_task ->
  d' = DRetiring \/ d' = DWaiting /\ next_ready (mkState c' a n dw') = false /\ dw' = Some driver_task ->
  Inv (mkSys (mkState c' a n dw') p m d' (wo ∖ {[driver_task]}) sub tk dr).
Proof.
  intros I Hd Hst Hcd Hd'. destruct I as [Ip Id Io Ic Iw I1 It Is Ij Ik]; simpl in *.
  constructor; simpl; try done.
  - by destruct Hd' as [->|[-> _]], Hd as [->| ->].
  - intros w Hm. assert (w <> driver_task) by congruence. apply Iw in Hm. destruct a; simpl in *; set_solver.
  - intros ->. destruct Hd' as [?|(_ & Hn & ->)]; [done|]. split_and!; auto. by rewrite Hn.
Qed.

(** The driver takes the queued job. *)
Lemma taken_inv c c' job x n dw p m d (wo : gset Waker) sub tk dr :
  Inv (mkSys (mkState c (AQueued job x) n dw) p m d wo sub tk dr) ->
  Inv (mkSys (mkState c' (AActive x) n dw) p m DBusy (wo ∖ {[driver_task]}) (sub ++ []) (tk ++ [job]) (dr ++ [])).
Proof.
  intros I. destruct I as [Ip Id Io Ic Iw I1 It Is Ij Ik]; simpl in *.
  constructor; simpl; try done.
  - by eexists.
  - rewrite !app_nil_r. destruct Ij as [-> Ij]. rewrite Ij by done. by rewrite <- !app_assoc.
Qed.

Lemma next_poll_unqueued (s : @State J) w : queued (admission s) = [] ->
  next_poll s w =
    if next_ready s then (s, Ready None)
    else (mkState (admission_waker (control s) w) (admission s) (senders s) (Some w), Pending).
Proof. destruct s as [c a n dw]. unfold next_poll, next_ready. by destruct a. Qed.

Lemma act_poll_next y : Inv y -> kept (act y PollNext).
Proof.
  intros I. unfold act.
  assert (Hgo : driver y = DIdle \/ driver y = DWaiting -> kept
    (let '(s, p0) := next_poll (drive_registers (st y)) driver_task in
     let y := polled (with_st y s []) driver_task in
     match p0 with
     | Ready (Some job) => Next (with_jobs (with_driver y DBusy) [] [job] [])
     | Ready None => Next (with_driver y DRetiring)
     | Pending => Next (with_driver y DWaiting)
     end)).
  { intros Hd. destruct y as [[c a n dw] p m d wo sub tk dr]; simpl in *. unfold drive_registers. simpl.
    destruct (queued a) as [|job q] eqn:Eq.
    - rewrite next_poll_unqueued by done. destruct (next_ready _) eqn:Er;
        unfold polled, with_driver, with_st; simpl; rewrite ?(right_id_L (∅ : gset Waker) (∪));
        (eapply polled_inv; [exact I|exact Hd|done|done|]); [by left|]. right. split_and!; done.
    - destruct a as [| |job' x| | |]; try done. unfold next_poll, polled, with_driver, with_st, with_jobs. simpl.
      rewrite ?(right_id_L (∅ : gset Waker) (∪)). by eapply taken_inv. }
  destruct (driver y); try done; apply Hgo; auto.
Qed.

Lemma act_release y : Inv y -> kept (act y ReleaseDriver).
Proof.
  intros I. unfold act. pose proof (i_driver _ I) as Id. pose proof (i_permits _ I) as Ip.
  destruct (driver y) eqn:Hd; try done. destruct Id as [x Hx]. unfold receiver_release.
  destruct (stopping (control (st y)) || (senders (st y) =? 0)).
  - assert (with_driver (with_st y (st y) []) DBusy = y) as Hy; [|unfold kept; by rewrite Hy].
    unfold with_st, with_driver. rewrite woken_nil. destruct y. simpl in *. by subst.
  - unfold release. rewrite Hx in Ip |- *. destruct y as [[c a n dw] p m d wo sub tk dr]; simpl in *. subst a d.
    unfold with_driver, with_st. simpl. eapply release_inv; [exact I|by right|done|by left].
Qed.

Lemma act_drop_driver y : Inv y -> kept (act y DropDriver).
Proof.
  intros I. unfold act, receiver_drop.
  assert (Hgo : driver y <> DGone -> kept
    (let '(s, wk, q) :=
       let '(a, waiter, queued) := close (admission (st y)) in
       (mkState (control (st y)) a (senders (st y)) None, opt_list waiter, queued) in
     Next (with_jobs (with_driver (with_st y s wk) DGone) [] [] (opt_list q)))).
  { intros Hd. open y I. assert (a <> AClosed) as Hncl by (intros ->; destruct d; try done; by destruct Id).
    specialize (Ij). destruct Ij as [Ej Ij]. specialize (Ij Hncl). subst dr.
    assert (Hw : forall w, m !! w = Some true -> w ∈ wo ∪ list_to_set (opt_list (default None (waiter_of a)))).
    { intros w Hw. apply Iw in Hw. destruct a; simpl in *; try done; subst; set_solver. }
    assert (Hp : 0 <= p <= 1) by (destruct a; lia).
    destruct a as [|x|job x|x| |]; simpl in *; try done; constructor; simpl; try done;
      (split; [by rewrite ?app_nil_r, ?Ej, ?app_nil_r|done]). }
  destruct (driver y); try done; apply Hgo; done.
Qed.

Lemma act_request y r : Inv y -> kept (act y (Request r)).
Proof.
  intros I. open y I. constructor; simpl; try done.
  - intros w Hw. eapply waits_mono; [by apply Iw|set_solver].
  - intros Hd. destruct (Ik Hd) as (H1 & H2 & H3).
    assert (driver_task ∈ wo ∪ list_to_set (woken_by c r)).
    { destruct H2 as [Hc|]; [|set_solver]. apply elem_of_union_r, elem_of_list_to_set, list_elem_of_In. by apply woken_driver. }
    split_and!; auto.
Qed.

Lemma admission_act_inv y (x : Action) : Inv y -> kept (act y x).
Proof.
  intros I. destruct x; auto using act_clone, act_drop_sender, act_try_reserve, act_start_reserve, act_poll_reserve,
    act_drop_reserve, act_send_permit, act_drop_permit, act_poll_next, act_release, act_drop_driver, act_request.
Qed.

Lemma run_inv actions y : Inv y -> exists y', run y actions = Some y' /\ Inv y'.
Proof.
  revert y. induction actions as [|a actions IH]; intros y I; simpl; [eauto|].
  pose proof (admission_act_inv y a I) as Hk. destruct (act y a) as [| |y']; simpl in Hk; [by apply IH|done|by apply IH].
Qed.

(** C20: One owner. However senders, permits, reservations, the driver and
    shutdown interleave, no step panics; at most one of an unsubmitted permit,
    a queued job and a running exchange exists, at most one reservation is
    registered, and every job accepted is taken by the driver once and in
    order, still queued, or dropped when the driver went away. *)
Theorem admission_single_owner (actions : list Action) :
  exists y, run start actions = Some y /\
    0 <= permits y + zlen (queued (admission (st y))) + (match driver y with DBusy => 1 | _ => 0 end) <= 1 /\
    (forall v w, reservations y !! v = Some true -> reservations y !! w = Some true -> v = w) /\
    submitted y = taken y ++ queued (admission (st y)) ++ dropped y /\ (driver y <> DGone -> dropped y = []).
Proof.
  destruct (run_inv actions start start_inv) as (y & Hr & [Ip Id Io Ic Iw I1 It Is Ij Ik]).
  exists y. split; [done|]. split_and!; try done.
  - destruct (admission (st y)), (driver y); try (destruct Id as [? Id]; try done; by destruct Id); simpl; unfold zlen; simpl; lia.
  - destruct (admission (st y)), (driver y); try (destruct Id as [? Id]; try done; by destruct Id); simpl; unfold zlen; simpl; lia.
  - apply Ij.
  - intros Hd. apply Ij. intros Ha. rewrite Ha in Id. destruct (driver y); try done; by destruct Id.
Qed.

(** C21: No lost wake-ups in admission. In every reachable state a driver that
    waits for a request although one is queued, admission is stopping or the
    last sender is gone, has been woken; and a waiting reservation has been
    woken or waits for a current owner, a permit, a queued job or a running
    exchange; once admission is its to claim, or closed, it has been woken. *)
Theorem admission_no_lost_wakeup (actions : list Action) :
  exists y, run start actions = Some y /\
    (driver y = DWaiting -> next_ready (st y) = true -> driver_task ∈ woken y) /\
    forall w, reservations y !! w = Some true ->
      (w ∈ woken y \/ permits y = 1 \/ queued (admission (st y)) <> [] \/ driver y = DBusy) /\
      (admission (st y) = AReadyForWaiter \/ admission (st y) = AClosed -> w ∈ woken y).
Proof.
  destruct (run_inv actions start start_inv) as (y & Hr & [Ip Id Io Ic Iw I1 It Is Ij Ik]).
  exists y. split; [done|]. split; [intros Hd; by apply Ik|]. intros w Hw. specialize (Iw w Hw).
  destruct (admission (st y)) eqn:Ha; simpl in *; try done; (split; [|by intros [?|?]]); auto.
  right. right. right. destruct (driver y); try done; by destruct Id as [Id _]; destruct (Id _ eq_refl).
Qed.

End Invariant.

(** A waiter that registered while a permit was out gets the admission when the
    exchange ends, before a newcomer. *)
Definition handover : list (@Action nat) :=
  [TryReserve; StartReserve 1%nat; PollReserve 1%nat; PollNext; SendPermit 7%nat; PollNext; ReleaseDriver; TryReserve].

Lemma admission_single_owner_witness :
  exists y, run start handover = Some y /\
    0 <= permits y + zlen (queued (admission (st y))) + (match driver y with DBusy => 1 | _ => 0 end) <= 1 /\
    (forall v w, reservations y !! v = Some true -> reservations y !! w = Some true -> v = w) /\
    submitted y = taken y ++ queued (admission (st y)) ++ dropped y /\ (driver y <> DGone -> dropped y = []).
Proof. exact (admission_single_owner handover). Defined.

Lemma admission_no_lost_wakeup_witness :
  exists y, run start handover = Some y /\
    (driver y = DWaiting -> next_ready (st y) = true -> driver_task ∈ woken y) /\
    forall w, reservations y !! w = Some true ->
      (w ∈ woken y \/ permits y = 1 \/ queued (admission (st y)) <> [] \/ driver y = DBusy) /\
      (admission (st y) = AReadyForWaiter \/ admission (st y) = AClosed -> w ∈ woken y).
Proof. exact (admission_no_lost_wakeup handover). Defined.

(** After [handover] the waiter is next and the newcomer got nothing. *)
Example handover_state :
  option_map (fun y => (admission (st y), permits y, taken y, bool_decide (1%nat ∈ woken y))) (run start handover) =
  Some (AReadyForWaiter, 0, [7%nat], true).
Proof. vm_compute. reflexivity. Qed.
