(* ===== verification/Context.v ===== *)
(** Request-local coordination of a service and its connection driver
    (src/src/server/context.rs): informational responses, the automatic
    100 Continue and the selection of the final response.

    [R] is an informational response. The operations are the code between two
    suspension points; the executions at the end interleave them freely. *)

From Stdlib Require Import ZArith Lia.
From stdpp Require Import base list option.
From S2P Require Import Prelude Http Errors Body Pipe.

Inductive Admission : Type := Open | FinalSelected | ContextClosed.

Inductive AutomaticContinue : Type := ContinueIdle | Requested | ContinueComplete.

#[export] Instance Admission_eq_dec : EqDecision Admission.
Proof. solve_decision. Defined.

#[export] Instance AutomaticContinue_eq_dec : EqDecision AutomaticContinue.
Proof. solve_decision. Defined.

Section Context.
Context {http : HttpCrate} {R : Type}.

Inductive CommandState : Type :=
| Idle
| Queued (response : R)
| Writing
| WritingAbandoned
| CommandComplete (r : result unit Error).

Record Shared := mkShared {
  close : bool;
  admission : Admission;
  automatic_continue : AutomaticContinue;
  command : CommandState;
  application : option Waker;
  writer : option Waker;
  receiver : option Waker;
}.

Definition channel (close : bool) : Shared := mkShared close Open ContinueIdle Idle None None None.

Definition set_admission (s : Shared) (a : Admission) : Shared :=
  mkShared (close s) a (automatic_continue s) (command s) (application s) (writer s) (receiver s).
Definition set_continue (s : Shared) (a : AutomaticContinue) : Shared :=
  mkShared (close s) (admission s) a (command s) (application s) (writer s) (receiver s).
Definition set_command (s : Shared) (c : CommandState) : Shared :=
  mkShared (close s) (admission s) (automatic_continue s) c (application s) (writer s) (receiver s).
Definition set_application (s : Shared) (w : option Waker) : Shared :=
  mkShared (close s) (admission s) (automatic_continue s) (command s) w (writer s) (receiver s).
Definition set_writer (s : Shared) (w : option Waker) : Shared :=
  mkShared (close s) (admission s) (automatic_continue s) (command s) (application s) w (receiver s).
Definition set_receiver (s : Shared) (w : option Waker) : Shared :=
  mkShared (close s) (admission s) (automatic_continue s) (command s) (application s) (writer s) w.

Definition closed_error : Error := Error_new Errors.Closed "informational writer closed".
Definition late : Error := Error_new LocalMessage "final response already selected".
Definition status_error : Error :=
  Error_new LocalMessage "application informational status must exclude 100 and 101".
Definition busy_error : Error :=
  with_detail (Error_new Busy "informational write is still settling") (DetailBusy InformationalWrite).

(** [wake]: the waker it takes and wakes. *)
Definition wake_application (s : Shared) : Shared * option Waker := (set_application s None, application s).
Definition wake_writer (s : Shared) : Shared * option Waker := (set_writer s None, writer s).
Definition wake_receiver (s : Shared) : Shared * option Waker := (set_receiver s None, receiver s).

Definition close_connection (s : Shared) : Shared :=
  mkShared true (admission s) (automatic_continue s) (command s) (application s) (writer s) (receiver s).

(** [send_informational] up to its first wait; [Err] is its answer. *)
Definition send_start (s : Shared) (status : Z) (response : R) : Shared * option Waker * result unit Error :=
  if negb (status_is_informational status) || (status =? 100) || (status =? 101) then (s, None, Err status_error)
  else if bool_decide (admission s = ContextClosed) then (s, None, Err closed_error)
  else if bool_decide (admission s = FinalSelected) then (s, None, Err late)
  else
    match command s with
    | Idle => let '(s, w) := wake_writer (set_command s (Queued response)) in (s, w, Ok tt)
    | _ => (s, None, Err busy_error)
    end.

(** [Drop for SendGuard] *)
Definition guard_drop (s : Shared) : Shared :=
  let c := match command s with Writing | WritingAbandoned => WritingAbandoned | _ => Idle end in
  set_application (set_command s c) None.

(** The wait of [send_informational]; when it is ready the guard is dropped. *)
Definition send_poll (s : Shared) (w : Waker) : Shared * Poll (result unit Error) :=
  match command s with
  | CommandComplete r => (guard_drop (set_command s Idle), Ready r)
  | _ =>
      if bool_decide (admission s = ContextClosed) then (guard_drop s, Ready (Err closed_error))
      else (set_application s (Some w), Pending)
  end.

Definition select_final (s : Shared) : Shared * (option Waker * option Waker * option Waker) :=
  let s := if bool_decide (admission s = Open) then set_admission s FinalSelected else s in
  let s := match command s with Queued _ => set_command s (CommandComplete (Err late)) | _ => s end in
  let '(s, a) := wake_application s in
  let '(s, w) := wake_writer s in
  let '(s, r) := wake_receiver s in
  (s, (a, w, r)).

(** [continue_permission] up to its wait *)
Definition permission_start (s : Shared) : Shared * option Waker :=
  wake_writer (if bool_decide (automatic_continue s = ContinueIdle) then set_continue s Requested else s).

Definition permission_poll (s : Shared) (w : Waker) : Shared * Poll (result unit Error) :=
  if bool_decide (admission s = ContextClosed) then (s, Ready (Err closed_error))
  else if bool_decide (admission s = FinalSelected) || bool_decide (automatic_continue s = ContinueComplete) then
    (s, Ready (Ok tt))
  else (set_receiver s (Some w), Pending).

Definition continued (s : Shared) : Shared * option Waker := wake_receiver (set_continue s ContinueComplete).

Inductive Command : Type :=
| Continue
| Application (response : R).

Definition next_poll (s : Shared) (w : Waker) : Shared * Poll (option Command) :=
  if negb (bool_decide (admission s = Open)) then (s, Ready None)
  else if bool_decide (automatic_continue s = Requested) then (s, Ready (Some Continue))
  else
    match command s with
    | Queued response => (set_command s Writing, Ready (Some (Application response)))
    | _ => (set_writer s (Some w), Pending)
    end.

(** [Panics] is the [unreachable!] of [complete]. *)
Definition complete (s : Shared) (r : result unit Error) : call (Shared * option Waker) :=
  match command s with
  | Writing => Returns (wake_application (set_command s (CommandComplete r)))
  | WritingAbandoned => Returns (wake_application (set_command s Idle))
  | _ => Panics
  end.

(** [Drop for InformationalReceiver] *)
Definition receiver_drop (s : Shared) : Shared * (option Waker * option Waker) :=
  let '(s, a) := wake_application (set_admission s ContextClosed) in
  let '(s, r) := wake_receiver s in
  (s, (a, r)).

(** ** Executions

    The service holds the context and one send at a time; the driver's writer,
    its body receiver and the selection of the final response share the other
    end. [w] names the task that polls. *)

Inductive WriterTask : Type :=
| WriterIdle
| WriterWaits
| WriterContinue
| WriterHead (response : R).

Inductive Wait : Type := NoWait | Live | Waits.

Record Sys := mkSys {
  sh : Shared;
  sending : option R;
  app : Wait;
  app_woken : bool;
  wtask : WriterTask;
  writer_woken : bool;
  permission : Wait;
  permission_woken : bool;
  driver : bool;
  accepted_heads : list R;
  taken_heads : list R;
  completed : list (R * result unit Error);
  answers : list (R * result unit Error);
}.

Definition start (close : bool) : Sys :=
  mkSys (channel close) None NoWait false WriterIdle false NoWait false true [] [] [] [].

Definition with_sh (y : Sys) (s : Shared) (a w r : option Waker) : Sys :=
  mkSys s (sending y) (app y) (app_woken y || bool_decide (is_Some a)) (wtask y)
    (writer_woken y || bool_decide (is_Some w)) (permission y) (permission_woken y || bool_decide (is_Some r))
    (driver y) (accepted_heads y) (taken_heads y) (completed y) (answers y).

Definition with_app (y : Sys) (head : option R) (a : Wait) : Sys :=
  mkSys (sh y) head a false (wtask y) (writer_woken y) (permission y) (permission_woken y) (driver y)
    (accepted_heads y) (taken_heads y) (completed y) (answers y).

Definition with_writer (y : Sys) (t : WriterTask) : Sys :=
  mkSys (sh y) (sending y) (app y) (app_woken y) t false (permission y) (permission_woken y) (driver y)
    (accepted_heads y) (taken_heads y) (completed y) (answers y).

Definition with_permission (y : Sys) (p : Wait) : Sys :=
  mkSys (sh y) (sending y) (app y) (app_woken y) (wtask y) (writer_woken y) p false (driver y)
    (accepted_heads y) (taken_heads y) (completed y) (answers y).

Definition with_logs (y : Sys) (acc tk : list R) (cm an : list (R * result unit Error)) : Sys :=
  mkSys (sh y) (sending y) (app y) (app_woken y) (wtask y) (writer_woken y) (permission y) (permission_woken y)
    (driver y) (accepted_heads y ++ acc) (taken_heads y ++ tk) (completed y ++ cm) (answers y ++ an).

(** The driver's futures go with it. *)
Definition without_driver (y : Sys) : Sys :=
  mkSys (sh y) (sending y) (app y) (app_woken y) WriterIdle false NoWait false false
    (accepted_heads y) (taken_heads y) (completed y) (answers y).

Inductive Action : Type :=
| Send (status : Z) (response : R)
| PollSend (w : Waker)
| DropSend
| CloseConnection
| PollNext (w : Waker)
| Complete_ (r : result unit Error)
| Continued
| WriterStop
| StartPermission
| PollPermission (w : Waker)
| DropPermission
| SelectFinal
| DropDriver.

Inductive Outcome : Type :=
| NotAllowed
| Panicked
| Next (y : Sys).

Definition act (y : Sys) (a : Action) : Outcome :=
  match a with
  | Send status response =>
      match sending y with
      | Some _ => NotAllowed
      | None =>
          let '(s, w, r) := send_start (sh y) status response in
          let y := with_sh y s None w None in
          match r with
          | Ok _ => Next (with_logs (with_app y (Some response) Live) [response] [] [] [])
          | Err e => Next (with_logs y [] [] [] [(response, Err e)])
          end
      end
  | PollSend w =>
      match sending y with
      | None => NotAllowed
      | Some head =>
          let '(s, p) := send_poll (sh y) w in
          let y := with_sh y s None None None in
          match p with
          | Pending => Next (with_app y (Some head) Waits)
          | Ready r => Next (with_logs (with_app y None NoWait) [] [] [] [(head, r)])
          end
      end
  | DropSend =>
      match sending y with
      | None => NotAllowed
      | Some _ => Next (with_app (with_sh y (guard_drop (sh y)) None None None) None NoWait)
      end
  | CloseConnection => Next (with_sh y (close_connection (sh y)) None None None)
  | PollNext w =>
      match driver y, wtask y with
      | true, WriterIdle | true, WriterWaits =>
          let '(s, p) := next_poll (sh y) w in
          let y := with_sh y s None None None in
          match p with
          | Pending => Next (with_writer y WriterWaits)
          | Ready None => Next (with_writer y WriterIdle)
          | Ready (Some Continue) => Next (with_writer y WriterContinue)
          | Ready (Some (Application head)) => Next (with_logs (with_writer y (WriterHead head)) [] [head] [] [])
          end
      | _, _ => NotAllowed
      end
  | Complete_ r =>
      match wtask y with
      | WriterHead head =>
          match complete (sh y) r with
          | Panics => Panicked
          | Returns (s, a) => Next (with_logs (with_writer (with_sh y s a None None) WriterIdle) [] [] [(head, r)] [])
          end
      | _ => NotAllowed
      end
  | Continued =>
      match wtask y with
      | WriterContinue =>
          let '(s, r) := continued (sh y) in Next (with_writer (with_sh y s None None r) WriterIdle)
      | _ => NotAllowed
      end
  | WriterStop =>
      match wtask y with
      | WriterHead _ => NotAllowed
      | _ => Next (with_writer y WriterIdle)
      end
  | StartPermission =>
      match driver y, permission y with
      | true, NoWait => let '(s, w) := permission_start (sh y) in Next (with_permission (with_sh y s None w None) Live)
      | _, _ => NotAllowed
      end
  | PollPermission w =>
      match permission y with
      | NoWait => NotAllowed
      | _ =>
          let '(s, p) := permission_poll (sh y) w in
          Next (with_permission (with_sh y s None None None) (match p with Pending => Waits | Ready _ => NoWait end))
      end
  | DropPermission =>
      match permission y with
      | NoWait => NotAllowed
      | _ => Next (with_permission y NoWait)
      end
  | SelectFinal =>
      if driver y then let '(s, (a, w, r)) := select_final (sh y) in Next (with_sh y s a w r) else NotAllowed
  | DropDriver =>
      if driver y then let '(s, (a, r)) := receiver_drop (sh y) in Next (without_driver (with_sh y s a None r))
      else NotAllowed
  end.

(** Actions that are not allowed are skipped. *)
Fixpoint run (y : Sys) (actions : list Action) : Outcome :=
  match actions with
  | [] => Next y
  | a :: actions =>
      match act y a with
      | NotAllowed => run y actions
      | Panicked => Panicked
      | Next y => run y actions
      end
  end.

(** ** The invariant *)

Definition command_ok (y : Sys) : Prop :=
  match command (sh y) with
  | Idle => sending y = None /\ (forall h, wtask y <> WriterHead h)
  | Queued h => sending y = Some h /\ (forall h, wtask y <> WriterHead h)
  | Writing => exists h, sending y = Some h /\ (driver y = true -> wtask y = WriterHead h)
  | WritingAbandoned => sending y = None /\ (driver y = true -> exists h, wtask y = WriterHead h)
  | CommandComplete r =>
      (forall h, wtask y <> WriterHead h) /\
      exists h, sending y = Some h /\ (r = Ok tt -> (h, Ok tt) ∈ completed y)
  end.

Definition app_ready (s : Shared) : bool :=
  bool_decide (admission s = ContextClosed) || match command s with CommandComplete _ => true | _ => false end.

Definition writer_ready (s : Shared) : bool :=
  negb (bool_decide (admission s = Open)) || bool_decide (automatic_continue s = Requested) ||
  match command s with Queued _ => true | _ => false end.

Definition permission_ready (s : Shared) : bool :=
  negb (bool_decide (admission s = Open)) || bool_decide (automatic_continue s = ContinueComplete).

(** A task that waits was woken, or it cannot go on and its waker is stored. *)
Definition watched (woken ready : bool) (stored : option Waker) : Prop :=
  woken = true \/ ready = false /\ is_Some stored.

Definition waits_ok (y : Sys) : Prop :=
  (app y = Waits -> watched (app_woken y) (app_ready (sh y)) (application (sh y))) /\
  (wtask y = WriterWaits -> watched (writer_woken y) (writer_ready (sh y)) (writer (sh y))) /\
  (permission y = Waits -> watched (permission_woken y) (permission_ready (sh y)) (receiver (sh y))).

Definition logs_ok (y : Sys) : Prop :=
  (forall h, (h, Ok tt) ∈ answers y -> (h, Ok tt) ∈ completed y) /\
  map fst (completed y) ++ match wtask y with WriterHead h => [h] | _ => [] end `prefix_of` taken_heads y /\
  taken_heads y `sublist_of` accepted_heads y /\
  (driver y = true -> map fst (completed y) ++ match wtask y with WriterHead h => [h] | _ => [] end = taken_heads y) /\
  (length (taken_heads y) <= S (length (completed y)))%nat /\
  (forall h, command (sh y) = Queued h -> exists l, accepted_heads y = l ++ [h] /\ taken_heads y `sublist_of` l).

Definition Inv (y : Sys) : Prop :=
  command_ok y /\ waits_ok y /\ logs_ok y /\
  (driver y = true <-> admission (sh y) <> ContextClosed) /\
  (app y = Waits -> is_Some (sending y)) /\
  (driver y = false -> wtask y = WriterIdle /\ permission y = NoWait).

Lemma watched_wake b ready ready' stored :
  watched b ready stored -> watched (b || bool_decide (is_Some stored)) ready' None.
Proof. intros [->|[_ ?]]; left; [done|]. rewrite bool_decide_true by done. apply orb_true_r. Qed.

Lemma watched_kept b ready stored : watched b ready stored -> watched (b || false) ready stored.
Proof. by rewrite orb_false_r. Qed.

Lemma watched_mono b ready ready' stored :
  (ready = false -> ready' = false) -> watched b ready stored -> watched (b || false) ready' stored.
Proof. intros Hr. rewrite orb_false_r. intros [->|[? ?]]; [by left|right; auto]. Qed.

Lemma answers_snoc (an cp : list (R * result unit Error)) h r :
  (forall h, (h, Ok tt) ∈ an -> (h, Ok tt) ∈ cp) -> (r = Ok tt -> (h, Ok tt) ∈ cp) ->
  forall h', (h', Ok tt) ∈ an ++ [(h, r)] -> (h', Ok tt) ∈ cp.
Proof.
  intros Hok Hr h' [?|Hh]%elem_of_app; [by apply Hok|]. apply list_elem_of_singleton in Hh. injection Hh as -> <-. auto.
Qed.

Definition kept (o : Outcome) : Prop :=
  match o with Next y => Inv y | NotAllowed => True | Panicked => False end.

Ltac open_sys :=
  let y := fresh "y" in
  intros y; destruct y as [[cl ad au cm ap wr rc] sd apw aw wt ww pm pw dr acc tk cp an];
  intros (Hcmd & (Ha & Hw & Hp) & (Hok & Hpre & Hsub & Htk & Hlen & Hq) & Hd & Hs & Hnd); unfold command_ok in Hcmd; cbn in *.

Ltac waits := first
  [ intros; eapply watched_wake; by auto
  | intros; eapply watched_kept; by auto
  | intros; right; split; [reflexivity|by eauto]
  | done ].

Ltac no_driver :=
  match goal with
  | H : ?d = false -> _ /\ _ |- ?d = false -> _ => let Hf := fresh in intros Hf; destruct (H Hf); by split_and!
  end.

Ltac light :=
  repeat match goal with
  | H : context [watched] |- _ => clear H
  | H : context [sublist] |- _ => clear H
  | H : context [map fst] |- _ => clear H
  end; naive_solver.

Ltac pieces := unfold kept, Inv, command_ok, waits_ok, logs_ok; simpl; rewrite ?app_nil_r in *;
  split_and!; try (by auto); try waits; try no_driver.

Lemma act_select_final : forall y, Inv y -> kept (act y SelectFinal).
Proof.
  open_sys. destruct dr; [|done]. unfold with_sh, select_final; simpl.
  destruct ad; simpl; [| |tauto]; destruct cm; destruct_and?; pieces; naive_solver.
Qed.

Lemma act_close : forall y, Inv y -> kept (act y CloseConnection).
Proof. open_sys. pieces. Qed.

Lemma context_drop_driver : forall y, Inv y -> kept (act y DropDriver).
Proof.
  open_sys. destruct dr; [|done]. unfold with_sh, receiver_drop; simpl.
  destruct cm; destruct_and?; pieces; try (etrans; [|exact Hpre]; by apply prefix_app_r).
  destruct Hcmd as (h & -> & _). by exists h.
Qed.

Lemma act_permission_start : forall y, Inv y -> kept (act y StartPermission).
Proof.
  open_sys. destruct dr; [|done]. destruct pm; [|done..]. unfold permission_start.
  case_bool_decide; simpl; destruct cm; destruct_and?; pieces.
Qed.

Lemma act_permission_poll w : forall y, Inv y -> kept (act y (PollPermission w)).
Proof.
  open_sys. destruct pm; [done|..]; destruct ad, au; pieces.
Qed.

Lemma act_permission_drop : forall y, Inv y -> kept (act y DropPermission).
Proof. open_sys. destruct pm; [done|..]; pieces. Qed.

Lemma act_writer_stop : forall y, Inv y -> kept (act y WriterStop).
Proof. open_sys. destruct wt; [..|done]; destruct cm; destruct_and?; pieces; light. Qed.

Lemma act_continued : forall y, Inv y -> kept (act y Continued).
Proof. open_sys. destruct wt; try done. destruct cm; destruct_and?; pieces; light. Qed.

Lemma act_drop_send : forall y, Inv y -> kept (act y DropSend).
Proof.
  open_sys. destruct sd as [h|]; [|done]. destruct cm; destruct_and?; pieces.
  - intros Hx. eapply watched_mono, Hw, Hx. destruct ad, au; done.
  - intros Hx. destruct Hcmd as (h' & _ & Hh). eauto.
Qed.

Lemma act_poll_send w : forall y, Inv y -> kept (act y (PollSend w)).
Proof.
  open_sys. destruct sd as [h|]; [|done]. destruct ad, cm; destruct_and?; pieces;
    try (apply answers_snoc; [done|]; by light).
  intros Hx. destruct Hcmd as (h' & _ & Hh). eauto.
Qed.

Lemma act_complete r : forall y, Inv y -> kept (act y (Complete_ r)).
Proof.
  open_sys. destruct wt as [| | |h]; try done. destruct dr; [|by destruct (Hnd eq_refl)].
  assert (Hok' : forall h0, (h0, Ok tt) ∈ an -> (h0, Ok tt) ∈ cp ++ [(h, r)])
    by (intros; apply elem_of_app; left; by apply Hok).
  assert (Hmap : map fst (cp ++ [(h, r)]) = map fst cp ++ [h]) by apply map_app.
  destruct cm; destruct_and?;
    try match goal with H : forall h, _ <> WriterHead h |- _ => by destruct (H _ eq_refl) end; pieces;
    try (by rewrite Hmap); try (rewrite length_app; simpl; lia).
  destruct Hcmd as (h' & -> & Hh). exists h'. split; [done|]. intros ->. injection (Hh eq_refl) as ->.
  apply elem_of_app. right. by apply list_elem_of_singleton.
Qed.

Lemma act_next w : forall y, Inv y -> kept (act y (PollNext w)).
Proof.
  open_sys. destruct dr; [|done]. specialize (Htk eq_refl).
  destruct cm.
  - destruct wt; try done; destruct ad, au; destruct_and?; pieces.
  - destruct Hcmd as [-> Hcmd]. destruct (Hq response eq_refl) as (l & -> & Hl).
    assert (Hs1 : tk ++ [response] `sublist_of` l ++ [response]) by by apply sublist_app.
    destruct wt; try done; simpl in *; rewrite app_nil_r in Htk; subst tk; destruct ad, au; pieces; eauto;
      rewrite length_app, length_map; simpl; lia.
  - destruct Hcmd as (h & _ & Hh). by rewrite (Hh eq_refl).
  - destruct Hcmd as (_ & Hh). destruct (Hh eq_refl) as [h ->]. done.
  - destruct wt; try done; destruct ad, au; destruct_and?; pieces.
Qed.

Lemma act_send status response : forall y, Inv y -> kept (act y (Send status response)).
Proof.
  open_sys. destruct sd as [h|]; [done|]. unfold send_start. destruct (_ || _); simpl.
  - pieces. by apply answers_snoc.
  - destruct ad; simpl; [|pieces; by apply answers_snoc..].
    destruct cm; destruct_and?; try (pieces; by apply answers_snoc).
    pieces.
    + by apply sublist_inserts_r.
    + intros h [= <-]. by exists acc.
Qed.

Lemma context_act_inv y a : Inv y -> kept (act y a).
Proof.
  destruct a; auto using act_send, act_poll_send, act_drop_send, act_close, act_next, act_complete, act_continued,
    act_writer_stop, act_permission_start, act_permission_poll, act_permission_drop, act_select_final, context_drop_driver.
Qed.

Lemma context_start_inv close : Inv (start close).
Proof.
  unfold Inv, command_ok, waits_ok, logs_ok. simpl. split_and!; try done. simpl. lia.
Qed.

Lemma context_run_inv y actions : Inv y -> exists y', run y actions = Next y' /\ Inv y'.
Proof.
  revert y. induction actions as [|a actions IH]; intros y I; simpl; [by eauto|].
  pose proof (context_act_inv y a I) as Hk. destruct (act y a) as [| |y']; simpl in Hk; [by apply IH|done|by apply IH].
Qed.

(** C24: In every interleaving of a service's informational sends, the head writer,
    Continue demand, final selection and drops no step panics; the writer takes
    accepted heads in order and each at most once, settles them in that order
    one at a time, and a send is answered with success only when its head was
    written. *)
Theorem informational_heads_settle (close : bool) (actions : list Action) :
  exists y, run (start close) actions = Next y /\
    taken_heads y `sublist_of` accepted_heads y /\
    map fst (completed y) `prefix_of` taken_heads y /\
    (length (taken_heads y) <= S (length (completed y)))%nat /\
    (forall h, (h, Ok tt) ∈ answers y -> (h, Ok tt) ∈ completed y).
Proof.
  destruct (context_run_inv (start close) actions (context_start_inv close)) as (y & Hy & I).
  destruct I as (_ & _ & (? & Hpre & ? & _ & ? & _) & _). exists y. split_and!; try done.
  etrans; [|exact Hpre]. by apply prefix_app_r.
Qed.

(** C25: No wake-up is lost: in every reachable state a send, the head writer or
    the Continue demand that waits although it could go on has been woken. *)
Theorem informational_no_lost_wakeup (close : bool) (actions : list Action) y :
  run (start close) actions = Next y ->
  (app y = Waits -> app_ready (sh y) = true -> app_woken y = true) /\
  (wtask y = WriterWaits -> writer_ready (sh y) = true -> writer_woken y = true) /\
  (permission y = Waits -> permission_ready (sh y) = true -> permission_woken y = true).
Proof.
  intros Hr. destruct (context_run_inv (start close) actions (context_start_inv close)) as (y' & Hy & I).
  rewrite Hr in Hy. injection Hy as <-. destruct I as (_ & (Ha & Hw & Hp) & _).
  split_and!; intros Hx Hy.
  - destruct (Ha Hx) as [?|[? _]]; congruence.
  - destruct (Hw Hx) as [?|[? _]]; congruence.
  - destruct (Hp Hx) as [?|[? _]]; congruence.
Qed.

End Context.
Arguments CommandState : clear implicits.
Arguments Shared : clear implicits.
Arguments Command : clear implicits.

(** ** A concrete execution *)

Section Evaluated.
#[local] Existing Instance AssocHttp.

(** A head is queued, Continue is demanded first, the head is taken and its send
    dropped while it is written. *)
Definition early_hints : list (@Action nat) :=
  [Send 103 1%nat; PollSend 7%nat; StartPermission; PollPermission 8%nat; PollNext 9%nat; Continued; PollPermission 8%nat;
   PollNext 9%nat; DropSend; Send 103 2%nat; Complete_ (Ok tt); Send 103 3%nat; PollSend 7%nat; SelectFinal].

Definition early_hints_end : @Sys nat :=
  Eval vm_compute in match run (start false) early_hints with Next y => y | _ => start false end.

Lemma informational_heads_settle_witness :
  exists y, run (start false) early_hints = Next y /\
    accepted_heads y = [1; 3]%nat /\ taken_heads y = [1]%nat /\ answers y = [(2%nat, Err busy_error)].
Proof.
  destruct (informational_heads_settle false early_hints) as (y & Hy & _).
  exists y. split; [exact Hy|]. vm_compute in Hy. injection Hy as <-. split_and!; reflexivity.
Defined.

Lemma informational_no_lost_wakeup_witness :
  app early_hints_end = Waits /\ app_woken early_hints_end = true.
Proof.
  split; [reflexivity|].
  destruct (informational_no_lost_wakeup false early_hints early_hints_end) as [Ha _]; [vm_cast_no_check (eq_refl (Next early_hints_end))|].
  apply Ha; reflexivity.
Defined.

End Evaluated.
