(* ===== verification/Response.v ===== *)
(** Observation of an accepted client request (src/src/client/response.rs and
    src/src/client/completion.rs): the pending response, upload control, the
    Continue wait and the settlement receipt. *)

From Stdlib Require Import ZArith Lia.
From stdpp Require Import base list option.
From S2P Require Import Prelude Http Errors Syntax Body Pipe.

(** ** Outcomes and receipts *)

Inductive CloseReason : Type :=
| MessagePolicy
| ApplicationClosure
| BodyAbandonment
| UploadAbort
| ShutdownClose.

Inductive ExchangeOutcome : Type :=
| Reusable
| ExchangeClosed (reason : CloseReason)
| Upgraded_ (k : UpgradeKind).

Record CompletionState := mkCompletion {
  taken : bool;
  abandoned : bool;
  result_ : option (result ExchangeOutcome Error);
  completion_waker : option Waker;
}.

Definition CompletionState_default : CompletionState := mkCompletion false false None None.

(** [ExchangeCompletion::take]: whether a receipt is handed out. *)
Definition completion_take (s : CompletionState) : CompletionState * bool :=
  if taken s then (s, false) else (mkCompletion true (abandoned s) (result_ s) (completion_waker s), true).

(** [Future for ExchangeCompletion]; [finished] is the receipt's own flag and
    [Panics] its assertion. *)
Definition completion_poll (s : CompletionState) (finished : bool) (w : Waker)
    : CompletionState * bool * call (Poll (result ExchangeOutcome Error)) :=
  if finished then (s, finished, Panics)
  else
    match result_ s with
    | Some r => (mkCompletion (taken s) (abandoned s) None None, true, Returns (Ready r))
    | None => (mkCompletion (taken s) (abandoned s) None (Some w), finished, Returns Pending)
    end.

(** [Drop for ExchangeCompletion] *)
Definition completion_drop (s : CompletionState) : CompletionState := mkCompletion (taken s) true None None.

(** [CompletionGuard::publish] *)
Definition publish (s : CompletionState) (r : result ExchangeOutcome Error) : CompletionState * option Waker :=
  (mkCompletion (taken s) (abandoned s) (if abandoned s then result_ s else Some r) None, completion_waker s).

Definition driver_dropped : Error :=
  with_detail (Error_new Errors.Closed "exchange driver dropped") DriverLost.

(** [Drop for CompletionGuard] *)
Definition guard_dropped (s : CompletionState) : CompletionState * option Waker := publish s (Err driver_dropped).

(** ** Control *)

(** [upload_canceled] and [exchange_canceled] are the cancellation sources. *)
Record Control := mkControl {
  upload_canceled : bool;
  exchange_canceled : bool;
  upload_complete : bool;
  aborted : bool;
  continue_allowed : bool;
  continue_waker : option Waker;
}.

Definition Control_new : Control := mkControl false false false false false None.

Definition allow_continue (c : Control) : Control * option Waker :=
  (mkControl (upload_canceled c) (exchange_canceled c) (upload_complete c) (aborted c) true None, continue_waker c).

(** The wait of [wait_continue]; its guard clears the waker when it ends. *)
Definition wait_continue_poll (c : Control) (w : Waker) : Control * Poll unit :=
  let set := mkControl (upload_canceled c) (exchange_canceled c) (upload_complete c) (aborted c) (continue_allowed c) in
  if continue_allowed c then (set None, Ready tt) else (set (Some w), Pending).

Definition wait_continue_drop (c : Control) : Control :=
  mkControl (upload_canceled c) (exchange_canceled c) (upload_complete c) (aborted c) (continue_allowed c) None.

Definition cancel (c : Control) : Control :=
  mkControl true true (upload_complete c) (aborted c) (continue_allowed c) (continue_waker c).

(** [UploadControl::abort] *)
Definition upload_abort (c : Control) : Control :=
  if upload_complete c then c
  else mkControl true (exchange_canceled c) (upload_complete c) true (continue_allowed c) (continue_waker c).

(** ** The pending response *)

Section Pending.
Context {I F C : Type}.

Inductive ResponseEvent : Type :=
| Informational (head : I)
| Final (response : F).

(** [receiver.take()] awaited to its answer *)
Context (take : C -> C * result (option ResponseEvent) (@TakeError Error)).

Record PendingResponse := mkPending {
  receiver : C;
  control : Control;
  delivered : bool;
  finished : bool;
}.

Definition Pending_new (c : C) (k : Control) : PendingResponse := mkPending c k false false.

Definition driver_closed : Error :=
  with_detail (Error_new Errors.Closed "response driver closed") DriverLost.
Definition already_consumed : Error := Error_new Errors.Closed "final response already consumed".

Definition next_event (p : PendingResponse) : PendingResponse * result (option ResponseEvent) Error :=
  if finished p then (p, Ok None)
  else
    let '(c, r) := take (receiver p) in
    match r with
    | Ok (Some event) =>
        let final := match event with Final _ => true | Informational _ => false end in
        (mkPending c (control p) (delivered p || final) final, Ok (Some event))
    | Err (TakeFailed e) => (mkPending c (control p) (delivered p) true, Err e)
    | _ => (mkPending c (control p) (delivered p) true, Err driver_closed)
    end.

(** [response]; [None] is a model run out of turns. *)
Fixpoint response (fuel : nat) (p : PendingResponse) : PendingResponse * option (result F Error) :=
  match fuel with
  | O => (p, None)
  | S fuel =>
      let '(p, r) := next_event p in
      match r with
      | Err e => (p, Some (Err e))
      | Ok None => (p, Some (Err already_consumed))
      | Ok (Some (Final f)) => (p, Some (Ok f))
      | Ok (Some (Informational _)) => response fuel p
      end
  end.

(** [Drop for PendingResponse] *)
Definition pending_drop (p : PendingResponse) : Control :=
  if delivered p then control p else cancel (control p).

(** How an observation ends: a final response, a failure, or a lost driver. *)
Inductive Ending : Type :=
| EndFinal (f : F)
| EndFailed (e : Error)
| EndLost.

(** The driver offers these informational heads and then the ending. *)
Fixpoint offers (c : C) (heads : list I) (ending : Ending) : Prop :=
  match heads with
  | h :: heads => exists c', take c = (c', Ok (Some (Informational h))) /\ offers c' heads ending
  | [] =>
      match ending with
      | EndFinal f => exists c', take c = (c', Ok (Some (Final f)))
      | EndFailed e => exists c', take c = (c', Err (TakeFailed e))
      | EndLost => exists c', take c = (c', Ok None) \/ take c = (c', Err TakeDisconnected)
      end
  end.

Definition ending_answer (ending : Ending) : result F Error :=
  match ending with EndFinal f => Ok f | EndFailed e => Err e | EndLost => Err driver_closed end.

(** The answers to successive calls of [next_event]. *)
Fixpoint next_events (n : nat) (p : PendingResponse) : list (result (option ResponseEvent) Error) :=
  match n with
  | O => []
  | S n => let '(p, r) := next_event p in r :: next_events n p
  end.

Lemma next_events_finished n p : finished p = true -> next_events n p = replicate n (Ok None).
Proof. intros Hf. induction n as [|n IH]; [done|]. simpl. unfold next_event at 1. rewrite Hf. simpl. by rewrite IH. Qed.

Lemma next_event_ending (p : PendingResponse) ending :
  finished p = false -> delivered p = false -> offers (receiver p) [] ending ->
  exists p', next_event p = (p', match ending_answer ending with Ok f => Ok (Some (Final f)) | Err e => Err e end) /\
    finished p' = true /\ control p' = control p /\ delivered p' = is_ok (ending_answer ending).
Proof.
  intros Hf Hd Ho. unfold next_event. rewrite Hf, Hd. destruct ending as [f|e|]; simpl in Ho |- *.
  - destruct Ho as [c' ->]. by eexists.
  - destruct Ho as [c' ->]. by eexists.
  - destruct Ho as [c' [-> | ->]]; by eexists.
Qed.

(** However many informational heads come first, an observer sees each in
    order, then the final response or the failure exactly once, then nothing;
    awaiting the final response returns it and skips the heads; and dropping the
    observation cancels the exchange exactly when no final response was
    delivered. *)
Theorem response_observed (p : PendingResponse) (heads : list I) (ending : Ending) (n : nat) :
  finished p = false -> delivered p = false -> offers (receiver p) heads ending ->
  next_events (length heads + S n) p =
    map (fun h => Ok (Some (Informational h))) heads ++
    match ending_answer ending with Ok f => Ok (Some (Final f)) | Err e => Err e end :: replicate n (Ok None) /\
  exists p', response (length heads + S n) p = (p', Some (ending_answer ending)) /\
    finished p' = true /\
    pending_drop p' = if is_ok (ending_answer ending) then control p else cancel (control p).
Proof.
  revert p. induction heads as [|h heads IH]; intros p Hf Hd Ho; simpl.
  - destruct (next_event_ending p ending Hf Hd Ho) as (p' & -> & Hf' & Hc & Hd').
    rewrite next_events_finished by done. split; [done|]. exists p'. unfold pending_drop. rewrite Hd', Hc.
    by destruct (ending_answer ending).
  - destruct Ho as (c' & Ht & Ho). unfold next_event at 1 2. rewrite Hf, Ht. simpl.
    destruct (IH (mkPending c' (control p) (delivered p || false) false)) as [-> (p' & -> & Hf' & Hdr)]; simpl;
      [done|by rewrite Hd|done|]. split; [done|]. by exists p'.
Qed.

End Pending.

(** ** Settlement executions

    The guard belongs to the driver; the receipt is taken from the pending
    response and polled while it has not answered. *)

Record Receipt := mkReceipt {
  cs : CompletionState;
  receipt : option bool;
  waiting : bool;
  woken : bool;
  guard : bool;
  published : option (result ExchangeOutcome Error);
  answers : list (result ExchangeOutcome Error);
}.

Definition start : Receipt := mkReceipt CompletionState_default None false false true None [].

Inductive Action : Type :=
| Take
| Poll_ (w : Waker)
| DropReceipt
| Finish (r : result ExchangeOutcome Error)
| DropGuard.

Definition settle (y : Receipt) (r : result ExchangeOutcome Error) (s : CompletionState) (w : option Waker) : Receipt :=
  mkReceipt s (receipt y) (waiting y) (woken y || bool_decide (is_Some w)) false (Some r) (answers y).

Definition act (y : Receipt) (a : Action) : option Receipt :=
  match a with
  | Take =>
      let '(s, got) := completion_take (cs y) in
      Some (if got then mkReceipt s (Some false) false false (guard y) (published y) (answers y)
            else mkReceipt s (receipt y) (waiting y) (woken y) (guard y) (published y) (answers y))
  | Poll_ w =>
      match receipt y with
      | Some false =>
          let '(s, f, r) := completion_poll (cs y) false w in
          match r with
          | Panics => None
          | Returns Pending => Some (mkReceipt s (Some f) true false (guard y) (published y) (answers y))
          | Returns (Ready r) => Some (mkReceipt s (Some f) false false (guard y) (published y) (answers y ++ [r]))
          end
      | _ => Some y
      end
  | DropReceipt =>
      match receipt y with
      | Some _ => Some (mkReceipt (completion_drop (cs y)) None false false (guard y) (published y) (answers y))
      | None => Some y
      end
  | Finish r =>
      if guard y then let '(s, w) := publish (cs y) r in Some (settle y r s w) else Some y
  | DropGuard =>
      if guard y then let '(s, w) := guard_dropped (cs y) in Some (settle y (Err driver_dropped) s w) else Some y
  end.

Fixpoint run (y : Receipt) (actions : list Action) : option Receipt :=
  match actions with
  | [] => Some y
  | a :: actions => match act y a with Some y => run y actions | None => None end
  end.

Definition Inv (y : Receipt) : Prop :=
  (receipt y <> None -> taken (cs y) = true /\ abandoned (cs y) = false) /\
  (answers y = [] \/ exists r, answers y = [r] /\ published y = Some r /\ receipt y <> Some false /\ taken (cs y) = true) /\
  (guard y = true <-> published y = None) /\
  (abandoned (cs y) = true -> taken (cs y) = true) /\
  (waiting y = true -> receipt y = Some false) /\
  match published y with
  | None =>
      result_ (cs y) = None /\ receipt y <> Some true /\ (waiting y = true -> is_Some (completion_waker (cs y)))
  | Some r =>
      (result_ (cs y) = None \/ result_ (cs y) = Some r) /\
      (receipt y = Some false \/ taken (cs y) = false -> result_ (cs y) = Some r) /\
      (waiting y = true -> woken y = true)
  end.

Ltac open_receipt :=
  let y := fresh "y" in
  intros y; destruct y as [[tk ab re wk] rc wt wo gd pb an];
  intros (Hr & Ha & Hg & Hab & Hw & Hp); cbn in *.

Lemma settle_receipt_inv r : forall y, Inv y -> guard y = true -> let '(s, w) := publish (cs y) r in Inv (settle y r s w).
Proof.
  open_receipt. intros ->. destruct pb; [naive_solver|]. destruct Hp as (-> & Hrc & Hwk). unfold Inv. simpl.
  destruct Ha as [-> | (? & _ & ? & _)]; [|done]. split_and!; try done.
  - by left.
  - destruct ab; [by left|by right].
  - intros Hx. destruct ab; [|done]. destruct Hx as [->|?]; naive_solver.
  - intros Hx. rewrite bool_decide_true by auto. apply orb_true_r.
Qed.

Lemma take_inv : forall y, Inv y -> exists y', act y Take = Some y' /\ Inv y'.
Proof.
  open_receipt. unfold completion_take. simpl. destruct tk; (eexists; split; [reflexivity|]).
  - done.
  - assert (ab = false) as -> by (destruct ab; [by discriminate Hab|done]).
    destruct rc as [f|]; [by destruct (Hr ltac:(done))|].
    destruct Ha as [-> | (? & _ & _ & _ & ?)]; [|done].
    unfold Inv. simpl. split_and!; try done; [by left|].
    destruct pb; simpl in *; destruct_and!; split_and!; naive_solver.
Qed.

Lemma poll_inv w : forall y, Inv y -> exists y', act y (Poll_ w) = Some y' /\ Inv y'.
Proof.
  intros y I. simpl. destruct (receipt y) as [[]|] eqn:Hrc; [by eauto| |by eauto]. revert y I Hrc.
  open_receipt. intros ->. destruct (Hr ltac:(done)) as [-> ->].
  destruct Ha as [-> | (? & _ & _ & ? & _)]; [|done]. unfold completion_poll. simpl.
  destruct pb as [r|]; destruct_and!.
  - assert (re = Some r) as -> by auto. eexists. split; [reflexivity|]. unfold Inv. simpl.
    split_and!; try done; [right; by exists r|by left|naive_solver].
  - subst. eexists. split; [reflexivity|]. unfold Inv. simpl. split_and!; try done; by left.
Qed.

Lemma drop_receipt_inv : forall y, Inv y -> exists y', act y DropReceipt = Some y' /\ Inv y'.
Proof.
  intros y I. simpl. destruct (receipt y) as [f|] eqn:Hrc; [|by eauto]. revert y I Hrc.
  open_receipt. intros ->. destruct (Hr ltac:(done)) as [-> ->]. eexists. split; [reflexivity|].
  unfold Inv. simpl. split_and!; try done.
  - destruct Ha as [->|(r & -> & -> & ? & ?)]; [by left|right; by exists r].
  - destruct pb; simpl; split_and!; try done; [by left|naive_solver].
Qed.

Lemma receipt_act_inv a y : Inv y -> exists y', act y a = Some y' /\ Inv y'.
Proof.
  destruct a as [|w| |r|]; [apply take_inv|apply poll_inv|apply drop_receipt_inv|..]; intros I; simpl;
    (destruct (guard y) eqn:Hg; [|by eauto]).
  - pose proof (settle_receipt_inv r y I Hg) as Hs. eexists. split; [reflexivity|exact Hs].
  - pose proof (settle_receipt_inv (Err driver_dropped) y I Hg) as Hs.
    eexists. split; [reflexivity|exact Hs].
Qed.

Lemma receipt_run_inv y actions : Inv y -> exists y', run y actions = Some y' /\ Inv y'.
Proof.
  revert y. induction actions as [|a actions IH]; intros y I; simpl; [by eauto|].
  destruct (receipt_act_inv a y I) as (y' & -> & I'). by apply IH.
Qed.

Lemma receipt_start_inv : Inv start.
Proof. unfold Inv. simpl. split_and!; try done. by left. Qed.


(** ** Concrete executions *)

(** Events from a list, then the driver is gone. *)
Definition list_take (c : list (@ResponseEvent nat nat)) :
    list (@ResponseEvent nat nat) * result (option (@ResponseEvent nat nat)) (@TakeError Error) :=
  match c with [] => ([], Ok None) | e :: c => (c, Ok (Some e)) end.

Lemma response_observed_witness :
  exists p', response list_take 3 (Pending_new [Informational 103%nat; Final 200%nat] Control_new) = (p', Some (Ok 200%nat)) /\
    pending_drop p' = Control_new.
Proof.
  destruct (response_observed list_take (Pending_new [Informational 103%nat; Final 200%nat] Control_new) [103%nat]
    (EndFinal 200%nat) 1) as (_ & p' & Hr & _ & Hd); [done|done| |].
  - eexists. split; [reflexivity|]. eexists. reflexivity.
  - exists p'. exact (conj Hr Hd).
Defined.

