(* ===== verification/Upgrade.v ===== *)
(** Transport ownership after an HTTP upgrade (src/src/upgrade.rs): the claim a
    request may place, the hand-off by the driver, and reads that serve the
    retained prefix first.

    Concrete half types are numbers; [T] is the transport handed off. *)

From Stdlib Require Import ZArith Lia.
From stdpp Require Import base list option.
From S2P Require Import Prelude Errors Syntax Pipe Send Recv.

(** ** Claims *)

Inductive ClaimTarget : Type :=
| Typed (reader writer : nat)
| Boxed.

#[export] Instance ClaimTarget_eq_dec : EqDecision ClaimTarget.
Proof. solve_decision. Defined.

Inductive ClaimPhase : Type :=
| Unclaimed
| Claimed (target : ClaimTarget) (alive : bool)
| ClaimClosed.

Section Upgrade.
Context {T : Type}.

(** A stored transport is the concrete halves, or their boxed form. *)
Record UpgradeState := mkUpgrade {
  phase : ClaimPhase;
  result_cell : option (result (ClaimTarget * T) Error);
  claim_waker : option Waker;
}.

Definition UpgradeState_default : UpgradeState := mkUpgrade Unclaimed None None.

Definition already_claimed : Error := Error_new Upgrade "upgrade was already claimed".
Definition claim_unavailable : Error := Error_new Upgrade "upgrade claim is no longer available".
Definition types_differ : Error := Error_new Upgrade "upgrade transport types do not match this connection".
Definition future_types_differ : Error := Error_new Upgrade "upgrade transport types do not match this future".
Definition not_completed : Error := Error_new Upgrade "message did not complete an upgrade".
Definition polled_after : Error := Error_new Upgrade "upgrade future polled after completion".

(** [OnUpgrade]: attached to the shared state, failed at once, or finished. *)
Inductive OnUpgrade : Type :=
| Attached (target : ClaimTarget)
| Immediate (e : Error)
| Detached.

Definition claim_target (s : UpgradeState) (target : ClaimTarget) : UpgradeState * OnUpgrade :=
  match phase s with
  | Unclaimed => (mkUpgrade (Claimed target true) (result_cell s) (claim_waker s), Attached target)
  | Claimed _ _ => (s, Immediate already_claimed)
  | ClaimClosed => (s, Immediate claim_unavailable)
  end.

(** [Future for OnUpgrade] *)
Definition on_upgrade_poll (s : UpgradeState) (f : OnUpgrade) (w : Waker)
    : UpgradeState * OnUpgrade * Poll (result T Error) :=
  match f with
  | Immediate e => (s, Detached, Ready (Err e))
  | Detached => (s, Detached, Ready (Err polled_after))
  | Attached target =>
      match result_cell s with
      | Some r =>
          let s := mkUpgrade (phase s) None (claim_waker s) in
          (s, Detached,
           Ready (match r with
                  | Ok (shape, t) => if bool_decide (shape = target) then Ok t else Err future_types_differ
                  | Err e => Err e
                  end))
      | None => (mkUpgrade (phase s) None (Some w), f, Pending)
      end
  end.

(** [Drop for OnUpgrade]: the result it drops, if one was waiting. *)
Definition on_upgrade_drop (s : UpgradeState) (f : OnUpgrade)
    : UpgradeState * option (result (ClaimTarget * T) Error) :=
  match f with
  | Attached _ =>
      let p := match phase s with Claimed target _ => Claimed target false | p => p end in
      (mkUpgrade p None None, result_cell s)
  | _ => (s, None)
  end.

(** [PendingUpgrade::fulfill]: [Err] gives the transport back to the driver. *)
Definition fulfill (s : UpgradeState) (actual : ClaimTarget) (t : T) : UpgradeState * option Waker * result unit T :=
  match phase s with
  | Claimed target true =>
      if bool_decide (target = actual) || bool_decide (target = Boxed) then
        (mkUpgrade ClaimClosed (Some (Ok (if bool_decide (target = Boxed) then Boxed else actual, t))) None,
         claim_waker s, Ok tt)
      else (mkUpgrade ClaimClosed (Some (Err types_differ)) None, claim_waker s, Err t)
  | _ => (mkUpgrade ClaimClosed (result_cell s) None, claim_waker s, Err t)
  end.

(** [Drop for PendingUpgrade] that was not fulfilled. *)
Definition pending_drop (s : UpgradeState) : UpgradeState * option Waker :=
  let r :=
    match phase s with
    | Claimed _ true => Some (Err not_completed)
    | _ => result_cell s
    end in
  (mkUpgrade ClaimClosed r None, claim_waker s).

(** ** Executions

    The driver holds the pending side and, when the exchange ends in an
    upgrade, the transport; the application may claim at any time, more than
    once. Claims that fail at once touch nothing, so one attached claim is all
    the state they have. *)

(** [driver_has], [claim_has] and [lost] say who took the transport;
    [waiting] is whether the claim's last poll was pending. *)
Record Sys := mkSys {
  shared : UpgradeState;
  claim : option OnUpgrade;
  waiting : bool;
  claim_woken : bool;
  pending : bool;
  driver_has : bool;
  claim_has : bool;
  lost : bool;
  answers : list (result T Error);
}.

Definition start : Sys := mkSys UpgradeState_default None false false true true false false [].

Inductive Action : Type :=
| Claim (target : ClaimTarget)
| PollClaim (w : Waker)
| DropClaim
| Fulfill
| DropPending.

Section Run.
Context (actual : ClaimTarget) (t : T).

Definition act (y : Sys) (a : Action) : option Sys :=
  match a with
  | Claim target =>
      let '(s, f) := claim_target (shared y) target in
      match f with
      | Attached _ =>
          Some (mkSys s (Some f) false false (pending y) (driver_has y) (claim_has y) (lost y) (answers y))
      | _ =>
          Some (mkSys s (claim y) (waiting y) (claim_woken y) (pending y) (driver_has y) (claim_has y) (lost y) (answers y))
      end
  | PollClaim w =>
      match claim y with
      | Some f =>
          let '(s, f, p) := on_upgrade_poll (shared y) f w in
          match p with
          | Pending => Some (mkSys s (Some f) true false (pending y) (driver_has y) (claim_has y) (lost y) (answers y))
          | Ready r =>
              Some (mkSys s (Some f) false false (pending y) (driver_has y) (claim_has y || is_ok r) (lost y)
                      (answers y ++ [r]))
          end
      | None => None
      end
  | DropClaim =>
      match claim y with
      | Some f =>
          let '(s, r) := on_upgrade_drop (shared y) f in
          Some (mkSys s None false false (pending y) (driver_has y) (claim_has y)
                  (lost y || match r with Some (Ok _) => true | _ => false end) (answers y))
      | None => None
      end
  | Fulfill =>
      if pending y then
        let '(s, w, r) := fulfill (shared y) actual t in
        Some (mkSys s (claim y) (waiting y) (claim_woken y || bool_decide (is_Some w)) false
                (match r with Ok _ => false | Err _ => true end) (claim_has y) (lost y) (answers y))
      else None
  | DropPending =>
      if pending y then
        let '(s, w) := pending_drop (shared y) in
        Some (mkSys s (claim y) (waiting y) (claim_woken y || bool_decide (is_Some w)) false
                (driver_has y) (claim_has y) (lost y) (answers y))
      else None
  end.

(** Actions that are not possible are skipped. *)
Fixpoint run (y : Sys) (actions : list Action) : Sys :=
  match actions with
  | [] => y
  | a :: actions => run (default y (act y a)) actions
  end.

(** ** The invariant *)

Definition in_cell (y : Sys) : bool := match result_cell (shared y) with Some (Ok _) => true | _ => false end.

Definition count (b : bool) : Z := if b then 1 else 0.

(** Answers a claim may give. *)
Definition good_answer (r : result T Error) : Prop :=
  match r with Ok t' => t' = t | Err e => e <> future_types_differ end.

(** How many answers hand the transport over. *)
Definition transports (l : list (result T Error)) : Z :=
  fold_right (fun r n => count (is_ok r) + n) 0 l.

Definition Inv (y : Sys) : Prop :=
  count (driver_has y) + count (in_cell y) + count (claim_has y) + count (lost y) = 1 /\
  Forall good_answer (answers y) /\
  transports (answers y) = count (claim_has y) /\
  match phase (shared y) with
  | Unclaimed => claim y = None /\ result_cell (shared y) = None /\ pending y = true /\ driver_has y = true /\ waiting y = false
  | Claimed target true =>
      claim y = Some (Attached target) /\ result_cell (shared y) = None /\ pending y = true /\ driver_has y = true /\
      (waiting y = true -> is_Some (claim_waker (shared y)))
  | Claimed _ false => claim y = None /\ result_cell (shared y) = None /\ pending y = true /\ driver_has y = true /\ waiting y = false
  | ClaimClosed =>
      pending y = false /\
      match claim y with
      | Some (Attached target) =>
          (exists r, result_cell (shared y) = Some r /\
            match r with Ok (shape, t') => shape = target /\ t' = t | Err e => e <> future_types_differ end) /\
          (waiting y = true -> claim_woken y = true)
      | Some (Immediate _) => False
      | _ => result_cell (shared y) = None /\ waiting y = false
      end
  end.

Lemma count_answer dh cell ch lo :
  count dh + count cell + count ch + count lo = 1 ->
  count dh + 0 + count (ch || cell) + count lo = 1.
Proof. destruct dh, cell, ch, lo; simpl; lia. Qed.

Lemma count_dropped dh cell ch lo :
  count dh + count cell + count ch + count lo = 1 ->
  count dh + 0 + count ch + count (lo || cell) = 1.
Proof. destruct dh, cell, ch, lo; simpl; lia. Qed.

Lemma good_snoc (l : list (result T Error)) r : Forall good_answer l -> good_answer r -> Forall good_answer (l ++ [r]).
Proof. intros. apply Forall_app. by repeat constructor. Qed.

Lemma transports_snoc (l : list (result T Error)) r : transports (l ++ [r]) = transports l + count (is_ok r).
Proof. induction l as [|x l IH]; simpl; [lia|]. rewrite IH. lia. Qed.

Lemma answered_snoc (l : list (result T Error)) r ch :
  ch && is_ok r = false -> transports l = count ch -> transports (l ++ [r]) = count (ch || is_ok r).
Proof. intros Ha Hl. rewrite transports_snoc, Hl. destruct ch, (is_ok r); simpl in *; try done; lia. Qed.

Lemma upgrade_claim_inv y target : Inv y -> Inv (default y (act y (Claim target))).
Proof.
  intros I. pose proof I as (Hc & Hg & Hh & Hp). destruct y as [[ph cell wk] cl wt wo pd dh ch lo ans]; simpl in *.
  destruct ph as [|tg al|]; simpl; [|done..]. destruct Hp as (-> & -> & -> & -> & ->). by split_and!.
Qed.

Lemma poll_claim_inv y w : Inv y -> Inv (default y (act y (PollClaim w))).
Proof.
  intros (Hc & Hg & Hh & Hp). destruct y as [[ph cell wk] cl wt wo pd dh ch lo ans]; simpl in *.
  destruct cl as [f|]; [|done]. destruct f as [target|e|]; simpl.
  - destruct ph as [|tg []|]; [by destruct Hp| |by destruct Hp|].
    + destruct Hp as ([= ->] & -> & -> & -> & _). by split_and!.
    + destruct Hp as (-> & (r & -> & Hr) & _). unfold Inv. simpl. split_and!; try done.
      * destruct r as [[shape t']|e]; simpl in *; [|by apply (count_answer _ false)].
        destruct Hr as [-> ->]. rewrite bool_decide_true by done. by apply (count_answer _ true).
      * apply good_snoc; [done|]. destruct r as [[shape t']|e]; [|done].
        destruct Hr as [-> ->]. by rewrite bool_decide_true.
      * apply answered_snoc; [|done]. destruct r as [[shape t']|e]; simpl in *; [|apply andb_false_r].
        destruct dh, ch, lo; simpl in *; try done; lia.
  - destruct ph as [|tg []|]; [by destruct Hp..|]. by destruct Hp.
  - destruct ph as [|tg []|]; [by destruct Hp..|]. destruct Hp as (-> & -> & ->).
    unfold Inv. simpl. split_and!; try done.
    + by rewrite orb_false_r.
    + by apply good_snoc.
    + apply (answered_snoc ans (Err polled_after)); [apply andb_false_r|done].
Qed.

Lemma drop_claim_inv y : Inv y -> Inv (default y (act y DropClaim)).
Proof.
  intros (Hc & Hg & Hh & Hp). destruct y as [[ph cell wk] cl wt wo pd dh ch lo ans]; simpl in *.
  destruct cl as [[target|e|]|]; simpl; [| | |done].
  - destruct ph as [|tg []|]; [by destruct Hp| |by destruct Hp|].
    + destruct Hp as (_ & -> & -> & -> & _). unfold Inv. simpl. split_and!; try done. by rewrite orb_false_r.
    + destruct Hp as (-> & (r & -> & _) & _). unfold Inv. simpl. split_and!; try done.
      by destruct r as [[shape t']|e]; apply count_dropped.
  - destruct ph as [|tg []|]; by destruct Hp.
  - destruct ph as [|tg []|]; [by destruct Hp..|]. destruct Hp as (-> & -> & ->).
    unfold Inv. simpl. split_and!; try done. by rewrite orb_false_r.
Qed.

(** Once the pending side is gone the claim, if one still waits, has a result
    and was woken. *)
Lemma settle_inv y (r : result (ClaimTarget * T) Error) target (d : bool) :
  phase (shared y) = Claimed target true -> Inv y ->
  match r with Ok (shape, t') => shape = target /\ t' = t /\ d = false | Err e => e <> future_types_differ /\ d = true end ->
  Inv (mkSys (mkUpgrade ClaimClosed (Some r) None) (claim y) (waiting y)
         (claim_woken y || bool_decide (is_Some (claim_waker (shared y)))) false d (claim_has y) (lost y) (answers y)).
Proof.
  destruct y as [[ph cell wk] cl wt wo pd dh ch lo ans]; simpl. intros -> (Hc & Hg & Hh & Hp) Hr. simpl in *.
  destruct Hp as (-> & -> & -> & -> & Hw). unfold Inv, in_cell in *. simpl in *. split_and!; try done.
  - destruct r as [[shape t']|e]; destruct_and!; subst; [|done]. destruct ch, lo; simpl in *; lia.
  - exists r. split; [done|]. destruct r as [[shape t']|e]; by destruct_and!.
  - intros Hwt. rewrite bool_decide_true by auto. apply orb_true_r.
Qed.

(** With no claim alive the driver keeps the transport. *)
Lemma unclaimed_inv y wk :
  match phase (shared y) with Unclaimed | Claimed _ false => True | _ => False end -> Inv y ->
  Inv (mkSys (mkUpgrade ClaimClosed (result_cell (shared y)) None) (claim y) (waiting y) wk false true
         (claim_has y) (lost y) (answers y)).
Proof.
  destruct y as [[ph cell w] cl wt wo pd dh ch lo ans]; simpl. intros Hph (Hc & Hg & Hh & Hp). simpl in *.
  destruct ph as [|tg []|]; [|done| |done]; destruct Hp as (-> & -> & -> & -> & ->); unfold Inv; simpl; by split_and!.
Qed.

Lemma fulfill_inv y : Inv y -> Inv (default y (act y Fulfill)).
Proof.
  intros I. simpl. destruct (pending y) eqn:Hpd; [|done]. unfold fulfill.
  destruct (phase (shared y)) as [|target []|] eqn:Hph.
  - simpl. apply unclaimed_inv; by rewrite ?Hph.
  - case_bool_decide as Ha; simpl.
    + subst. apply (settle_inv _ _ actual); [done..|]. by case_bool_decide.
    + case_bool_decide as Hb; simpl; subst; by apply (settle_inv _ _ _ _ Hph).
  - simpl. apply unclaimed_inv; by rewrite ?Hph.
  - exfalso. destruct I as (_ & _ & _ & Hp). rewrite Hph in Hp. destruct Hp. congruence.
Qed.

Lemma drop_pending_inv y : Inv y -> Inv (default y (act y DropPending)).
Proof.
  intros I. simpl. destruct (pending y) eqn:Hpd; [|done]. unfold pending_drop.
  assert (Hd : phase (shared y) <> ClaimClosed -> driver_has y = true).
  { destruct I as (_ & _ & _ & Hp). intros. destruct (phase (shared y)) as [|? []|]; [..|done]; by destruct_and!. }
  destruct (phase (shared y)) as [|target []|] eqn:Hph.
  - rewrite Hd by done. apply unclaimed_inv; by rewrite ?Hph.
  - rewrite Hd by done. by apply (settle_inv _ _ _ _ Hph).
  - rewrite Hd by done. apply unclaimed_inv; by rewrite ?Hph.
  - exfalso. destruct I as (_ & _ & _ & Hp). rewrite Hph in Hp. destruct Hp. congruence.
Qed.

Lemma upgrade_act_inv y a : Inv y -> Inv (default y (act y a)).
Proof. destruct a; auto using upgrade_claim_inv, poll_claim_inv, drop_claim_inv, fulfill_inv, drop_pending_inv. Qed.

Lemma upgrade_run_inv y actions : Inv y -> Inv (run y actions).
Proof. revert y. induction actions as [|a actions IH]; intros y I; [done|]. apply IH. by apply upgrade_act_inv. Qed.

Lemma upgrade_start_inv : Inv start.
Proof.
  unfold Inv. simpl. split_and!; try done.
Qed.

Lemma lost_only_by_drop y a : a <> DropClaim -> lost (default y (act y a)) = lost y.
Proof.
  intros Ha. destruct a; simpl; [|..|done| |].
  - unfold claim_target. by destruct (phase (shared y)).
  - destruct (claim y) as [f|]; [|done]. by destruct (on_upgrade_poll (shared y) f w) as [[? ?] []].
  - destruct (pending y); [|done]. by destruct (fulfill (shared y) actual t) as [[? ?] ?].
  - destruct (pending y); [|done]. done.
Qed.

Lemma run_lost y actions : DropClaim ∉ actions -> lost (run y actions) = lost y.
Proof.
  revert y. induction actions as [|a actions IH]; intros y Ha; [done|]. apply not_elem_of_cons in Ha as [? ?].
  simpl. rewrite IH by done. by apply lost_only_by_drop.
Qed.

(** C26: In every interleaving of claims, polls, the driver's hand-off and
    drops, exactly one party has the transport: the driver, the shared cell, a
    claim that was answered with it, or a claim that was dropped before it
    collected it. Claims are answered with this transport at most once, and
    never with a type mismatch of their own; without a dropped claim nothing is
    lost. *)
Theorem upgrade_single_owner (actions : list Action) :
  let y := run start actions in
  count (driver_has y) + count (in_cell y) + count (claim_has y) + count (lost y) = 1 /\
  transports (answers y) = count (claim_has y) /\
  Forall good_answer (answers y) /\
  (DropClaim ∉ actions -> lost y = false).
Proof.
  intros y. destruct (upgrade_run_inv start actions upgrade_start_inv) as (Hc & Hg & Hh & _).
  split_and!; [done..|]. intros. by apply run_lost.
Qed.

(** A claim that waits when the driver's side has been settled, by a
    hand-off or by a drop, was woken, and its next poll answers. *)
Theorem upgrade_no_lost_wakeup (actions : list Action) w :
  let y := run start actions in
  waiting y = true -> pending y = false ->
  claim_woken y = true /\
  exists f r, claim y = Some f /\ snd (on_upgrade_poll (shared y) f w) = Ready r /\ good_answer r.
Proof.
  intros y Hw Hp. destruct (upgrade_run_inv start actions upgrade_start_inv) as (_ & _ & _ & I). fold y in I.
  destruct (phase (shared y)) as [|? []|]; try (destruct_and!; congruence). destruct I as (_ & I).
  destruct (claim y) as [[target|e|]|]; try (destruct_and!; congruence); [|done].
  destruct I as ((r & Hr & Hg) & Hwk). split; [auto|]. exists (Attached target). simpl. rewrite Hr.
  eexists. split_and!; [done..|]. destruct r as [[shape t']|e]; [|done].
  destruct Hg as [-> ->]. by rewrite bool_decide_true.
Qed.

End Run.
End Upgrade.

(** ** The upgraded transport *)

Record Upgraded (R Wr : Type) := mkUpgraded {
  reader : R;
  writer : Wr;
  read_ahead : bytes;
  kind : UpgradeKind;
}.
Arguments mkUpgraded {R Wr}.
Arguments reader {R Wr}.
Arguments writer {R Wr}.
Arguments read_ahead {R Wr}.
Arguments kind {R Wr}.

(** A vectored read: the capacities of the slices, and what is initialized in
    each. *)
Class AsyncReadVectored (W : Type) := {
  ar_read_vectored : W -> list Z -> W * (result Z IoError * list bytes);
}.

Class ReadsVectored (W : Type) `{AsyncRead W} `{!Reads W} `{!AsyncReadVectored W} := {
  law_read_vectored w caps w' r fill : ar_read_vectored w caps = (w', (r, fill)) ->
    received w' = received w ++ concat fill;
}.

Section Prefixed.
Context {W : Type} `{AsyncRead W} `{!AsyncReadVectored W}.

Definition read_prefixed (r : W) (prefix : bytes) (cap : Z) : W * bytes * (result Z IoError * bytes) :=
  if zlen prefix =? 0 then
    let '(r, answer) := ar_read r cap in (r, prefix, answer)
  else
    let count := Z.min cap (zlen prefix) in
    (r, zdrop count prefix, (Ok count, ztake count prefix)).

(** The loop over [iter_uninit_slice]. *)
Fixpoint fill_slices (prefix : bytes) (count : Z) (caps : list Z) : Z * list bytes :=
  match caps with
  | [] => (count, [])
  | cap :: caps =>
      let n := Z.min cap (zlen prefix - count) in
      let slot := zslice count (count + n) prefix in
      let count := count + n in
      if count =? zlen prefix then (count, [slot])
      else let '(count, slots) := fill_slices prefix count caps in (count, slot :: slots)
  end.

Definition read_vectored_prefixed (r : W) (prefix : bytes) (caps : list Z)
    : W * bytes * (result Z IoError * list bytes) :=
  if zlen prefix =? 0 then
    let '(r, answer) := ar_read_vectored r caps in (r, prefix, answer)
  else
    let '(count, slots) := fill_slices prefix 0 caps in
    (r, zdrop count prefix, (Ok count, slots)).

Inductive UpgradedRead : Type :=
| Scalar (cap : Z)
| Vectored (caps : list Z).

(** [AsyncRead for Upgraded]: the bytes it hands over and the count it reports *)
Definition upgraded_read {Wr} (u : Upgraded W Wr) (how : UpgradedRead)
    : Upgraded W Wr * (result Z IoError * bytes) :=
  match how with
  | Scalar cap =>
      let '(r, p, (n, fill)) := read_prefixed (reader u) (read_ahead u) cap in
      (mkUpgraded r (writer u) p (kind u), (n, fill))
  | Vectored caps =>
      let '(r, p, (n, fill)) := read_vectored_prefixed (reader u) (read_ahead u) caps in
      (mkUpgraded r (writer u) p (kind u), (n, concat fill))
  end.

Fixpoint upgraded_reads {Wr} (u : Upgraded W Wr) (hows : list UpgradedRead) : Upgraded W Wr * bytes :=
  match hows with
  | [] => (u, [])
  | how :: hows =>
      let '(u, (_, b)) := upgraded_read u how in
      let '(u, b') := upgraded_reads u hows in
      (u, b ++ b')
  end.

Definition capacities_ok (how : UpgradedRead) : Prop :=
  match how with Scalar cap => 0 < cap | Vectored caps => Forall (fun c => 0 <= c) caps end.

Lemma fill_slices_spec prefix count caps count' slots :
  0 <= count <= zlen prefix -> Forall (fun c => 0 <= c) caps ->
  fill_slices prefix count caps = (count', slots) ->
  count <= count' <= zlen prefix /\ concat slots = zslice count count' prefix.
Proof.
  revert count count' slots. induction caps as [|cap caps IH]; intros count count' slots Hc Hcaps; simpl.
  - intros [= <- <-]. split; [lia|]. by rewrite zslice_self.
  - apply Forall_cons_1 in Hcaps as [Hcap Hcaps]. set (n := Z.min cap (zlen prefix - count)).
    assert (0 <= n <= zlen prefix - count) by lia.
    case_match.
    + intros [= <- <-]. split; [lia|]. simpl. by rewrite app_nil_r.
    + destruct (fill_slices prefix (count + n) caps) as [c sl] eqn:E. intros [= <- <-].
      apply IH in E as [? Hs]; [|lia|done]. split; [lia|]. simpl. rewrite Hs. apply zslice_app_slices; lia.
Qed.

Context `{!Reads W} `{!ReadsVectored W}.

Lemma upgraded_read_conserves {Wr} (u u' : Upgraded W Wr) how r b :
  capacities_ok how -> upgraded_read u how = (u', (r, b)) ->
  exists fresh,
    received (reader u') = received (reader u) ++ fresh /\
    read_ahead u ++ fresh = b ++ read_ahead u' /\
    (read_ahead u <> [] -> reader u' = reader u /\ r = Ok (zlen b)) /\
    (read_ahead u = [] -> read_ahead u' = []) /\
    writer u' = writer u /\ kind u' = kind u.
Proof.
  destruct u as [r0 w0 p k]. unfold upgraded_read, read_prefixed, read_vectored_prefixed. simpl. intros Hcap.
  destruct (Z.eqb_spec (zlen p) 0) as [Hp|Hp].
  - apply zlen_0_nil in Hp as ->. destruct how as [cap|caps].
    + destruct (ar_read r0 cap) as [r' [n fill]] eqn:E. intros [= <- <- <-]. apply law_read in E as [? Hr]; [|done].
      exists fill. rewrite app_nil_r. by split_and!.
    + destruct (ar_read_vectored r0 caps) as [r' [n fill]] eqn:E. intros [= <- <- <-]. apply law_read_vectored in E.
      exists (concat fill). rewrite app_nil_r. by split_and!.
  - pose proof (zlen_nonneg p). destruct how as [cap|caps].
    + intros [= <- <- <-]. simpl in *. exists []. rewrite !app_nil_r, ztake_zdrop, zlen_ztake by lia.
      split_and!; try done; [|by intros ->]. intros. split; [done|]. f_equal. lia.
    + destruct (fill_slices p 0 caps) as [c slots] eqn:E. apply fill_slices_spec in E as [? Hs]; [|lia|done].
      intros [= <- <- <-]. simpl. exists []. rewrite Hs, zslice_0, !app_nil_r, ztake_zdrop, zlen_ztake by lia.
      split_and!; try done; [|by intros ->]. intros. split; [done|]. f_equal. lia.
Qed.

(** C39: Reads on an upgraded connection hand over the bytes read past the HTTP
    message first and then exactly what the transport delivers, in order and
    without loss, however they mix scalar and vectored buffers; the write half
    is untouched. *)
Theorem upgraded_reads_exact {Wr} (u : Upgraded W Wr) (hows : list UpgradedRead) u' b :
  Forall capacities_ok hows -> upgraded_reads u hows = (u', b) ->
  exists fresh,
    received (reader u') = received (reader u) ++ fresh /\
    b ++ read_ahead u' = read_ahead u ++ fresh /\
    (read_ahead u' <> [] -> reader u' = reader u) /\
    (read_ahead u = [] -> read_ahead u' = []) /\
    writer u' = writer u /\ kind u' = kind u.
Proof.
  revert u b. induction hows as [|how hows IH]; intros u b Hcaps; simpl.
  - intros [= <- <-]. exists []. by rewrite !app_nil_r.
  - apply Forall_cons_1 in Hcaps as [Hcap Hcaps]. destruct (upgraded_read u how) as [v [n b1]] eqn:E1.
    destruct (upgraded_reads v hows) as [v' b2] eqn:E2. intros [= <- <-].
    apply upgraded_read_conserves in E1 as (f1 & R1 & P1 & U1 & S1 & W1 & K1); [|done].
    apply IH in E2 as (f2 & R2 & P2 & U2 & S2 & W2 & K2); [|done].
    exists (f1 ++ f2). rewrite R2, R1, W2, K2, !app_assoc, P1, <- !app_assoc, P2. split_and!; auto.
    intros Hn. rewrite U2 by done. apply U1. auto.
Qed.

End Prefixed.

(** ** Concrete executions *)

(** Claimed for other types, boxed, polled, handed off: the claim waits, is woken
    and gets the transport. *)
Lemma upgrade_single_owner_witness :
  let y := run (Typed 1%nat 2%nat) 7 start [Claim Boxed; Claim (Typed 1%nat 2%nat); PollClaim 5%nat; Fulfill; PollClaim 5%nat; DropPending] in
  answers y = [Ok 7] /\ driver_has y = false /\ lost y = false.
Proof.
  pose proof (upgrade_single_owner (Typed 1%nat 2%nat) 7
    [Claim Boxed; Claim (Typed 1%nat 2%nat); PollClaim 5%nat; Fulfill; PollClaim 5%nat; DropPending]) as (_ & _ & _ & Hl).
  split_and!; [reflexivity..|]. apply Hl. rewrite !elem_of_cons, elem_of_nil. naive_solver.
Defined.

Lemma upgrade_no_lost_wakeup_witness :
  let y := run (Typed 1%nat 2%nat) 7 start [Claim (Typed 3%nat 4%nat); PollClaim 5%nat; Fulfill] in
  claim_woken y = true /\ driver_has y = true.
Proof.
  pose proof (upgrade_no_lost_wakeup (Typed 1%nat 2%nat) 7 [Claim (Typed 3%nat 4%nat); PollClaim 5%nat; Fulfill] 5%nat) as Hw.
  split; [|reflexivity]. apply Hw; reflexivity.
Defined.

(** A transport that has [snd] left to deliver. *)
Definition source : Type := bytes * bytes.

#[local] Instance source_read : AsyncRead source := {|
  ar_read w n := ((fst w ++ ztake n (snd w), zdrop n (snd w)), (Ok (zlen (ztake n (snd w))), ztake n (snd w)));
  ar_read_managed w n := (w, Ok None);
|}.

#[local] Instance source_reads : Reads source.
Proof.
  refine {| received := fst |}.
  - intros [a b] n w' r fill Hn [= <- <- <-]. split; [|done]. rewrite zlen_ztake by lia. lia.
  - intros [a b] n w' r [= <- <-]. simpl. by rewrite app_nil_r.
  - by intros [a b] n w' r Hn [= ].
Defined.

#[local] Instance source_vectored : AsyncReadVectored source := {|
  ar_read_vectored w caps :=
    let n := hd 0 caps in
    ((fst w ++ ztake n (snd w), zdrop n (snd w)), (Ok (zlen (ztake n (snd w))), [ztake n (snd w)]));
|}.

#[local] Instance source_reads_vectored : ReadsVectored source.
Proof. constructor. intros [a b] caps w' r fill [= <- <- <-]. simpl. by rewrite app_nil_r. Defined.

Definition tunnel : Upgraded source unit :=
  mkUpgraded ([], bs "wire") tt (bs "prefix") Tunnel.

Lemma upgraded_reads_exact_witness :
  let '(u, b) := upgraded_reads tunnel [Vectored [1; 2]; Scalar 2; Scalar 9; Vectored [3; 1]] in
  b = bs "prefixwir" /\ writer u = tt.
Proof.
  destruct (upgraded_reads tunnel [Vectored [1; 2]; Scalar 2; Scalar 9; Vectored [3; 1]]) as [u b] eqn:E.
  assert (Hc : Forall capacities_ok [Vectored [1; 2]; Scalar 2; Scalar 9; Vectored [3; 1]])
    by (repeat constructor; lia).
  pose proof (upgraded_reads_exact tunnel _ u b Hc E) as (_ & _ & _ & _ & _ & -> & _).
  split; [|done]. vm_compute in E. by injection E as <- <-.
Defined.
