(* ===== verification/Boxing.v ===== *)
(** Erased transport halves (src/src/upgrade/boxed.rs) and the ways an upgraded
    transport is split, erased and recovered (src/src/upgrade.rs).

    A ['static] type is a code: [Any] pairs a code with a value of the type it
    denotes, and [TypeId]s are compared as codes. The generic [read<B>] of a
    transport sees of its buffer only what the buffer traits offer: a capacity,
    and initialized bytes put in it. *)

From Stdlib Require Import ZArith Lia Eqdep_dec.
From stdpp Require Import base list option.
From S2P Require Import Prelude Http Errors Syntax Body Pipe Send Recv Upgrade.

(** ** [dyn Any] *)

Class Types := {
  TypeId : Type;
  TypeId_eq :: EqDecision TypeId;
  type_of : TypeId -> Type;
}.

Section Any.
Context {types : Types}.

Record Any := mkAny {
  any_type : TypeId;
  any_value : type_of any_type;
}.

Definition is_type (t : TypeId) (v : Any) : bool := bool_decide (any_type v = t).

(** [Box<dyn Any>::downcast] *)
Definition downcast_any (t : TypeId) (v : Any) : option (type_of t) :=
  match decide (any_type v = t) with
  | left e => Some (eq_rect _ type_of (any_value v) _ e)
  | right _ => None
  end.

Definition recover (t : TypeId) (v : Any) : call (type_of t) :=
  match downcast_any t v with
  | Some x => Returns x
  | None => Panics
  end.

Lemma recover_same t (x : type_of t) : recover t (mkAny t x) = Returns x.
Proof.
  unfold recover, downcast_any. simpl. destruct (decide (t = t)) as [e|n]; [|done].
  by rewrite (UIP_dec (fun a b => decide (a = b)) e eq_refl).
Qed.

End Any.

(** ** Buffers and their erasure *)

(** [IoBufMut]: the length to fill, and the buffer with an initialized prefix *)
Class IoBufMut (B : Type) := {
  uninit_len : B -> Z;
  initialize : B -> bytes -> B;
}.

(** [IoVectoredBuf] and [IoVectoredBufMut] *)
Class IoVectoredBuf (V : Type) := iter_slice : V -> list bytes.
Class IoVectoredBufMut (V : Type) := {
  uninit_lens : V -> list Z;
  initialize_all : V -> list bytes -> V;
}.

Section Erased.
Context {types : Types}.

(** A boxed value with the methods of its trait. *)
Record Erased (Ops : Type -> Type) := mkErased {
  inner_any : Any;
  inner_ops : Ops (type_of (any_type inner_any));
}.
Arguments mkErased {Ops} _ _.
Arguments inner_any {Ops} _.
Arguments inner_ops {Ops} _.

Definition erase {Ops : Type -> Type} (t : TypeId) (x : type_of t) (ops : Ops (type_of t)) : Erased Ops :=
  mkErased (mkAny t x) ops.

#[export] Instance Buffer_IoBuf : IoBuf (Erased IoBuf) := fun v =>
  match v with mkErased (mkAny t x) ops => @as_init _ ops x end.

#[export] Instance BufferMut_IoBufMut : IoBufMut (Erased IoBufMut) := {
  uninit_len v := match v with mkErased (mkAny t x) ops => @uninit_len _ ops x end;
  initialize v d := match v with mkErased (mkAny t x) ops => mkErased (mkAny t (@initialize _ ops x d)) ops end;
}.

#[export] Instance Vector_IoVectoredBuf : IoVectoredBuf (Erased IoVectoredBuf) := fun v =>
  match v with mkErased (mkAny t x) ops => @iter_slice _ ops x end.

#[export] Instance VectorMut_IoVectoredBufMut : IoVectoredBufMut (Erased IoVectoredBufMut) := {
  uninit_lens v := match v with mkErased (mkAny t x) ops => @uninit_lens _ ops x end;
  initialize_all v d := match v with mkErased (mkAny t x) ops => mkErased (mkAny t (@initialize_all _ ops x d)) ops end;
}.

(** ** The generic operations of a transport *)

Definition read {R B} `{AsyncRead R} `{!IoBufMut B} (r : R) (b : B) : R * (result Z IoError * B) :=
  let '(r, (n, d)) := ar_read r (uninit_len b) in (r, (n, initialize b d)).

Definition read_vectored {R V} `{AsyncReadVectored R} `{!IoVectoredBufMut V} (r : R) (v : V) : R * (result Z IoError * V) :=
  let '(r, (n, ds)) := ar_read_vectored r (uninit_lens v) in (r, (n, initialize_all v ds)).

Definition write {Wr B} `{AsyncWrite Wr} `{!IoBuf B} (w : Wr) (b : B) : Wr * (result Z IoError * B) :=
  let '(w, n) := aw_write w (as_init b) in (w, (n, b)).

Definition write_vectored {Wr V} `{AsyncWrite Wr} `{!IoVectoredBuf V} (w : Wr) (v : V) : Wr * (result Z IoError * V) :=
  let '(w, n) := aw_write_vectored w (iter_slice v) in (w, (n, v)).

(** ** Erased halves *)

(** [dyn Read] *)
Record ReadOps (R : Type) := mkReadOps {
  ops_read : AsyncRead R;
  ops_read_vectored : AsyncReadVectored R;
}.
Arguments mkReadOps {R} _ _.
Arguments ops_read {R} _.
Arguments ops_read_vectored {R} _.

Definition BoxedReadHalf : Type := Erased ReadOps.
Definition BoxedWriteHalf : Type := Erased AsyncWrite.

Definition BoxedReadHalf_new (t : TypeId) `{ar : !AsyncRead (type_of t)} `{av : !AsyncReadVectored (type_of t)}
    (x : type_of t) : BoxedReadHalf := erase t x (mkReadOps ar av).
Definition BoxedWriteHalf_new (t : TypeId) `{aw : !AsyncWrite (type_of t)} (x : type_of t) : BoxedWriteHalf := erase t x aw.

(** The half [is] and [into_inner] of either kind. *)
Definition half_is {Ops} (t : TypeId) (h : Erased Ops) : bool := is_type t (inner_any h).
Definition half_into_inner {Ops} (t : TypeId) (h : Erased Ops) : call (type_of t) := recover t (inner_any h).

(** The methods of [dyn Read] on erased buffers. *)
Definition erased_read (h : BoxedReadHalf) (b : Erased IoBufMut) : BoxedReadHalf * (result Z IoError * Erased IoBufMut) :=
  match h with
  | mkErased (mkAny t x) ops => let '(x, a) := read (H := ops_read ops) x b in (mkErased (mkAny t x) ops, a)
  end.

Definition erased_read_vectored (h : BoxedReadHalf) (v : Erased IoVectoredBufMut)
    : BoxedReadHalf * (result Z IoError * Erased IoVectoredBufMut) :=
  match h with
  | mkErased (mkAny t x) ops => let '(x, a) := read_vectored (H := ops_read_vectored ops) x v in (mkErased (mkAny t x) ops, a)
  end.

(** The methods of [dyn Write]. *)
Definition erased_write (h : BoxedWriteHalf) (b : Erased IoBuf) : BoxedWriteHalf * (result Z IoError * Erased IoBuf) :=
  match h with mkErased (mkAny t x) ops => let '(x, a) := write (H := ops) x b in (mkErased (mkAny t x) ops, a) end.

Definition erased_write_vectored (h : BoxedWriteHalf) (v : Erased IoVectoredBuf)
    : BoxedWriteHalf * (result Z IoError * Erased IoVectoredBuf) :=
  match h with mkErased (mkAny t x) ops => let '(x, a) := write_vectored (H := ops) x v in (mkErased (mkAny t x) ops, a) end.

Definition erased_flush (h : BoxedWriteHalf) : BoxedWriteHalf * result unit IoError :=
  match h with mkErased (mkAny t x) ops => let '(x, a) := aw_flush (AsyncWrite := ops) x in (mkErased (mkAny t x) ops, a) end.

Definition erased_shutdown (h : BoxedWriteHalf) : BoxedWriteHalf * result unit IoError :=
  match h with mkErased (mkAny t x) ops => let '(x, a) := aw_shutdown (AsyncWrite := ops) x in (mkErased (mkAny t x) ops, a) end.

(** The caller's operations: box the buffer, operate, recover it. *)
Definition boxed_read (h : BoxedReadHalf) (t : TypeId) `{ops : !IoBufMut (type_of t)} (b : type_of t)
    : BoxedReadHalf * (result Z IoError * call (type_of t)) :=
  let '(h, (n, b)) := erased_read h (erase t b ops) in (h, (n, recover t (inner_any b))).

Definition boxed_read_vectored (h : BoxedReadHalf) (t : TypeId) `{ops : !IoVectoredBufMut (type_of t)} (v : type_of t)
    : BoxedReadHalf * (result Z IoError * call (type_of t)) :=
  let '(h, (n, v)) := erased_read_vectored h (erase t v ops) in (h, (n, recover t (inner_any v))).

Definition boxed_write (h : BoxedWriteHalf) (t : TypeId) `{ops : !IoBuf (type_of t)} (b : type_of t)
    : BoxedWriteHalf * (result Z IoError * call (type_of t)) :=
  let '(h, (n, b)) := erased_write h (erase t b ops) in (h, (n, recover t (inner_any b))).

Definition boxed_write_vectored (h : BoxedWriteHalf) (t : TypeId) `{ops : !IoVectoredBuf (type_of t)} (v : type_of t)
    : BoxedWriteHalf * (result Z IoError * call (type_of t)) :=
  let '(h, (n, v)) := erased_write_vectored h (erase t v ops) in (h, (n, recover t (inner_any v))).

(** ** Upgraded transports, erased and recovered *)

Definition upgraded_into_parts {R Wr} (u : Upgraded R Wr) : R * Wr * bytes * UpgradeKind := (reader u, writer u, read_ahead u, kind u).

Definition BoxedUpgraded : Type := Upgraded BoxedReadHalf BoxedWriteHalf.

Definition upgraded_boxed (tr tw : TypeId) `{!AsyncRead (type_of tr)} `{!AsyncReadVectored (type_of tr)} `{!AsyncWrite (type_of tw)}
    (u : Upgraded (type_of tr) (type_of tw)) : BoxedUpgraded :=
  let '(r, w, ahead, k) := upgraded_into_parts u in mkUpgraded (BoxedReadHalf_new tr r) (BoxedWriteHalf_new tw w) ahead k.

Definition downcast (tr tw : TypeId) (u : BoxedUpgraded) : call (result (Upgraded (type_of tr) (type_of tw)) BoxedUpgraded) :=
  if negb (half_is tr (reader u)) || negb (half_is tw (writer u)) then Returns (Err u)
  else
    let '(r, w, ahead, k) := upgraded_into_parts u in
    match half_into_inner tr r, half_into_inner tw w with
    | Returns r, Returns w => Returns (Ok (mkUpgraded r w ahead k))
    | _, _ => Panics
    end.

End Erased.

(** ** The split *)

Record UpgradedReadHalf (R : Type) := mkUpgradedReadHalf {
  half_reader : R;
  half_ahead : bytes;
}.
Arguments mkUpgradedReadHalf {R} _ _.
Arguments half_reader {R} _.
Arguments half_ahead {R} _.

Definition into_split {R Wr} (u : Upgraded R Wr) : UpgradedReadHalf R * Wr :=
  (mkUpgradedReadHalf (reader u) (read_ahead u), writer u).

Definition half_read {R} `{AsyncRead R} `{!AsyncReadVectored R} (h : UpgradedReadHalf R) (how : UpgradedRead)
    : UpgradedReadHalf R * (result Z IoError * bytes) :=
  match how with
  | Scalar cap => let '(r, p, a) := read_prefixed (half_reader h) (half_ahead h) cap in (mkUpgradedReadHalf r p, a)
  | Vectored caps =>
      let '(r, p, (n, fill)) := read_vectored_prefixed (half_reader h) (half_ahead h) caps in
      (mkUpgradedReadHalf r p, (n, concat fill))
  end.

Fixpoint half_reads {R} `{AsyncRead R} `{!AsyncReadVectored R} (h : UpgradedReadHalf R) (hows : list UpgradedRead)
    : UpgradedReadHalf R * bytes :=
  match hows with
  | [] => (h, [])
  | how :: hows =>
      let '(h, (_, b)) := half_read h how in
      let '(h, b') := half_reads h hows in (h, b ++ b')
  end.

(** [AsyncWrite for Upgraded] *)
#[export] Instance Upgraded_AsyncWrite {R Wr} `{aw : AsyncWrite Wr} : AsyncWrite (Upgraded R Wr) :=
  let forward {A} (u : Upgraded R Wr) (a : Wr * A) := (mkUpgraded (reader u) (fst a) (read_ahead u) (kind u), snd a) in {|
  aw_write u b := forward u (aw_write (writer u) b);
  aw_write_vectored u b := forward u (aw_write_vectored (writer u) b);
  aw_flush u := forward u (aw_flush (writer u));
  aw_shutdown u := forward u (aw_shutdown (writer u));
  vec_slice := @vec_slice Wr aw;
|}.

(** ** Erasure and splitting cannot be observed *)

Section Transparency.
Context {types : Types}.

(** An answer with the caller's own buffer back. *)
Definition returned {H A B} (mk : H -> A) (x : H * (result Z IoError * B)) : A * (result Z IoError * call B) :=
  (mk (fst x), (fst (snd x), Returns (snd (snd x)))).


(** An erased transport can be recovered. Asked for the original half types,
    erasing and downcasting gives back the same transport with its unread prefix
    and its kind; asked for any other type of either half, the erased transport
    comes back unchanged; it never panics. *)
Theorem boxed_upgrade_roundtrip (tr tw tr' tw' : TypeId) `{!AsyncRead (type_of tr)} `{!AsyncReadVectored (type_of tr)}
    `{!AsyncWrite (type_of tw)} (u : Upgraded (type_of tr) (type_of tw)) :
  downcast tr tw (upgraded_boxed tr tw u) = Returns (Ok u) /\
  (tr' <> tr \/ tw' <> tw -> downcast tr' tw' (upgraded_boxed tr tw u) = Returns (Err (upgraded_boxed tr tw u))).
Proof.
  unfold downcast, half_is, is_type, half_into_inner. simpl. split.
  - rewrite !bool_decide_true by done. simpl. rewrite !recover_same. by destruct u.
  - intros Hn. destruct (decide (tr = tr')), (decide (tw = tw')); subst; [naive_solver|..];
      rewrite ?(bool_decide_true (tr' = tr')), ?(bool_decide_false (tr = tr')), ?(bool_decide_false (tw = tw')) by done; simpl; done.
Qed.

End Transparency.

(** A split reads what the whole transport would have read. *)
Lemma split_read_same {R Wr} `{AsyncRead R} `{!AsyncReadVectored R} (u : Upgraded R Wr) how :
  half_read (fst (into_split u)) how = (fst (into_split (fst (upgraded_read u how))), snd (upgraded_read u how)) /\
  snd (into_split (fst (upgraded_read u how))) = snd (into_split u).
Proof.
  destruct how as [cap|caps]; simpl.
  - by destruct (read_prefixed (reader u) (read_ahead u) cap) as [[r p] [n fill]].
  - by destruct (read_vectored_prefixed (reader u) (read_ahead u) caps) as [[r p] [n fill]].
Qed.

Lemma split_reads_same {R Wr} `{AsyncRead R} `{!AsyncReadVectored R} (hows : list UpgradedRead) (u : Upgraded R Wr) :
  half_reads (fst (into_split u)) hows = (fst (into_split (fst (upgraded_reads u hows))), snd (upgraded_reads u hows)).
Proof.
  revert u. induction hows as [|how hows IH]; intros u; simpl; [done|].
  pose proof (proj1 (split_read_same u how)) as E. simpl in E. rewrite E. destruct (upgraded_read u how) as [u1 [n b]]. simpl.
  specialize (IH u1). simpl in IH. rewrite IH. by destruct (upgraded_reads u1 hows).
Qed.
