(* ===== verification/Requests.v ===== *)
(** Requests from their submission to their response: the asynchronous methods
    of [SendRequest] and [RequestPermit] in src/src/client/admission.rs and of
    [PendingResponse] in src/src/client/response.rs.

    Each method is a future polled by hand over what it shares with the driver:
    the admission (Admission.v) and one cell per accepted request, with the
    rendezvous of its events (Pipe.v), its control and receipt (Response.v) and
    its upgrade (Upgrade.v). [office_act] interleaves any number of them with
    everything else that uses the admission. *)

From Stdlib Require Import ZArith Lia.
From stdpp Require Import base list option gmap.
From S2P Require Import Prelude Errors Body Pipe Future Response Upgrade Connection Admission.

Section Requests.
(** requests, informational heads, final responses and transports *)
Context {Q I F T : Type}.

Notation Event := (@ResponseEvent I F).

(** ** What is shared *)

(** What [response::channel] allocates. *)
Record Cell := mkCell {
  cl_events : @Pipe.Shared Event Error;
  cl_control : Control;
  cl_upgrade : @UpgradeState T;
  cl_completion : CompletionState;
}.

Definition Cell_new : Cell := mkCell Pipe.channel Control_new UpgradeState_default CompletionState_default.

Record Job := mkJob {
  job_request : Q;
  job_cell : nat;
}.

(** [d_woken] are the tasks admission woke, [d_notified] those the events did. *)
Record Submissions := mkSubmissions {
  d_admission : @Admission.State Job;
  d_cells : list Cell;
  d_woken : list Waker;
  d_notified : list Waker;
}.

Definition set_admission (d : Submissions) (s : @Admission.State Job) : Submissions := mkSubmissions s (d_cells d) (d_woken d) (d_notified d).

Definition set_cell (d : Submissions) (id : nat) (c : Cell) : Submissions :=
  mkSubmissions (d_admission d) (<[id := c]> (d_cells d)) (d_woken d) (d_notified d).

Definition set_events (d : Submissions) (id : nat) (c : Cell) (p : @Pipe.Shared Event Error) (wk : Wakes) : Submissions :=
  mkSubmissions (d_admission d) (<[id := mkCell p (cl_control c) (cl_upgrade c) (cl_completion c)]> (d_cells d)) (d_woken d)
    (d_notified d ++ opt_list (wake_producer wk) ++ opt_list (wake_consumer wk)).

Record SubmitError := mkSubmitError {
  sub_request : Q;
  sub_error : Error;
}.

(** [SubmitError::into_parts] *)
Definition submit_into_parts (e : SubmitError) : Q * Error := (sub_request e, sub_error e).

Inductive SendError : Type :=
| Submission (e : SubmitError)
| ExchangeFailed (e : Error).

(** [SendError::error] *)
Definition send_error (e : SendError) : Error :=
  match e with Submission e => sub_error e | ExchangeFailed e => e end.

(** [PendingResponse], by the cell it observes. *)
Record Observation := mkObservation {
  ob_cell : nat;
  ob_delivered : bool;
  ob_finished : bool;
}.

(** ** Submission *)

(** [RequestPermit::send]; the permit is dropped with an error. *)
Definition permit_send_request (d : Submissions) (request : Q) : Submissions * call (result Observation SubmitError) :=
  let id := length (d_cells d) in
  let '(s, wk, r) := permit_send (d_admission d) (mkJob request id) in
  match r with
  | Panics => (d, Panics)
  | Returns (Ok _) =>
      (mkSubmissions s (d_cells d ++ [Cell_new]) (d_woken d ++ wk) (d_notified d), Returns (Ok (mkObservation id false false)))
  | Returns (Err (job, e)) =>
      let '(s, wk', released) := release s in
      (mkSubmissions s (d_cells d) (d_woken d ++ wk ++ wk') (d_notified d),
       map_call (fun _ => Err (mkSubmitError (job_request job) e)) released)
  end.

(** The future [start_request] returns. *)
Inductive Starting : Type :=
| Reserving (registered : bool) (request : Q)
| StartDone.

Context (task : Waker).

#[export] Instance start_request : Future Starting Submissions (call (result Observation SubmitError)) := fun f d =>
  match f with
  | StartDone => (StartDone, d, Pending)
  | Reserving registered request =>
      let '(s, registered, r) := reserve_poll (d_admission d) registered task in
      match r with
      | Panics => (StartDone, set_admission d s, Ready Panics)
      | Returns Pending => (Reserving registered request, set_admission d s, Pending)
      | Returns (Ready reserved) =>
          let d := set_admission d (reservation_drop s registered) in
          match reserved with
          | Err e => (StartDone, d, Ready (Returns (Err (mkSubmitError request e))))
          | Ok _ => let '(d, r) := permit_send_request d request in (StartDone, d, Ready r)
          end
      end
  end.

(** ** Observation *)

(** What [next_event] makes of the answer of its [take]. *)
Definition event_taken (o : Observation) (r : result (option Event) (@TakeError Error)) : Observation * result (option Event) Error :=
  match r with
  | Ok (Some event) =>
      let final := match event with Final _ => true | Informational _ => false end in
      (mkObservation (ob_cell o) (ob_delivered o || final) final, Ok (Some event))
  | Err (TakeFailed e) => (mkObservation (ob_cell o) (ob_delivered o) true, Err e)
  | _ => (mkObservation (ob_cell o) (ob_delivered o) true, Err driver_closed)
  end.

(** One poll of [next_event]; its [take] is dropped once it has answered. An
    observation keeps its cell, so the lookup does not fail. *)
Definition next_event_poll (d : Submissions) (o : Observation) : Submissions * Observation * call (Poll (result (option Event) Error)) :=
  if ob_finished o then (d, o, Returns (Ready (Ok None)))
  else
    match d_cells d !! ob_cell o with
    | None => (d, o, Panics)
    | Some c =>
        let '(p, wk, _, r) := take_poll (cl_events c) task in
        match r with
        | Panics => (d, o, Panics)
        | Returns Pending => (set_events d (ob_cell o) c p wk, o, Returns Pending)
        | Returns (Ready r) =>
            let '(o', r) := event_taken o r in
            (set_events d (ob_cell o) c (clear_consumer_waker p) wk, o', Returns (Ready r))
        end
    end.

(** The loop of [response] within one poll; [None] is a model run out of turns. *)
Fixpoint response_turns (n : nat) (d : Submissions) (o : Observation) : Submissions * Observation * option (call (Poll (result F Error))) :=
  match n with
  | O => (d, o, None)
  | S n =>
      let '(d, o, r) := next_event_poll d o in
      match r with
      | Panics => (d, o, Some Panics)
      | Returns Pending => (d, o, Some (Returns Pending))
      | Returns (Ready (Err e)) => (d, o, Some (Returns (Ready (Err e))))
      | Returns (Ready (Ok None)) => (d, o, Some (Returns (Ready (Err already_consumed))))
      | Returns (Ready (Ok (Some (Final f)))) => (d, o, Some (Returns (Ready (Ok f))))
      | Returns (Ready (Ok (Some (Informational _)))) => response_turns n d o
      end
  end.

(** [Drop for PendingResponse], then of its consumer. *)
Definition observation_drop (d : Submissions) (o : Observation) : Submissions :=
  match d_cells d !! ob_cell o with
  | None => d
  | Some c =>
      let control := if ob_delivered o then cl_control c else cancel (cl_control c) in
      let '(p, wk) := consumer_drop (cl_events c) in
      set_events d (ob_cell o) (mkCell (cl_events c) control (cl_upgrade c) (cl_completion c)) p wk
  end.

(** [on_upgrade] and [on_upgrade_typed]; [None]: no claim is made. *)
Definition claim_upgrade (d : Submissions) (o : Observation) (target : option ClaimTarget) : Submissions * option OnUpgrade :=
  match target, d_cells d !! ob_cell o with
  | Some target, Some c =>
      let '(u, claim) := claim_target (cl_upgrade c) target in
      (set_cell d (ob_cell o) (mkCell (cl_events c) (cl_control c) u (cl_completion c)), Some claim)
  | _, _ => (d, None)
  end.

(** A claim that goes with the future it belongs to. *)
Definition claim_drop (d : Submissions) (o : Observation) (claim : option OnUpgrade) : Submissions :=
  match claim, d_cells d !! ob_cell o with
  | Some claim, Some c =>
      set_cell d (ob_cell o) (mkCell (cl_events c) (cl_control c) (fst (on_upgrade_drop (cl_upgrade c) claim)) (cl_completion c))
  | _, _ => d
  end.

(** ** [send_request], [send_request_with_upgrade] and
    [send_request_with_typed_upgrade], by what they claim *)

Inductive Sending : Type :=
| SendStarting (f : Starting)
| SendObserving (o : Observation) (claim : option OnUpgrade)
| SendDone.

Definition SendAnswer : Type := result (F * option OnUpgrade) SendError.

(** [response], [response_with_upgrade] and [response_with_typed_upgrade] after
    their claim; [None] is a model run out of turns. *)
Definition observe_response (d : Submissions) (o : Observation) (claim : option OnUpgrade) : Sending * Submissions * Poll (option (call SendAnswer)) :=
  let '(d, o, r) := response_turns 2 d o in
  match r with
  | None => (SendDone, d, Ready None)
  | Some Panics => (SendDone, d, Ready (Some Panics))
  | Some (Returns Pending) => (SendObserving o claim, d, Pending)
  | Some (Returns (Ready (Ok response))) => (SendDone, observation_drop d o, Ready (Some (Returns (Ok (response, claim)))))
  | Some (Returns (Ready (Err e))) =>
      (SendDone, claim_drop (observation_drop d o) o claim, Ready (Some (Returns (Err (ExchangeFailed e)))))
  end.

#[export] Instance send_request_with (target : option ClaimTarget) : Future Sending Submissions (option (call SendAnswer)) := fun f d =>
  match f with
  | SendDone => (SendDone, d, Pending)
  | SendObserving o claim => observe_response d o claim
  | SendStarting f =>
      let '(f, d, r) := poll f d in
      match r with
      | Pending => (SendStarting f, d, Pending)
      | Ready Panics => (SendDone, d, Ready (Some Panics))
      | Ready (Returns (Err e)) => (SendDone, d, Ready (Some (Returns (Err (Submission e)))))
      | Ready (Returns (Ok o)) => let '(d, claim) := claim_upgrade d o target in observe_response d o claim
      end
  end.

(** The future is dropped before it has answered. *)
Definition sending_drop (d : Submissions) (f : Sending) : Submissions :=
  match f with
  | SendStarting (Reserving registered _) => set_admission d (reservation_drop (d_admission d) registered)
  | SendStarting StartDone | SendDone => d
  | SendObserving o claim =>
      let d := match d_cells d !! ob_cell o with
               | Some c => set_events d (ob_cell o) c (clear_consumer_waker (cl_events c)) no_wakes
               | None => d
               end in
      claim_drop (observation_drop d o) o claim
  end.

End Requests.
Arguments Cell : clear implicits.
Arguments Job : clear implicits.
Arguments Submissions : clear implicits.
Arguments SubmitError : clear implicits.
Arguments SendError : clear implicits.
Arguments Starting : clear implicits.
Arguments Sending : clear implicits.

(** ** Executions

    Any number of requests are sent while the rest of the program uses the same
    admission and drivers offer events. [started], [withdrawn] and [returned] are
    the requests handed to a send, those dropped with a send that was still
    waiting, and those given back; [canceled] are the cells whose observation was
    dropped before its final response. *)

Section Office.
Context {Q I F T : Type}.
Notation Event := (@ResponseEvent I F).

Record Office := mkOffice {
  sys : @Admission.Sys (Job Q);
  cells : list (Cell I F T);
  tasks : gmap Waker (option ClaimTarget * Sending Q);
  started : list Q;
  withdrawn : list Q;
  returned : list (SubmitError Q);
  canceled : list nat;
}.

Definition office_start : Office := mkOffice Admission.start [] ∅ [] [] [] [].

Definition desk (y : Office) : Submissions Q I F T := mkSubmissions (st (sys y)) (cells y) [] [].

(** The request and the reservation of a send that still waits for admission. *)
Definition waiting_of (f : Sending Q) : option Q :=
  match f with SendStarting (Reserving _ request) => Some request | _ => None end.

Definition reservation_of (f : Sending Q) : option bool :=
  match f with SendStarting (Reserving registered _) => Some registered | _ => None end.

Definition set_reservation (w : Waker) (r : option bool) (m : gmap Waker bool) : gmap Waker bool :=
  match r with Some registered => <[w := registered]> m | None => delete w m end.

(** The admission after a step of the reservation of [w] on the desk. *)
Definition stepped (y : @Admission.Sys (Job Q)) (w : Waker) (r : option bool) (d : Submissions Q I F T) (jobs : list (Job Q))
    : @Admission.Sys (Job Q) :=
  Admission.mkSys (d_admission d) (permits y) (set_reservation w r (reservations y)) (driver y)
    (woken y ∖ {[w]} ∪ list_to_set (d_woken d)) (submitted y ++ jobs) (taken y) (dropped y).

(** The job a step queued: its cell is the one that was allocated. *)
Definition job_of (y : Office) (d : Submissions Q I F T) (request : option Q) : list (Job Q) :=
  match request with
  | Some request => if Nat.eqb (length (d_cells d)) (length (cells y)) then [] else [mkJob request (length (cells y))]
  | None => []
  end.

Inductive OfficeAction : Type :=
| Other (a : @Admission.Action (Job Q))
| Spawn (w : Waker) (target : option ClaimTarget) (request : Q)
| PollTask (w : Waker)
| DropTask (w : Waker)
| SendWith (w : Waker) (target : option ClaimTarget) (request : Q)
| DriverOffers (id : nat) (event : Event)
| DriverWithdraws (id : nat)
| DriverEnds (id : nat) (failure : option Error) (lost : bool).

(** Whose reservation an action of the rest of the program is about. *)
Definition reserves (a : @Admission.Action (Job Q)) : option Waker :=
  match a with StartReserve w | PollReserve w | DropReserve w => Some w | _ => None end.

Definition sends (a : @Admission.Action (Job Q)) : bool := match a with SendPermit _ => true | _ => false end.

Definition with_sys (y : Office) (s : @Admission.Sys (Job Q)) : Office :=
  mkOffice s (cells y) (tasks y) (started y) (withdrawn y) (returned y) (canceled y).

Definition with_cells (y : Office) (cs : list (Cell I F T)) : Office :=
  mkOffice (sys y) cs (tasks y) (started y) (withdrawn y) (returned y) (canceled y).

(** The events of a cell as its driver changes them. *)
Definition driver_events (y : Office) (id : nat) (f : @Pipe.Shared Event Error -> option (@Pipe.Shared Event Error)) : Office :=
  match cells y !! id with
  | Some c =>
      match f (cl_events c) with
      | Some p => with_cells y (<[id := mkCell p (cl_control c) (cl_upgrade c) (cl_completion c)]> (cells y))
      | None => y
      end
  | None => y
  end.

Definition submission_of (r : Poll (option (call (@SendAnswer Q F)))) : list (SubmitError Q) :=
  match r with Ready (Some (Returns (Err (Submission e)))) => [e] | _ => [] end.

Definition failed_poll (r : Poll (option (call (@SendAnswer Q F)))) : bool :=
  match r with Ready None | Ready (Some Panics) => true | _ => false end.

(** [None] is a panic; what is not allowed does nothing. *)
Definition office_act (y : Office) (a : OfficeAction) : option Office :=
  match a with
  | Other a =>
      if sends a || match reserves a with Some w => bool_decide (is_Some (tasks y !! w)) | None => false end then Some y
      else match act (sys y) a with NotAllowed => Some y | Panicked => None | Next s => Some (with_sys y s) end
  | Spawn w target request =>
      if bool_decide (is_Some (tasks y !! w)) then Some y
      else
        match act (sys y) (StartReserve w) with
        | NotAllowed => Some y
        | Panicked => None
        | Next s =>
            Some (mkOffice s (cells y) (<[w := (target, SendStarting (Reserving false request))]> (tasks y))
                    (started y ++ [request]) (withdrawn y) (returned y) (canceled y))
        end
  | PollTask w =>
      match tasks y !! w with
      | None => Some y
      | Some (target, f) =>
          let '(f', d, r) := send_request_with w target f (desk y) in
          if failed_poll r then None
          else
            Some (mkOffice
              (match reservation_of f with
               | Some _ => stepped (sys y) w (reservation_of f') d (job_of y d (waiting_of f))
               | None => sys y
               end) (d_cells d)
              (match r with Pending => <[w := (target, f')]> (tasks y) | Ready _ => delete w (tasks y) end)
              (started y) (withdrawn y) (returned y ++ submission_of r) (canceled y))
      end
  | DropTask w =>
      match tasks y !! w with
      | None => Some y
      | Some (_, f) =>
          let d := sending_drop (desk y) f in
          Some (mkOffice
            (match reservation_of f with
             | Some _ => Admission.mkSys (d_admission d) (permits (sys y)) (delete w (reservations (sys y))) (driver (sys y))
                           (woken (sys y)) (submitted (sys y)) (taken (sys y)) (dropped (sys y))
             | None => sys y
             end) (d_cells d) (delete w (tasks y)) (started y) (withdrawn y ++ opt_list (waiting_of f)) (returned y)
            (canceled y ++ match f with SendObserving o _ => if ob_delivered o then [] else [ob_cell o] | _ => [] end))
      end
  | SendWith w target request =>
      if bool_decide (is_Some (tasks y !! w)) || bool_decide (is_Some (reservations (sys y) !! w)) || negb (0 <? permits (sys y))
      then Some y
      else
        let '(d, r) := permit_send_request (desk y) request in
        let s := sys y in
        let s' jobs := Admission.mkSys (d_admission d) (permits s - 1) (reservations s) (driver s)
                         (woken s ∪ list_to_set (d_woken d)) (submitted s ++ jobs) (taken s) (dropped s) in
        match r with
        | Panics => None
        | Returns (Err e) =>
            Some (mkOffice (s' []) (d_cells d) (tasks y) (started y ++ [request]) (withdrawn y) (returned y ++ [e]) (canceled y))
        | Returns (Ok o) =>
            let '(d', claim) := claim_upgrade d o target in
            Some (mkOffice (s' [mkJob request (ob_cell o)]) (d_cells d') (<[w := (target, SendObserving o claim)]> (tasks y))
                    (started y ++ [request]) (withdrawn y) (returned y) (canceled y))
        end
  | DriverOffers id event =>
      Some (driver_events y id (fun p =>
        match state p with
        | Idle | Demanded => let '(p, _, _, _) := offer_poll p (OfferPending event) driver_task in Some p
        | _ => None
        end))
  | DriverWithdraws id =>
      Some (driver_events y id (fun p =>
        match state p with Offered _ => let '(p, _, _) := offer_drop p Submitted in Some p | _ => None end))
  | DriverEnds id failure lost =>
      Some (driver_events y id (fun p =>
        let terminal := match failure with Some e => Failed e | None => if lost then Disconnected else Pipe.Closed end in
        match finish p terminal with (p, _, Returns _) => Some p | _ => None end))
  end.

Fixpoint office_run (y : Office) (actions : list OfficeAction) : option Office :=
  match actions with
  | [] => Some y
  | a :: actions => match office_act y a with Some y => office_run y actions | None => None end
  end.

(** ** The invariant *)

(** The requests of the sends that still wait. *)
Definition waiting_requests (m : gmap Waker (option ClaimTarget * Sending Q)) : list Q :=
  omap (fun x => waiting_of (snd (snd x))) (map_to_list m).

Definition task_ok (y : Office) (w : Waker) (f : Sending Q) : Prop :=
  reservations (sys y) !! w = reservation_of f /\
  match f with
  | SendStarting (Reserving _ _) => True
  | SendObserving o _ =>
      ob_finished o = false /\ exists c, cells y !! ob_cell o = Some c /\ is_abandoned (cl_events c) = false
  | _ => False
  end.

Record OfficeInv (y : Office) : Prop := {
  o_admission : Admission.Inv (sys y);
  o_tasks : forall w target f, tasks y !! w = Some (target, f) -> task_ok y w f;
  o_cells : forall v w t1 t2 o1 o2 c1 c2, tasks y !! v = Some (t1, SendObserving o1 c1) -> tasks y !! w = Some (t2, SendObserving o2 c2) ->
    ob_cell o1 = ob_cell o2 -> v = w;
  o_jobs : map job_cell (submitted (sys y)) = seq 0 (length (cells y));
  o_requests : started y ≡ₚ waiting_requests (tasks y) ++ withdrawn y ++ map sub_request (returned y) ++
    map job_request (submitted (sys y));
  o_canceled : forall id, id ∈ canceled y -> exists c, cells y !! id = Some c /\ exchange_canceled (cl_control c) = true;
}.

Lemma waiting_insert (m : gmap Waker (option ClaimTarget * Sending Q)) w target f : m !! w = None ->
  waiting_requests (<[w := (target, f)]> m) ≡ₚ opt_list (waiting_of f) ++ waiting_requests m.
Proof. intros Hw. unfold waiting_requests. rewrite map_to_list_insert by done. simpl. by destruct (waiting_of f). Qed.

Lemma waiting_delete (m : gmap Waker (option ClaimTarget * Sending Q)) w target f : m !! w = Some (target, f) ->
  waiting_requests m ≡ₚ opt_list (waiting_of f) ++ waiting_requests (delete w m).
Proof.
  intros Hw. rewrite <- (waiting_insert (delete w m) w target f) by (by rewrite lookup_delete_eq).
  by rewrite insert_delete_id.
Qed.

Lemma waiting_update (m : gmap Waker (option ClaimTarget * Sending Q)) w target f target' f' : m !! w = Some (target, f) ->
  exists rest, waiting_requests m ≡ₚ opt_list (waiting_of f) ++ rest /\
    waiting_requests (<[w := (target', f')]> m) ≡ₚ opt_list (waiting_of f') ++ rest /\ waiting_requests (delete w m) = rest.
Proof.
  intros Hw. exists (waiting_requests (delete w m)). split_and!; [by eapply waiting_delete| |done].
  rewrite <- insert_delete_eq. apply waiting_insert. by rewrite lookup_delete_eq.
Qed.

(** ** Submission and the admission protocol *)

Lemma permits_nonneg (y : @Admission.Sys (Job Q)) : Admission.Inv y -> 0 <= permits y.
Proof. intros Hi. pose proof (i_permits y Hi) as Hp. destruct (admission (st y)); lia. Qed.

(** Sending with a permit is the protocol's own step, its error path included. *)
Lemma permit_send_request_ok (y : @Admission.Sys (Job Q)) (cs : list (Cell I F T)) wk nk request d r :
  Admission.Inv y -> 0 < permits y -> permit_send_request (mkSubmissions (st y) cs wk nk) request = (d, r) ->
  exists wk' jobs, d_woken d = wk ++ wk' /\
    Admission.Inv (Admission.mkSys (d_admission d) (permits y - 1) (reservations y) (driver y) (woken y ∪ list_to_set wk')
      (submitted y ++ jobs) (taken y) (dropped y)) /\
    match r with
    | Panics => False
    | Returns (Err e) => sub_request e = request /\ d_cells d = cs /\ jobs = []
    | Returns (Ok o) => o = mkObservation (length cs) false false /\ d_cells d = cs ++ [Cell_new] /\ jobs = [mkJob request (length cs)]
    end.
Proof.
  intros Hi Hp. pose proof (admission_act_inv y (SendPermit (mkJob request (length cs))) Hi) as Hk. unfold act in Hk.
  rewrite (proj2 (Z.ltb_lt _ _) Hp) in Hk. unfold permit_send_request. cbn [d_cells d_admission].
  destruct (permit_send (st y) (mkJob request (length cs))) as [[s wk1] [[u|[job e]]|]] eqn:Es; [| |done].
  - intros [= <- <-]. exists wk1, [mkJob request (length cs)]. split_and!; [done| |done..].
    unfold with_jobs, with_permits, with_st, kept in Hk. simpl in *. by rewrite !app_nil_r in Hk.
  - assert (job = mkJob request (length cs)) as ->.
    { revert Es. unfold permit_send. destruct (_ || _); [by intros [= _ _ <- _]|]. by destruct (admission (st y)). }
    unfold drop_permit, kept in Hk. simpl in *. destruct (release s) as [[s2 wk2] [u|]]; [|done].
    intros [= <- <-]. exists (wk1 ++ wk2), []. simpl. split_and!; [done| |done..]. unfold with_permits, with_st in Hk. simpl in Hk.
    rewrite app_nil_r. by rewrite list_to_set_app_L, (assoc_L (∪)).
Qed.

Lemma reserve_drop_woken (wo : gset Waker) w : (wo ∪ list_to_set []) ∖ {[w]} ∪ list_to_set [] = wo ∖ {[w]}.
Proof. set_solver. Qed.

Lemma start_request_ok (y : @Admission.Sys (Job Q)) (cs : list (Cell I F T)) w reg request f' d r :
  Admission.Inv y -> reservations y !! w = Some reg ->
  start_request w (Reserving reg request) (mkSubmissions (st y) cs [] []) = (f', d, r) ->
  match r with
  | Pending => exists reg', f' = Reserving reg' request /\ d_cells d = cs /\ Admission.Inv (stepped y w (Some reg') d [])
  | Ready Panics => False
  | Ready (Returns (Err e)) => sub_request e = request /\ d_cells d = cs /\ Admission.Inv (stepped y w None d [])
  | Ready (Returns (Ok o)) => o = mkObservation (length cs) false false /\ d_cells d = cs ++ [Cell_new] /\
      Admission.Inv (stepped y w None d [mkJob request (length cs)])
  end.
Proof.
  intros Hi Hw. pose proof (admission_act_inv y (PollReserve w) Hi) as Hk. unfold act in Hk. rewrite Hw in Hk.
  unfold start_request. cbn [d_admission]. destruct (reserve_poll (st y) reg w) as [[s reg'] [[reserved|]|]]; [| |done].
  2: { intros [= <- <- <-]. exists reg'. split_and!; [done..|]. unfold stepped, kept, with_reservations, polled, with_st in *. simpl in *.
       by rewrite app_nil_r, (right_id_L ∅ (∪)) in *. }
  unfold kept, with_permits, with_reservations, polled, with_st in Hk. simpl in Hk. rewrite reserve_drop_woken in Hk.
  unfold set_admission. cbn [d_cells d_woken d_notified]. destruct reserved as [u|e]; simpl in Hk.
  - match type of Hk with Admission.Inv ?y1 => pose proof (permits_nonneg y Hi) as Hp;
      destruct (permit_send_request (mkSubmissions (reservation_drop s reg') cs [] []) request) as [d1 r1] eqn:Es;
      destruct (permit_send_request_ok y1 cs [] [] request d1 r1 Hk ltac:(simpl; lia) Es) as (wk & jobs & Hwk & Hinv & Hr) end.
    simpl in Hwk, Hinv. replace (permits y + 1 - 1) with (permits y) in Hinv by lia. intros [= <- <- <-].
    unfold stepped. rewrite Hwk. destruct r1 as [[o|e]|]; [| |done]; destruct Hr as (? & ? & ->); by split_and!.
  - intros [= <- <- <-]. split_and!; [done..|]. unfold stepped. simpl. rewrite app_nil_r, (right_id_L ∅ (∪)).
    by rewrite Z.add_0_r in Hk.
Qed.

(** ** Observation and its cell *)

(** Only the events of the cell [id] changed, and its consumer is still there. *)
Definition events_step (id : nat) (c : Cell I F T) (p : @Pipe.Shared Event Error) (d d' : Submissions Q I F T) : Prop :=
  d_admission d' = d_admission d /\ d_woken d' = d_woken d /\
  d_cells d' = <[id := mkCell p (cl_control c) (cl_upgrade c) (cl_completion c)]> (d_cells d) /\ is_abandoned p = false.

Lemma next_event_ok w (d : Submissions Q I F T) o c d' o' r :
  ob_finished o = false -> d_cells d !! ob_cell o = Some c -> is_abandoned (cl_events c) = false ->
  next_event_poll w d o = (d', o', r) ->
  ob_cell o' = ob_cell o /\ exists p, events_step (ob_cell o) c p d d' /\
    match r with
    | Panics => False
    | Returns Pending => ob_finished o' = false
    | Returns (Ready (Ok (Some (Informational _)))) => ob_finished o' = false /\ state p = Idle
    | Returns (Ready (Ok None)) => False
    | Returns (Ready _) => True
    end /\ (state (cl_events c) = Idle -> r = Returns Pending).
Proof.
  intros Hf Hc Ha. unfold next_event_poll. rewrite Hf, Hc. destruct c as [[st pw cw] k u cs]. unfold is_abandoned in Ha. simpl in Ha.
  unfold take_poll, events_step. simpl.
  destruct st as [| |[i|f]| | |e|item]; [..|done]; simpl; intros [= <- <- <-];
    (split; [done|]); eexists; (split; [by split_and!|]); by rewrite ?Hf.
Qed.

(** Two turns are enough for a poll: a rendezvous holds one event. *)
Lemma response_turns_ok w (d : Submissions Q I F T) o c d' o' r :
  ob_finished o = false -> d_cells d !! ob_cell o = Some c -> is_abandoned (cl_events c) = false ->
  response_turns w 2 d o = (d', o', r) ->
  ob_cell o' = ob_cell o /\ exists p, events_step (ob_cell o) c p d d' /\
    match r with
    | None | Some Panics => False
    | Some (Returns Pending) => ob_finished o' = false
    | Some (Returns (Ready _)) => True
    end.
Proof.
  intros Hf Hc Ha. cbn [response_turns]. destruct (next_event_poll w d o) as [[d1 o1] r1] eqn:E1.
  destruct (next_event_ok _ _ _ _ _ _ _ Hf Hc Ha E1) as (Ho1 & p1 & Hs1 & Hr1 & _).
  destruct r1 as [[[[[i|f]|]|e]|]|]; [|intros [= <- <- <-]; by eauto| |intros [= <- <- <-]; by eauto..]; [|done].
  destruct Hr1 as [Hf1 Hidle]. destruct (next_event_poll w d1 o1) as [[d2 o2] r2] eqn:E2. destruct Hs1 as (Ha1 & Hw1 & Hc1 & Hn1).
  assert (d_cells d1 !! ob_cell o1 = Some (mkCell p1 (cl_control c) (cl_upgrade c) (cl_completion c))) as Hl.
  { rewrite Hc1, Ho1. apply list_lookup_insert_eq. by eapply lookup_lt_Some. }
  destruct (next_event_ok _ _ _ _ _ _ _ Hf1 Hl Hn1 E2) as (Ho2 & p2 & (Ha2 & Hw2 & Hc2 & Hn2) & Hr2 & Hp).
  rewrite (Hp Hidle) in *. intros [= <- <- <-]. split; [congruence|]. exists p2. split; [|done].
  unfold events_step. rewrite Ha2, Hw2, Hc2, Hc1, Ho1. simpl. by rewrite list_insert_insert_eq.
Qed.

(** A cell stays, and stays canceled; the others do not change. *)
Definition cells_step (id : nat) (cs cs' : list (Cell I F T)) : Prop :=
  length cs' = length cs /\ (forall j, j <> id -> cs' !! j = cs !! j) /\
  forall c, cs !! id = Some c -> exists c', cs' !! id = Some c' /\ (exchange_canceled (cl_control c) = true -> exchange_canceled (cl_control c') = true).

Lemma cells_step_insert id (cs : list (Cell I F T)) c :
  (forall c0, cs !! id = Some c0 -> exchange_canceled (cl_control c0) = true -> exchange_canceled (cl_control c) = true) ->
  cells_step id cs (<[id := c]> cs).
Proof.
  intros Hc. split; [apply length_insert|]. split; [intros j Hj; by apply list_lookup_insert_ne|].
  intros c0 H0. exists c. split; [apply list_lookup_insert_eq; by eapply lookup_lt_Some|by apply Hc].
Qed.

Lemma cells_step_refl id cs : cells_step id cs cs.
Proof. split_and!; [done..|]. intros c Hc. by exists c. Qed.

Lemma cells_step_trans id cs1 cs2 cs3 : cells_step id cs1 cs2 -> cells_step id cs2 cs3 -> cells_step id cs1 cs3.
Proof.
  intros (L1 & O1 & C1) (L2 & O2 & C2). split_and!; [congruence|intros j Hj; by rewrite O2, O1|].
  intros c Hc. destruct (C1 c Hc) as (c2 & H2 & M2). destruct (C2 c2 H2) as (c3 & H3 & M3). exists c3. auto.
Qed.

(** What a send does to the desk while it observes its cell. *)
Definition desk_step (id : nat) (d d' : Submissions Q I F T) : Prop :=
  d_admission d' = d_admission d /\ d_woken d' = d_woken d /\ cells_step id (d_cells d) (d_cells d').

Lemma desk_step_trans id d1 d2 d3 : desk_step id d1 d2 -> desk_step id d2 d3 -> desk_step id d1 d3.
Proof. intros (A1 & W1 & C1) (A2 & W2 & C2). split_and!; [congruence..|by eapply cells_step_trans]. Qed.

Lemma observation_drop_step (d : Submissions Q I F T) o : desk_step (ob_cell o) d (observation_drop d o).
Proof.
  unfold observation_drop. destruct (d_cells d !! ob_cell o) as [c|] eqn:Hc; [|split_and!; [done..|apply cells_step_refl]].
  destruct (consumer_drop (cl_events c)) as [p wk]. unfold set_events. split_and!; [done..|]. simpl. apply cells_step_insert.
  rewrite Hc. intros ? [= <-] Hk. by destruct (ob_delivered o).
Qed.

Lemma claim_upgrade_step (d : Submissions Q I F T) o target d' claim : claim_upgrade d o target = (d', claim) ->
  desk_step (ob_cell o) d d' /\ (forall c, d_cells d !! ob_cell o = Some c -> exists c', d_cells d' !! ob_cell o = Some c' /\ cl_events c' = cl_events c).
Proof.
  assert (Hid : desk_step (ob_cell o) d d) by (split_and!; [done..|apply cells_step_refl]).
  unfold claim_upgrade. destruct target as [t|]; [|intros [= <- _]; by eauto].
  destruct (d_cells d !! ob_cell o) as [c|] eqn:Hc; [|intros [= <- _]; split; [done|congruence]].
  destruct (claim_target (cl_upgrade c) t) as [u cl]. intros [= <- <-]. split.
  - split_and!; [done..|]. simpl. apply cells_step_insert. rewrite Hc. by intros ? [= <-].
  - intros ? [= <-]. eexists. split; [apply list_lookup_insert_eq; by eapply lookup_lt_Some|done].
Qed.

Lemma claim_drop_step (d : Submissions Q I F T) o claim : desk_step (ob_cell o) d (claim_drop d o claim).
Proof.
  assert (Hid : desk_step (ob_cell o) d d) by (split_and!; [done..|apply cells_step_refl]).
  unfold claim_drop. destruct claim as [cl|]; [|done]. destruct (d_cells d !! ob_cell o) as [c|] eqn:Hc; [|done].
  split_and!; [done..|]. simpl. apply cells_step_insert. rewrite Hc. by intros ? [= <-].
Qed.

(** A poll of an observation keeps it alive, or answers. *)
Lemma observe_ok w (d : Submissions Q I F T) o claim c f' d' r :
  ob_finished o = false -> d_cells d !! ob_cell o = Some c -> is_abandoned (cl_events c) = false ->
  observe_response w d o claim = (f', d', r) ->
  desk_step (ob_cell o) d d' /\ failed_poll r = false /\ submission_of r = [] /\ waiting_of f' = None /\ reservation_of f' = None /\
  (r = Pending -> exists o', f' = SendObserving o' claim /\ ob_cell o' = ob_cell o /\ ob_finished o' = false /\
     exists c', d_cells d' !! ob_cell o = Some c' /\ is_abandoned (cl_events c') = false).
Proof.
  intros Hf Hc Ha. unfold observe_response. destruct (response_turns w 2 d o) as [[d1 o1] r1] eqn:E1.
  destruct (response_turns_ok _ _ _ _ _ _ _ Hf Hc Ha E1) as (Ho1 & p1 & (Ha1 & Hw1 & Hc1 & Hn1) & Hr1).
  assert (desk_step (ob_cell o) d d1) as Hd1.
  { split_and!; [done..|]. rewrite Hc1. apply cells_step_insert. rewrite Hc. by intros ? [= <-]. }
  destruct r1 as [[[[f|e]|]|]|]; [| | |done..]; intros [= <- <- <-].
  - split; [|by split_and!]. eapply desk_step_trans; [exact Hd1|]. rewrite <- Ho1. apply observation_drop_step.
  - split; [|by split_and!]. eapply desk_step_trans; [exact Hd1|]. rewrite <- Ho1.
    eapply desk_step_trans; [apply observation_drop_step|apply claim_drop_step].
  - split; [done|]. split_and!; [done..|]. intros _. exists o1. split_and!; [done..|]. eexists. rewrite Hc1.
    split; [apply list_lookup_insert_eq; by eapply lookup_lt_Some|exact Hn1].
Qed.

(** ** Every action keeps the invariant *)

(** Cells are added, or the cell [id] changes. *)
Definition cells_keep (id : nat) (cs cs' : list (Cell I F T)) : Prop :=
  (forall j c, j <> id -> cs !! j = Some c -> cs' !! j = Some c) /\
  forall c, cs !! id = Some c -> exists c', cs' !! id = Some c' /\ (exchange_canceled (cl_control c) = true -> exchange_canceled (cl_control c') = true).

Lemma cells_step_keep id cs cs' : cells_step id cs cs' -> cells_keep id cs cs'.
Proof. intros (_ & Ho & Hc). split; [|done]. intros j c Hj Hl. by rewrite Ho. Qed.

Lemma cells_keep_app (cs cs' : list (Cell I F T)) : cells_keep (length cs) cs (cs ++ cs').
Proof.
  split; [intros j c _ Hl; by apply lookup_app_l_Some|]. intros c Hl. apply lookup_lt_Some in Hl. lia.
Qed.

Lemma cells_keep_step id cs cs1 cs2 : cells_keep id cs cs1 -> cells_step id cs1 cs2 -> cells_keep id cs cs2.
Proof.
  intros [Ho Hc] (_ & Ho2 & Hc2). split.
  - intros j c Hj Hl. rewrite Ho2 by done. by apply Ho.
  - intros c Hl. destruct (Hc c Hl) as (c1 & H1 & M1). destruct (Hc2 c1 H1) as (c2 & H2 & M2). exists c2. auto.
Qed.

Lemma canceled_keep id (cs cs' : list (Cell I F T)) (ids : list nat) : cells_keep id cs cs' ->
  (forall j, j ∈ ids -> exists c, cs !! j = Some c /\ exchange_canceled (cl_control c) = true) ->
  forall j, j ∈ ids -> exists c, cs' !! j = Some c /\ exchange_canceled (cl_control c) = true.
Proof.
  intros [Ho Hc] Hids j Hj. destruct (Hids j Hj) as (c & Hl & Hk). destruct (decide (j = id)) as [->|Hne]; [|by eauto].
  destruct (Hc c Hl) as (c' & Hl' & Hm). eauto.
Qed.

(** The tasks after a step of [w] on the cell [id]. *)
Lemma tasks_keep y y' w id : OfficeInv y ->
  (forall v, v <> w -> tasks y' !! v = tasks y !! v) ->
  (forall v, v <> w -> reservations (sys y') !! v = reservations (sys y) !! v) -> cells_keep id (cells y) (cells y') ->
  (forall v t o c, v <> w -> tasks y !! v = Some (t, SendObserving o c) -> ob_cell o <> id) ->
  (forall t f, tasks y' !! w = Some (t, f) -> task_ok y' w f /\ forall o c, f = SendObserving o c -> ob_cell o = id) ->
  (forall v t f, tasks y' !! v = Some (t, f) -> task_ok y' v f) /\
  (forall v u t1 t2 o1 o2 c1 c2, tasks y' !! v = Some (t1, SendObserving o1 c1) -> tasks y' !! u = Some (t2, SendObserving o2 c2) ->
    ob_cell o1 = ob_cell o2 -> v = u).
Proof.
  intros Hy Ht Hr [Hother _] Hid Hw. split.
  - intros v t f Hv. destruct (decide (v = w)) as [->|Hne]; [by apply (Hw t f)|]. rewrite Ht in Hv by done.
    destruct (o_tasks y Hy _ _ _ Hv) as [Hres Hf]. split; [by rewrite Hr|]. destruct f as [[]|o c|]; [done..| |done].
    destruct Hf as (Hfin & cell & Hl & Ha). split; [done|]. exists cell. split; [|done]. apply Hother; [|done]. by eapply Hid.
  - intros v u t1 t2 o1 o2 c1 c2 Hv Hu Heq. destruct (decide (v = w)) as [->|Hv'], (decide (u = w)) as [->|Hu']; [done|..].
    + rewrite Ht in Hu by done. destruct (Hw _ _ Hv) as [_ Hc1]. destruct (Hid _ _ _ _ Hu' Hu). rewrite <- Heq. by eapply Hc1.
    + rewrite Ht in Hv by done. destruct (Hw _ _ Hu) as [_ Hc2]. destruct (Hid _ _ _ _ Hv' Hv). rewrite Heq. by eapply Hc2.
    + rewrite Ht in Hv, Hu by done. by eapply (o_cells y Hy).
Qed.

Lemma observed_lt y w t o c : OfficeInv y -> tasks y !! w = Some (t, SendObserving o c) -> (ob_cell o < length (cells y))%nat.
Proof. intros Hy Hw. destruct (o_tasks y Hy _ _ _ Hw) as (_ & _ & cell & Hl & _). by eapply lookup_lt_Some. Qed.

(** *** The rest of the program *)

Lemma act_others (y y' : @Admission.Sys (Job Q)) a : act y a = Next y' -> sends a = false ->
  submitted y' = submitted y /\ forall w, reserves a <> Some w -> reservations y' !! w = reservations y !! w.
Proof.
  assert (Hdrop : forall z z' : @Admission.Sys (Job Q), drop_permit z = Next z' -> submitted z' = submitted z /\ reservations z' = reservations z).
  { intros z z'. unfold drop_permit. destruct (release (st z)) as [[s wk] [u|]]; [|done]. by intros [= <-]. }
  intros Ha Hs. destruct a as [| | |w|w|w|job| | | | |r]; simpl in *; try done.
  all: repeat case_match; try done; try (apply Hdrop in Ha as [E1 E2]; rewrite E1, E2; by split);
    simplify_eq; simpl; rewrite ?app_nil_r; (split; [done|]); intros v Hv; try done.
  all: first [rewrite lookup_insert_ne by congruence; done|rewrite lookup_delete_ne by congruence; done].
Qed.

Definition goes (y : Office) (a : OfficeAction) : Prop := exists y', office_act y a = Some y' /\ OfficeInv y'.

Lemma other_goes y a : OfficeInv y -> goes y (Other a).
Proof.
  intros Hy. unfold goes, office_act. destruct (sends a || _) eqn:Eg; [by eauto|]. apply orb_false_iff in Eg as [Hs Hr].
  pose proof (admission_act_inv (sys y) a (o_admission y Hy)) as Hk. destruct (act (sys y) a) as [| |s] eqn:Ea; [by eauto|done|].
  destruct (act_others _ _ _ Ea Hs) as [Hsub Hres]. eexists. split; [done|]. destruct Hy as [Ha Ht Hc Hj Hq Hk'].
  constructor; simpl; rewrite ?Hsub; try done. intros w target f Hw. destruct (Ht w target f Hw) as [Hw' Hf]. split; [|done]. simpl.
  rewrite Hres; [done|]. intros E. rewrite E in Hr. apply bool_decide_eq_false in Hr. destruct Hr. by eexists.
Qed.

Lemma spawn_goes y w target request : OfficeInv y -> goes y (Spawn w target request).
Proof.
  intros Hy. unfold goes, office_act. case_bool_decide as Hw; [by eauto|]. apply eq_None_not_Some in Hw.
  pose proof (admission_act_inv (sys y) (StartReserve w) (o_admission y Hy)) as Hk.
  destruct (act (sys y) (StartReserve w)) as [| |s] eqn:Ea; [by eauto|done|].
  destruct (act_others _ _ _ Ea eq_refl) as [Hsub Hres]. eexists. split; [done|].
  assert (reservations s !! w = Some false) as Hnew.
  { simpl in Ea. destruct (_ && _); [|done]. injection Ea as <-. simpl. by rewrite lookup_insert_eq. }
  destruct (tasks_keep y (mkOffice s (cells y) (<[w := (target, SendStarting (Reserving false request))]> (tasks y)) (started y ++ [request])
    (withdrawn y) (returned y) (canceled y)) w (length (cells y)) Hy) as [Htasks Hcells]; simpl.
  - intros v Hv. by rewrite lookup_insert_ne.
  - intros v Hv. apply Hres. simpl. congruence.
  - rewrite <- (app_nil_r (cells y)) at 3. apply cells_keep_app.
  - intros v t o c _ Hv Heq. pose proof (observed_lt _ _ _ _ _ Hy Hv). lia.
  - intros t f. rewrite lookup_insert_eq. intros [= <- <-]. done.
  - destruct Hy as [Ha Ht Hc Hj Hq Hk']. constructor; simpl; rewrite ?Hsub; try done.
    rewrite waiting_insert, Hq by done. simpl. solve_Permutation.
Qed.

(** *** The sends *)

(** After a step of [w] on the cell [id] that queued [jobs]. *)
Lemma step_inv y y' w id jobs : OfficeInv y -> Admission.Inv (sys y') ->
  (forall v, v <> w -> tasks y' !! v = tasks y !! v) ->
  (forall v, v <> w -> reservations (sys y') !! v = reservations (sys y) !! v) -> cells_keep id (cells y) (cells y') ->
  (forall v t o c, v <> w -> tasks y !! v = Some (t, SendObserving o c) -> ob_cell o <> id) ->
  (forall t f, tasks y' !! w = Some (t, f) -> task_ok y' w f /\ forall o c, f = SendObserving o c -> ob_cell o = id) ->
  submitted (sys y') = submitted (sys y) ++ jobs -> length (cells y') = (length (cells y) + length jobs)%nat ->
  map job_cell jobs = seq (length (cells y)) (length jobs) ->
  (started y ≡ₚ waiting_requests (tasks y) ++ withdrawn y ++ map sub_request (returned y) ++ map job_request (submitted (sys y)) ->
   started y' ≡ₚ waiting_requests (tasks y') ++ withdrawn y' ++ map sub_request (returned y') ++ map job_request (submitted (sys y) ++ jobs)) ->
  (forall j, j ∈ canceled y' -> j ∈ canceled y \/ exists c, cells y' !! j = Some c /\ exchange_canceled (cl_control c) = true) ->
  OfficeInv y'.
Proof.
  intros Hy Hi Ht Hr Hc Hid Hw Hsub Hlen Hjobs Hq Hcan. destruct (tasks_keep y y' w id Hy Ht Hr Hc Hid Hw) as [Htasks Hcells].
  constructor; [done..| | |].
  - rewrite Hsub, map_app, Hjobs, (o_jobs y Hy), Hlen, seq_app. done.
  - rewrite Hsub. apply Hq, Hy.
  - intros j Hj. destruct (Hcan j Hj) as [Hj'|Hj']; [|done]. by eapply canceled_keep; [exact Hc|apply Hy|].
Qed.

(** A cell that does not exist yet is observed by nobody. *)
Lemma fresh_cell y w v t o c : OfficeInv y -> v <> w -> tasks y !! v = Some (t, SendObserving o c) -> ob_cell o <> length (cells y).
Proof. intros Hy _ Hv Heq. pose proof (observed_lt _ _ _ _ _ Hy Hv). lia. Qed.

Lemma other_cell y w v t o c t' o' c' : OfficeInv y -> tasks y !! w = Some (t, SendObserving o c) -> v <> w ->
  tasks y !! v = Some (t', SendObserving o' c') -> ob_cell o' <> ob_cell o.
Proof. intros Hy Hw Hne Hv Heq. apply Hne. by eapply (o_cells y Hy). Qed.

(** Its reservation stays. *)
Lemma waits_inv y w target registered request registered' (d : Submissions Q I F T) : OfficeInv y ->
  tasks y !! w = Some (target, SendStarting (Reserving registered request)) -> Admission.Inv (stepped (sys y) w (Some registered') d []) ->
  OfficeInv (mkOffice (stepped (sys y) w (Some registered') d []) (cells y)
    (<[w := (target, SendStarting (Reserving registered' request))]> (tasks y)) (started y) (withdrawn y) (returned y) (canceled y)).
Proof.
  intros Hy Hw Hinv. apply (step_inv y _ w (length (cells y)) [] Hy); simpl; try done; rewrite ?app_nil_r; auto.
  - intros v Hv. by rewrite lookup_insert_ne.
  - intros v Hv. by rewrite lookup_insert_ne.
  - rewrite <- (app_nil_r (cells y)) at 3. apply cells_keep_app.
  - intros v t o c. by apply fresh_cell.
  - intros t f. rewrite lookup_insert_eq. intros [= <- <-]. split; [|done]. split; [simpl; by rewrite lookup_insert_eq|done].
  - intros Hq. rewrite Hq.
    destruct (waiting_update (tasks y) w target _ target (SendStarting (Reserving registered' request)) Hw) as (rest & -> & -> & _). done.
Qed.

(** It is gone and the request is back, with its error or with its caller. *)
Lemma leaves_inv y w target registered request (s : @Admission.Sys (Job Q)) gone back : OfficeInv y ->
  tasks y !! w = Some (target, SendStarting (Reserving registered request)) -> Admission.Inv s ->
  reservations s = delete w (reservations (sys y)) -> submitted s = submitted (sys y) -> gone ++ map sub_request back = [request] ->
  OfficeInv (mkOffice s (cells y) (delete w (tasks y)) (started y) (withdrawn y ++ gone) (returned y ++ back) (canceled y)).
Proof.
  intros Hy Hw Hinv Hres Hsub Hback. apply (step_inv y _ w (length (cells y)) [] Hy); simpl; try done; rewrite ?app_nil_r, ?Hres; auto.
  - intros v Hv. by rewrite lookup_delete_ne.
  - intros v Hv. by rewrite lookup_delete_ne.
  - rewrite <- (app_nil_r (cells y)) at 3. apply cells_keep_app.
  - intros v t o c. by apply fresh_cell.
  - intros t f. by rewrite lookup_delete_eq.
  - intros Hq. rewrite Hq. destruct (waiting_update (tasks y) w target _ target SendDone Hw) as (rest & -> & _ & ->).
    rewrite map_app. simpl. rewrite app_comm_cons. change (request :: rest) with ([request] ++ rest). rewrite <- Hback. solve_Permutation.
Qed.

(** It is accepted: a task [w] that was waiting, or a permit's holder. *)
Lemma accepted_inv y w target request (s : @Admission.Sys (Job Q)) (d d' : Submissions Q I F T) claim tasks' started' : OfficeInv y ->
  Admission.Inv s -> submitted s = submitted (sys y) ++ [mkJob request (length (cells y))] ->
  (forall v, v <> w -> reservations s !! v = reservations (sys y) !! v) -> reservations s !! w = None ->
  (forall v, v <> w -> tasks' !! v = tasks y !! v) -> cells_keep (length (cells y)) (cells y) (d_cells d') ->
  length (d_cells d') = S (length (cells y)) ->
  (forall x, tasks' !! w = Some x -> exists o c, x = (target, SendObserving o claim) /\ ob_cell o = length (cells y) /\ ob_finished o = false /\
     d_cells d' !! length (cells y) = Some c /\ is_abandoned (cl_events c) = false) ->
  (started y ≡ₚ waiting_requests (tasks y) ++ withdrawn y ++ map sub_request (returned y) ++ map job_request (submitted (sys y)) ->
   started' ≡ₚ request :: waiting_requests tasks' ++ withdrawn y ++ map sub_request (returned y) ++ map job_request (submitted (sys y))) ->
  OfficeInv (mkOffice s (d_cells d') tasks' started' (withdrawn y) (returned y) (canceled y)).
Proof.
  intros Hy Hinv Hsub Hres Hnone Ht Hc Hlen Htask Hq.
  apply (step_inv y _ w (length (cells y)) [mkJob request (length (cells y))] Hy); simpl; rewrite ?Hlen; auto.
  - intros v t o c. by apply fresh_cell.
  - intros t f Hf. destruct (Htask _ Hf) as (o & c & [= -> ->] & Ho & Hfin & Hl & Ha). split; [|by intros ? ? [= <- _]].
    split; [done|]. split; [done|]. exists c. by rewrite Ho.
  - lia.
  - intros H. rewrite (Hq H), map_app. simpl. solve_Permutation.
Qed.

(** What an accepted request observes first. *)
Lemma accepted_observes (y : Office) (d d' : Submissions Q I F T) target claim :
  d_cells d = cells y ++ [Cell_new] -> claim_upgrade d (mkObservation (length (cells y)) false false) target = (d', claim) ->
  d_admission d' = d_admission d /\ d_woken d' = d_woken d /\ cells_keep (length (cells y)) (cells y) (d_cells d') /\
  length (d_cells d') = S (length (cells y)) /\ exists c, d_cells d' !! length (cells y) = Some c /\ is_abandoned (cl_events c) = false.
Proof.
  intros Hcells Eu. destruct (claim_upgrade_step _ _ _ _ _ Eu) as [(Ha & Hw & Hs) Hev]. simpl in Hs, Hev.
  destruct (Hev Cell_new) as (c & Hc & He); [rewrite Hcells, lookup_app_r, Nat.sub_diag by lia; done|].
  split_and!; [done..| | |exists c; by rewrite He].
  - eapply cells_keep_step; [|exact Hs]. rewrite Hcells. apply cells_keep_app.
  - destruct Hs as [-> _]. rewrite Hcells, length_app. simpl. lia.
Qed.

Lemma reserving_goes y w target registered request : OfficeInv y -> tasks y !! w = Some (target, SendStarting (Reserving registered request)) ->
  goes y (PollTask w).
Proof.
  intros Hy Hw. destruct (o_tasks y Hy _ _ _ Hw) as [Hres _]. simpl in Hres. unfold goes, office_act. rewrite Hw.
  unfold send_request_with, poll. destruct (start_request w (Reserving registered request) (desk y)) as [[f1 d1] r1] eqn:Es.
  pose proof (start_request_ok (sys y) (cells y) w registered request f1 d1 r1 (o_admission y Hy) Hres Es) as Hr. unfold job_of.
  destruct r1 as [[[o|e]|]|]; [| |done|].
  2: { destruct Hr as (He & Hcells & Hinv). eexists. split; [reflexivity|]. cbn [waiting_of reservation_of]. rewrite Hcells, Nat.eqb_refl.
       rewrite <- (app_nil_r (withdrawn y)). eapply (leaves_inv y w target registered request); [done|done|exact Hinv|done|apply app_nil_r|].
       simpl. by rewrite He. }
  2: { destruct Hr as (reg' & -> & Hcells & Hinv). eexists. split; [reflexivity|]. cbn [waiting_of reservation_of submission_of].
       rewrite Hcells, Nat.eqb_refl, app_nil_r. by eapply waits_inv. }
  destruct Hr as (-> & Hcells & Hinv). destruct (claim_upgrade d1 _ target) as [d2 claim] eqn:Eu.
  destruct (accepted_observes y d1 d2 target claim Hcells Eu) as (Ha2 & Hw2 & Hk2 & Hl2 & c2 & Hc2 & Hn2).
  destruct (observe_response w d2 _ claim) as [[f3 d3] r3] eqn:Eo.
  destruct (observe_ok w d2 (mkObservation (length (cells y)) false false) claim c2 f3 d3 r3 eq_refl Hc2 Hn2 Eo)
    as ((Ha3 & Hw3 & Hs3) & -> & Hsub & Hwait & Hresv & Hpend). simpl in Hs3, Hpend.
  assert (length (d_cells d3) = S (length (cells y))) as Hl3 by (destruct Hs3 as [-> _]; done).
  eexists. split; [reflexivity|]. cbn [waiting_of reservation_of]. rewrite Hsub, app_nil_r, Hresv, Hl3.
  rewrite (proj2 (Nat.eqb_neq (S (length (cells y))) (length (cells y)))) by lia.
  apply (accepted_inv y w target request _ d2 d3 claim); simpl; [done|unfold stepped in *; by rewrite Ha3, Ha2, Hw3, Hw2|done| | | |
    by eapply cells_keep_step|done| |].
  - intros v Hv. by rewrite lookup_delete_ne.
  - by rewrite lookup_delete_eq.
  - intros v Hv. destruct r3; [by rewrite lookup_delete_ne|by rewrite lookup_insert_ne].
  - intros x. destruct r3; [by rewrite lookup_delete_eq|]. rewrite lookup_insert_eq. intros [= <-].
    destruct Hpend as (o' & -> & Ho' & Hf' & c' & Hc' & Ha'); [done|]. by exists o', c'.
  - intros Hq. rewrite Hq. destruct (waiting_update (tasks y) w target _ target f3 Hw) as (rest & -> & Hins & Hdel). simpl.
    destruct r3; [by rewrite Hdel|]. rewrite Hins, Hwait. done.
Qed.

(** A step of an observation on its own cell. *)
Lemma observing_inv y w target o claim (d : Submissions Q I F T) tasks' ids : OfficeInv y ->
  tasks y !! w = Some (target, SendObserving o claim) -> cells_step (ob_cell o) (cells y) (d_cells d) ->
  (forall v, v <> w -> tasks' !! v = tasks y !! v) ->
  (forall x, tasks' !! w = Some x -> exists o' c, x = (target, SendObserving o' claim) /\ ob_cell o' = ob_cell o /\ ob_finished o' = false /\
     d_cells d !! ob_cell o = Some c /\ is_abandoned (cl_events c) = false) ->
  (forall j, j ∈ ids -> exists c, d_cells d !! j = Some c /\ exchange_canceled (cl_control c) = true) ->
  OfficeInv (mkOffice (sys y) (d_cells d) tasks' (started y) (withdrawn y) (returned y) (canceled y ++ ids)).
Proof.
  intros Hy Hw Hs Ht Htask Hids. destruct (o_tasks y Hy _ _ _ Hw) as [Hres _]. simpl in Hres.
  apply (step_inv y _ w (ob_cell o) [] Hy); simpl; rewrite ?app_nil_r; auto.
  - apply Hy.
  - by apply cells_step_keep.
  - intros v t o' c Hv. by eapply other_cell.
  - intros t f Hf. destruct (Htask _ Hf) as (o' & c & [= -> ->] & Ho & Hfin & Hl & Ha). split; [|by intros ? ? [= <- _]].
    split; [done|]. split; [done|]. exists c. by rewrite Ho.
  - destruct Hs as [-> _]. lia.
  - intros Hq. rewrite Hq. destruct (waiting_update (tasks y) w target _ target SendDone Hw) as (rest & -> & _ & Hdel). simpl.
    destruct (tasks' !! w) as [x|] eqn:Ex.
    + destruct (Htask x eq_refl) as (o' & c & -> & _). assert (tasks' = <[w := (target, SendObserving o' claim)]> (tasks y)) as ->.
      { apply map_eq. intros v. destruct (decide (v = w)) as [->|Hv]; [by rewrite Ex, lookup_insert_eq|]. by rewrite Ht, lookup_insert_ne. }
      destruct (waiting_update (tasks y) w target _ target (SendObserving o' claim) Hw) as (rest' & _ & -> & Hdel'). simpl.
      by rewrite <- Hdel, Hdel'.
    + assert (tasks' = delete w (tasks y)) as ->; [|by rewrite Hdel].
      apply map_eq. intros v. destruct (decide (v = w)) as [->|Hv]; [by rewrite Ex, lookup_delete_eq|]. by rewrite Ht, lookup_delete_ne.
  - intros j [Hj|Hj]%elem_of_app; [by left|right; auto].
Qed.

Lemma poll_goes y w : OfficeInv y -> goes y (PollTask w).
Proof.
  intros Hy. destruct (tasks y !! w) as [[target f]|] eqn:Hw; [|unfold goes, office_act; rewrite Hw; by eauto].
  destruct (o_tasks y Hy _ _ _ Hw) as [Hres Hf]. destruct f as [[registered request|]|o claim|]; [by eapply reserving_goes|done| |done].
  destruct Hf as (Hfin & c & Hc & Ha). unfold goes, office_act. rewrite Hw. unfold send_request_with.
  destruct (observe_response w (desk y) o claim) as [[f1 d1] r1] eqn:Eo.
  destruct (observe_ok w (desk y) o claim c f1 d1 r1 Hfin Hc Ha Eo) as ((_ & _ & Hs) & -> & -> & _ & _ & Hpend).
  eexists. split; [reflexivity|]. simpl. rewrite app_nil_r, <- (app_nil_r (canceled y)).
  eapply observing_inv; [done|exact Hw|exact Hs| | |].
  - intros v Hv. destruct r1; [by rewrite lookup_delete_ne|by rewrite lookup_insert_ne].
  - intros x. destruct r1; [by rewrite lookup_delete_eq|]. rewrite lookup_insert_eq. intros [= <-].
    destruct (Hpend eq_refl) as (o' & -> & Ho' & Hf' & c' & Hc' & Ha'). by exists o', c'.
  - by intros j Hj%elem_of_nil.
Qed.

(** An observation that is dropped cancels what was not delivered. *)
Lemma sending_drop_observing y o claim c : cells y !! ob_cell o = Some c ->
  let d := sending_drop (desk y) (SendObserving o claim) in
  cells_step (ob_cell o) (cells y) (d_cells d) /\
  (ob_delivered o = false -> exists c', d_cells d !! ob_cell o = Some c' /\ exchange_canceled (cl_control c') = true).
Proof.
  intros Hc. simpl. rewrite Hc. unfold set_events. simpl.
  set (d1 := mkSubmissions _ _ _ _ : Submissions Q I F T). assert (cells_step (ob_cell o) (cells y) (d_cells d1)) as H1.
  { apply cells_step_insert. rewrite Hc. by intros ? [= <-]. }
  destruct (observation_drop_step d1 o) as (_ & _ & H2). destruct (claim_drop_step (observation_drop d1 o) o claim) as (_ & _ & H3).
  split; [eapply cells_step_trans; [exact H1|by eapply cells_step_trans]|].
  intros Hd. destruct H1 as (_ & _ & C1). destruct (C1 c Hc) as (c1 & Hc1 & _).
  assert (exists c2, d_cells (observation_drop d1 o) !! ob_cell o = Some c2 /\ exchange_canceled (cl_control c2) = true) as (c2 & Hc2 & Hk2).
  { unfold observation_drop. rewrite Hc1, Hd. destruct (consumer_drop (cl_events c1)) as [p wk]. unfold set_events. simpl. eexists.
    split; [apply list_lookup_insert_eq; by eapply lookup_lt_Some|done]. }
  destruct H3 as (_ & _ & C3). destruct (C3 c2 Hc2) as (c3 & Hc3 & Hk3). exists c3. auto.
Qed.

Lemma drop_goes y w : OfficeInv y -> goes y (DropTask w).
Proof.
  intros Hy. unfold goes, office_act. destruct (tasks y !! w) as [[target f]|] eqn:Hw; [|by eauto].
  destruct (o_tasks y Hy _ _ _ Hw) as [Hres Hf]. destruct f as [[registered request|]|o claim|]; [|done| |done].
  - simpl in Hres. eexists. split; [reflexivity|]. cbn [reservation_of waiting_of opt_list]. rewrite app_nil_r, <- (app_nil_r (returned y)).
    pose proof (admission_act_inv (sys y) (DropReserve w) (o_admission y Hy)) as Hk. unfold act in Hk. rewrite Hres in Hk.
    unfold kept, with_reservations, with_st in Hk. simpl in Hk. rewrite woken_nil in Hk.
    by eapply (leaves_inv y w target registered request).
  - destruct Hf as (Hfin & c & Hc & Ha). destruct (sending_drop_observing y o claim c Hc) as [Hs Hcan].
    eexists. split; [reflexivity|]. cbn [reservation_of waiting_of opt_list]. rewrite app_nil_r.
    eapply observing_inv; [done|exact Hw|exact Hs| | |].
    + intros v Hv. by rewrite lookup_delete_ne.
    + intros x. by rewrite lookup_delete_eq.
    + intros j. destruct (ob_delivered o) eqn:Hd; [by intros ?%elem_of_nil|]. intros ->%list_elem_of_singleton. by apply Hcan.
Qed.

Lemma send_with_goes y w target request : OfficeInv y -> goes y (SendWith w target request).
Proof.
  intros Hy. unfold goes, office_act. destruct (_ || _ || _) eqn:Eg; [by eauto|].
  apply orb_false_iff in Eg as [[Hw Hr]%orb_false_iff Hp%negb_false_iff]. apply bool_decide_eq_false, eq_None_not_Some in Hw, Hr.
  apply Z.ltb_lt in Hp. destruct (permit_send_request (desk y) request) as [d r] eqn:Es.
  destruct (permit_send_request_ok (sys y) (cells y) [] [] request d r (o_admission y Hy) Hp Es) as (wk & jobs & Hwk & Hinv & Hr').
  simpl in Hwk. rewrite <- Hwk in Hinv. destruct r as [[o|e]|]; [| |done].
  - destruct Hr' as (-> & Hcells & ->). destruct (claim_upgrade d _ target) as [d2 claim] eqn:Eu.
    destruct (accepted_observes y d d2 target claim Hcells Eu) as (Ha2 & Hw2 & Hk2 & Hl2 & c2 & Hc2 & Hn2).
    eexists. split; [reflexivity|]. apply (accepted_inv y w target request _ d d2 claim); simpl; auto.
    + intros v Hv. by rewrite lookup_insert_ne.
    + intros x. rewrite lookup_insert_eq. intros [= <-]. by eexists _, c2.
    + intros Hq. rewrite Hq, waiting_insert by done. simpl. solve_Permutation.
  - destruct Hr' as (He & Hcells & ->). eexists. split; [reflexivity|]. rewrite Hcells.
    apply (step_inv y _ w (length (cells y)) [] Hy); simpl; rewrite ?app_nil_r in *; auto.
    + rewrite <- (app_nil_r (cells y)) at 3. apply cells_keep_app.
    + intros v t o c. by apply fresh_cell.
    + intros t f Hf. by rewrite Hw in Hf.
    + intros Hq. rewrite Hq, map_app. simpl. rewrite He. solve_Permutation.
Qed.

(** *** The driver's side *)

Lemma driver_events_inv y id f : OfficeInv y ->
  (forall p p', f p = Some p' -> is_abandoned p = false -> is_abandoned p' = false) -> OfficeInv (driver_events y id f).
Proof.
  intros Hy Hf. unfold driver_events. destruct (cells y !! id) as [c|] eqn:Hc; [|done]. destruct (f (cl_events c)) as [p|] eqn:Ef; [|done].
  assert (length (<[id := mkCell p (cl_control c) (cl_upgrade c) (cl_completion c)]> (cells y)) = length (cells y)) as Hlen by apply length_insert.
  assert (Hid : (id < length (cells y))%nat) by by eapply lookup_lt_Some.
  destruct Hy as [Ha Ht Hcs Hj Hq Hk]. constructor; simpl; rewrite ?Hlen; try done.
  - intros w target g Hw. destruct (Ht w target g Hw) as [Hres Hg]. split; [done|]. destruct g as [[]|o claim|]; [done..| |done].
    destruct Hg as (Hfin & c' & Hc' & Hn). split; [done|]. simpl. destruct (decide (ob_cell o = id)) as [Heq|Hne].
    + rewrite Heq in *. rewrite Hc in Hc'. injection Hc' as <-. eexists. split; [by apply list_lookup_insert_eq|]. by eapply Hf.
    + exists c'. split; [|done]. by rewrite list_lookup_insert_ne.
  - eapply canceled_keep; [|exact Hk]. apply cells_step_keep, cells_step_insert. rewrite Hc. by intros ? [= <-].
Qed.

Lemma driver_goes y a : OfficeInv y -> match a with DriverOffers _ _ | DriverWithdraws _ | DriverEnds _ _ _ => True | _ => False end -> goes y a.
Proof.
  intros Hy Hd. destruct a as [| | | | |id event|id|id failure lost]; try done; eexists; (split; [reflexivity|]); apply driver_events_inv; try done;
    intros [st pw cw] p'; unfold is_abandoned; simpl.
  - destruct st; try done; by intros [= <-].
  - destruct st; try done; by intros [= <-].
  - unfold finish. simpl. destruct st; try done; intros [= <-]; try done; by destruct failure, lost.
Qed.

Lemma office_run_inv actions y : OfficeInv y -> exists y', office_run y actions = Some y' /\ OfficeInv y'.
Proof.
  revert y. induction actions as [|a actions IH]; intros y Hy; simpl; [by eauto|].
  assert (goes y a) as (y1 & -> & Hy1); [|by apply IH].
  destruct a; auto using other_goes, spawn_goes, poll_goes, drop_goes, send_with_goes, driver_goes.
Qed.

Lemma office_start_inv : OfficeInv office_start.
Proof.
  constructor; simpl; try done. by intros id Hid%elem_of_nil.
Qed.

(** C16: Every request is somewhere. However sends are polled, dropped and
    interleaved with other reservations, permits, drivers, shutdown and the events
    drivers offer, nothing panics, and every request handed to a send is in
    exactly one place: with a send that still waits for admission, dropped with
    such a send, given back unchanged with the error of its submission, or
    accepted; every accepted request has a cell of its own and is taken by the
    driver once and in order, still queued, or dropped with the driver; a request
    that is given back was never queued; and dropping a send before its final
    response cancels its exchange. *)
Theorem requests_accounted (actions : list OfficeAction) :
  exists y, office_run office_start actions = Some y /\
    started y ≡ₚ waiting_requests (tasks y) ++ withdrawn y ++ map sub_request (returned y) ++ map job_request (submitted (sys y)) /\
    submitted (sys y) = taken (sys y) ++ queued (admission (st (sys y))) ++ dropped (sys y) /\
    map job_cell (submitted (sys y)) = seq 0 (length (cells y)) /\
    forall id, id ∈ canceled y -> exists c, cells y !! id = Some c /\ exchange_canceled (cl_control c) = true.
Proof.
  destruct (office_run_inv actions office_start office_start_inv) as (y & Hr & [Ha Ht Hc Hj Hq Hk]).
  exists y. split_and!; [done..|apply Ha|done|done].
Qed.

End Office.

(** ** Evaluated: one request is answered, one waits, one is refused *)

Definition busy_office : list (@OfficeAction nat nat nat) :=
  [Spawn 1%nat None 10%nat; PollTask 1%nat; Spawn 2%nat (Some Boxed) 20%nat; PollTask 2%nat; Spawn 3%nat None 30%nat; PollTask 3%nat; Other PollNext;
   DriverOffers 0%nat (Informational 103%nat); PollTask 1%nat; DriverOffers 0%nat (Final 200%nat); PollTask 1%nat; Other ReleaseDriver; PollTask 2%nat;
   Other PollNext; DropTask 2%nat].

Example busy_office_ran :
  option_map (fun y => (map sub_request (returned y), map job_request (taken (sys y)), canceled y, length (cells y)))
    (office_run (T := unit) office_start busy_office) = Some ([30%nat], [10%nat; 20%nat], [1%nat], 2%nat).
Proof. vm_compute. reflexivity. Qed.
