(* ===== verification/Config.v ===== *)
(** Connection configuration (src/src/proto/h1/config.rs, the client and server
    [config.rs] and the option setters of both builders).

    [None] of a limit constructor is the failure of its assertion, so a setter
    answers a [call]. *)

From Stdlib Require Import ZArith Lia.
From stdpp Require Import base list option.
From S2P Require Import Prelude Http Errors Scan Decode Body Encode Incoming Send Recv Deadline.

(** ** Protocol limits *)

Record Config := mkConfig {
  head_limits : HeadLimits;
  decode_limits : DecodeLimits;
  encode_config : EncodeConfig;
  informational_limit : Z;
  preserve_header_case : bool;
}.

Definition Config_default : option Config :=
  head ← HeadLimits_new (64 * 1024) 100;
  encode ← EncodeConfig_new (64 * 1024) (16 * 1024);
  Some (mkConfig head DecodeLimits_default encode 16 false).

(** What a setter does to its target: the new value and the answer. *)
Definition setter (A : Type) : Type := call (A * result unit Error).

(** An assertion behind a check. *)
Definition expect {A B} (r : option A) (k : A -> B) (b : B -> setter B) : setter B :=
  match r with Some a => b (k a) | None => Panics end.

Definition done_with {A} (a : A) : setter A := Returns (a, Ok tt).
Definition refuse {A} (a : A) (e : Error) : setter A := Returns (a, Err e).

Definition set_head (c : Config) (h : HeadLimits) : Config :=
  mkConfig h (decode_limits c) (encode_config c) (informational_limit c) (preserve_header_case c).
Definition set_decode (c : Config) (d : DecodeLimits) : Config :=
  mkConfig (head_limits c) d (encode_config c) (informational_limit c) (preserve_header_case c).
Definition set_encode (c : Config) (e : EncodeConfig) : Config :=
  mkConfig (head_limits c) (decode_limits c) e (informational_limit c) (preserve_header_case c).

Definition incoming_head_limits (c : Config) (bytes headers : Z) : setter Config :=
  if (bytes =? 0) || (headers =? 0) then refuse c (Error_new LocalMessage "head limits must be nonzero")
  else expect (HeadLimits_new bytes headers) (set_head c) done_with.

Definition incoming_framing_limits (c : Config) (chunk_line trailer_bytes trailers : Z) : setter Config :=
  if (chunk_line =? 0) || (trailer_bytes =? 0) || (trailers =? 0) then
    refuse c (Error_new LocalMessage "body framing limits must be nonzero")
  else expect (with_framing_limits (decode_limits c) chunk_line trailer_bytes trailers) (set_decode c) done_with.

Definition incoming_chunk_extension_limit (c : Config) (bytes : Z) : Config :=
  set_decode c (with_chunk_extension_limit (decode_limits c) bytes).

Definition nonzero (bytes : Z) : result unit Error :=
  if bytes =? 0 then Err (Error_new LocalMessage "output limit must be nonzero") else Ok tt.

Definition outgoing_head_limit (c : Config) (bytes : Z) : setter Config :=
  match nonzero bytes with
  | Err e => refuse c e
  | Ok _ =>
      done_with (set_encode c (mkEncodeConfig bytes (enc_max_trailer_bytes (encode_config c))
                                 (Encode.title_case_headers (encode_config c))))
  end.

Definition outgoing_trailer_limit (c : Config) (bytes : Z) : setter Config :=
  match nonzero bytes with
  | Err e => refuse c e
  | Ok _ =>
      done_with (set_encode c (mkEncodeConfig (max_head_bytes (encode_config c)) bytes
                                 (Encode.title_case_headers (encode_config c))))
  end.

Definition title_case_headers (c : Config) (enabled : bool) : Config :=
  set_encode c (mkEncodeConfig (max_head_bytes (encode_config c)) (enc_max_trailer_bytes (encode_config c)) enabled).

(** ** Connection settings; durations are nanoseconds *)

Record ConnectionSettings := mkSettings {
  protocol : Config;
  drain : DrainConfig;
  head_timeout : option Z;
  body_progress_timeout : option Z;
  write_progress_timeout : option Z;
  preferred_read : Z;
  max_retained : Z;
}.

Definition ConnectionSettings_default : option ConnectionSettings :=
  c ← Config_default;
  Some (mkSettings c DrainConfig_default None None None (16 * 1024) (128 * 1024)).

Definition set_protocol (s : ConnectionSettings) (c : Config) : ConnectionSettings :=
  mkSettings c (drain s) (head_timeout s) (body_progress_timeout s) (write_progress_timeout s)
    (preferred_read s) (max_retained s).
Definition set_drain (s : ConnectionSettings) (d : DrainConfig) : ConnectionSettings :=
  mkSettings (protocol s) d (head_timeout s) (body_progress_timeout s) (write_progress_timeout s)
    (preferred_read s) (max_retained s).

Definition set_read_buffer_limits (s : ConnectionSettings) (preferred retained : Z) : setter ConnectionSettings :=
  if (preferred =? 0) || (retained <? preferred) then
    refuse s (Error_new LocalMessage "receive limits must be nonzero and ordered")
  else
    done_with (mkSettings (protocol s) (drain s) (head_timeout s) (body_progress_timeout s)
                 (write_progress_timeout s) preferred retained).

Section Clock.
Context {W : Type} `{Timer W} (now : W).

(** [assign_deadline]: the slot is written only when the duration is
    representable now. *)
Definition assign_deadline {A} (a : A) (assign : option Z -> A) (timeout : option Z) : setter A :=
  match configured_after now timeout with
  | Err e => refuse a e
  | Ok _ => done_with (assign timeout)
  end.

Definition set_head_timeout (s : ConnectionSettings) : option Z -> setter ConnectionSettings :=
  assign_deadline s (fun t =>
    mkSettings (protocol s) (drain s) t (body_progress_timeout s) (write_progress_timeout s)
      (preferred_read s) (max_retained s)).

Definition set_body_progress_timeout (s : ConnectionSettings) : option Z -> setter ConnectionSettings :=
  assign_deadline s (fun t =>
    mkSettings (protocol s) (drain s) (head_timeout s) t (write_progress_timeout s)
      (preferred_read s) (max_retained s)).

Definition set_write_progress_timeout (s : ConnectionSettings) : option Z -> setter ConnectionSettings :=
  assign_deadline s (fun t =>
    mkSettings (protocol s) (drain s) (head_timeout s) (body_progress_timeout s) t
      (preferred_read s) (max_retained s)).

Definition set_drain_timeout (s : ConnectionSettings) (timeout : Z) : setter ConnectionSettings :=
  match configured_after now (Some timeout) with
  | Err e => refuse s e
  | Ok _ => done_with (set_drain s (mkDrainConfig timeout (wire_allowance (drain s))))
  end.

(** ** Builders

    The options both builders have, with the settings they reach. *)

Inductive Option_ : Type :=
| IncomingHeadLimits (bytes fields : Z)
| OutgoingHeadLimit (bytes : Z)
| IncomingFramingLimits (chunk_line trailer_bytes trailer_fields : Z)
| IncomingChunkExtensionLimit (bytes : Z)
| OutgoingTrailerLimit (bytes : Z)
| MaxInformational (count : Z)
| HeadTimeout (timeout : option Z)
| DrainTimeout (timeout : Z)
| DrainWireAllowance (bytes : Z)
| BodyProgressTimeout (timeout : option Z)
| WriteProgressTimeout (timeout : option Z)
| ReadBufferLimits (preferred retained : Z)
| PreserveHeaderCase (enabled : bool)
| TitleCaseHeaders (enabled : bool).

Definition lift {A B} (put : A -> B) (r : setter A) : setter B :=
  match r with Returns (a, answer) => Returns (put a, answer) | Panics => Panics end.

Definition configure (s : ConnectionSettings) (o : Option_) : setter ConnectionSettings :=
  let c := protocol s in
  match o with
  | IncomingHeadLimits bytes fields => lift (set_protocol s) (incoming_head_limits c bytes fields)
  | OutgoingHeadLimit bytes => lift (set_protocol s) (outgoing_head_limit c bytes)
  | IncomingFramingLimits a b d => lift (set_protocol s) (incoming_framing_limits c a b d)
  | IncomingChunkExtensionLimit bytes => done_with (set_protocol s (incoming_chunk_extension_limit c bytes))
  | OutgoingTrailerLimit bytes => lift (set_protocol s) (outgoing_trailer_limit c bytes)
  | MaxInformational count =>
      done_with (set_protocol s (mkConfig (head_limits c) (decode_limits c) (encode_config c) count (preserve_header_case c)))
  | HeadTimeout t => set_head_timeout s t
  | DrainTimeout t => set_drain_timeout s t
  | DrainWireAllowance bytes => done_with (set_drain s (mkDrainConfig (drain_timeout (drain s)) bytes))
  | BodyProgressTimeout t => set_body_progress_timeout s t
  | WriteProgressTimeout t => set_write_progress_timeout s t
  | ReadBufferLimits a b => set_read_buffer_limits s a b
  | PreserveHeaderCase b =>
      done_with (set_protocol s (mkConfig (head_limits c) (decode_limits c) (encode_config c) (informational_limit c) b))
  | TitleCaseHeaders b => done_with (set_protocol s (title_case_headers c b))
  end.

Record ClientConfig := mkClientConfig {
  client_settings : ConnectionSettings;
  continue_wait : option Z;
}.

Record ServerConfig := mkServerConfig {
  server_settings : ConnectionSettings;
  auto_date : bool;
  auto_error_response : bool;
}.

Definition ClientConfig_default : option ClientConfig :=
  s ← ConnectionSettings_default;
  Some (mkClientConfig s (Some (10 ^ 9))).

Definition ServerConfig_default : option ServerConfig :=
  s ← ConnectionSettings_default;
  Some (mkServerConfig
          (mkSettings (protocol s) (drain s) (Some (30 * 10 ^ 9)) (body_progress_timeout s)
             (write_progress_timeout s) (preferred_read s) (max_retained s)) true true).

Inductive ClientOption : Type :=
| ClientShared (o : Option_)
| ContinueWait (timeout : option Z).

Inductive ServerOption : Type :=
| ServerShared (o : Option_)
| AutoDate (enabled : bool)
| AutoErrorResponse (enabled : bool).

Definition client_configure (c : ClientConfig) (o : ClientOption) : setter ClientConfig :=
  match o with
  | ClientShared o => lift (fun s => mkClientConfig s (continue_wait c)) (configure (client_settings c) o)
  | ContinueWait t => assign_deadline c (mkClientConfig (client_settings c)) t
  end.

Definition server_configure (c : ServerConfig) (o : ServerOption) : setter ServerConfig :=
  match o with
  | ServerShared o =>
      lift (fun s => mkServerConfig s (auto_date c) (auto_error_response c)) (configure (server_settings c) o)
  | AutoDate b => done_with (mkServerConfig (server_settings c) b (auto_error_response c))
  | AutoErrorResponse b => done_with (mkServerConfig (server_settings c) (auto_date c) b)
  end.

(** A builder used option by option; refused options are ignored by the caller. *)
Fixpoint configure_all {A O} (set : A -> O -> setter A) (a : A) (os : list O) : setter A :=
  match os with
  | [] => done_with a
  | o :: os =>
      match set a o with
      | Returns (a, _) => configure_all set a os
      | Panics => Panics
      end
  end.

(** ** Well-formed settings *)

Definition positive (n : Z) : Prop := 0 < n <= usize_max.

Definition wf_config (c : Config) : Prop :=
  positive (max_bytes (head_limits c)) /\ positive (max_headers (head_limits c)) /\
  wf_limits (decode_limits c) /\
  positive (max_head_bytes (encode_config c)) /\ positive (enc_max_trailer_bytes (encode_config c)) /\
  is_usize (informational_limit c).

Definition wf_settings (s : ConnectionSettings) : Prop :=
  wf_config (protocol s) /\ is_u64 (wire_allowance (drain s)) /\
  0 < preferred_read s <= max_retained s /\ max_retained s <= usize_max.

(** The arguments are values of their Rust types. *)
Definition typed_option (o : Option_) : Prop :=
  match o with
  | IncomingHeadLimits a b | ReadBufferLimits a b => is_usize a /\ is_usize b
  | IncomingFramingLimits a b c => is_usize a /\ is_usize b /\ is_usize c
  | IncomingChunkExtensionLimit a | OutgoingHeadLimit a | OutgoingTrailerLimit a | MaxInformational a => is_usize a
  | DrainWireAllowance a => is_u64 a
  | _ => True
  end.

(** A setter that keeps [P] and, when it refuses, its target. *)
Definition keeps {A} (P : A -> Prop) (a : A) (r : setter A) : Prop :=
  exists a' answer, r = Returns (a', answer) /\ P a' /\
    match answer with Err e => a' = a /\ kind e = LocalMessage | Ok _ => True end.

Lemma keeps_done {A} (P : A -> Prop) a a' : P a' -> keeps P a (done_with a').
Proof. intros. exists a', (Ok tt). done. Qed.

Lemma keeps_refuse {A} (P : A -> Prop) a e : P a -> kind e = LocalMessage -> keeps P a (refuse a e).
Proof. intros. exists a, (Err e). done. Qed.

Lemma keeps_lift {A B} (P : A -> Prop) (Q : B -> Prop) put a b r :
  put a = b -> (forall a, P a -> Q (put a)) -> keeps P a r -> keeps Q b (lift put r).
Proof.
  intros <- HQ (a' & answer & -> & HP & Ha). exists (put a'), answer. split_and!; [done|by apply HQ|].
  destruct answer; [done|]. by destruct Ha as [-> ?].
Qed.

Lemma keeps_deadline {A} (P : A -> Prop) (a : A) assign t : P a -> (forall t, P (assign t)) -> keeps P a (assign_deadline a assign t).
Proof.
  intros Ha Hp. unfold assign_deadline, configured_after. destruct (after now t); simpl.
  - by apply keeps_done.
  - by apply keeps_refuse.
Qed.

Lemma incoming_head_limits_ok c a b : is_usize a -> is_usize b -> wf_config c -> keeps wf_config c (incoming_head_limits c a b).
Proof.
  unfold is_usize. intros Ha Hb Hc. unfold incoming_head_limits, HeadLimits_new.
  destruct (Z.eqb_spec a 0); [by apply keeps_refuse|]. destruct (Z.eqb_spec b 0); [by apply keeps_refuse|]. simpl.
  rewrite (proj2 (Z.ltb_lt 0 a)), (proj2 (Z.ltb_lt 0 b)) by lia. apply keeps_done.
  unfold wf_config, positive in *. simpl. destruct_and!. split_and!; done || lia.
Qed.

Lemma incoming_framing_limits_ok c x y z : is_usize x -> is_usize y -> is_usize z -> wf_config c ->
  keeps wf_config c (incoming_framing_limits c x y z).
Proof.
  unfold is_usize. intros Hx Hy Hz Hc. unfold incoming_framing_limits, with_framing_limits, DecodeLimits_new.
  destruct (Z.eqb_spec x 0); [by apply keeps_refuse|]. destruct (Z.eqb_spec y 0); [by apply keeps_refuse|].
  destruct (Z.eqb_spec z 0); [by apply keeps_refuse|]. simpl.
  rewrite (proj2 (Z.ltb_lt 0 x)), (proj2 (Z.ltb_lt 0 y)), (proj2 (Z.ltb_lt 0 z)) by lia. apply keeps_done.
  unfold wf_config, wf_limits in *. simpl. destruct_and!. split_and!; done || lia.
Qed.

Lemma outgoing_limit_ok c a (k : Config) :
  wf_config c -> (a <> 0 -> wf_config k) ->
  keeps wf_config c (match nonzero a with Err e => refuse c e | Ok _ => done_with k end).
Proof.
  intros Hc Hk. unfold nonzero. destruct (Z.eqb_spec a 0); [by apply keeps_refuse|]. apply keeps_done. auto.
Qed.

Lemma set_read_buffer_limits_ok s a b : is_usize b -> is_usize a -> wf_settings s ->
  keeps wf_settings s (set_read_buffer_limits s a b).
Proof.
  unfold is_usize. intros Hb Ha Hs. unfold set_read_buffer_limits.
  destruct (Z.eqb_spec a 0); [by apply keeps_refuse|]. destruct (Z.ltb_spec b a); [by apply keeps_refuse|].
  apply keeps_done. destruct Hs as (? & ? & ?). unfold wf_settings. simpl. split_and!; done || lia.
Qed.

Lemma configure_ok s o : typed_option o -> wf_settings s -> keeps wf_settings s (configure s o).
Proof.
  intros Ho Hs. pose proof Hs as (Hc & Hd & Hr). pose proof Hc as (? & ? & (? & ? & ? & ?) & ? & ? & ?).
  assert (Hlift : forall r, keeps wf_config (protocol s) r -> keeps wf_settings s (lift (set_protocol s) r)).
  { intros r. apply (keeps_lift wf_config); [by destruct s|]. intros c Hc'. by destruct Hs as (_ & ? & ?). }
  assert (Hout : forall a k, (a <> 0 -> wf_config k) ->
    keeps wf_config (protocol s) (match nonzero a with Err e => refuse (protocol s) e | Ok _ => done_with k end))
    by (intros; by apply outgoing_limit_ok).
  destruct o; simpl in Ho |- *.
  - apply Hlift. apply incoming_head_limits_ok; tauto.
  - apply Hlift, Hout. intros. unfold wf_config, positive, is_usize in *. simpl. split_and!; done || lia.
  - apply Hlift. apply incoming_framing_limits_ok; tauto.
  - by apply keeps_done.
  - apply Hlift, Hout. intros. unfold wf_config, positive, is_usize in *. simpl. split_and!; done || lia.
  - by apply keeps_done.
  - by apply keeps_deadline.
  - by apply (keeps_deadline wf_settings s (fun t => set_drain s (mkDrainConfig (default 0 t) (wire_allowance (drain s)))) (Some timeout)).
  - by apply keeps_done.
  - by apply keeps_deadline.
  - by apply keeps_deadline.
  - apply set_read_buffer_limits_ok; tauto.
  - by apply keeps_done.
  - by apply keeps_done.
Qed.

Lemma configure_all_ok {A O} (P : A -> Prop) (typed : O -> Prop) set a os :
  (forall a o, typed o -> P a -> keeps P a (set a o)) -> Forall typed os -> P a ->
  exists a', configure_all set a os = Returns (a', Ok tt) /\ P a'.
Proof.
  intros Hset Hos. revert a. induction Hos as [|o os Ho Hos IH]; intros a Ha; simpl; [by eauto|].
  destruct (Hset a o Ho Ha) as (a' & answer & -> & Ha' & _). by apply IH.
Qed.

Definition typed_client (o : ClientOption) : Prop := match o with ClientShared o => typed_option o | _ => True end.
Definition typed_server (o : ServerOption) : Prop := match o with ServerShared o => typed_option o | _ => True end.

Lemma client_configure_ok c o :
  typed_client o -> wf_settings (client_settings c) ->
  keeps (fun c => wf_settings (client_settings c)) c (client_configure c o).
Proof.
  intros Ho Hc. destruct o as [o|t]; simpl.
  - apply (keeps_lift wf_settings _ _ (client_settings c)); [by destruct c|done|]. by apply configure_ok.
  - by apply keeps_deadline.
Qed.

Lemma server_configure_ok c o :
  typed_server o -> wf_settings (server_settings c) ->
  keeps (fun c => wf_settings (server_settings c)) c (server_configure c o).
Proof.
  intros Ho Hc. destruct o as [o|b|b]; simpl.
  - apply (keeps_lift wf_settings _ _ (server_settings c)); [by destruct c|done|]. by apply configure_ok.
  - by apply keeps_done.
  - by apply keeps_done.
Qed.

End Clock.

(** ** Properties *)

Section Properties.
Context {W : Type} `{Timer W} (now : W).

(** Whether an option is accepted depends on its arguments and the clock only. *)
Definition accepted_option (o : Option_) : bool :=
  match o with
  | IncomingHeadLimits a b => negb ((a =? 0) || (b =? 0))
  | OutgoingHeadLimit a | OutgoingTrailerLimit a => negb (a =? 0)
  | IncomingFramingLimits a b c => negb ((a =? 0) || (b =? 0) || (c =? 0))
  | HeadTimeout t | BodyProgressTimeout t | WriteProgressTimeout t => is_ok (after now t)
  | DrainTimeout t => is_ok (after now (Some t))
  | ReadBufferLimits a b => negb ((a =? 0) || (b <? a))
  | _ => true
  end.

Lemma configure_answer s o s' answer :
  configure now s o = Returns (s', answer) -> is_ok answer = accepted_option o.
Proof.
  destruct o; simpl;
  unfold set_head_timeout, set_drain_timeout, set_body_progress_timeout, set_write_progress_timeout, assign_deadline,
    configured_after, incoming_head_limits, incoming_framing_limits, outgoing_head_limit, outgoing_trailer_limit,
    nonzero, set_read_buffer_limits, expect, done_with, refuse, map_err;
  repeat (case_match; simplify_eq/=; try done); by intros [= <- <-].
Qed.

Lemma client_default_ok : exists c, ClientConfig_default = Some c /\ wf_settings (client_settings c).
Proof.
  eexists. split; [reflexivity|]. unfold wf_settings, wf_config, wf_limits, positive, is_usize, is_u64. by vm_compute.
Qed.

Lemma server_default_ok : exists c, ServerConfig_default = Some c /\ wf_settings (server_settings c).
Proof.
  eexists. split; [reflexivity|]. unfold wf_settings, wf_config, wf_limits, positive, is_usize, is_u64. by vm_compute.
Qed.

Lemma settings_buffer `{BytesAllocator} s : wf_settings s ->
  exists b, RecvBuffer_new (preferred_read s) (max_retained s) = Ok b.
Proof.
  intros (_ & _ & ? & _). unfold RecvBuffer_new. rewrite (proj2 (Z.eqb_neq _ _)), (proj2 (Z.ltb_ge _ _)) by lia. by eauto.
Qed.

(** C32: Whatever options an application gives to a builder, in whatever order and
    with whatever values of their types, configuring never panics: an option is
    refused exactly when its limits are zero or unordered or its timeout is not
    representable, a refusal is a local error that leaves the settings as they
    were, and the settings always satisfy what the parser, decoder, encoder and
    receive buffer need. *)
Theorem configuration_well_formed `{BytesAllocator} (os : list ClientOption) (os' : list ServerOption) (o : Option_) :
  Forall typed_client os -> Forall typed_server os' -> typed_option o ->
  (exists c0 c, ClientConfig_default = Some c0 /\ configure_all (client_configure now) c0 os = Returns (c, Ok tt) /\
     wf_settings (client_settings c)) /\
  exists d0 d, ServerConfig_default = Some d0 /\ configure_all (server_configure now) d0 os' = Returns (d, Ok tt) /\
    let s := server_settings d in
    wf_settings s /\
    (exists b, RecvBuffer_new (preferred_read s) (max_retained s) = Ok b) /\
    (exists s' answer, configure now s o = Returns (s', answer) /\ wf_settings s' /\
      is_ok answer = accepted_option o /\
      match answer with Err e => s' = s /\ kind e = LocalMessage | Ok _ => True end).
Proof.
  intros Hos Hos' Ho. split.
  - destruct client_default_ok as (c0 & Hc0 & Hw0). exists c0.
    destruct (configure_all_ok _ _ (client_configure now) c0 os (client_configure_ok now) Hos Hw0) as (c & Hc & Hw). eauto.
  - destruct server_default_ok as (d0 & Hd0 & Hw0). exists d0.
    destruct (configure_all_ok _ _ (server_configure now) d0 os' (server_configure_ok now) Hos' Hw0) as (d & Hd & Hw).
    exists d. do 2 (split; [done|]). intros s. split; [done|]. split.
    + by apply settings_buffer.
    + destruct (configure_ok now _ o Ho Hw) as (s' & answer & Hc & ? & ?). exists s', answer. by split_and!; eauto using configure_answer.
Qed.

End Properties.

(** A clock that represents durations below one hour. *)
#[local] Instance hour_clock : Timer unit := {|
  instant_after _ d := if d <? 3600 * 10 ^ 9 then Some d else None;
  timer_first _ _ := false;
  request_cancel w := w;
|}.

#[local] Instance exact_allocator : BytesAllocator := {| capacity_for n := n; reserved_capacity c n := c + n |}.

Lemma configuration_well_formed_witness :
  (exists d0 d, ServerConfig_default = Some d0 /\
    configure_all (server_configure tt) d0 [ServerShared (IncomingHeadLimits 900 0); AutoDate false] = Returns (d, Ok tt)) /\
  accepted_option tt (HeadTimeout (Some (10 ^ 13))) = false.
Proof.
  split; [|reflexivity].
  assert (Hc : Forall typed_client [ContinueWait None]) by by repeat constructor.
  assert (Hs : Forall typed_server [ServerShared (IncomingHeadLimits 900 0); AutoDate false])
    by (repeat constructor; done).
  destruct (configuration_well_formed tt _ _ (HeadTimeout (Some (10 ^ 13))) Hc Hs I) as [_ (d0 & d & ? & ? & _)].
  eauto.
Defined.
