(* ===== verification/Opening.v ===== *)
(** How a connection is opened: the constructors of both builders
    (src/src/client/conn/http1/builder.rs, src/src/server/conn/http1/builder.rs),
    the connection they return (src/src/connection.rs) and the TLS metadata
    (src/src/tls.rs).

    A driver that has not been polled is the arguments of its [run]. What rustls
    negotiated is a parameter. *)

From Stdlib Require Import ZArith Lia.
From stdpp Require Import base list option.
From S2P Require Import Prelude Http Errors Scan Decode Body Encode Recv Deadline Connection Admission Config.

(** ** TLS metadata *)

(** What an established TLS stream reports; [tls_server_name] is that of an
    accepted stream. *)
Class TlsStream (IO Version Supported Kind : Type) := {
  tls_alpn_protocol : IO -> option bytes;
  tls_protocol_version : IO -> option Version;
  tls_negotiated_cipher_suite : IO -> option Supported;
  tls_handshake_kind : IO -> option Kind;
  tls_server_name : IO -> option bytes;
}.

Class CipherSuites (Supported Suite : Type) := suite_of : Supported -> Suite.

Definition HTTP_11_ALPN : bytes := bs "http/1.1".

Section Tls.
Context {IO Version Supported Suite Kind : Type} `{!TlsStream IO Version Supported Kind} `{!CipherSuites Supported Suite}.

Record TlsInfo := mkTlsInfo {
  alpn_http_11 : bool;
  info_protocol_version : option Version;
  info_cipher_suite : option Suite;
  info_handshake_kind : option Kind;
  info_server_name : option bytes;
}.

Definition TlsInfo_new (alpn : option bytes) (version : option Version) (cipher : option Supported) (kind : option Kind)
    (server_name : option bytes) : TlsInfo :=
  mkTlsInfo (bool_decide (alpn = Some HTTP_11_ALPN)) version (suite_of <$> cipher) kind server_name.

(** [TlsInfo::alpn_protocol] *)
Definition alpn_protocol (info : TlsInfo) : option bytes := if alpn_http_11 info then Some HTTP_11_ALPN else None.

Definition validate_alpn (protocol : option bytes) : result unit Error :=
  match protocol with
  | None => Ok tt
  | Some p => if bool_decide (p = HTTP_11_ALPN) then Ok tt else Err (Error_new Unsupported "negotiated TLS protocol is not HTTP/1.1")
  end.

(** ** Connections *)

Record Connection_ (F : Type) := mkConnection {
  conn_future : F;
  conn_control : ControlState;
}.
Arguments mkConnection {F} _ _.
Arguments conn_future {F} _.
Arguments conn_control {F} _.

(** [Connection::boxed]; erasing the type of a future keeps the future. *)
Definition connection_boxed {F G} (erase : F -> G) (c : Connection_ F) : Connection_ G :=
  mkConnection (erase (conn_future c)) (conn_control c).

(** ** The client *)

Record ClientBuilder := mkClientBuilder {
  cb_config : ClientConfig;
  cb_tls_info : option TlsInfo;
}.

(** [client::run] before its first poll. *)
Record ClientRun := mkClientRun {
  crun_io : IO;
  crun_strategy : Strategy;
  crun_config : ClientConfig;
  crun_tls_info : option TlsInfo;
}.

Context {J : Type}.

(** The sender and the receiver share one admission, which holds the control. *)
Definition client_open (strategy : Strategy) (b : ClientBuilder) (io : IO) : @Admission.State J * Connection_ ClientRun :=
  let control := ConnectionControl_new in
  (admission_channel control, mkConnection (mkClientRun io strategy (cb_config b) (cb_tls_info b)) control).

Definition handshake : ClientBuilder -> IO -> @Admission.State J * Connection_ ClientRun := client_open PortableStrategy.
Definition handshake_tcp : ClientBuilder -> IO -> @Admission.State J * Connection_ ClientRun := client_open TcpStrategy.

Definition handshake_tls (b : ClientBuilder) (io : IO) : result (@Admission.State J * Connection_ ClientRun) Error :=
  validate_alpn (tls_alpn_protocol io) ;;?
  let info := TlsInfo_new (tls_alpn_protocol io) (tls_protocol_version io) (tls_negotiated_cipher_suite io)
                (tls_handshake_kind io) None in
  Ok (handshake (mkClientBuilder (cb_config b) (Some info)) io).

(** ** The server *)

Record ServerBuilder := mkServerBuilder {
  sb_config : ServerConfig;
  sb_tls_info : option TlsInfo;
}.

Context {S : Type}.

(** [server::run] before its first poll. *)
Record ServerRun := mkServerRun {
  srun_io : IO;
  srun_service : S;
  srun_strategy : Strategy;
  srun_config : ServerConfig;
  srun_tls_info : option TlsInfo;
}.

Definition serve_connection (b : ServerBuilder) (io : IO) (service : S) : Connection_ ServerRun :=
  mkConnection (mkServerRun io service PortableStrategy (sb_config b) (sb_tls_info b)) ConnectionControl_new.

Definition serve_tcp (b : ServerBuilder) (io : IO) (service : S) : Connection_ ServerRun :=
  mkConnection (mkServerRun io service TcpStrategy (sb_config b) (sb_tls_info b)) ConnectionControl_new.

Definition serve_tls (b : ServerBuilder) (io : IO) (service : S) : result (Connection_ ServerRun) Error :=
  validate_alpn (tls_alpn_protocol io) ;;?
  let info := TlsInfo_new (tls_alpn_protocol io) (tls_protocol_version io) (tls_negotiated_cipher_suite io)
                (tls_handshake_kind io) (tls_server_name io) in
  Ok (serve_connection (mkServerBuilder (sb_config b) (Some info)) io service).

(** ** Properties *)

(** The protocols HTTP/1 may run over. *)
Definition http1_negotiated (io : IO) : Prop := forall p, tls_alpn_protocol io = Some p -> p = HTTP_11_ALPN.

(** [info] says of [io] what was negotiated, and [name]. *)
Definition describes (io : IO) (name : option bytes) (info : TlsInfo) : Prop :=
  alpn_protocol info = tls_alpn_protocol io /\ info_protocol_version info = tls_protocol_version io /\
  info_cipher_suite info = (suite_of <$> tls_negotiated_cipher_suite io) /\
  info_handshake_kind info = tls_handshake_kind io /\ info_server_name info = name.

Lemma validate_alpn_spec (io : IO) :
  (validate_alpn (tls_alpn_protocol io) = Ok tt /\ http1_negotiated io) \/
  (exists e, validate_alpn (tls_alpn_protocol io) = Err e /\ kind e = Unsupported /\ ~ http1_negotiated io).
Proof.
  unfold validate_alpn, http1_negotiated. destruct (tls_alpn_protocol io) as [p|]; [|by left].
  case_bool_decide as Hp; [left; split; [done|by intros ? [= <-]]|]. right. eexists. split_and!; [done..|]. by eauto.
Qed.

Lemma TlsInfo_describes (io : IO) name : http1_negotiated io ->
  describes io name (TlsInfo_new (tls_alpn_protocol io) (tls_protocol_version io) (tls_negotiated_cipher_suite io)
                       (tls_handshake_kind io) name).
Proof.
  intros Hp. unfold describes, alpn_protocol, http1_negotiated in *. simpl. split_and!; try done.
  destruct (tls_alpn_protocol io) as [p|]; [|done]. rewrite (Hp p eq_refl). by rewrite bool_decide_true.
Qed.

(** A client connection opened over TLS, whatever the builder was given. *)
Lemma handshake_tls_spec (b : ClientBuilder) (io : IO) :
  match handshake_tls b io with
  | Err e => kind e = Unsupported /\ ~ http1_negotiated io
  | Ok (state, c) =>
      http1_negotiated io /\ sender_is_ready state = true /\ sender_is_closed state = false /\ control state = conn_control c /\
      crun_io (conn_future c) = io /\ crun_strategy (conn_future c) = PortableStrategy /\
      crun_config (conn_future c) = cb_config b /\
      exists info, crun_tls_info (conn_future c) = Some info /\ describes io None info
  end.
Proof.
  unfold handshake_tls. destruct (validate_alpn_spec io) as [[-> Hp]|(e & -> & He & Hp)]; [|done]. simpl.
  split_and!; try done. eexists. split; [done|]. by apply TlsInfo_describes.
Qed.

Lemma serve_tls_spec (b : ServerBuilder) (io : IO) (service : S) :
  match serve_tls b io service with
  | Err e => kind e = Unsupported /\ ~ http1_negotiated io
  | Ok c =>
      http1_negotiated io /\ srun_io (conn_future c) = io /\ srun_service (conn_future c) = service /\
      srun_strategy (conn_future c) = PortableStrategy /\ srun_config (conn_future c) = sb_config b /\
      shutdown (conn_control c) = Running /\ recovering (conn_control c) = false /\
      recovering (fst (run_without_shutdown (conn_future c) (conn_control c))) = true /\
      exists info, srun_tls_info (conn_future c) = Some info /\ describes io (tls_server_name io) info
  end.
Proof.
  unfold serve_tls. destruct (validate_alpn_spec io) as [[-> Hp]|(e & -> & He & Hp)]; [|done]. simpl.
  split_and!; try done. eexists. split; [done|]. by apply TlsInfo_describes.
Qed.

End Tls.
