(* ===== verification/Exchange.v ===== *)
(** The message policy of one exchange (src/src/proto/h1/exchange.rs and
    [upgrade_protocols_match] of src/src/proto/h1.rs).

    Heads select the policy; [finish] composes it with the ends of the two
    directional activities into what becomes of the connection. The
    specification is a log of the heads the policy accepted. *)

From Stdlib Require Import ZArith Lia.
From stdpp Require Import base list option.
From S2P Require Import Prelude Http Errors Syntax Scan Validate.

Inductive ActivityEnd := ActivityComplete | ActivityRetired.

Inductive ResponsePhase : Type :=
| AwaitingHead
| PhaseFinal
| PhaseUpgrade (k : UpgradeKind).

Inductive HeadAction : Type :=
| ActionInformational
| ActionFinal
| ActionUpgrade (k : UpgradeKind).

Inductive Outcome : Type :=
| OutcomeReusable
| OutcomeClose
| OutcomeHandoff (k : UpgradeKind).

#[export] Instance ActivityEnd_eq_dec : EqDecision ActivityEnd.
Proof. solve_decision. Defined.
#[export] Instance ResponsePhase_eq_dec : EqDecision ResponsePhase.
Proof. solve_decision. Defined.

Section Exchange.
Context {http : HttpCrate}.

(** ** Matching the selected protocols *)

(** [value.as_bytes().split(|byte| *byte == b',').map(trim_ows)] *)
Definition list_pieces (value : bytes) : list bytes := map trim_ows (split_on COMMA value).

Definition was_offered (offered : list HeaderValue) (selected : bytes) : bool :=
  existsb (fun value => existsb (fun o => eq_ignore_ascii_case o selected) (list_pieces value)) offered.

(** The inner loop; [None] is the early [return false]. *)
Fixpoint match_pieces (offered : list HeaderValue) (pieces : list bytes) (selected_any : bool) : option bool :=
  match pieces with
  | [] => Some selected_any
  | selected :: pieces =>
      if bool_decide (selected = []) then None
      else if negb (was_offered offered selected) then None
      else match_pieces offered pieces true
  end.

Fixpoint match_values (offered values : list HeaderValue) (selected_any : bool) : bool :=
  match values with
  | [] => selected_any
  | value :: values =>
      match match_pieces offered (list_pieces value) selected_any with
      | None => false
      | Some selected_any => match_values offered values selected_any
      end
  end.

Definition upgrade_protocols_match (offered : list HeaderValue) (selected : HeaderMap) : bool :=
  match_values offered (hm_get_all selected UPGRADE) false.

(** ** The policy *)

Record ExchangePolicy := mkExchangePolicy {
  phase : ResponsePhase;
  ex_persistence : Persistence;
  ex_method : Method;
  ex_upgrade : option UpgradeKind;
  offered_protocols : list HeaderValue;
  informational : Z;
  max_informational : Z;
}.

Definition set_phase (p : ExchangePolicy) (ph : ResponsePhase) : ExchangePolicy :=
  mkExchangePolicy ph (ex_persistence p) (ex_method p) (ex_upgrade p) (offered_protocols p)
    (informational p) (max_informational p).
Definition set_persistence (p : ExchangePolicy) (q : Persistence) : ExchangePolicy :=
  mkExchangePolicy (phase p) q (ex_method p) (ex_upgrade p) (offered_protocols p)
    (informational p) (max_informational p).
Definition set_informational (p : ExchangePolicy) (n : Z) : ExchangePolicy :=
  mkExchangePolicy (phase p) (ex_persistence p) (ex_method p) (ex_upgrade p) (offered_protocols p)
    n (max_informational p).

Definition exchange_new (request : ValidatedRequestHead) (max_informational : Z) : ExchangePolicy :=
  mkExchangePolicy AwaitingHead (vreq_persistence request) (req_method (vreq_head request))
    (vreq_upgrade request)
    (if bool_decide (vreq_upgrade request = Some Protocol)
     then hm_get_all (req_headers (vreq_head request)) UPGRADE else [])
    0 max_informational.

(** The guard both sides put on an upgrade response. *)
Definition upgrade_refused (p : ExchangePolicy) (upgrade : UpgradeKind) (headers : HeaderMap) : bool :=
  negb (bool_decide (ex_upgrade p = Some upgrade)) ||
  (bool_decide (upgrade = Protocol) && negb (upgrade_protocols_match (offered_protocols p) headers)).

Definition refused_upgrade : Error := Error_new Upgrade "response did not match the requested upgrade".

Definition receive_head (p : ExchangePolicy) (h : ResponseHead)
    : ExchangePolicy * result (ValidatedResponseHead * HeadAction) Error :=
  if negb (bool_decide (phase p = AwaitingHead)) then
    (p, Err (Error_new InvalidMessage "response head after final response"))
  else
    match validate_response h (ex_method p) with
    | Err e => (p, Err (Error_from_head e))
    | Ok head =>
        match vresp_upgrade head with
        | Some upgrade =>
            if upgrade_refused p upgrade (resp_headers (vresp_head head)) then (p, Err refused_upgrade)
            else (set_phase p (PhaseUpgrade upgrade), Ok (head, ActionUpgrade upgrade))
        | None =>
            if status_is_informational (resp_status (vresp_head head)) then
              if informational p =? max_informational p then
                (p, Err (with_detail (Error_new Limit "too many informational responses")
                           (IncomingLimit InformationalResponses)))
              else (set_informational p (informational p + 1), Ok (head, ActionInformational))
            else
              let p := set_phase p PhaseFinal in
              let p := if bool_decide (vresp_persistence head = Close) then set_persistence p Close else p in
              (p, Ok (head, ActionFinal))
        end
    end.

Definition sent_final (p : ExchangePolicy) (q : Persistence) : ExchangePolicy * result unit Error :=
  if negb (bool_decide (phase p = AwaitingHead)) then
    (p, Err (Error_new Internal "invalid final response transition"))
  else
    let p := set_phase p PhaseFinal in
    let p := if bool_decide (q = Close) then set_persistence p Close else p in
    (p, Ok tt).

Definition sent_response (p : ExchangePolicy) (head : ValidatedResponseHead) : ExchangePolicy * result unit Error :=
  match vresp_upgrade head with
  | Some upgrade =>
      if negb (bool_decide (phase p = AwaitingHead)) ||
         upgrade_refused p upgrade (resp_headers (vresp_head head)) then (p, Err refused_upgrade)
      else (set_phase p (PhaseUpgrade upgrade), Ok tt)
  | None => sent_final p (vresp_persistence head)
  end.

Definition close_after_exchange (p : ExchangePolicy) : ExchangePolicy := set_persistence p Close.

Definition exchange_finish (p : ExchangePolicy) (request response : ActivityEnd) : result Outcome Error :=
  if bool_decide (request = ActivityRetired) || bool_decide (response = ActivityRetired) then Ok OutcomeClose
  else
    match phase p with
    | AwaitingHead => Err (Error_new Internal "exchange completed without final head")
    | PhaseUpgrade k => Ok (OutcomeHandoff k)
    | PhaseFinal =>
        Ok (match ex_persistence p with
            | Reusable => OutcomeReusable
            | Close => OutcomeClose
            end)
    end.

(** ** Executions

    A driver calls the operations in any order; what it saw accepted is the
    log. *)

Inductive Event : Type :=
| Received (h : ResponseHead)
| SentFinal (q : Persistence)
| SentResponse (h : ValidatedResponseHead)
| CloseAfter.

Inductive Entry : Type :=
| AcceptedInformational
| AcceptedFinal (q : Persistence)
| AcceptedUpgrade (k : UpgradeKind) (headers : HeaderMap)
| AskedClose.

Definition entry_of (head : ValidatedResponseHead) (a : HeadAction) : Entry :=
  match a with
  | ActionInformational => AcceptedInformational
  | ActionFinal => AcceptedFinal (vresp_persistence head)
  | ActionUpgrade k => AcceptedUpgrade k (resp_headers (vresp_head head))
  end.

Definition sent_entry (head : ValidatedResponseHead) : Entry :=
  match vresp_upgrade head with
  | Some k => AcceptedUpgrade k (resp_headers (vresp_head head))
  | None => AcceptedFinal (vresp_persistence head)
  end.

Definition exchange_step (p : ExchangePolicy) (e : Event) : ExchangePolicy * list Entry :=
  match e with
  | Received h =>
      match receive_head p h with
      | (p, Ok (head, a)) => (p, [entry_of head a])
      | (p, Err _) => (p, [])
      end
  | SentFinal q =>
      match sent_final p q with
      | (p, Ok _) => (p, [AcceptedFinal q])
      | (p, Err _) => (p, [])
      end
  | SentResponse h =>
      match sent_response p h with
      | (p, Ok _) => (p, [sent_entry h])
      | (p, Err _) => (p, [])
      end
  | CloseAfter => (close_after_exchange p, [AskedClose])
  end.

Fixpoint exchange_run (p : ExchangePolicy) (events : list Event) : ExchangePolicy * list Entry :=
  match events with
  | [] => (p, [])
  | e :: events =>
      let '(p, l) := exchange_step p e in
      let '(p, l') := exchange_run p events in
      (p, l ++ l')
  end.

(** ** Specification *)

(** The entries that end the exchange's heads. *)
Definition decisive (e : Entry) : bool :=
  match e with
  | AcceptedFinal _ | AcceptedUpgrade _ _ => true
  | _ => false
  end.

Definition is_informational_entry (e : Entry) : bool :=
  match e with
  | AcceptedInformational => true
  | _ => false
  end.

(** The entries that keep the connection from being reused. *)
Definition closes (e : Entry) : bool :=
  match e with
  | AskedClose | AcceptedFinal Close => true
  | _ => false
  end.

Definition outcome_spec (request : ValidatedRequestHead) (log : list Entry) (a b : ActivityEnd)
    : result Outcome Error :=
  match a, b with
  | ActivityComplete, ActivityComplete =>
      match List.filter decisive log with
      | AcceptedUpgrade k _ :: _ => Ok (OutcomeHandoff k)
      | AcceptedFinal _ :: _ =>
          Ok (if bool_decide (vreq_persistence request = Close) || existsb closes log
              then OutcomeClose else OutcomeReusable)
      | _ => Err (Error_new Internal "exchange completed without final head")
      end
  | _, _ => Ok OutcomeClose
  end.

(** Every piece of the selected Upgrade list is one of the offered. *)
Definition selected_offered (offered : list HeaderValue) (selected : HeaderMap) : Prop :=
  hm_get_all selected UPGRADE <> [] /\
  forall value piece, value ∈ hm_get_all selected UPGRADE -> piece ∈ list_pieces value ->
    piece <> [] /\
    exists v o, v ∈ offered /\ o ∈ list_pieces v /\ eq_ignore_ascii_case o piece = true.

Lemma was_offered_spec offered s :
  was_offered offered s = true <->
  exists v o, v ∈ offered /\ o ∈ list_pieces v /\ eq_ignore_ascii_case o s = true.
Proof.
  unfold was_offered. rewrite existsb_exists. split.
  - intros (v & Hv & Ho). apply existsb_exists in Ho as (o & Ho & He). exists v, o.
    by rewrite !list_elem_of_In.
  - intros (v & o & Hv & Ho & He). exists v. rewrite <- list_elem_of_In. split; [done|].
    apply existsb_exists. exists o. by rewrite <- list_elem_of_In.
Qed.

Lemma match_pieces_spec offered ps any r :
  match_pieces offered ps any = Some r <->
  Forall (fun s => s <> [] /\ was_offered offered s = true) ps /\
  r = any || negb (bool_decide (ps = [])).
Proof.
  revert any. induction ps as [|s ps IH]; intros any; simpl.
  - rewrite orb_false_r. split; [intros [= <-]; split; [constructor|done] | by intros [_ ->]].
  - rewrite Forall_cons_iff.
    rewrite orb_true_r. destruct (bool_decide_reflect (s = [])) as [Hs|Hs]; simpl.
    { split; [discriminate|]. intros [[[H _] _] _]. contradiction. }
    destruct (was_offered offered s) eqn:Ew; simpl.
    2:{ split; [discriminate|]. intros [[[_ H] _] _]. discriminate. }
    rewrite IH. simpl. split; [intros [? ->] | intros [[_ ?] ->]]; done.
Qed.

Lemma match_values_spec offered vs any :
  match_values offered vs any = true <->
  Forall (fun v => Forall (fun s => s <> [] /\ was_offered offered s = true) (list_pieces v)) vs /\
  (any = true \/ vs <> []).
Proof.
  revert any. induction vs as [|v vs IH]; intros any; simpl.
  - split; [intros ->; split; [constructor | by left] | by intros [_ [->|]]].
  - rewrite Forall_cons_iff. destruct (match_pieces offered (list_pieces v) any) as [r|] eqn:E.
    + apply match_pieces_spec in E as [Hp ->]. rewrite IH.
      assert (Hn : list_pieces v <> []).
      { unfold list_pieces. intros Hm%map_eq_nil. by apply split_on_nonempty in Hm. }
      rewrite bool_decide_eq_false_2 by done. rewrite orb_true_r. split; [intros [? _] | intros [[_ ?] _]]; auto.
    + split; [done|]. intros [[Hp _] _].
      assert (match_pieces offered (list_pieces v) any = Some (any || negb (bool_decide (list_pieces v = [])))) as Hs
        by (by apply match_pieces_spec). congruence.
Qed.

Lemma upgrade_protocols_match_offered offered selected :
  upgrade_protocols_match offered selected = true <-> selected_offered offered selected.
Proof.
  unfold upgrade_protocols_match, selected_offered. rewrite match_values_spec.
  setoid_rewrite list.Forall_forall. setoid_rewrite was_offered_spec. split.
  - intros [H [?|?]]; [done|]. split; [done|]. intros v p Hv Hp. exact (proj1 (list.Forall_forall _ _) (H v Hv) p Hp).
  - intros [Hn H]. split; [|by right]. intros v Hv. apply list.Forall_forall. intros p. exact (H v p Hv).
Qed.

(** ** The policy implements its specification *)

Definition wf_policy (p : ExchangePolicy) : Prop := 0 <= informational p <= max_informational p.

(** What one step does to a policy that still awaits a head, and to one that
    does not. *)
Lemma exchange_step_closed p e p' l :
  phase p <> AwaitingHead -> exchange_step p e = (p', l) ->
  (p' = p /\ l = []) \/ (p' = set_persistence p Close /\ l = [AskedClose]).
Proof.
  intros Hp. unfold exchange_step, receive_head, sent_response, sent_final.
  rewrite (bool_decide_eq_false_2 _ Hp). simpl.
  destruct e as [h|q|h|]; [|  |destruct (vresp_upgrade h)|]; intros [= <- <-]; auto.
Qed.

Inductive open_step (p : ExchangePolicy) : ExchangePolicy -> list Entry -> Prop :=
| os_rejected : open_step p p []
| os_informational :
    informational p <> max_informational p ->
    open_step p (set_informational p (informational p + 1)) [AcceptedInformational]
| os_final q :
    open_step p (let p := set_phase p PhaseFinal in if bool_decide (q = Close) then set_persistence p Close else p)
      [AcceptedFinal q]
| os_upgrade k headers :
    ex_upgrade p = Some k -> (k = Protocol -> selected_offered (offered_protocols p) headers) ->
    open_step p (set_phase p (PhaseUpgrade k)) [AcceptedUpgrade k headers]
| os_close : open_step p (set_persistence p Close) [AskedClose].

Lemma upgrade_not_refused p k headers :
  upgrade_refused p k headers = false ->
  ex_upgrade p = Some k /\ (k = Protocol -> selected_offered (offered_protocols p) headers).
Proof.
  unfold upgrade_refused. intros [Hk Hm]%orb_false_iff. apply negb_false_iff, bool_decide_eq_true in Hk.
  split; [done|]. intros ->. rewrite bool_decide_eq_true_2 in Hm by done.
  apply upgrade_protocols_match_offered. by apply negb_false_iff in Hm.
Qed.

Lemma exchange_step_open p e p' l :
  phase p = AwaitingHead -> exchange_step p e = (p', l) -> open_step p p' l.
Proof.
  intros Hp. unfold exchange_step, receive_head, sent_response, sent_final, sent_entry.
  rewrite (bool_decide_eq_true_2 _ Hp). cbn [negb orb].
  destruct e as [h|q|h|].
  - destruct (validate_response h _) as [head|]; [|intros [= <- <-]; constructor].
    destruct (vresp_upgrade head) as [k|].
    + destruct (upgrade_refused _ _ _) eqn:E; intros [= <- <-]; [constructor|].
      apply upgrade_not_refused in E as [? ?]. by constructor.
    + destruct (status_is_informational _); [|intros [= <- <-]; constructor].
      destruct (Z.eqb_spec (informational p) (max_informational p)); intros [= <- <-]; by constructor.
  - intros [= <- <-]. constructor.
  - destruct (vresp_upgrade h) as [k|]; [|intros [= <- <-]; constructor].
    destruct (upgrade_refused _ _ _) eqn:E; intros [= <- <-]; [constructor|].
    apply upgrade_not_refused in E as [? ?]. by constructor.
  - intros [= <- <-]. constructor.
Qed.

(** After the decisive head only close requests are recorded. *)
Lemma exchange_run_closed p events p' l :
  phase p <> AwaitingHead -> exchange_run p events = (p', l) ->
  Forall (eq AskedClose) l /\ phase p' = phase p /\
  ex_persistence p' = (if bool_decide (l = []) then ex_persistence p else Close).
Proof.
  revert p l. induction events as [|e events IH]; intros p l Hp; simpl; [intros [= <- <-]; by repeat split|].
  destruct (exchange_step p e) as [p1 l1] eqn:E1. destruct (exchange_run p1 events) as [p2 l2] eqn:E2.
  intros [= <- <-]. apply exchange_step_closed in E1 as [[-> ->]|[-> ->]]; [by apply IH in E2| |done].
  apply IH in E2 as (Hl & Hph & Hpe); [|done]. simpl. split_and!; [by constructor | done |].
  rewrite Hpe. by case_bool_decide.
Qed.

(** What the log of a run from an awaiting policy looks like. *)
Record log_ok (p p' : ExchangePolicy) (l : list Entry) : Prop := {
  lo_split : exists before after, l = before ++ after /\
    Forall (fun e => decisive e = false) before /\
    match after with
    | [] => phase p' = AwaitingHead
    | AcceptedFinal _ :: rest => phase p' = PhaseFinal /\ Forall (eq AskedClose) rest
    | AcceptedUpgrade k headers :: rest =>
        phase p' = PhaseUpgrade k /\ Forall (eq AskedClose) rest /\
        ex_upgrade p = Some k /\ (k = Protocol -> selected_offered (offered_protocols p) headers)
    | _ => False
    end;
  lo_persistence : ex_persistence p' = if existsb closes l then Close else ex_persistence p;
  lo_count : wf_policy p -> zlen (List.filter is_informational_entry l) <= max_informational p - informational p;
}.

Lemma asked_close_facts l :
  Forall (eq AskedClose) l ->
  existsb closes l = negb (bool_decide (l = [])) /\ List.filter is_informational_entry l = [].
Proof. induction 1 as [|e l <- Hl [_ IH]]; [done|]. simpl. by rewrite IH. Qed.

(** A step that accepts the decisive head [e], then the rest of the run. *)
Lemma log_ok_decisive p p1 events p' e l :
  phase p1 <> AwaitingHead -> exchange_run p1 events = (p', l) ->
  match e with
  | AcceptedFinal _ => phase p1 = PhaseFinal
  | AcceptedUpgrade k headers =>
      phase p1 = PhaseUpgrade k /\ ex_upgrade p = Some k /\
      (k = Protocol -> selected_offered (offered_protocols p) headers)
  | _ => False
  end ->
  ex_persistence p1 = (if closes e then Close else ex_persistence p) ->
  log_ok p p' (e :: l).
Proof.
  intros Hp1 Hr He Hpe. apply exchange_run_closed in Hr as (Hl & Hph & Hpe'); [|done].
  destruct (asked_close_facts _ Hl) as [Hc Hi]. split.
  - exists [], (e :: l). split; [done|]. split; [constructor|]. rewrite Hph. destruct e; try done.
    destruct He as (? & ? & ?). done.
  - rewrite Hpe', Hpe. simpl. rewrite Hc. destruct (closes e); simpl; case_bool_decide; done.
  - intros [? ?]. simpl. rewrite Hi. destruct e; try done; simpl; change (zlen (@nil Entry)) with 0; lia.
Qed.

Lemma exchange_run_log p events p' l :
  phase p = AwaitingHead -> exchange_run p events = (p', l) -> log_ok p p' l.
Proof.
  revert p l. induction events as [|e events IH]; intros p l Hp; simpl.
  { intros [= <- <-]. split; [|done|].
    - exists [], []. by repeat split.
    - intros [? ?]. simpl. change (zlen (@nil Entry)) with 0. lia. }
  destruct (exchange_step p e) as [p1 l1] eqn:E1. destruct (exchange_run p1 events) as [p2 l2] eqn:E2.
  intros [= <- <-]. apply exchange_step_open in E1; [|done].
  destruct E1 as [|Hn|q|k headers Hk Hs|]; simpl.
  - by apply IH in E2.
  - apply IH in E2 as [(b & a & -> & Hb & Ha) Hpe Hc]; [|done]. split.
    + exists (AcceptedInformational :: b), a. split; [done|]. split; [by constructor | done].
    + done.
    + intros [? ?]. unfold wf_policy in Hc. simpl in *. rewrite zlen_cons. lia.
  - eapply log_ok_decisive with (2 := E2); [|simpl|]; case_bool_decide; subst; try done. by destruct q.
  - by eapply log_ok_decisive with (2 := E2).
  - apply IH in E2 as [(b & a & -> & Hb & Ha) Hpe Hc]; [|done]. split.
    + exists (AskedClose :: b), a. split; [done|]. split; [by constructor | done].
    + rewrite Hpe. simpl. by case_match.
    + done.
Qed.

Lemma filter_none {A} (f : A -> bool) l : Forall (fun e => f e = false) l -> List.filter f l = [].
Proof. induction 1 as [|x l Hx Hl IH]; [done|]. simpl. by rewrite Hx. Qed.

(** What becomes of the connection. Whatever the order and number of heads
    received, responses sent and close requests, finishing the policy gives
    exactly what the log of accepted heads says: the connection closes when
    either direction was retired; otherwise it is handed off if the exchange
    ended in an accepted upgrade, reused if it ended in a final head and
    neither the request, that head nor the driver asked to close, and it is an
    internal error when no final head was accepted. *)
Theorem exchange_outcome request max events a b :
  let '(p, log) := exchange_run (exchange_new request max) events in
  exchange_finish p a b = outcome_spec request log a b.
Proof.
  destruct (exchange_run _ events) as [p log] eqn:E. apply exchange_run_log in E; [|done].
  destruct E as [(before & after & -> & Hb & Ha) Hp _]. unfold exchange_finish, outcome_spec.
  destruct a, b; try done. simpl. rewrite filter_app, (filter_none _ _ Hb). simpl in *.
  destruct after as [|[|q|k headers|] rest]; try done; simpl.
  - by rewrite Ha.
  - destruct Ha as [-> _]. rewrite Hp. destruct (existsb closes _), (vreq_persistence request); done.
  - by destruct Ha as [-> _].
Qed.

(** Which heads an exchange accepts. In any order of calls the accepted
    heads are at most [max] informational ones and then at most one final or
    upgrade head, after which nothing but close requests is recorded; and an
    upgrade is accepted only when the request asked for that kind and, for a
    protocol upgrade, every protocol the response selects is non-empty and was
    offered by the request. *)
Theorem exchange_heads_bounded request max events :
  0 <= max ->
  let log := snd (exchange_run (exchange_new request max) events) in
  zlen (List.filter is_informational_entry log) <= max /\
  exists before after, log = before ++ after /\ Forall (fun e => decisive e = false) before /\
    match after with
    | [] => True
    | AcceptedFinal _ :: rest => Forall (eq AskedClose) rest
    | AcceptedUpgrade k headers :: rest =>
        Forall (eq AskedClose) rest /\ vreq_upgrade request = Some k /\
        (k = Protocol -> selected_offered (hm_get_all (req_headers (vreq_head request)) UPGRADE) headers)
    | _ => False
    end.
Proof.
  intros Hm. destruct (exchange_run _ events) as [p log] eqn:E. apply exchange_run_log in E; [|done]. simpl.
  destruct E as [(before & after & -> & Hb & Ha) _ Hc]. split.
  - unfold wf_policy in Hc. simpl in Hc. lia.
  - exists before, after. split; [done|]. split; [done|].
    destruct after as [|[] rest]; try done; simpl in Ha; [by destruct Ha|].
    destruct Ha as (_ & Hr & Hu & Hs). split; [done|]. split; [done|]. intros ->. specialize (Hs eq_refl).
    by rewrite bool_decide_eq_true_2 in Hs.
Qed.

(** The protocol comparison of an upgrade. It accepts exactly when the
    response has an Upgrade field and every comma-separated piece of it,
    trimmed, is non-empty and equals, in any letter case, a piece the request
    offered. *)
Theorem upgrade_protocols_match_spec offered selected :
  upgrade_protocols_match offered selected = true <-> selected_offered offered selected.
Proof. apply upgrade_protocols_match_offered. Qed.

End Exchange.

(** ** An evaluated exchange: early hints, one too many, then the switch *)

Definition early_hints : @ResponseHead AssocHttp := @mkResponseHead AssocHttp HTTP_11 103 [] None.

Definition switching : @ResponseHead AssocHttp :=
  @mkResponseHead AssocHttp HTTP_11 101 [(CONNECTION, bs "upgrade"); (UPGRADE, bs "WebSocket")] None.

Definition upgrade_events : list Event := [Received early_hints; Received early_hints; Received switching; CloseAfter].

Lemma upgrade_log :
  snd (exchange_run (exchange_new upload_validated 1) upgrade_events) =
  [AcceptedInformational; AcceptedUpgrade Protocol (resp_headers switching); AskedClose].
Proof.
  vm_cast_no_check (eq_refl (A := list (@Entry AssocHttp))
    [AcceptedInformational; AcceptedUpgrade Protocol (resp_headers switching); AskedClose]).
Qed.

Lemma exchange_heads_bounded_witness :
  0 <= 1 /\
  zlen (List.filter is_informational_entry (snd (exchange_run (exchange_new upload_validated 1) upgrade_events))) <= 1.
Proof. split; [lia|]. apply (exchange_heads_bounded upload_validated 1 upgrade_events). lia. Defined.
