(* ===== verification/Heads.v ===== *)
(** Reading one head from retained input: what both connection drivers rely on
    when they call the parser (Scan.v) on the receive buffer (Recv.v) again
    after every read. *)

From Stdlib Require Import ZArith Lia.
From stdpp Require Import base list option.
From S2P Require Import Prelude Http Errors Syntax Body Decode Scan Validate Incoming Send Recv Deadline Receive.

(** [p] is a parser of [p0] that has seen the input [a] and is still looking. *)
Definition resumes (p0 p : HeadParser) (a : bytes) : Prop :=
  fresh p = fresh p0 /\ forall x, head_len p (a ++ x) = head_len (fresh p0) (a ++ x).

(** [h] is one head, with nothing after it, within the parser's limit. *)
Definition one_head (p0 : HeadParser) (h : bytes) : Prop :=
  head_end h (zlen h) /\ zlen h <= max_bytes (limits p0).

Lemma resumes_fresh p0 p a : p = fresh p0 -> resumes p0 p a.
Proof. intros ->. by split. Qed.

Lemma head_len_fresh p a p' r : head_len p a = (p', r) -> fresh p' = fresh p.
Proof.
  unfold head_len. destruct (scan_complete _ _) as [s [n|]]; [by intros [= <- _]|].
  destruct (_ <? _); by intros [= <- _].
Qed.

Lemma resumes_extends p0 p a p' x : resumes p0 p a -> head_len p a = (p', Ok None) -> resumes p0 p' (a ++ x).
Proof.
  intros [Hf Hp] E. split; [by rewrite (head_len_fresh _ _ _ _ E)|]. intros y.
  specialize (Hp []). rewrite app_nil_r in Hp. rewrite E in Hp. symmetry in Hp.
  rewrite <- app_assoc. by apply (head_len_resume p0 a (x ++ y)).
Qed.

Lemma one_head_pos p0 h : one_head p0 h -> 0 < zlen h.
Proof.
  intros [(Hn & Hh & _) _]. rewrite ztake_all in Hh by lia. destruct h as [|b h]; [by apply is_head_nil in Hh|].
  unfold zlen. simpl. lia.
Qed.

Lemma head_len_one_head p0 a p' n :
  head_len (fresh p0) a = (p', Ok (Some n)) -> 0 < n <= zlen a /\ one_head p0 (ztake n a).
Proof.
  intros E. destruct (head_len_bounds _ _ _ _ E) as [Hn Hm]. split; [done|]. revert E. unfold head_len.
  cbn [scan fresh set_scan limits].
  destruct (scan_complete _ _) as [s [m|]] eqn:Es; [|by destruct (_ <? _)]. intros [= _ ->].
  assert (head_end a n) as He.
  { assert (snd (scan_complete HeadScan_default (ztake (parse_input_len (fresh p0) a) a)) = Some n) as Hs by by rewrite Es.
    apply scan_complete_correct in Hs. apply head_end_ztake in Hs as [Hs _]; [done|].
    unfold parse_input_len. cbn [limits fresh set_scan]. pose proof (zlen_nonneg a). lia. }
  assert (zlen (ztake n a) = n) as Hl by (rewrite zlen_ztake by lia; lia).
  split; [|by rewrite Hl]. rewrite Hl. apply head_end_ztake; [lia|]. split; [done|lia].
Qed.

Section Take.
Context {alloc : BytesAllocator}.

(** A head the parser found comes out of the buffer whole and alone. *)
Lemma take_head p0 p b p' n :
  resumes p0 p (recv_bytes b) -> wf_recv b -> head_len p (recv_bytes b) = (p', Ok (Some n)) ->
  exists b' h, take_shared_prefix b n = (b', Ok h) /\ recv_bytes b = h ++ recv_bytes b' /\ wf_recv b' /\
    one_head p0 h /\ fresh p' = fresh p0.
Proof.
  intros [Hf Hp] Hwf E. pose proof (head_len_fresh _ _ _ _ E) as Hf'. specialize (Hp []). rewrite app_nil_r in Hp.
  rewrite E in Hp. symmetry in Hp. destruct (head_len_one_head _ _ _ _ Hp) as [Hn Hone].
  pose proof (take_shared_prefix_ok b n Hwf ltac:(lia)) as Ht.
  destruct (take_shared_prefix b n) as [b' r] eqn:Eb. simpl in Ht. rewrite (proj2 (Z.leb_le _ _)) in Ht by lia.
  destruct Ht as [Hh ->]. exists b', (ztake n (recv_bytes b)).
  split; [done|]. split; [by rewrite (proj1 Hh), ztake_zdrop|]. split_and!; [|done..|congruence].
  apply (holds_wf _ _ _ Hwf Hh). destruct Hwf as (_ & _ & Hl & _). unfold recv_len in Hl. rewrite zlen_zdrop by lia. lia.
Qed.

End Take.

(** ** Framing of a validated head *)

Section Framing.
Context {http : HttpCrate}.

Lemma message_framing_mode headers v no_framing mode :
  message_framing headers v no_framing = Ok mode -> mode_ok no_framing -> mode_ok mode.
Proof.
  intros [(-> & _)|[(n & -> & _ & Hne & _ & Hf)|(-> & _)]]%message_framing_says Hn; [done| |done].
  destruct (hm_get_all headers CONTENT_LENGTH) as [|v0 vs]; [done|]. inversion Hf as [|? ? Hv _]; subst.
  pose proof (split_on_nonempty COMMA v0). destruct (split_on COMMA v0) as [|m ms]; [done|].
  inversion Hv as [|? ? (_ & Hd & <-) _]; subst. exact (decimal_value_fold_nonneg 0 _ (Z.le_refl 0) Hd).
Qed.

Lemma validated_response_mode h method vh : validate_response h method = Ok vh -> mode_ok (vresp_body vh).
Proof.
  unfold validate_response. destruct (_ <? _); [done|]. intros Hv. rinv. simpl.
  destruct (response_has_no_body _ _ _); rinv; [done|]. by eapply message_framing_mode.
Qed.

Lemma validated_request_mode h received vh : validate_for h received = Ok vh -> mode_ok (vreq_body vh).
Proof.
  unfold validate_for. intros Hv. rinv. case_match; [done|]. rinv. simpl. by eapply message_framing_mode.
Qed.

End Framing.
