(* ===== verification/Scenario.v ===== *)
(** A concrete connection for evaluating the drivers: a transport that hands a
    byte stream over seven bytes at a time and accepts every write, an
    application that takes everything, a clock that stands still, and a head
    grammar of lines. It instantiates every interface of the transport and the
    runtime; [X] is whatever else a driver shares. *)

From Stdlib Require Import ZArith Lia.
From stdpp Require Import base list option.
From S2P Require Import Prelude Http Errors Syntax Scan Decode Body Encode Pipe Incoming Send Recv Deadline Receive Transfer.

(** ** A head grammar *)

Definition strip_cr (line : bytes) : bytes :=
  match rev line with b :: rest => if beq b CR then rev rest else line | [] => [] end.

Fixpoint field_lines (lines : list bytes) : list (bytes * bytes) :=
  match lines with
  | [] => []
  | line :: lines =>
      match split_on Byte.x3a line with
      | name :: value :: _ => (name, trim_ows value) :: field_lines lines
      | _ => field_lines lines
      end
  end.

Definition head_lines (input : bytes) : list bytes := map strip_cr (split_on LF input).

Definition LineHeads : Httparse := {|
  hp_parse_request input _ :=
    match head_lines input with
    | start :: fields =>
        match split_on SP start with
        | [method; path; v] =>
            HpComplete (zlen input, {| hp_method := Some method; hp_path := Some path;
              hp_req_version := Some (if bytes_eqb v (bs "HTTP/1.1") then 1 else 0); hp_req_headers := field_lines fields |})
        | _ => HpErr HpToken
        end
    | [] => HpPartial
    end;
  hp_parse_response input _ :=
    match head_lines input with
    | start :: fields =>
        match split_on SP start with
        | v :: code :: _ =>
            HpComplete (zlen input, {| hp_resp_version := Some (if bytes_eqb v (bs "HTTP/1.1") then 1 else 0);
              hp_code := Some (decimal_value code); hp_resp_headers := field_lines fields |})
        | _ => HpErr HpToken
        end
    | [] => HpPartial
    end;
  hp_parse_headers i _ := if bytes_eqb i [CR; LF] then HpComplete (2, []) else HpPartial;
|}.

#[export] Instance LineHeads_laws : HttparseLaws LineHeads.
Proof.
  constructor; simpl; [|done].
  intros i cap n hs. destruct (bytes_eqb i _) eqn:E; [|done].
  apply bytes_eqb_true in E. intros. simplify_eq. split; [done | by right; left].
Qed.

(** ** The world

    [input] is all the transport will ever hand over. *)

Record World {http : HttpCrate} (input : bytes) (X : Type) := mkWorld {
  position : nat;
  out : bytes;
  frames : list (Frame IncomingData);
  over : option (result unit Error);
  extra : X;
}.
Arguments mkWorld {http input X} _ _ _ _ _.
Arguments position {http input X} _.
Arguments out {http input X} _.
Arguments frames {http input X} _.
Arguments over {http input X} _.
Arguments extra {http input X} _.

Section World.
Context {http : HttpCrate} {input : bytes} {X : Type}.

Definition opened (x : X) : World input X := mkWorld 0 [] [] None x.

Definition taken_in (w : World input X) : bytes := take (position w) input.

Definition set_extra (w : World input X) (x : X) : World input X := mkWorld (position w) (out w) (frames w) (over w) x.

Definition take_in (w : World input X) (n : Z) : World input X * bytes :=
  let b := ztake (Z.min n 7) (drop (position w) input) in
  (mkWorld (position w + length b) (out w) (frames w) (over w) (extra w), b).

Definition put_out (w : World input X) (b : bytes) : World input X :=
  mkWorld (position w) (out w ++ b) (frames w) (over w) (extra w).

#[export] Instance World_Runtime : Runtime (World input X) := {
  rt_yield w := w;
  rt_cancel_requested _ := false;
  operation_canceled := mkIoError IoOther false true None;
}.

#[export] Instance World_AsyncRead : AsyncRead (World input X) := {
  ar_read w n := let '(w, b) := take_in w n in (w, (Ok (zlen b), b));
  ar_read_managed w n := let '(w, b) := take_in w n in (w, Ok (if zlen b =? 0 then None else Some b));
}.

#[export] Instance World_AsyncWrite : AsyncWrite (World input X) := {
  aw_write w b := (put_out w b, Ok (zlen b));
  aw_write_vectored w bs := (put_out w (concat bs), Ok (zlen (concat bs)));
  aw_flush w := (w, Ok tt);
  aw_shutdown w := (w, Ok tt);
  vec_slice bs n := [zdrop n (concat bs)];
}.

#[export] Instance World_Timer : Timer (World input X) := {
  instant_after _ d := Some d;
  timer_first _ _ := false;
  request_cancel w := w;
}.

#[export] Instance World_Clock : Clock (World input X) := fun _ _ => false.

#[export] Instance World_Producing : Producing (World input X) := fun _ => true.

#[export] Instance World_Producer : BodyProducer (World input X) := {
  pr_demand w := (w, Some (Ok tt));
  pr_offer w f := (mkWorld (position w) (out w) (frames w ++ [f]) (over w) (extra w), Some (Ok tt));
  pr_close w := mkWorld (position w) (out w) (frames w) (Some (Ok tt)) (extra w);
  pr_fail w e := mkWorld (position w) (out w) (frames w) (Some (Err e)) (extra w);
  pr_is_abandoned _ := false;
  pr_abandoned_first _ := false;
  pr_policy _ := None;
  pr_set_policy w _ := w;
}.

Definition World_Allocator : BytesAllocator := {| capacity_for n := n; reserved_capacity c n := c + n |}.

Lemma take_in_spec w n w' b : take_in w n = (w', b) -> zlen b <= Z.max n 0 /\ taken_in w' = taken_in w ++ b.
Proof.
  intros [= <- <-]. unfold taken_in. simpl. split.
  { destruct (Z.lt_ge_cases 0 n); [rewrite zlen_ztake; lia|]. rewrite ztake_0 by lia. change (zlen []) with 0. lia. }
  rewrite <- take_take_drop. f_equal. unfold ztake. rewrite length_take.
  destruct (Nat.le_ge_cases (Z.to_nat (Z.min n 7)) (length (drop (position w) input))).
  - by rewrite Nat.min_l by done.
  - rewrite Nat.min_r, !take_ge by lia. done.
Qed.

Lemma taken_in_bound w : zlen (taken_in w) <= zlen input.
Proof. unfold taken_in, zlen. rewrite length_take. lia. Qed.

#[export] Instance World_Reads : Reads (World input X).
Proof.
  refine {| received := taken_in |}; unfold ar_read, ar_read_managed, World_AsyncRead; intros w n.
  - intros w' r fill Hn. destruct (take_in w n) as [w1 b] eqn:E. intros [= <- <- <-].
    apply take_in_spec in E as [? ?]. split; [lia|done].
  - intros w' r. destruct (take_in w n) as [w1 b] eqn:E. intros [= <- <-]. apply take_in_spec in E as [_ ->]. f_equal.
    destruct (Z.eqb_spec (zlen b) 0) as [->%zlen_0_nil|]; done.
  - intros w' b Hn. destruct (take_in w n) as [w1 b1] eqn:E. destruct (_ =? 0); intros [= <- <-].
    apply take_in_spec in E. lia.
Defined.

#[export] Instance World_Writes : Writes (World input X).
Proof.
  refine {| wire := out |}; try done.
  - intros w b w' r [= <- <-]. exists b. split; [done|]. simpl. split; [apply zlen_nonneg|]. by rewrite ztake_all by lia.
  - intros w bs w' r [= <- <-]. exists (concat bs). split; [done|]. simpl. split; [apply zlen_nonneg|].
    by rewrite ztake_all by lia.
  - intros w w' r [= <- _]. done.
  - intros bs n Hn. simpl. by rewrite app_nil_r.
Defined.

#[export] Instance World_ReceiveLaws : ReceiveLaws (World input X).
Proof.
  refine {| delivered := frames; ended := over |}; try done.
  intros w f w' r [= <- <-]. done.
Defined.

End World.

(** An empty receive buffer within small limits. *)
Definition scenario_buffer : RecvBuffer := mkRecvBuffer (Portable (mkBytesMut [] 64)) None 64 128.

Lemma scenario_buffer_wf : wf_recv scenario_buffer.
Proof. vm_compute. repeat split; discriminate. Qed.
