(* ===== verification/Client.v ===== *)
(** One client exchange: the two activities of src/src/proto/h1/client.rs,
    [send_request] and [receive], each as its task runs it.

    The world [W] holds what both activities share: the transport, the clock
    and the exchange's [Control] (Response.v). Awaiting an operation changes the
    world by whatever else runs meanwhile. *)

From Stdlib Require Import ZArith Lia.
From stdpp Require Import base list option.
From S2P Require Import Prelude Http Errors Response Syntax Scan Validate Decode Body Encode Pipe Incoming Send Recv.
From S2P Require Import Deadline Receive Transfer Exchange Config Heads Scenario.

(** ** What the activities share *)

Class ClientControl (W : Type) := {
  cc_control : W -> Control;
  cc_set : W -> Control -> W;
  (** a task is woken *)
  cc_wake : W -> option Waker -> W;
}.

Section Control.
Context {W : Type} `{ClientControl W}.

Definition grant_continue (w : W) : W :=
  let '(c, waker) := allow_continue (cc_control w) in cc_wake (cc_set w c) waker.

(** [control.cancel()] *)
Definition cancel_exchange (w : W) : W := cc_set w (cancel (cc_control w)).

Definition set_upload_complete (w : W) : W :=
  let c := cc_control w in
  cc_set w (mkControl (upload_canceled c) (exchange_canceled c) true (aborted c) (continue_allowed c) (continue_waker c)).

Definition explicit_abort (w : W) : bool := aborted (cc_control w).

End Control.

(** ** The upload *)

Record Request {http : HttpCrate} (B : Type) := mkRequest {
  rq_method : Method;
  rq_uri : Uri;
  rq_version : Version;
  rq_headers : HeaderMap;
  (** the [HeaderCaseMap] among the extensions *)
  rq_header_case : option HeaderMap;
  rq_body : B;
}.
Arguments mkRequest {http B} _ _ _ _ _ _.
Arguments rq_method {http B} _.
Arguments rq_uri {http B} _.
Arguments rq_version {http B} _.
Arguments rq_headers {http B} _.
Arguments rq_header_case {http B} _.
Arguments rq_body {http B} _.

Record RequestUpload {http : HttpCrate} (B : Type) := mkRequestUpload {
  up_plan : MessagePlan ValidatedRequestHead;
  up_body : B;
  up_encoder : BodyEncoder;
}.
Arguments mkRequestUpload {http B} _ _ _.
Arguments up_plan {http B} _.
Arguments up_body {http B} _.
Arguments up_encoder {http B} _.

(** The Continue wait under its timer and the upload's token; [false] when the
    token canceled it. *)
Class ContinueWait (W : Type) := wait_continue_until : W -> Z -> W * bool.

Section Upload.
Context {http : HttpCrate} {alloc : Encode.Allocator}.
Context {B D E : Type} `{IoBuf D} `{!Body B D E}.

(** [BodyMetadata] of a message; the hints may fail an assertion. *)
Definition body_metadata (body : B) : call BodyMetadata :=
  match size_hint body, trailer_hint body with
  | Returns size, Returns trailers => Returns (mkBodyMetadata size trailers)
  | _, _ => Panics
  end.

(** [RequestUpload::prepare] *)
Definition prepare (request : Request B) (encoding : EncodeConfig) (max_informational : Z)
    : call (result (RequestUpload B * ExchangePolicy) Error) :=
  map_call (fun metadata =>
    let? plan := map_err Error_from_encode
      (prepare_request_head (rq_method request) (rq_uri request) (rq_version request) (rq_headers request)
         (rq_header_case request) metadata encoding) in
    let policy := exchange_new (plan_head plan) max_informational in
    let? encoder := map_err Error_from_encode (BodyEncoder_new (vreq_body (plan_head plan)) metadata encoding) in
    Ok (mkRequestUpload plan (rq_body request) encoder, policy)) (body_metadata (rq_body request)).

Context {W : Type} `{Runtime W} `{AsyncWrite W} `{Timer W} `{Producing W} `{ClientControl W} `{ContinueWait W}.
Context (tls : bool) (application : E -> StdError) (writes : nat).

Definition continue_canceled : Error := Error_new Canceled "Continue wait canceled".

Definition has_body (mode : BodyMode) : bool :=
  match mode with BodyNone => false | BodyFixed n => negb (n =? 0) | _ => true end.

(** The wait before the body of a request that expects 100 Continue. *)
Definition await_continue (w : W) (head : ValidatedRequestHead) (continue_wait : option Z)
    : W * call (result unit Error) :=
  match continue_wait with
  | Some timeout =>
      if bool_decide (vreq_expectation head = ExpectContinue) && has_body (vreq_body head) then
        let '(w, flushed) := aw_flush w in
        match flushed with
        | Err e => (w, Returns (Err (from_io tls e)))
        | Ok _ =>
            match configured_after w (Some timeout) with
            | Err e => (w, Returns (Err e))
            | Ok None => (w, Panics)
            | Ok (Some deadline) =>
                let '(w, waited) := wait_continue_until w deadline in
                (w, Returns (if waited then Ok tt else Err continue_canceled))
            end
        end
      else (w, Returns (Ok tt))
  | None => (w, Returns (Ok tt))
  end.

(** [None] is a model run out of turns. *)
Definition send_request (fuel : nat) (w : W) (b : bytes) (head : ValidatedRequestHead) (body : B) (encoder : BodyEncoder)
    (continue_wait : option Z) : W * B * BodyEncoder * option (call (result unit Error)) :=
  let answer (w : W) (r : result unit Error) := (w, body, encoder, Some (Returns r)) in
  let '(w, written) := write_all true writes w b in
  match written with
  | None => (w, body, encoder, None)
  | Some (Err e) => answer w (Err (from_io tls e))
  | Some (Ok _) =>
      let '(w, waited) := await_continue w head continue_wait in
      match waited with
      | Panics => (w, body, encoder, Some Panics)
      | Returns (Err e) => answer w (Err e)
      | Returns (Ok _) =>
          let '(w, body, encoder, sent) :=
            if bool_decide (vreq_body head = BodyNone) then (w, body, encoder, Some (Returns (Ok SendStats_default)))
            else send_body true writes fuel w body encoder in
          match sent with
          | None => (w, body, encoder, None)
          | Some Panics => (w, body, encoder, Some Panics)
          | Some (Returns (Err e)) =>
              (w, body, encoder, Some (Returns (Err (map_send_error tls application e "request body failed" "request production canceled"))))
          | Some (Returns (Ok _)) =>
              let '(w, flushed) := aw_flush w in
              match flushed with
              | Err e => (w, body, encoder, Some (Returns (Err (from_io tls e))))
              | Ok _ => (set_upload_complete w, body, encoder, Some (Returns (Ok tt)))
              end
          end
      end
  end.

(** Sending leaves alone what its operations leave alone. *)
Section Keeps.
Context {A : Type} (f : W -> A).
Context (Hwrite : forall w b, f (fst (aw_write w b)) = f w) (Hvectored : forall w bs, f (fst (aw_write_vectored w bs)) = f w).
Context (Hflush : forall w, f (fst (aw_flush w)) = f w) (Hyield : forall w, f (rt_yield w) = f w).
Context (Hwait : forall w d, f (fst (wait_continue_until w d)) = f w) (Hset : forall w c, f (cc_set w c) = f w).

Lemma await_continue_keeps w head cw : f (fst (await_continue w head cw)) = f w.
Proof using Hflush Hwait.
  unfold await_continue. destruct cw as [t|]; [|done]. destruct (_ && _); [|done].
  pose proof (Hflush w) as Hf. destruct (aw_flush w) as [w1 [u|e]]; simpl in Hf; [|done].
  destruct (configured_after w1 (Some t)) as [[d|]|e]; [|done..].
  pose proof (Hwait w1 d) as Hw. destruct (wait_continue_until w1 d) as [w2 waited]. simpl in *. congruence.
Qed.

Lemma send_request_keeps fuel w b head body encoder cw :
  f (fst (fst (fst (send_request fuel w b head body encoder cw)))) = f w.
Proof using Hwrite Hvectored Hflush Hyield Hwait Hset.
  unfold send_request. pose proof (write_all_keeps true f writes w b Hwrite Hyield) as Ha.
  destruct (write_all true writes w b) as [w1 [[n|e]|]]; simpl in Ha; rewrite <- Ha; [|done..]. clear w Ha.
  pose proof (await_continue_keeps w1 head cw) as Hc. destruct (await_continue w1 head cw) as [w2 [[u|e]|]]; simpl in Hc;
    rewrite <- Hc; [|done..]. clear w1 Hc.
  assert (Hlast : forall (w3 : W) (body : B) (encoder : BodyEncoder), f w3 = f w2 -> f (fst (fst (fst (let '(w, flushed) := aw_flush w3 in
      match flushed with
      | Err e => (w, body, encoder, Some (Returns (Err (from_io tls e))))
      | Ok _ => (set_upload_complete w, body, encoder, Some (Returns (Ok tt)))
      end)))) = f w2).
  { intros w3 body3 encoder3 E3. pose proof (Hflush w3) as Hf. destruct (aw_flush w3) as [w4 [u'|e]]; simpl in *; [|congruence].
    unfold set_upload_complete. rewrite Hset. congruence. }
  destruct (bool_decide _); [by apply Hlast|].
  pose proof (send_body_keeps true writes f fuel w2 body encoder Hwrite Hvectored Hflush Hyield) as Hs.
  destruct (send_body true writes fuel w2 body encoder) as [[[w3 b3] e3] [[[st|e]|]|]]; simpl in Hs; [by apply Hlast|done..].
Qed.

End Keeps.

End Upload.

(** Documented behaviour of the shared parts: only the writer writes. *)
Class UploadLaws (W : Type) `{Runtime W} `{AsyncWrite W} `{!Writes W} `{ClientControl W} `{ContinueWait W} := {
  law_set_control w c : cc_control (cc_set w c) = c /\ wire (cc_set w c) = wire w;
  law_wait_continue w d : wire (fst (wait_continue_until w d)) = wire w;
}.

Section Uploaded.
Context {http : HttpCrate} {alloc : Encode.Allocator}.
Context {B D E : Type} `{IoBuf D} `{!Body B D E}.
Context {W : Type} `{Runtime W} `{AsyncWrite W} `{!Writes W} `{Timer W} `{Producing W} `{ClientControl W} `{ContinueWait W}.
Context `{!UploadLaws W}.
Context (tls : bool) (application : E -> StdError) (writes : nat).

(** What a request's activity may have put on the wire after [w]. *)
Definition upload_answer (w : W) (head : bytes) (mode : BodyMode) (body : B) (encoder : BodyEncoder) (w' : W)
    (r : option (call (result unit Error))) : Prop :=
  match r with
  | Some (Returns (Ok _)) =>
      upload_complete (cc_control w') = true /\
      exists x, wire w' = wire w ++ head ++ x /\
        if bool_decide (mode = BodyNone) then x = []
        else exists fs, yields body fs /\ encoded encoder false fs = Some x
  | _ =>
      (r = Some (Returns (Err continue_canceled)) -> wire w' = wire w ++ head) /\
      ((exists n, 0 <= n <= zlen head /\ wire w' = wire w ++ ztake n head) \/
       (exists x, begun (D := D) encoder x /\ wire w' = wire w ++ head ++ x))
  end.

Lemma await_continue_wire (w : W) head cw : wire (fst (await_continue tls w head cw)) = wire w.
Proof.
  apply await_continue_keeps; [|apply law_wait_continue]. intros w1. destruct (aw_flush w1) as [w2 r] eqn:Ef. by apply law_flush in Ef.
Qed.

Lemma from_io_not_continue e : from_io tls e <> continue_canceled.
Proof. unfold from_io. by destruct (_ && _). Qed.

Lemma send_error_not_continue e : map_send_error tls application e "request body failed" "request production canceled"
  <> continue_canceled.
Proof. destruct e; simpl; [done..|apply from_io_not_continue|done]. Qed.

Lemma stopped_in_body (w w' : W) (head x : bytes) mode body encoder r :
  wire w' = wire w ++ head ++ x -> begun (D := D) encoder x ->
  match r with Some (Returns (Ok _)) => False | Some (Returns (Err e)) => e <> continue_canceled | _ => True end ->
  upload_answer w head mode body encoder w' r.
Proof.
  intros Hw Hx Hr. unfold upload_answer. destruct r as [[[u|e]|]|]; [done|..]; (split; [|right; by exists x]);
    intros [=]. congruence.
Qed.

Lemma stopped_in_head (w w' : W) (head : bytes) mode body encoder r :
  (exists n, 0 <= n <= zlen head /\ wire w' = wire w ++ ztake n head) ->
  match r with Some (Returns (Ok _)) => False | Some (Returns (Err e)) => e <> continue_canceled | _ => True end ->
  upload_answer w head mode body encoder w' r.
Proof.
  intros Hx Hr. unfold upload_answer. destruct r as [[[u|e]|]|]; [done|..]; (split; [|by left]); intros [=]. congruence.
Qed.

Lemma stopped_before_body (w w' : W) (head : bytes) mode body encoder r :
  wire w' = wire w ++ head -> match r with Some (Returns (Ok _)) => False | _ => True end ->
  upload_answer w head mode body encoder w' r.
Proof.
  intros Hw Hr. unfold upload_answer. destruct r as [[[u|e]|]|]; [done|..];
    (split; [done|right; exists []; rewrite app_nil_r; split; [constructor|done]]).
Qed.

(** The last flush of a request whose body, if any, went out as [x]. *)
Lemma flushed_answer (w w1 w' : W) (head x : bytes) mode (body b1 b' : B) (encoder e1 e' : BodyEncoder) r :
  wire w1 = wire w ++ head ++ x -> begun (D := D) encoder x ->
  (if bool_decide (mode = BodyNone) then x = [] else exists fs, yields body fs /\ encoded encoder false fs = Some x) ->
  (let '(w, flushed) := aw_flush w1 in
   match flushed with
   | Err e => (w, b1, e1, Some (Returns (Err (from_io tls e))))
   | Ok _ => (set_upload_complete w, b1, e1, Some (Returns (Ok tt)))
   end) = (w', b', e', r) ->
  upload_answer w head mode body encoder w' r.
Proof.
  intros Hw Hb Hx. destruct (aw_flush w1) as [w2 [v|e]] eqn:Ef; apply law_flush in Ef; intros [= <- _ _ <-].
  - unfold upload_answer, set_upload_complete.
    destruct (law_set_control w2 (mkControl (upload_canceled (cc_control w2)) (exchange_canceled (cc_control w2)) true
      (aborted (cc_control w2)) (continue_allowed (cc_control w2)) (continue_waker (cc_control w2)))) as [-> ->].
    split; [done|]. exists x. split; [congruence|done].
  - apply stopped_in_body with x; [congruence|done|apply from_io_not_continue].
Qed.

Lemma prepared request encoding max (upload : RequestUpload B) policy : prepare request encoding max = Returns (Ok (upload, policy)) ->
  up_body upload = rq_body request /\ policy = exchange_new (plan_head (up_plan upload)) max.
Proof.
  unfold prepare. destruct (body_metadata _) as [m|]; [|done]. simpl. destruct (prepare_request_head _ _ _ _ _ _ _) as [plan|]; [|done].
  simpl. destruct (BodyEncoder_new _ _ _); [|done]. simpl. by intros [= <- <-].
Qed.

(** [x] is the whole request of an upload. *)
Definition is_request (upload : RequestUpload B) (x : bytes) : Prop :=
  exists y, x = plan_bytes (up_plan upload) ++ y /\
    if bool_decide (vreq_body (plan_head (up_plan upload)) = BodyNone) then y = []
    else exists fs, yields (up_body upload) fs /\ encoded (up_encoder upload) false fs = Some y.

Lemma send_request_answer upload fuel (w w' : W) body' encoder' cw r :
  send_request tls application writes fuel w (plan_bytes (up_plan upload)) (plan_head (up_plan upload)) (up_body upload)
    (up_encoder upload) cw = (w', body', encoder', r) ->
  upload_answer w (plan_bytes (up_plan upload)) (vreq_body (plan_head (up_plan upload))) (up_body upload)
    (up_encoder upload) w' r.
Proof.
  destruct upload as [[head vh] body encoder]. simpl. unfold send_request.
  destruct (write_all true writes w head) as [w1 written] eqn:Ew. apply write_all_answer in Ew.
  destruct written as [[n|e]|];
    [|by intros [= <- _ _ <-]; apply stopped_in_head; [|apply from_io_not_continue]
     |by intros [= <- _ _ <-]; apply stopped_in_head].
  destruct Ew as [_ Hw1]. pose proof (await_continue_wire w1 vh cw) as Hc.
  destruct (await_continue tls w1 vh cw) as [w2 waited]. simpl in Hc. rewrite Hw1 in Hc.
  destruct waited as [[u|e]|]; [|by intros [= <- _ _ <-]; apply stopped_before_body..].
  case_bool_decide as Hm.
  - intros Hr. eapply flushed_answer; [by rewrite app_nil_r|constructor|by rewrite bool_decide_true|exact Hr].
  - destruct (send_body true writes fuel w2 body encoder) as [[[w3 b3] e3] sent] eqn:Es.
    apply send_body_answer in Es. rewrite Hc in Es. destruct sent as [[[s|e]|]|];
      [|destruct Es as (x & Hx & Hw3); rewrite <- app_assoc in Hw3; intros [= <- _ _ <-];
        apply stopped_in_body with x; [done..|first [apply send_error_not_continue|done]]..].
    destruct Es as (fs & x & Hy & Hx & Hw3 & _). rewrite <- app_assoc in Hw3. intros Hr.
    eapply flushed_answer; [exact Hw3|by eapply encoded_begun| |exact Hr]. rewrite bool_decide_false by done. by exists fs.
Qed.

Lemma send_request_sent upload fuel (w w' : W) body' encoder' cw r :
  send_request tls application writes fuel w (plan_bytes (up_plan upload)) (plan_head (up_plan upload)) (up_body upload)
    (up_encoder upload) cw = (w', body', encoder', r) ->
  exists x, wire w' = wire w ++ x /\ (r = Some (Returns (Ok tt)) -> is_request upload x).
Proof.
  intros Hs%send_request_answer. unfold upload_answer in Hs.
  assert (match r with Some (Returns (Ok _)) => False | _ => True end ->
    (exists n, 0 <= n <= zlen (plan_bytes (up_plan upload)) /\ wire w' = wire w ++ ztake n (plan_bytes (up_plan upload))) \/
    (exists x, begun (D := D) (up_encoder upload) x /\ wire w' = wire w ++ plan_bytes (up_plan upload) ++ x) ->
    exists x, wire w' = wire w ++ x /\ (r = Some (Returns (Ok tt)) -> is_request upload x)) as Hend.
  { intros Hr [(n & _ & ->)|(x & _ & ->)]; eexists; (split; [done|]); intros ->; done. }
  destruct r as [[[[]|e]|]|]; [|by apply Hend; [|apply Hs]..]. destruct Hs as (_ & x & -> & Hx). eexists. split; [done|]. intros _.
  by exists x.
Qed.


End Uploaded.

(** ** The response *)

Record Message {http : HttpCrate} (TlsInfo T : Type) := mkMessage {
  msg_status : StatusCode;
  msg_version : Version;
  msg_headers : HeaderMap;
  (** the extensions the driver adds *)
  msg_header_case : option HeaderMap;
  msg_tls_info : option TlsInfo;
  msg_body : T;
}.
Arguments mkMessage {http TlsInfo T} _ _ _ _ _ _.
Arguments msg_status {http TlsInfo T} _.
Arguments msg_version {http TlsInfo T} _.
Arguments msg_headers {http TlsInfo T} _.
Arguments msg_header_case {http TlsInfo T} _.
Arguments msg_tls_info {http TlsInfo T} _.
Arguments msg_body {http TlsInfo T} _.

(** The producing end of the response events, awaited under the exchange's
    token, and the consuming end of the rendezvous the body will use. *)
Class ResponseProducer (W Ev C : Type) := {
  (** [false]: abandoned, closed or canceled *)
  ev_offer : W -> Ev -> W * bool;
  (** [None]: the deadline struck first *)
  ev_offer_until : W -> Z -> Ev -> W * option bool;
  ev_close : W -> W;
  body_consumer : W -> C;
}.

Record ReceivedResponse := mkReceivedResponse {
  rr_end : ReceiveEnd;
  rr_buffer : RecvBuffer;
  rr_policy : ExchangePolicy;
}.

Section Response.
Context {http : HttpCrate} {hp : Httparse} {alloc : BytesAllocator} {TlsInfo C : Type}.

Definition response_message {T} (tls_info : option TlsInfo) (h : ResponseHead) (body : T) : Message TlsInfo T :=
  mkMessage (resp_status h) (resp_version h) (resp_headers h) (resp_header_case h) tls_info body.

Definition Event : Type := @ResponseEvent (Message TlsInfo unit) (Message TlsInfo (Incoming C)).

Context {W : Type} `{Runtime W} `{AsyncRead W} `{Timer W} `{Clock W} `{!BodyProducer W} `{ClientControl W}.
Context `{!ResponseProducer W Event C}.
Context (tls : bool) (strategy : Strategy) (config : ClientConfig) (tls_info : option TlsInfo).

Definition observation_abandoned : Error := Error_new Canceled "response observation abandoned".
Definition head_deadline : Error :=
  with_detail (Error_new Timeout "HTTP head deadline exceeded") (DetailTimeout PhaseHead).
Definition final_head_deadline : Error :=
  with_detail (Error_new Timeout "final response head deadline exceeded") (DetailTimeout PhaseHead).
Definition ended_before_final (b : RecvBuffer) : Error :=
  Error_new (if bool_decide (recv_bytes b = []) then Errors.Closed else InvalidMessage)
    "connection ended before a final response head".

(** [offer_event] while the response stream is open. *)
Definition offer_event (w : W) (event : Event) : W * result unit Error :=
  let '(w, observed) := ev_offer w event in
  (w, if observed then Ok tt else Err observation_abandoned).

Definition offer_informational (w : W) (deadline : option Z) (event : Event) : W * result unit Error :=
  match deadline with
  | Some deadline =>
      let '(w, observed) := ev_offer_until w deadline event in
      (w, match observed with
          | None => Err final_head_deadline
          | Some true => Ok tt
          | Some false => Err observation_abandoned
          end)
  | None => offer_event w event
  end.

(** The [loop] that ends with a final head or an upgrade; [None] is a model run
    out of turns. *)
Fixpoint head_loop (fuel : nat) (w : W) (b : RecvBuffer) (parser : HeadParser) (state : ExchangePolicy)
    (deadline : option Z) : W * RecvBuffer * HeadParser * ExchangePolicy * option (call (result ValidatedResponseHead Error)) :=
  match fuel with
  | O => (w, b, parser, state, None)
  | S fuel =>
      let stop (w : W) b parser state r := (w, b, parser, state, Some (Returns r)) in
      if match deadline with Some d => reached w d | None => false end then stop w b parser state (Err head_deadline)
      else
        let '(parser, found) := head_len parser (recv_bytes b) in
        match found with
        | Err e => stop w b parser state (Err (Error_from_head e))
        | Ok (Some consumed) =>
            let '(b, input) := take_shared_prefix b consumed in
            match input with
            | Err e => stop w b parser state (Err e)
            | Ok input =>
                let '(parser, parsed) := parse_response parser input in
                match parsed with
                | Err e => stop w b parser state (Err (Error_from_head e))
                | Ok head =>
                    let '(state, validated) := receive_head state head in
                    match validated with
                    | Err e => stop w b parser state (Err e)
                    | Ok (head, ActionFinal) | Ok (head, ActionUpgrade _) =>
                        stop (grant_continue w) b parser state (Ok head)
                    | Ok (head, ActionInformational) =>
                        let w := if resp_status (vresp_head head) =? 100 then grant_continue w else w in
                        let '(w, offered) :=
                          offer_informational w deadline (Informational (response_message tls_info (vresp_head head) tt)) in
                        match offered with
                        | Err e => stop w b parser state (Err e)
                        | Ok _ => head_loop fuel w b parser state deadline
                        end
                    end
                end
            end
        | Ok None =>
            let '(w, b, r) := read_until tls strategy w b true deadline in
            match r with
            | Panics => (w, b, parser, state, Some Panics)
            | Returns (Err e) => stop w b parser state (Err e)
            | Returns (Ok StatusEof) => stop w b parser state (Err (ended_before_final b))
            | Returns (Ok (StatusData _)) => head_loop fuel w b parser state deadline
            end
        end
  end.

(** [producer]: whether the final response has a body to receive. *)
Definition response_body (fuel : nat) (w : W) (b : RecvBuffer) (producer : bool) (mode : BodyMode)
    : W * RecvBuffer * option (call ReceiveEnd) :=
  if producer then
    receive_body_configured tls strategy (body_progress_timeout (client_settings config)) fuel w b
      (with_limits mode (decode_limits (protocol (client_settings config))))
  else (w, b, Some (Returns Complete)).

(** The boolean is whether the response stream is still open. *)
Definition receive (fuel : nat) (w : W) (b : RecvBuffer) (parser : HeadParser) (state : ExchangePolicy)
    : W * HeadParser * bool * option (call (result ReceivedResponse Error)) :=
  let settings := client_settings config in
  match configured_after w (head_timeout settings) with
  | Err e => (w, parser, true, Some (Returns (Err e)))
  | Ok deadline =>
      let '(w, b, parser, state, found) := head_loop fuel w b parser state deadline in
      match found with
      | None => (w, parser, true, None)
      | Some Panics => (w, parser, true, Some Panics)
      | Some (Returns (Err e)) => (w, parser, true, Some (Returns (Err e)))
      | Some (Returns (Ok head)) =>
          let '(producer, body) := incoming (vresp_body head) (body_consumer w) in
          let body := with_drain_config body (Config.drain settings) in
          let '(w, offered) := offer_event w (Final (response_message tls_info (vresp_head head) body)) in
          match offered with
          | Err e => (w, parser, true, Some (Returns (Err e)))
          | Ok _ =>
              let w := ev_close w in
              let '(w, b, e) := response_body fuel w b producer (vresp_body head) in
              (w, parser, false,
               option_map (map_call (fun e =>
                 match e with
                 | FailedEnd e => Err e
                 | e => Ok (mkReceivedResponse e b state)
                 end)) e)
          end
      end
  end.

(** Receiving leaves alone what its operations leave alone. *)
Section Keeps.
Context {A : Type} (f : W -> A).
Context (Hread : forall w n, f (fst (ar_read w n)) = f w) (Hmanaged : forall w n, f (fst (ar_read_managed w n)) = f w).
Context (Hcancel : forall w, f (request_cancel w) = f w) (Hyield : forall w, f (rt_yield w) = f w).
Context (Hdemand : forall w, f (fst (pr_demand w)) = f w) (Hoffer : forall w x, f (fst (pr_offer w x)) = f w).
Context (Hclose : forall w, f (pr_close w) = f w) (Hfail : forall w e, f (pr_fail w e) = f w) (Hpolicy : forall w p, f (pr_set_policy w p) = f w).
Context (Hset : forall w c, f (cc_set w c) = f w) (Hwake : forall w k, f (cc_wake w k) = f w).
Context (Hevent : forall w e, f (fst (ev_offer w e)) = f w) (Huntil : forall w d e, f (fst (ev_offer_until w d e)) = f w).
Context (Hended : forall w, f (ev_close w) = f w).

Lemma offer_event_keeps w e : f (fst (offer_event w e)) = f w.
Proof using Hevent. unfold offer_event. pose proof (Hevent w e) as He. by destruct (ev_offer w e). Qed.

Lemma offer_informational_keeps w deadline e : f (fst (offer_informational w deadline e)) = f w.
Proof using Hevent Huntil.
  unfold offer_informational. destruct deadline as [d|]; [|apply offer_event_keeps].
  pose proof (Huntil w d e) as He. by destruct (ev_offer_until w d e).
Qed.

Lemma grant_continue_keeps w : f (grant_continue w) = f w.
Proof using Hset Hwake. unfold grant_continue. destruct (allow_continue _). by rewrite Hwake, Hset. Qed.

Lemma head_loop_keeps fuel w b p st deadline : f (fst (fst (fst (fst (head_loop fuel w b p st deadline))))) = f w.
Proof using Hread Hmanaged Hcancel Hset Hwake Hevent Huntil.
  revert w b p st. induction fuel as [|fuel IH]; intros w b p st; simpl; [done|].
  destruct (match deadline with Some d => reached w d | None => false end); [done|].
  destruct (head_len p (recv_bytes b)) as [p1 [[n|]|e]]; [| |done].
  - destruct (take_shared_prefix b n) as [b1 [input|e]]; [|done]. destruct (parse_response p1 input) as [p2 [head|e]]; [|done].
    destruct (receive_head st head) as [st1 [[vh []]|e]]; [|by apply grant_continue_keeps..|done].
    set (w1 := if resp_status (vresp_head vh) =? 100 then grant_continue w else w).
    assert (f w1 = f w) as Hw1 by (unfold w1; destruct (_ =? 100); [apply grant_continue_keeps|done]).
    match goal with |- context [offer_informational w1 deadline ?e] => pose proof (offer_informational_keeps w1 deadline e) as Ho;
      destruct (offer_informational w1 deadline e) as [w2 [u|x]] end; simpl in Ho; [rewrite IH|simpl]; congruence.
  - pose proof (read_until_keeps tls f Hread Hmanaged Hcancel strategy w b true deadline) as Hr.
    destruct (read_until tls strategy w b true deadline) as [[w1 b1] [[[k|]|e]|]]; simpl in Hr; [rewrite IH|..]; done.
Qed.

Lemma receive_keeps fuel w b p st : f (fst (fst (fst (receive fuel w b p st)))) = f w.
Proof using Hread Hmanaged Hcancel Hyield Hdemand Hoffer Hclose Hfail Hpolicy Hset Hwake Hevent Huntil Hended.
  unfold receive. destruct (configured_after w _) as [deadline|e]; [|done].
  pose proof (head_loop_keeps fuel w b p st deadline) as Hh.
  destruct (head_loop fuel w b p st deadline) as [[[[w1 b1] p1] st1] [[[vh|e]|]|]]; simpl in Hh; rewrite <- Hh; [|done..].
  destruct (incoming _ _) as [producer body].
  match goal with |- context [offer_event w1 ?e] => pose proof (offer_event_keeps w1 e) as Ho; destruct (offer_event w1 e) as [w2 [u|x]] end;
    simpl in Ho; [|done].
  assert (f (fst (fst (response_body fuel (ev_close w2) b1 producer (vresp_body vh)))) = f w2) as Hb.
  { rewrite <- (Hended w2). unfold response_body. destruct producer; [|done].
    apply (receive_loop_keeps tls strategy _ f Hread Hmanaged Hcancel Hyield Hdemand Hoffer Hclose Hfail Hpolicy). }
  destruct (response_body _ _ _ _ _) as [[w3 b3] r3]. simpl in *. congruence.
Qed.

End Keeps.

End Response.
Arguments Event {http} TlsInfo C.

(** ** What an exchange receives

    Documented behaviour of the parts the response's activity shares: [events]
    is what the observer took. An offer that answers [Ok] was taken; one that was
    canceled or timed out may have been. *)

Class ResponseLaws {http : HttpCrate} (W : Type) {TlsInfo C : Type}
    `{Runtime W} `{AsyncRead W} `{!Reads W} `{Timer W} `{!BodyProducer W} `{!ReceiveLaws W} `{ClientControl W}
    `{!ResponseProducer W (Event TlsInfo C) C} := {
  events : W -> list (Event TlsInfo C);
  law_control w c : cc_control (cc_set w c) = c /\ observed (cc_set w c) = observed w /\ events (cc_set w c) = events w;
  law_wake w k : cc_control (cc_wake w k) = cc_control w /\ observed (cc_wake w k) = observed w /\ events (cc_wake w k) = events w;
  law_event w e w' r : ev_offer w e = (w', r) ->
    observed w' = observed w /\ (events w' = events w ++ [e] \/ r = false /\ events w' = events w);
  law_event_until w d e w' r : ev_offer_until w d e = (w', r) ->
    observed w' = observed w /\ (events w' = events w ++ [e] \/ r <> Some true /\ events w' = events w);
  law_event_close w : observed (ev_close w) = observed w /\ events (ev_close w) = events w;
  law_events_read w n : events (fst (ar_read w n)) = events w;
  law_events_managed w n : events (fst (ar_read_managed w n)) = events w;
  law_events_cancel w : events (request_cancel w) = events w;
  law_events_yield w : events (rt_yield w) = events w;
  law_events_demand w : events (fst (pr_demand w)) = events w;
  law_events_offer w x : events (fst (pr_offer w x)) = events w;
  law_events_close w : events (pr_close w) = events w;
  law_events_fail w e : events (pr_fail w e) = events w;
  law_events_policy w p : events (pr_set_policy w p) = events w;
}.

Section Received.
Context {http : HttpCrate} {hp : Httparse} {laws : HttparseLaws hp} {alloc : BytesAllocator} {TlsInfo C : Type}.
Context {W : Type} `{Runtime W} `{AsyncRead W} `{!Reads W} `{Timer W} `{Clock W} `{!BodyProducer W} `{!ReceiveLaws W}.
Context `{ClientControl W} `{!ResponseProducer W (Event TlsInfo C) C} `{!ResponseLaws W}.
Context (tls : bool) (strategy : Strategy) (config : ClientConfig) (tls_info : option TlsInfo) (p0 : HeadParser).

(** The heads [hs] take the policy from [st] to [st'] with the final head [vh],
    showing the observer the events [evs] before it. *)
Inductive heads_read : ExchangePolicy -> list bytes -> list (Event TlsInfo C) -> ExchangePolicy -> ValidatedResponseHead -> Prop :=
| read_final st h rh st' vh action :
    one_head p0 h -> snd (parse_response p0 h) = Ok rh -> receive_head st rh = (st', Ok (vh, action)) ->
    action <> ActionInformational -> heads_read st [h] [] st' vh
| read_informational st h rh st1 v hs evs st' vh :
    one_head p0 h -> snd (parse_response p0 h) = Ok rh -> receive_head st rh = (st1, Ok (v, ActionInformational)) ->
    heads_read st1 hs evs st' vh ->
    heads_read st (h :: hs) (Informational (response_message tls_info (vresp_head v) tt) :: evs) st' vh.

Lemma parse_response_fresh p h : fresh p = fresh p0 ->
  parse_response p h = (fresh p0, snd (parse_response p0 h)).
Proof.
  intros Hf. assert (Scan.limits p = Scan.limits p0 /\ workspace p = workspace p0 /\
    Scan.preserve_header_case p = Scan.preserve_header_case p0)
    as (El & Ew & Ep).
  { destruct p, p0. unfold fresh, set_scan in Hf. simpl in *. injection Hf. auto. }
  unfold parse_response. unfold fresh in Hf. rewrite Hf, El, Ew, Ep. by destruct (_ <? _).
Qed.

(** What reading heads leaves alone. *)
Lemma grant_keeps (w : W) : continue_allowed (cc_control (grant_continue w)) = true /\
  observed (grant_continue w) = observed w /\ events (grant_continue w) = events w.
Proof.
  unfold grant_continue, allow_continue.
  match goal with |- context [cc_wake (cc_set w ?c) ?k] =>
    destruct (law_wake (cc_set w c) k) as (-> & -> & ->); destruct (law_control w c) as (-> & -> & ->) end. done.
Qed.

Lemma offer_informational_ok (w : W) deadline e w' r : offer_informational w deadline e = (w', r) ->
  observed w' = observed w /\
  (events w' = events w ++ [e] \/ r <> Ok tt /\ events w' = events w).
Proof.
  unfold offer_informational, offer_event. destruct deadline as [d|].
  - destruct (ev_offer_until w d e) as [w1 o] eqn:Eo. apply law_event_until in Eo as [Ho He]. intros [= <- <-].
    split; [done|]. destruct He as [He|[Hn He]]; [by left|right]. split; [|done]. destruct o as [[]|]; done.
  - destruct (ev_offer w e) as [w1 o] eqn:Eo. apply law_event in Eo as [Ho He]. intros [= <- <-].
    split; [done|]. destruct He as [He|[-> He]]; [by left|by right].
Qed.

Lemma cancel_keeps (w : W) :
  received (request_cancel w) = received w /\
  (delivered (request_cancel w), ended (request_cancel w)) = (delivered w, ended w).
Proof. destruct (observed_eq _ _ (law_cancels w)) as (-> & -> & ->). done. Qed.

Lemma read_until_events (w : W) b deadline : wf_recv b ->
  let '(w', b', r) := read_until tls strategy w b true deadline in
  events w' = events w /\ delivered w' = delivered w /\ ended w' = ended w /\
  exists fill, received w' = received w ++ fill /\ recv_bytes b' = recv_bytes b ++ fill /\ wf_recv b' /\
    exists a, r = Returns a /\ status_says a fill.
Proof.
  intros Hb.
  pose proof (read_until_keeps tls events law_events_read law_events_managed law_events_cancel strategy w b true deadline) as He.
  pose proof (read_until_keeps tls (fun w => (delivered w, ended w)) law_reader law_managed_reader
    (fun w => proj2 (cancel_keeps w)) strategy w b true deadline) as Hd.
  pose proof (read_until_ok tls (fun w => proj1 (cancel_keeps w)) strategy b true deadline w Hb) as Hr.
  destruct (read_until tls strategy w b true deadline) as [[w' b'] r]. simpl in *. injection Hd as -> ->. done.
Qed.

Definition informational_event (e : Event TlsInfo C) : Prop := exists m, e = Informational m.

(** How reading heads from [w] with [b] retained and the policy [st] may end. *)
Definition heads_answer (w : W) (b : RecvBuffer) (st : ExchangePolicy)
    (a : W * RecvBuffer * HeadParser * ExchangePolicy * option (call (result ValidatedResponseHead Error))) : Prop :=
  let '(w', b', p', st', r) := a in
  wf_recv b' /\ delivered w' = delivered w /\ ended w' = ended w /\
  exists input evs, received w' = received w ++ input /\ events w' = events w ++ evs /\ Forall informational_event evs /\
    match r with
    | Some Panics => False
    | Some (Returns (Ok vh)) =>
        p' = fresh p0 /\ continue_allowed (cc_control w') = true /\
        exists hs, recv_bytes b ++ input = concat hs ++ recv_bytes b' /\ heads_read st hs evs st' vh
    | _ => True
    end.

#[local] Arguments heads_answer : simpl never.

Lemma heads_stop (w w' : W) b b' p' st st' evs r :
  wf_recv b' -> observed w' = observed w -> events w' = events w ++ evs -> Forall informational_event evs ->
  match r with None | Some (Returns (Err _)) => True | _ => False end -> heads_answer w b st (w', b', p', st', r).
Proof.
  intros Hb (E1 & E2 & E3)%observed_eq He Hi Hr. unfold heads_answer. split_and!; [done..|]. exists [], evs. rewrite app_nil_r.
  split_and!; [done..|]. by destruct r as [[[]|]|].
Qed.

(** Reading on after more input. *)
Lemma heads_more (w w1 : W) b b1 st a fill :
  received w1 = received w ++ fill -> recv_bytes b1 = recv_bytes b ++ fill ->
  events w1 = events w -> delivered w1 = delivered w -> ended w1 = ended w ->
  heads_answer w1 b1 st a -> heads_answer w b st a.
Proof.
  intros Hr Hq He Hd Hn. destruct a as [[[[w' b'] p'] st'] r]. unfold heads_answer.
  rewrite Hr, Hq, He, Hd, Hn. intros (Hb & Hd' & Hn' & input & evs & Hrec & Hev & Hi & Ha).
  split_and!; [done..|]. exists (fill ++ input), evs. rewrite !app_assoc. split_and!; [done..|].
  destruct r as [[[vh|]|]|]; [|done..]. destruct Ha as (Hp & Hc & hs & Hhs & Hh). split_and!; [done..|].
  by exists hs.
Qed.

(** Reading on after an informational head. *)
Lemma heads_informational (w w1 : W) b b1 st st1 h rh v a :
  one_head p0 h -> snd (parse_response p0 h) = Ok rh -> receive_head st rh = (st1, Ok (v, ActionInformational)) ->
  recv_bytes b = h ++ recv_bytes b1 -> observed w1 = observed w ->
  events w1 = events w ++ [Informational (response_message tls_info (vresp_head v) tt)] ->
  heads_answer w1 b1 st1 a -> heads_answer w b st a.
Proof.
  intros Hh Hp Hst Hq (E1 & E2 & E3)%observed_eq He. destruct a as [[[[w' b'] p'] st'] r]. unfold heads_answer.
  rewrite Hq, E1, E2, E3, He. intros (Hb & Hd & Hn & input & evs & Hrec & Hev & Hi & Ha).
  split_and!; [done..|]. eexists input, (_ :: evs). rewrite <- app_assoc in Hev.
  split_and!; [done|exact Hev|by constructor; [eexists|]|].
  destruct r as [[[vh|]|]|]; [|done..]. destruct Ha as (Hpf & Hc & hs & Hhs & Hr). split_and!; [done..|].
  exists (h :: hs). simpl. rewrite <- !app_assoc. split; [by rewrite Hhs|]. by eapply read_informational.
Qed.

Lemma head_loop_ok fuel (w : W) b p st deadline :
  wf_recv b -> resumes p0 p (recv_bytes b) ->
  heads_answer w b st (head_loop tls strategy tls_info fuel w b p st deadline).
Proof.
  assert (Hstop : forall (w : W) b b' p' st st' r, wf_recv b' ->
    match r with None | Some (Returns (Err _)) => True | _ => False end -> heads_answer w b st (w, b', p', st', r)).
  { intros. apply heads_stop with []; rewrite ?app_nil_r; auto. }
  revert w b p st. induction fuel as [|fuel IH]; intros w b p st Hb Hp; simpl; [by apply Hstop|].
  destruct (match deadline with Some d => reached w d | None => false end); [by apply Hstop|].
  destruct (head_len p (recv_bytes b)) as [p1 [[n|]|e]] eqn:Eh; [| |by apply Hstop].
  - destruct (take_head p0 p b p1 n Hp Hb Eh) as (b1 & h & -> & Hq & Hb1 & Hone & Hf).
    rewrite (parse_response_fresh p1 h Hf). destruct (snd (parse_response p0 h)) as [rh|e] eqn:Er; [|by apply Hstop].
    destruct (receive_head st rh) as [st1 [[vh action]|e]] eqn:Est; [|by apply Hstop].
    assert (Hfinal : action <> ActionInformational ->
      heads_answer w b st (grant_continue w, b1, fresh p0, st1, Some (Returns (Ok vh)))).
    { intros Ha. destruct (grant_keeps w) as (Hc & (E1 & E2 & E3)%observed_eq & He). unfold heads_answer. split_and!; [done..|].
      exists [], []. rewrite !app_nil_r. split_and!; [done..|]. exists [h]. simpl. rewrite app_nil_r.
      split; [done|]. by eapply read_final. }
    destruct action; [|by apply Hfinal..].
    set (w1 := if resp_status (vresp_head vh) =? 100 then grant_continue w else w).
    assert (observed w1 = observed w /\ events w1 = events w) as [Ho1 He1].
    { unfold w1. destruct (_ =? 100); [|done]. by destruct (grant_keeps w) as (_ & -> & ->). }
    destruct (offer_informational w1 deadline _) as [w2 o] eqn:Eo. apply offer_informational_ok in Eo as [Ho2 He2].
    rewrite Ho1 in Ho2. rewrite He1 in He2. destruct o as [u|e].
    + destruct He2 as [He2|[Hn _]]; [|by destruct u].
      apply (heads_informational w w2 b b1 st st1 h rh vh); [done..|]. apply IH; [done|]. by apply resumes_fresh.
    + destruct He2 as [He2|[_ He2]]; [eapply heads_stop; [done..| |done]; repeat constructor; by eexists|].
      apply heads_stop with []; rewrite ?app_nil_r; auto.
  - pose proof (read_until_events w b deadline Hb) as Hr.
    destruct (read_until tls strategy w b true deadline) as [[w1 b1] r].
    destruct Hr as (He & Hd & Hn & fill & Hrec & Hq & Hb1 & a & -> & Hs).
    apply (heads_more w w1 b b1 st _ fill); [done..|].
    destruct a as [[k|]|e]; [|by apply Hstop..]. apply IH; [done|]. rewrite Hq. by eapply resumes_extends.
Qed.

Lemma heads_read_counts st hs evs st' vh : heads_read st hs evs st' vh -> wf_policy st ->
  wf_policy st' /\ informational st' = informational st + zlen evs /\ max_informational st' = max_informational st /\
  mode_ok (vresp_body vh).
Proof.
  unfold wf_policy. induction 1 as [st h rh st' vh action _ _ Hst Hna|st h rh st1 v hs evs st' vh _ _ Hst _ IH]; intros Hwf.
  - revert Hst. unfold receive_head. destruct (negb _); [done|].
    destruct (validate_response rh (ex_method st)) as [vh'|e] eqn:Ev; [|done]. apply validated_response_mode in Ev.
    change (zlen (@nil (Event TlsInfo C))) with 0. destruct (vresp_upgrade vh') as [k|].
    + destruct (upgrade_refused _ _ _); [done|]. intros [= <- <- _]. simpl. split_and!; [lia..|done].
    + destruct (status_is_informational _); [destruct (_ =? _); [done|]; intros [= _ _ <-]; done|].
      intros [= <- <- _]. destruct (bool_decide _); simpl; (split_and!; [lia..|done]).
  - assert (informational st1 = informational st + 1 /\ max_informational st1 = max_informational st /\
      informational st <> max_informational st) as (E1 & E2 & E3).
    { revert Hst. unfold receive_head. destruct (negb _); [done|]. destruct (validate_response _ _) as [vh'|e]; [|done].
      destruct (vresp_upgrade vh'); [by destruct (upgrade_refused _ _ _)|].
      destruct (status_is_informational _); [|done]. destruct (Z.eqb_spec (informational st) (max_informational st)); [done|].
      by intros [= <- _]. }
    destruct IH as (Hw' & Hi & Hm & Hmode); [lia|]. unfold zlen in *. simpl length. split_and!; [lia..|done].
Qed.

Lemma response_body_events fuel (w : W) b producer mode :
  events (fst (fst (response_body tls strategy config fuel w b producer mode))) = events w.
Proof.
  unfold response_body. destruct producer; [|done]. unfold receive_body_configured.
  apply receive_loop_keeps; intros; [apply law_events_read|apply law_events_managed|apply law_events_cancel|apply law_events_yield
    |apply law_events_demand|apply law_events_offer|apply law_events_close|apply law_events_fail|apply law_events_policy].
Qed.

(** The body of a final response, with or without a producer. *)
Lemma body_received fuel (w w' : W) b b' mode c :
  let l := decode_limits (protocol (client_settings config)) in
  wf_limits l -> mode_ok mode -> wf_recv b ->
  response_body tls strategy config fuel w b (fst (incoming (C := C) mode c)) mode = (w', b', Some (Returns Complete)) ->
  exists input m pieces t, received w' = received w ++ input /\ recv_bytes b ++ input = m ++ recv_bytes b' /\
    is_body l mode m (concat (map as_ref pieces)) t /\ delivered w' = delivered w ++ body_frames pieces t.
Proof.
  intros l Hl Hm Hb. unfold response_body. destruct (fst (incoming mode c)) eqn:Ei.
  - intros (input & m & pieces & t & Hr & Hq & Hi & _ & Hd & _)%receive_body_complete; [|done..]. by exists input, m, pieces, t.
  - intros [= <- <-]. exists [], [], [], None. rewrite !app_nil_r. split_and!; [done|done| |done].
    unfold incoming in Ei. destruct mode as [|n| |]; simpl in *; [done| |done..].
    destruct (Z.eqb_spec n 0) as [->|]; done.
Qed.

(** [q] is the heads and the body of one response to a request with the policy
    [st]; [evs] are its events and [ds] the frames of its body. *)
Definition is_response (st : ExchangePolicy) (q : bytes) (evs : list (Event TlsInfo C)) (ds : list (Frame IncomingData))
    (st' : ExchangePolicy) : Prop :=
  exists hs before vh m pieces t consumer,
    q = concat hs ++ m /\ heads_read st hs before st' vh /\ zlen before <= max_informational st - informational st /\
    is_body (decode_limits (protocol (client_settings config))) (vresp_body vh) m (concat (map as_ref pieces)) t /\
    ds = body_frames pieces t /\
    evs = before ++ [Final (response_message tls_info (vresp_head vh)
      (with_drain_config (snd (incoming (vresp_body vh) consumer)) (Config.drain (client_settings config))))].

(** However receiving ends, what was seen of it only grew. *)
Definition response_seen (w : W) (b : RecvBuffer) (st : ExchangePolicy) (w' : W) (p' : HeadParser) (opened : bool)
    (r : option (call (result ReceivedResponse Error))) : Prop :=
  exists input evs ds, received w' = received w ++ input /\ events w' = events w ++ evs /\ delivered w' = delivered w ++ ds /\
    forall rr, r = Some (Returns (Ok rr)) -> wf_recv (rr_buffer rr) /\
      (rr_end rr = Complete -> opened = false /\ p' = fresh p0 /\
        exists q, recv_bytes b ++ input = q ++ recv_bytes (rr_buffer rr) /\ is_response st q evs ds (rr_policy rr)).

Lemma response_unfinished (w w' : W) b st p' opened r input evs :
  received w' = received w ++ input -> events w' = events w ++ evs -> delivered w' = delivered w ->
  match r with Some (Returns (Ok _)) => False | _ => True end -> response_seen w b st w' p' opened r.
Proof.
  intros Hr He Hd Hn. exists input, evs, []. rewrite app_nil_r. split_and!; [done..|]. intros rr ->. done.
Qed.

(** A body, however it ends. *)
Lemma response_body_seen fuel (w w' : W) b b' mode c r :
  wf_limits (decode_limits (protocol (client_settings config))) -> mode_ok mode -> wf_recv b ->
  response_body tls strategy config fuel w b (fst (incoming (C := C) mode c)) mode = (w', b', r) ->
  wf_recv b' /\ exists input ds, received w' = received w ++ input /\ delivered w' = delivered w ++ ds.
Proof.
  intros Hl Hm Hb. unfold response_body. destruct (fst (incoming mode c)).
  - intros (Hb' & input & ds & Hr & Hd & _)%receive_body_safe; [|done..]. split; [done|]. by exists input, ds.
  - intros [= <- <- _]. split; [done|]. exists [], []. by rewrite !app_nil_r.
Qed.

Lemma receive_seen fuel (w : W) b st w' p' opened r :
  wf_limits (decode_limits (protocol (client_settings config))) -> wf_recv b -> wf_policy st ->
  receive tls strategy config tls_info fuel w b (fresh p0) st = (w', p', opened, r) ->
  response_seen w b st w' p' opened r.
Proof.
  intros Hl Hb Hst. unfold receive. destruct (configured_after w _) as [deadline|e].
  2: { intros [= <- _ _ <-]. by apply response_unfinished with [] []; rewrite ?app_nil_r. }
  pose proof (head_loop_ok fuel w b (fresh p0) st deadline Hb (resumes_fresh _ _ _ eq_refl)) as Hh.
  destruct (head_loop _ _ _ _ _ _ _ _ _) as [[[[w1 b1] p1] st1] found].
  destruct Hh as (Hb1 & Hd1 & _ & input1 & evs & Hr1 & He1 & _ & Hf).
  destruct found as [[[vh|e]|]|]; [|intros [= <- _ _ <-]; by apply response_unfinished with input1 evs..].
  destruct Hf as (Hp1 & _ & hs & Hq1 & Hheads). destruct (heads_read_counts _ _ _ _ _ Hheads Hst) as (Hwf1 & Hi1 & Hm1 & Hmode).
  destruct (incoming (vresp_body vh) (body_consumer w1)) as [producer body] eqn:Ein.
  destruct (offer_event w1 _) as [w2 o] eqn:Eo. unfold offer_event in Eo.
  destruct (ev_offer w1 _) as [w2' taken] eqn:Ee. apply law_event in Ee as [Ho2 He2]. injection Eo as -> <-.
  rewrite He1 in He2. destruct (observed_eq _ _ Ho2) as (E1 & E2 & _). destruct taken.
  2: { intros [= <- _ _ <-]. destruct He2 as [He2|[_ He2]].
       - rewrite <- app_assoc in He2. eapply (response_unfinished _ _ _ _ _ _ _ input1); [congruence|exact He2|congruence|done].
       - by apply response_unfinished with input1 evs; [congruence|..|congruence|]. }
  destruct He2 as [He2|[? _]]; [|done].
  destruct (law_event_close w2) as [Ho3 He3]. rewrite Ho2 in Ho3. rewrite He2, <- app_assoc in He3.
  assert (producer = fst (incoming (vresp_body vh) (body_consumer w1))) as -> by by rewrite Ein.
  pose proof (response_body_events fuel (ev_close w2) b1 (fst (incoming (vresp_body vh) (body_consumer w1))) (vresp_body vh)) as He4.
  destruct (response_body _ _ _ _ _ _ _ _) as [[w4 b4] r4] eqn:Er. simpl in He4. intros [= <- <- <- <-].
  destruct (observed_eq _ _ Ho3) as (F1 & F2 & _).
  destruct (response_body_seen _ _ _ _ _ _ _ _ Hl Hmode Hb1 Er) as (Hb4 & input2 & ds & Hr4 & Hd4).
  rewrite F1, Hr1 in Hr4. rewrite F2, Hd1 in Hd4. rewrite He3 in He4.
  exists (input1 ++ input2). eexists. exists ds. split_and!; [by rewrite app_assoc|exact He4|done|]. intros rr Hrr.
  destruct r4 as [[[| |e]|]|]; simplify_eq/=; (split; [done|]); [|done]. intros _. split_and!; [done..|].
  destruct (body_received fuel _ w4 b1 b4 (vresp_body vh) (body_consumer w1) Hl Hmode Hb1 Er)
    as (input2' & m & pieces & t & Hr4' & Hq4 & His & Hd4').
  rewrite F1, Hr1 in Hr4'. rewrite F2, Hd1 in Hd4'. rewrite Hr4 in Hr4'. rewrite Hd4 in Hd4'.
  apply app_inv_head in Hr4' as <-. apply app_inv_head in Hd4' as ->. unfold wf_policy in *.
  exists (concat hs ++ m). rewrite app_assoc, Hq1, <- !app_assoc, Hq4. split; [done|].
  exists hs, evs, vh, m, pieces, t, (body_consumer w1). split_and!; [done..|lia|done|done|]. by rewrite Ein.
Qed.

(** C7: The response an observer gets is the response on the wire. When
    receiving ends as complete, the bytes read are the informational heads, one
    final head and one whole body of the framing that head implies, followed by
    exactly what is still retained; the observer took one event per
    informational head in order, within the limit, then the final response once,
    and its body exactly the payload in order and the trailers; the response
    stream is closed and the parser ready for the next exchange. *)
Theorem receive_response_exact fuel (w : W) b st w' p' opened rr :
  wf_limits (decode_limits (protocol (client_settings config))) -> wf_recv b -> wf_policy st ->
  receive tls strategy config tls_info fuel w b (fresh p0) st = (w', p', opened, Some (Returns (Ok rr))) ->
  rr_end rr = Complete ->
  exists input hs evs vh m pieces t consumer,
    received w' = received w ++ input /\ recv_bytes b ++ input = concat hs ++ m ++ recv_bytes (rr_buffer rr) /\
    heads_read st hs evs (rr_policy rr) vh /\ zlen evs <= max_informational st - informational st /\
    is_body (decode_limits (protocol (client_settings config))) (vresp_body vh) m (concat (map as_ref pieces)) t /\
    delivered w' = delivered w ++ body_frames pieces t /\
    events w' = events w ++ evs ++ [Final (response_message tls_info (vresp_head vh)
      (with_drain_config (snd (incoming (vresp_body vh) consumer)) (Config.drain (client_settings config))))] /\
    opened = false /\ p' = fresh p0.
Proof.
  intros Hl Hb Hst Hr He. destruct (receive_seen _ _ _ _ _ _ _ _ Hl Hb Hst Hr) as (input & evs & ds & Hrec & Hev & Hdel & Hrr).
  destruct (Hrr rr eq_refl) as [_ Hc]. destruct (Hc He) as (Ho & Hp & q & Hq & hs & before & vh & m & pieces & t & consumer & -> & Hh & Hn & Hm & -> & ->).
  exists input, hs, before, vh, m, pieces, t, consumer. rewrite <- app_assoc in Hq. by split_and!.
Qed.

Section Finite.
Context (bound : Z) (Hbound : forall w : W, zlen (received w) <= bound).

(** Every turn takes a head from the buffer, or bytes from the transport. *)
Lemma head_loop_total fuel (w : W) b p st deadline :
  wf_recv b -> resumes p0 p (recv_bytes b) ->
  recv_len b + 2 * (bound - zlen (received w)) + 1 <= Z.of_nat fuel ->
  is_Some (snd (head_loop tls strategy tls_info fuel w b p st deadline)).
Proof using Hbound ResponseLaws0 ReceiveLaws0.
  revert w b p st. induction fuel as [|fuel IH]; intros w b p st Hb Hp Hf; simpl.
  { specialize (Hbound w). unfold recv_len in Hf. pose proof (zlen_nonneg (recv_bytes b)). lia. }
  destruct (match deadline with Some d => reached w d | None => false end); [by eexists|].
  destruct (head_len p (recv_bytes b)) as [p1 [[n|]|e]] eqn:Eh; [| |by eexists].
  - destruct (take_head p0 p b p1 n Hp Hb Eh) as (b1 & h & -> & Hq & Hb1 & Hone & Hpf).
    rewrite (parse_response_fresh p1 h Hpf). destruct (snd (parse_response p0 h)) as [rh|e]; [|by eexists].
    destruct (receive_head st rh) as [st1 [[vh []]|e]]; [|by eexists..].
    set (w1 := if resp_status (vresp_head vh) =? 100 then grant_continue w else w).
    assert (observed w1 = observed w) as Ho1.
    { unfold w1. destruct (_ =? 100); [|done]. by destruct (grant_keeps w) as (_ & -> & _). }
    destruct (offer_informational w1 deadline _) as [w2 o] eqn:Eo. apply offer_informational_ok in Eo as [Ho2 _].
    rewrite Ho1 in Ho2. destruct (observed_eq _ _ Ho2) as (Er & _ & _). destruct o as [u|e]; [|by eexists].
    apply IH; [done|by apply resumes_fresh|]. apply one_head_pos in Hone. unfold recv_len in *.
    rewrite Er. rewrite Hq, zlen_app in Hf. lia.
  - pose proof (read_until_events w b deadline Hb) as Hr.
    destruct (read_until tls strategy w b true deadline) as [[w1 b1] r].
    destruct Hr as (_ & _ & _ & fill & Hrec & Hq & Hb1 & a & -> & Hs).
    destruct a as [[k|]|e]; [|by eexists..]. simpl in Hs.
    apply IH; [done|rewrite Hq; by eapply resumes_extends|]. unfold recv_len in *. rewrite Hq, Hrec, !zlen_app. lia.
Qed.

End Finite.

(** Receiving a response ends. Over a transport that delivers at most
    [bound] bytes, an exchange's receive activity ends after a bounded number of
    turns, never by failing an assertion, whatever the peer sends, the observer
    does and the timers say. *)
Theorem receive_response_total bound fuel (w : W) b st :
  (forall w : W, zlen (received w) <= bound) ->
  wf_limits (decode_limits (protocol (client_settings config))) -> wf_recv b -> wf_policy st ->
  recv_len b + 2 * (bound - zlen (received w)) + 2 <= Z.of_nat fuel ->
  exists r, snd (receive tls strategy config tls_info fuel w b (fresh p0) st) = Some (Returns r).
Proof.
  intros Hbound Hl Hb Hst Hf. unfold receive. destruct (configured_after w _) as [deadline|e]; [|by eexists].
  pose proof (head_loop_ok fuel w b (fresh p0) st deadline Hb (resumes_fresh _ _ _ eq_refl)) as Hh.
  pose proof (head_loop_total bound Hbound fuel w b (fresh p0) st deadline Hb (resumes_fresh _ _ _ eq_refl) ltac:(lia)) as Ht.
  destruct (head_loop _ _ _ _ _ _ _ _ _) as [[[[w1 b1] p1] st1] r1]. destruct Ht as [a Ht]. simpl in Ht. subst r1.
  destruct a as [[vh|e]|]; [|by eexists|by destruct Hh as (_ & _ & _ & ? & ? & _ & _ & _ & [])].
  destruct Hh as (Hb1 & _ & _ & input & evs & Hr1 & _ & _ & _ & _ & hs & Hq1 & Hheads).
  destruct (heads_read_counts _ _ _ _ _ Hheads Hst) as (_ & _ & _ & Hmode).
  destruct (incoming (vresp_body vh) (body_consumer w1)) as [producer body].
  destruct (offer_event w1 _) as [w2 o] eqn:Eo. unfold offer_event in Eo.
  destruct (ev_offer w1 _) as [w2' k] eqn:Ee. apply law_event in Ee as [Ho2 _]. injection Eo as -> <-.
  destruct k; [|by eexists]. destruct (law_event_close w2) as [Ho3 _]. rewrite Ho2 in Ho3.
  destruct (observed_eq _ _ Ho3) as (E1 & _ & _).
  assert (exists e, snd (response_body tls strategy config fuel (ev_close w2) b1 producer (vresp_body vh)) = Some (Returns e)) as [e He].
  { unfold response_body. destruct producer; [|by eexists].
    assert (recv_len b1 <= recv_len b + zlen input) as Hlen.
    { unfold recv_len. rewrite <- zlen_app, Hq1, zlen_app. pose proof (zlen_nonneg (concat hs)). lia. }
    pose proof (zlen_nonneg input). apply (receive_body_total tls strategy _ _ _ bound); [done..|].
    rewrite E1, Hr1, zlen_app. lia. }
  destruct (response_body _ _ _ _ _ _ _ _) as [[w4 b4] r4]. simpl in He. subst r4. by destruct e; eexists.
Qed.

End Received.

(** ** Evaluated: a POST that waits for 100 Continue, answered by a hint and a
    five-byte response *)

Section Evaluated.
#[local] Existing Instance AssocHttp.
#[local] Existing Instance LineHeads.
#[local] Existing Instance World_Allocator.

Record ClientExtra := mkClientExtra {
  x_control : Control;
  x_events : list (Event unit unit);
}.

Definition response_stream : bytes :=
  bs "HTTP/1.1 103 Hints" ++ [CR; LF; CR; LF] ++
  bs "HTTP/1.1 200 OK" ++ [CR; LF] ++ bs "content-length: 5" ++ [CR; LF; CR; LF] ++ bs "hello".

Notation CW := (World response_stream ClientExtra).

#[local] Instance CW_control : ClientControl CW := {
  cc_control w := x_control (extra w);
  cc_set w c := set_extra w (mkClientExtra c (x_events (extra w)));
  cc_wake w _ := w;
}.

#[local] Instance CW_wait : ContinueWait CW := fun w _ => (w, true).

Definition see (w : CW) (e : Event unit unit) : CW :=
  set_extra w (mkClientExtra (x_control (extra w)) (x_events (extra w) ++ [e])).

#[local] Instance CW_events : ResponseProducer CW (Event unit unit) unit := {
  ev_offer w e := (see w e, true);
  ev_offer_until w _ e := (see w e, Some true);
  ev_close w := w;
  body_consumer _ := tt;
}.

#[local] Instance CW_upload_laws : UploadLaws CW.
Proof. constructor; done. Qed.

#[local] Instance CW_response_laws : ResponseLaws CW (TlsInfo := unit) (C := unit).
Proof.
  refine {| events w := x_events (extra w) |}; try done.
  - intros w e w' r [= <- <-]. split; [done|by left].
  - intros w d e w' r [= <- <-]. split; [done|by left].
Defined.

Definition post : Request (Full bytes) :=
  mkRequest (bs "POST") (simple_uri_path (bs "/a")) HTTP_11
    [(HOST, bs "h"); (EXPECT, bs "100-continue")] None (FullReady (bs "hello")).

Definition post_upload : RequestUpload (Full bytes) * ExchangePolicy := Eval vm_compute in
  match prepare (alloc := any_alloc) post small_config 4 with Returns (Ok x) => x | _ =>
    (mkRequestUpload (mkMessagePlan [] (mkValidatedRequestHead (mkRequestHead [] (simple_uri_path []) HTTP_11 [] None)
      BodyNone Syntax.Reusable Origin ExpectNone None)) FullDone plain_encoder, mkExchangePolicy AwaitingHead Close [] None [] 0 0) end.

Lemma post_prepared : prepare (alloc := any_alloc) post small_config 4 = Returns (Ok post_upload).
Proof. vm_cast_no_check (eq_refl (@Returns (result _ Error) (Ok post_upload))). Qed.

Definition client_start : CW := opened (mkClientExtra Control_new []).

Definition post_send :=
  send_request (alloc := any_alloc) (W := CW) false (fun e : Infallible => match e with end) 16 16 client_start
    (plan_bytes (up_plan (fst post_upload))) (plan_head (up_plan (fst post_upload))) (up_body (fst post_upload))
    (up_encoder (fst post_upload)) (Some 1).

Definition post_sent : CW := Eval vm_compute in fst (fst (fst post_send)).
Definition post_body_after : Full bytes := Eval vm_compute in snd (fst (fst post_send)).
Definition post_encoder_after : BodyEncoder := Eval vm_compute in snd (fst post_send).

Lemma post_send_ok : post_send = (post_sent, post_body_after, post_encoder_after, Some (Returns (Ok tt))).
Proof. vm_cast_no_check (eq_refl (post_sent, post_body_after, post_encoder_after, Some (@Returns (result unit Error) (Ok tt)))). Qed.

Example post_wire : out post_sent = plan_bytes (up_plan (fst post_upload)) ++ bs "hello".
Proof. vm_cast_no_check (eq_refl (out post_sent)). Qed.


Definition client_config : ClientConfig :=
  mkClientConfig (mkSettings (mkConfig small_limits DecodeLimits_default small_config 4 false) DrainConfig_default
    (Some 9) (Some 9) None 64 128) (Some 1).

Definition response_parser : HeadParser := HeadParser_with_limits small_limits.

Definition response_received :=
  receive (W := CW) (C := unit) false TcpStrategy client_config (Some tt) 99 client_start scenario_buffer
    (fresh response_parser) (snd post_upload).

Definition response_world : CW := Eval vm_compute in fst (fst (fst response_received)).
Definition response_answer : ReceivedResponse := Eval vm_compute in
  match snd response_received with
  | Some (Returns (Ok r)) => r
  | _ => mkReceivedResponse AbandonedEnd scenario_buffer (snd post_upload)
  end.

Lemma response_received_ok :
  receive (W := CW) (C := unit) false TcpStrategy client_config (Some tt) 99 client_start scenario_buffer
    (fresh response_parser) (snd post_upload) = (response_world, response_parser, false, Some (Returns (Ok response_answer))).
Proof.
  vm_cast_no_check (eq_refl (response_world, response_parser, false, Some (@Returns (result _ Error) (Ok response_answer)))).
Qed.

Lemma receive_response_exact_witness :
  rr_end response_answer = Complete /\
  exists input hs evs vh m pieces t consumer,
    taken_in response_world = [] ++ input /\ [] ++ input = concat hs ++ m ++ recv_bytes (rr_buffer response_answer) /\
    heads_read (C := unit) (Some tt) response_parser (snd post_upload) hs evs (rr_policy response_answer) vh /\
    zlen evs <= 4 - 0 /\
    is_body DecodeLimits_default (vresp_body vh) m (concat (map as_ref pieces)) t /\
    frames response_world = [] ++ body_frames pieces t /\
    x_events (extra response_world) = [] ++ evs ++ [Final (response_message (Some tt) (vresp_head vh)
      (with_drain_config (snd (incoming (vresp_body vh) consumer)) DrainConfig_default))] /\
    false = false /\ response_parser = fresh response_parser.
Proof.
  split; [reflexivity|].
  exact (receive_response_exact (W := CW) (C := unit) false TcpStrategy client_config (Some tt) response_parser 99 client_start scenario_buffer
    (snd post_upload) response_world response_parser false response_answer default_limits_wf scenario_buffer_wf
    ltac:(vm_compute; split; discriminate) response_received_ok eq_refl).
Defined.

Lemma receive_response_total_witness :
  exists r, snd (receive (W := CW) (C := unit) false TcpStrategy client_config (Some tt) 200 client_start scenario_buffer
    (fresh response_parser) (snd post_upload)) = Some (Returns r).
Proof.
  refine (receive_response_total (W := CW) (C := unit) false TcpStrategy client_config (Some tt) response_parser (zlen response_stream) 200
    client_start scenario_buffer (snd post_upload) taken_in_bound default_limits_wf scenario_buffer_wf _ _).
  - vm_compute. split; discriminate.
  - vm_compute. discriminate.
Defined.

End Evaluated.
