(* ===== verification/Driver.v ===== *)
(** Composition of concurrent activities: [ConnectionControl::drive] of
    src/src/connection.rs, and [exchange], [exchange_inner] and
    [finish_exchange] of src/src/proto/h1/client.rs.

    The activities are arbitrary futures (Future.v) over a shared state [S];
    Client.v says what the send and receive activities of an exchange do. *)

From Stdlib Require Import ZArith Lia.
From stdpp Require Import base list option.
From S2P Require Import Prelude Http Errors Response Syntax Scan Validate Body Encode Pipe Future Incoming Recv Receive.
From S2P Require Import Connection Exchange Client.

(** ** [drive]: a connection under its shutdown control *)

Section Drive.
Context {F G S A : Type} `{Future G S ErrorKind} `{Future F S (result A Error)}.
(** [source.cancel()] and the drop of the guard *)
Context (cancel_source released : S -> S).

Inductive Drive : Type :=
| DriveRacing (abort : G) (future : F)
| DriveAborting (kind : ErrorKind) (future : F)
| DriveDone.

Definition drive_aborting (kind : ErrorKind) (f : F) (s : S) : Drive * S * Poll (result A Error) :=
  let '(f, s, r) := poll f s in
  match r with
  | Pending => (DriveAborting kind f, s, Pending)
  | Ready r =>
      (DriveDone, released s, Ready (drive_result (Some kind) r))
  end.

#[export] Instance drive : Future Drive S (result A Error) := fun d s =>
  match d with
  | DriveRacing abort f =>
      let '(af, s, r) := poll (abort, f) s in
      match r with
      | Pending => (DriveRacing (fst af) (snd af), s, Pending)
      | Ready (Second r) => (DriveDone, released s, Ready r)
      | Ready (First kind) => drive_aborting kind (snd af) (cancel_source s)
      end
  | DriveAborting kind f => drive_aborting kind f s
  | DriveDone => (DriveDone, s, Pending)
  end.

Lemma drive_aborting_answers kind f e r : answers (DriveAborting kind f) e r ->
  exists s own, answers f s own /\ e = released s /\ r = drive_result (Some kind) own.
Proof.
  intros Ha. remember (DriveAborting kind f) as d eqn:Ed. revert f Ed.
  induction Ha as [d s d' e r Hp|d s d' s' e r Hp _ IH]; intros f ->; unfold poll at 1, drive, drive_aborting in Hp;
    destruct (poll f s) as [[f1 s1] [own|]] eqn:Ef; simplify_eq.
  - exists s1, own. split_and!; [by eapply answers_now|done..].
  - destruct (IH f1 eq_refl) as (s2 & own & Ha & -> & ->). exists s2, own. split_and!; [by eapply answers_later|done..].
Qed.

Lemma drive_aborting_ready n kind f : ready_within n f -> ready_within n (DriveAborting kind f).
Proof.
  revert f. induction n as [|n IH]; intros f Hf; [done|]. intros s. specialize (Hf s). unfold poll, drive, drive_aborting.
  destruct (poll f s) as [[f1 s1] [r|]]; [done|by apply IH].
Qed.

Lemma drive_racing_answers abort f e r : answers (DriveRacing abort f) e r ->
  exists s own, answers f s own /\ e = released s /\
    (r = own \/ exists s0 kind, answers abort s0 kind /\ r = drive_result (Some kind) own).
Proof.
  intros Ha. remember (DriveRacing abort f) as d eqn:Ed. revert abort f Ed.
  induction Ha as [d s d' e r Hp|d s d' s' e r Hp Ha IH]; intros g f ->; unfold poll at 1, drive in Hp.
  all: unfold poll at 1, race in Hp; simpl in Hp; destruct (poll g s) as [[g1 s1] [kind|]] eqn:Eg; simpl in Hp.
  - unfold drive_aborting in Hp. destruct (poll f (cancel_source s1)) as [[f1 s2] [own|]] eqn:Ef; simplify_eq.
    exists s2, own. split_and!; [by eapply answers_now|done|right]. exists s1, kind. split; [by eapply answers_now|done].
  - destruct (poll f s1) as [[f1 s2] [own|]] eqn:Ef; simplify_eq/=. exists s2, r. split_and!; [by eapply answers_now|done|by left].
  - unfold drive_aborting in Hp. destruct (poll f (cancel_source s1)) as [[f1 s2] [own|]] eqn:Ef; simplify_eq.
    apply drive_aborting_answers in Ha as (s3 & own & Ho & -> & ->). exists s3, own.
    split_and!; [by eapply answers_later|done|right]. exists s1, kind. split; [by eapply answers_now|done].
  - destruct (poll f s1) as [[f1 s2] [own|]] eqn:Ef; simplify_eq/=.
    destruct (IH g1 f1 eq_refl) as (s3 & own & Ho & -> & Hr). exists s3, own. split_and!; [by eapply answers_later|done|].
    destruct Hr as [->|(s0 & kind & Hk & ->)]; [by left|right]. exists s0, kind. split; [by eapply answers_later|done].
Qed.

Lemma drive_racing_ready n abort f : ready_within n f -> ready_within n (DriveRacing abort f).
Proof.
  revert abort f. induction n as [|n IH]; intros g f Hf; [done|]. intros s. unfold poll, drive. unfold poll at 1, race. simpl.
  destruct (poll g s) as [[g1 s1] [kind|]]; simpl.
  - unfold drive_aborting. specialize (Hf (cancel_source s1)). destruct (poll f (cancel_source s1)) as [[f1 s2] [r|]]; [done|].
    by apply drive_aborting_ready.
  - specialize (Hf s1). destruct (poll f s1) as [[f1 s2] [r|]]; [done|]. by apply IH.
Qed.

(** C33: A connection settles before it reports. Under its shutdown control a
    driver's result is reported only after the driver itself has answered; it
    is that answer, unless an abort or an expired deadline was requested, and
    then a failure the driver originated still wins over the request; the
    control is released on every path; and the control never keeps a driver that
    ends from ending. *)
Theorem drive_settles n abort f e r :
  (answers (H := drive) (DriveRacing abort f) e r ->
   exists s own, answers f s own /\ e = released s /\
     (r = own \/ exists s0 kind, answers abort s0 kind /\ r = drive_result (Some kind) own)) /\
  (ready_within n f -> ready_within (H := drive) n (DriveRacing abort f)).
Proof. split; [apply drive_racing_answers|apply drive_racing_ready]. Qed.

End Drive.
Arguments Drive : clear implicits.

(** ** One client exchange *)

(** A direction of an exchange: its future, or what it answered. *)
Inductive Direction (F A : Type) : Type :=
| Runs (f : F)
| Answered (a : A).
Arguments Runs {F A} f.
Arguments Answered {F A} a.

Record SettledExchange := mkSettledExchange {
  se_buffer : RecvBuffer;
  se_outcome : Outcome;
  se_close_reason : CloseReason;
}.

Definition finish_exchange (sent : result unit Error) (received : result ReceivedResponse Error) (upload_aborted : bool)
    : result SettledExchange Error :=
  match received with
  | Err e =>
      Err (match sent with
           | Err s => if negb (is_canceled s) && is_canceled e then s else e
           | Ok _ => e
           end)
  | Ok (mkReceivedResponse end_ buffer policy) =>
      match end_ with
      | FailedEnd e => Err e
      | AbandonedEnd =>
          match sent with
          | Err e =>
              if negb (is_canceled e) then Err e
              else
                let? outcome := exchange_finish policy ActivityRetired ActivityRetired in
                Ok (mkSettledExchange buffer outcome BodyAbandonment)
          | Ok _ =>
              let? outcome := exchange_finish policy ActivityRetired ActivityRetired in
              Ok (mkSettledExchange buffer outcome BodyAbandonment)
          end
      | Complete =>
          let? request_end :=
            match sent with
            | Err e => if negb (is_canceled e) || negb upload_aborted then Err e else Ok ActivityRetired
            | Ok _ => if upload_aborted then Ok ActivityRetired else Ok ActivityComplete
            end in
          let? outcome := exchange_finish policy request_end ActivityComplete in
          Ok (mkSettledExchange buffer outcome (if upload_aborted then UploadAbort else MessagePolicy))
      end
  end.

(** The response's producer in its [Option], and the connection's token. *)
Class ResponseSlot (S : Type) := {
  slot_open : S -> bool;
  slot_fail : S -> Error -> S;
  shutdown_token : S -> bool;
}.

Section Exchange.
Context {http : HttpCrate} {alloc : Encode.Allocator} {B D E : Type} `{IoBuf D} `{!Body B D E}.
Context {FS FR S : Type} `{Future FS S (result unit Error)} `{Future FR S (result ReceivedResponse Error)}.
Context `{ClientControl S} `{ResponseSlot S}.
Context (encoding : EncodeConfig) (max_informational : Z).
(** the futures [send_request(..)] and [receive(..)] *)
Context (activities : RequestUpload B -> ExchangePolicy -> FR * FS).

Inductive Inner : Type :=
| InnerPrepare (request : Request B)
| InnerRacing (receive : FR) (send : FS)
| AwaitSend (received : result ReceivedResponse Error) (send : FS)
| AwaitReceive (sent : result unit Error) (receive : FR)
| InnerDone.

(** The first terminal direction asks its peer to stop. *)
Definition receive_stops_send (received : result ReceivedResponse Error) : bool :=
  match received with
  | Err _ => true
  | Ok r => match rr_end r with AbandonedEnd => true | _ => false end
  end.

Definition send_stops_receive (s : S) (sent : result unit Error) : bool :=
  match sent with
  | Err e => negb (is_canceled e) || negb (explicit_abort s)
  | Ok _ => false
  end.

Definition await_send (received : result ReceivedResponse Error) (send : FS) (s : S)
    : Inner * S * Poll (call (result SettledExchange Error)) :=
  let '(send, s, r) := poll send s in
  match r with
  | Pending => (AwaitSend received send, s, Pending)
  | Ready sent => (InnerDone, s, Ready (Returns (finish_exchange sent received (explicit_abort s))))
  end.

Definition await_receive (sent : result unit Error) (receive : FR) (s : S)
    : Inner * S * Poll (call (result SettledExchange Error)) :=
  let '(receive, s, r) := poll receive s in
  match r with
  | Pending => (AwaitReceive sent receive, s, Pending)
  | Ready received => (InnerDone, s, Ready (Returns (finish_exchange sent received (explicit_abort s))))
  end.

Definition race_directions (receive : FR) (send : FS) (s : S)
    : Inner * S * Poll (call (result SettledExchange Error)) :=
  let '(rs, s, r) := poll (receive, send) s in
  match r with
  | Pending => (InnerRacing (fst rs) (snd rs), s, Pending)
  | Ready (First received) =>
      await_send received (snd rs) (if receive_stops_send received then cancel_exchange s else s)
  | Ready (Second sent) =>
      await_receive sent (fst rs) (if send_stops_receive s sent then cancel_exchange s else s)
  end.

#[export] Instance exchange_inner : Future Inner S (call (result SettledExchange Error)) := fun x s =>
  match x with
  | InnerPrepare request =>
      match prepare request encoding max_informational with
      | Panics => (InnerDone, s, Ready Panics)
      | Returns (Err e) => (InnerDone, s, Ready (Returns (Err e)))
      | Returns (Ok (upload, policy)) => let '(receive, send) := activities upload policy in race_directions receive send s
      end
  | InnerRacing receive send => race_directions receive send s
  | AwaitSend received send => await_send received send s
  | AwaitReceive sent receive => await_receive sent receive s
  | InnerDone => (InnerDone, s, Pending)
  end.

(** A failure is shown to an observer that has no final response yet. *)
Definition report (s : S) (r : result SettledExchange Error) : S * result SettledExchange Error :=
  match r with
  | Err e =>
      if slot_open s then let '(driver, observer) := Error_split e in (slot_fail s observer, Err driver)
      else (s, Err e)
  | Ok x => (s, Ok x)
  end.

Inductive Exchanging : Type :=
| Watched (work : Inner)
| Stopping (work : Inner)
| ExchangeDone.

Definition settle_exchange (resume : Inner -> Exchanging)
    (a : Inner * S * Poll (call (result SettledExchange Error))) : Exchanging * S * Poll (call (result SettledExchange Error)) :=
  let '(work, s, r) := a in
  match r with
  | Pending => (resume work, s, Pending)
  | Ready Panics => (ExchangeDone, s, Ready Panics)
  | Ready (Returns r) => let '(s, r) := report s r in (ExchangeDone, s, Ready (Returns r))
  end.

#[export] Instance exchange : Future Exchanging S (call (result SettledExchange Error)) := fun x s =>
  match x with
  | Watched work =>
      let '(uw, s, r) := @race unit Inner S unit _ (cancelled (Some shutdown_token)) exchange_inner (tt, work) s in
      match r with
      | Ready (First _) => settle_exchange Stopping (poll (snd uw) (cancel_exchange s))
      | Ready (Second r) => settle_exchange Watched (snd uw, s, Ready r)
      | Pending => settle_exchange Watched (snd uw, s, Pending)
      end
  | Stopping work => settle_exchange Stopping (poll work s)
  | ExchangeDone => (ExchangeDone, s, Pending)
  end.

(** ** What the composition guarantees *)

(** Both directions have answered, and [r] is what the policy makes of it in
    the state [e] the last of them left. *)
Definition both_settled (receive : FR) (send : FS) (e : S) (r : call (result SettledExchange Error)) : Prop :=
  exists s1 s2 sent received, answers send s1 sent /\ answers receive s2 received /\ (e = s1 \/ e = s2) /\
    r = Returns (finish_exchange sent received (explicit_abort e)).

Lemma await_send_answers received send e r : answers (AwaitSend received send) e r ->
  exists sent, answers send e sent /\ r = Returns (finish_exchange sent received (explicit_abort e)).
Proof.
  intros Ha. remember (AwaitSend received send) as x eqn:Ex. revert send Ex.
  induction Ha as [x s x' e r Hp|x s x' s' e r Hp _ IH]; intros f ->; unfold poll at 1, exchange_inner, await_send in Hp;
    destruct (poll f s) as [[f1 s1] [sent|]] eqn:Ef; simplify_eq.
  - exists sent. split; [by eapply answers_now|done].
  - destruct (IH f1 eq_refl) as (sent & Ha & ->). exists sent. split; [by eapply answers_later|done].
Qed.

Lemma await_receive_answers sent receive e r : answers (AwaitReceive sent receive) e r ->
  exists received, answers receive e received /\ r = Returns (finish_exchange sent received (explicit_abort e)).
Proof.
  intros Ha. remember (AwaitReceive sent receive) as x eqn:Ex. revert receive Ex.
  induction Ha as [x s x' e r Hp|x s x' s' e r Hp _ IH]; intros f ->; unfold poll at 1, exchange_inner, await_receive in Hp;
    destruct (poll f s) as [[f1 s1] [received|]] eqn:Ef; simplify_eq.
  - exists received. split; [by eapply answers_now|done].
  - destruct (IH f1 eq_refl) as (received & Ha & ->). exists received. split; [by eapply answers_later|done].
Qed.

(** One poll of the race, its peer's first poll included. *)
Lemma race_directions_answers receive send s x e r :
  race_directions receive send s = (x, e, Ready r) -> both_settled receive send e r.
Proof.
  unfold race_directions. unfold poll at 1, race. simpl.
  destruct (poll receive s) as [[f1 s1] [received|]] eqn:Er; simpl.
  - unfold await_send. set (s2 := if receive_stops_send received then _ else _).
    destruct (poll send s2) as [[g1 s3] [sent|]] eqn:Es; [|done]. intros [= <- <- <-].
    exists s3, s1, sent, received. split_and!; [by eapply answers_now..|by left|done].
  - destruct (poll send s1) as [[g1 s2] [sent|]] eqn:Es; [|done]. simpl. unfold await_receive.
    set (s3 := if send_stops_receive s2 sent then _ else _). destruct (poll f1 s3) as [[f2 s4] [received|]] eqn:Er'; [|done].
    intros [= <- <- <-]. exists s2, s4, sent, received. split_and!; [by eapply answers_now| |by right|done].
    eapply answers_later; [exact Er|by eapply answers_now].
Qed.

Lemma race_directions_later receive send s x e0 e r :
  race_directions receive send s = (x, e0, Pending) -> answers x e r ->
  both_settled receive send e r \/
  exists receive' send', x = InnerRacing receive' send' /\
    (forall e r, answers receive' e r -> answers receive e r) /\ (forall e r, answers send' e r -> answers send e r).
Proof.
  unfold race_directions. unfold poll at 1, race. simpl.
  destruct (poll receive s) as [[f1 s1] [received|]] eqn:Er; simpl.
  - unfold await_send. set (s2 := if receive_stops_send received then _ else _).
    destruct (poll send s2) as [[g1 s3] [sent|]] eqn:Es; [done|]. intros [= <- <-] (sent & Ha & ->)%await_send_answers.
    left. exists e, s1, sent, received. split_and!; [by eapply answers_later|by eapply answers_now|by left|done].
  - destruct (poll send s1) as [[g1 s2] [sent|]] eqn:Es; simpl.
    + unfold await_receive. set (s3 := if send_stops_receive s2 sent then _ else _).
      destruct (poll f1 s3) as [[f2 s4] [received|]] eqn:Er'; [done|].
      intros [= <- <-] (received & Ha & ->)%await_receive_answers. left. exists s2, e, sent, received.
      split_and!; [by eapply answers_now| |by right|done]. eapply answers_later; [exact Er|by eapply answers_later].
    + intros [= <- <-] _. right. exists f1, g1. split_and!; [done|intros ? ? ?; by eapply answers_later..].
Qed.

Lemma racing_answers receive send e r : answers (InnerRacing receive send) e r -> both_settled receive send e r.
Proof.
  intros Ha. remember (InnerRacing receive send) as x eqn:Ex. revert receive send Ex.
  induction Ha as [x s x' e r Hp|x s x' s' e r Hp Ha IH]; intros f g ->; unfold poll at 1, exchange_inner in Hp.
  - by eapply race_directions_answers.
  - destruct (race_directions_later _ _ _ _ _ _ _ Hp Ha) as [?|(f' & g' & -> & Hf & Hg)]; [done|].
    destruct (IH f' g' eq_refl) as (s1 & s2 & sent & received & H1' & H2' & He & ->). exists s1, s2, sent, received.
    split_and!; [by apply Hg|by apply Hf|done..].
Qed.

(** What the whole exchange makes of the answer [r0] of its work in [s]. *)
Definition reports (s : S) (r0 : call (result SettledExchange Error)) (e : S) (r : call (result SettledExchange Error)) : Prop :=
  match r0 with
  | Panics => e = s /\ r = Panics
  | Returns r0 => exists r1, report s r0 = (e, r1) /\ r = Returns r1
  end.

Lemma settle_exchange_ready resume work s r x e r' :
  settle_exchange resume (work, s, Ready r) = (x, e, Ready r') -> reports s r e r'.
Proof.
  simpl. destruct r as [r|]; [|by intros [= _ <- <-]]. destruct (report s r) as [s1 r1] eqn:Er. intros [= _ <- <-]. by exists r1.
Qed.

Lemma settle_exchange_never resume work s r x e : settle_exchange resume (work, s, Ready r) <> (x, e, Pending).
Proof. simpl. destruct r as [r|]; [|done]. by destruct (report s r). Qed.

#[local] Arguments settle_exchange : simpl never.

Lemma stopping_answers work e r : answers (Stopping work) e r -> exists s r0, answers work s r0 /\ reports s r0 e r.
Proof.
  intros Ha. remember (Stopping work) as x eqn:Ex. revert work Ex.
  induction Ha as [x s x' e r Hp|x s x' s' e r Hp _ IH]; intros f ->; unfold poll at 1, exchange in Hp;
    destruct (poll f s) as [[f1 s1] [r0|]] eqn:Ef.
  - apply settle_exchange_ready in Hp. exists s1, r0. split; [by eapply answers_now|done].
  - done.
  - by apply settle_exchange_never in Hp.
  - injection Hp as <- <-. destruct (IH f1 eq_refl) as (s2 & r0 & Ha & Hr). exists s2, r0. split; [by eapply answers_later|done].
Qed.

Lemma watched_answers work e r : answers (Watched work) e r -> exists s r0, answers work s r0 /\ reports s r0 e r.
Proof.
  intros Ha. remember (Watched work) as x eqn:Ex. revert work Ex.
  induction Ha as [x s x' e r Hp|x s x' s' e r Hp Ha IH]; intros f ->; unfold poll at 1, exchange, race in Hp; simpl in Hp;
    unfold poll at 1, cancelled in Hp; destruct (shutdown_token s); simpl in Hp.
  - destruct (poll f (cancel_exchange s)) as [[f1 s1] [r0|]] eqn:Ef; [|done].
    apply settle_exchange_ready in Hp. exists s1, r0. split; [by eapply answers_now|done].
  - change (exchange_inner f s) with (poll f s) in Hp. destruct (poll f s) as [[f1 s1] [r0|]] eqn:Ef; [|done].
    apply settle_exchange_ready in Hp. exists s1, r0. split; [by eapply answers_now|done].
  - destruct (poll f (cancel_exchange s)) as [[f1 s1] [r0|]] eqn:Ef; [by apply settle_exchange_never in Hp|].
    injection Hp as <- <-. apply stopping_answers in Ha as (s2 & r0 & Ha & Hr). exists s2, r0. split; [by eapply answers_later|done].
  - change (exchange_inner f s) with (poll f s) in Hp. destruct (poll f s) as [[f1 s1] [r0|]] eqn:Ef; [by apply settle_exchange_never in Hp|].
    injection Hp as <- <-. destruct (IH f1 eq_refl) as (s2 & r0 & Ha' & Hr). exists s2, r0. split; [by eapply answers_later|done].
Qed.

(** Liveness: each turn polls every direction that has not answered. *)
Lemma await_send_ready n received send : ready_within n send -> ready_within n (AwaitSend received send).
Proof.
  revert send. induction n as [|n IH]; intros f Hf; [done|]. intros s. specialize (Hf s). unfold poll, exchange_inner, await_send.
  destruct (poll f s) as [[f1 s1] [r|]]; [done|by apply IH].
Qed.

Lemma await_receive_ready n sent receive : ready_within n receive -> ready_within n (AwaitReceive sent receive).
Proof.
  revert receive. induction n as [|n IH]; intros f Hf; [done|]. intros s. specialize (Hf s). unfold poll, exchange_inner, await_receive.
  destruct (poll f s) as [[f1 s1] [r|]]; [done|by apply IH].
Qed.

Lemma racing_ready n receive send : ready_within n receive -> ready_within n send -> ready_within n (InnerRacing receive send).
Proof.
  revert receive send. induction n as [|n IH]; intros f g Hf Hg; [done|]. intros s. unfold poll, exchange_inner, race_directions.
  unfold poll at 1, race. simpl. specialize (Hf s). destruct (poll f s) as [[f1 s1] [received|]]; simpl.
  - unfold await_send. set (s2 := if receive_stops_send received then _ else _). specialize (Hg s2).
    destruct (poll g s2) as [[g1 s3] [sent|]]; [done|]. by apply await_send_ready.
  - specialize (Hg s1). destruct (poll g s1) as [[g1 s2] [sent|]]; simpl; [|by apply IH].
    unfold await_receive. set (s3 := if send_stops_receive s2 sent then _ else _). destruct n as [|n]; [done|].
    specialize (Hf s3). destruct (poll f1 s3) as [[f2 s4] [received|]]; [done|]. by apply ready_within_S, await_receive_ready.
Qed.

Lemma stopping_ready n work : ready_within n work -> ready_within n (Stopping work).
Proof.
  revert work. induction n as [|n IH]; intros f Hf; [done|]. intros s. specialize (Hf s). unfold poll, exchange.
  destruct (poll f s) as [[f1 s1] [[r|]|]]; unfold settle_exchange; [by destruct (report s1 r)|done|by apply IH].
Qed.

Lemma watched_ready n work : ready_within n work -> ready_within n (Watched work).
Proof.
  revert work. induction n as [|n IH]; intros f Hf; [done|]. intros s. unfold poll at 1, exchange, race. simpl.
  unfold poll at 1, cancelled. destruct (shutdown_token s); simpl.
  - specialize (Hf (cancel_exchange s)). destruct (poll f (cancel_exchange s)) as [[f1 s1] [[r|]|]]; unfold settle_exchange;
      [by destruct (report s1 r)|done|by apply stopping_ready].
  - specialize (Hf s). change (exchange_inner f s) with (poll f s). destruct (poll f s) as [[f1 s1] [[r|]|]]; unfold settle_exchange; [by destruct (report s1 r)|done|by apply IH].
Qed.

Lemma prepared_answers request upload policy e r :
  prepare request encoding max_informational = Returns (Ok (upload, policy)) ->
  answers (InnerPrepare request) e r -> both_settled (fst (activities upload policy)) (snd (activities upload policy)) e r.
Proof.
  intros Hp Ha. destruct (activities upload policy) as [f g] eqn:Ea. simpl.
  inversion Ha as [? s x' ? ? Hs|? s x' s' ? ? Hs Ha']; subst; unfold poll at 1, exchange_inner in Hs; rewrite Hp, Ea in Hs.
  - by eapply race_directions_answers.
  - destruct (race_directions_later _ _ _ _ _ _ _ Hs Ha') as [?|(f' & g' & -> & Hf & Hg)]; [done|].
    apply racing_answers in Ha' as (s1 & s2 & sent & received & H1' & H2' & He & ->). exists s1, s2, sent, received.
    split_and!; [by apply Hg|by apply Hf|done..].
Qed.

Lemma prepared_ready n request upload policy :
  prepare request encoding max_informational = Returns (Ok (upload, policy)) ->
  ready_within n (fst (activities upload policy)) -> ready_within n (snd (activities upload policy)) ->
  ready_within n (InnerPrepare request).
Proof.
  intros Hp Hf Hg. pose proof (racing_ready n _ _ Hf Hg) as Hr. destruct n as [|n]; [done|]. intros s. specialize (Hr s).
  unfold poll, exchange_inner in *. rewrite Hp. by destruct (activities upload policy).
Qed.

(** C8: An exchange settles both directions. However its two activities
    interleave, fail, are aborted or are canceled by a shutdown, the exchange of
    a prepared request answers only after the upload and the response have each
    answered, once; its result is the policy's verdict on exactly those two
    answers, and a failure is shown to an observer that still waits for its
    response; and when both activities end, so does the exchange, within the
    same number of turns. *)
Theorem exchange_settles request upload policy n e r :
  prepare request encoding max_informational = Returns (Ok (upload, policy)) ->
  (answers (Watched (InnerPrepare request)) e r ->
   exists s r0, both_settled (fst (activities upload policy)) (snd (activities upload policy)) s r0 /\ reports s r0 e r) /\
  (ready_within n (fst (activities upload policy)) -> ready_within n (snd (activities upload policy)) ->
   ready_within n (Watched (InnerPrepare request))).
Proof.
  intros Hp. split.
  - intros (s & r0 & Ha & Hr)%watched_answers. exists s, r0. split; [by eapply prepared_answers|done].
  - intros Hf Hg. by eapply watched_ready, prepared_ready.
Qed.

(** ** Invariants

    What the polls of both directions keep, the exchange keeps: [holds] is about
    both directions and what they share, [started] about what they share before
    the request is prepared. *)
Section Invariant.
Context `{!Suspends S}.
Context (request : Request B) (started : S -> Prop)
  (holds : Direction FR (result ReceivedResponse Error) -> Direction FS (result unit Error) -> S -> Prop).
Context (Hreceive : forall f y s, holds (Runs f) y s ->
  match poll f s with (f', s', Pending) => holds (Runs f') y s' | (_, s', Ready a) => holds (Answered a) y s' end).
Context (Hsend : forall x f s, holds x (Runs f) s ->
  match poll f s with (f', s', Pending) => holds x (Runs f') s' | (_, s', Ready a) => holds x (Answered a) s' end).
Context (Hcancel : forall x y s, holds x y s -> holds x y (cancel_exchange s)).
Context (Hsuspend : forall x y s, holds x y s -> holds x y (suspend s)).
Context (Hcancel0 : forall s, started s -> started (cancel_exchange s)) (Hsuspend0 : forall s, started s -> started (suspend s)).
Context (Hstart : forall upload policy s, prepare request encoding max_informational = Returns (Ok (upload, policy)) ->
  started s -> holds (Runs (fst (activities upload policy))) (Runs (snd (activities upload policy))) s).

Definition working (x : Inner) (s : S) : Prop :=
  match x with
  | InnerPrepare r => r = request /\ started s
  | InnerRacing receive send => holds (Runs receive) (Runs send) s
  | AwaitSend received send => holds (Answered received) (Runs send) s
  | AwaitReceive sent receive => holds (Runs receive) (Answered sent) s
  | InnerDone => False
  end.

(** The work answered [r] in [s]. *)
Definition worked (s : S) (r : call (result SettledExchange Error)) : Prop :=
  (exists sent received, holds (Answered received) (Answered sent) s /\ r = Returns (finish_exchange sent received (explicit_abort s))) \/
  (started s /\ forall x, r <> Returns (Ok x)).

Definition works (a : Inner * S * Poll (call (result SettledExchange Error))) : Prop :=
  match a with
  | (x, s, Pending) => working x s
  | (_, s, Ready r) => worked s r
  end.

Lemma await_send_works received send s : holds (Answered received) (Runs send) s -> works (await_send received send s).
Proof using Hsend.
  intros Hh. unfold await_send. pose proof (Hsend _ _ _ Hh) as Hp. destruct (poll send s) as [[f1 s1] [sent|]]; [|done].
  left. by exists sent, received.
Qed.

Lemma await_receive_works sent receive s : holds (Runs receive) (Answered sent) s -> works (await_receive sent receive s).
Proof using Hreceive.
  intros Hh. unfold await_receive. pose proof (Hreceive _ _ _ Hh) as Hp. destruct (poll receive s) as [[f1 s1] [received|]]; [|done].
  left. by exists sent, received.
Qed.

Lemma race_directions_works receive send s : holds (Runs receive) (Runs send) s -> works (race_directions receive send s).
Proof using Hreceive Hsend Hcancel.
  intros Hh. unfold race_directions. unfold poll at 1, race. simpl. pose proof (Hreceive _ _ _ Hh) as Hp.
  destruct (poll receive s) as [[f1 s1] [received|]]; simpl.
  - apply await_send_works. destruct (receive_stops_send received); auto.
  - apply Hsend in Hp. destruct (poll send s1) as [[g1 s2] [sent|]]; simpl; [|done].
    apply await_receive_works. destruct (send_stops_receive s2 sent); auto.
Qed.

Lemma inner_works x s : working x s -> works (poll x s).
Proof using Hreceive Hsend Hcancel Hstart.
  unfold poll, exchange_inner. destruct x as [r|receive send|received send|sent receive|]; simpl; intros Hx.
  - destruct Hx as [-> Hx]. destruct (prepare request encoding max_informational) as [[[upload policy]|e]|] eqn:Ep; [|by right..].
    specialize (Hstart _ _ _ eq_refl Hx). destruct (activities upload policy). by apply race_directions_works.
  - by apply race_directions_works.
  - by apply await_send_works.
  - by apply await_receive_works.
  - done.
Qed.

Lemma working_keeps x s s' :
  (forall y z, holds y z s -> holds y z s') -> (started s -> started s') -> working x s -> working x s'.
Proof. destruct x; simpl; naive_solver. Qed.

Definition exchanging (x : Exchanging) (s : S) : Prop :=
  match x with Watched work | Stopping work => working work s | ExchangeDone => False end.

Definition exchanged (e : S) (r : call (result SettledExchange Error)) : Prop :=
  exists s r0, worked s r0 /\ reports s r0 e r.

Lemma settle_exchange_works resume work s r :
  (forall s, working work s -> exchanging (resume work) s) -> works (work, s, r) ->
  match settle_exchange resume (work, s, r) with
  | (x, s', Pending) => exchanging x s'
  | (_, s', Ready r) => exchanged s' r
  end.
Proof.
  intros Hres Hw. destruct r as [r|]; [|by apply Hres].
  destruct (settle_exchange resume (work, s, Ready r)) as [[x e] [r'|]] eqn:Es; [|by apply settle_exchange_never in Es].
  apply settle_exchange_ready in Es. by exists s, r.
Qed.

Lemma exchange_poll_holds x s : exchanging x s ->
  match poll x s with (x', s', Pending) => exchanging x' s' | (_, s', Ready r) => exchanged s' r end.
Proof using Hreceive Hsend Hcancel Hstart Hcancel0.
  destruct x as [work|work|]; intros Hx; [|by apply inner_works in Hx as Hw; unfold poll at 1, exchange; destruct (poll work s) as [[w1 s1] r];
    apply settle_exchange_works|done].
  unfold poll at 1, exchange, race. simpl. unfold poll at 1, cancelled. destruct (shutdown_token s); simpl.
  - assert (working work (cancel_exchange s)) as Hc by (eapply working_keeps; [| |exact Hx]; auto).
    apply inner_works in Hc. destruct (poll work (cancel_exchange s)) as [[w1 s1] r]. by apply settle_exchange_works.
  - apply inner_works in Hx. change (exchange_inner work s) with (poll work s). destruct (poll work s) as [[w1 s1] [r|]];
      by apply (settle_exchange_works Watched).
Qed.

Lemma exchange_holds n x s x' s' r : exchanging x s -> await n x s = (x', s', r) ->
  match r with Some r => exchanged s' r | None => exchanging x' s' end.
Proof using Hreceive Hsend Hcancel Hstart Hcancel0 Hsuspend Hsuspend0.
  revert x s. induction n as [|n IH]; intros x s Hx; simpl; [by intros [= <- <- <-]|].
  apply exchange_poll_holds in Hx. destruct (poll x s) as [[x1 s1] [a|]]; [by intros [= <- <- <-]|].
  intros Ha. eapply IH; [|exact Ha]. destruct x1; simpl in *; [eapply working_keeps; [| |exact Hx]; auto..|done].
Qed.

End Invariant.

End Exchange.

(** Only a settled exchange leaves a connection usable. *)
Lemma finish_exchange_usable sent received upload_aborted x :
  finish_exchange sent received upload_aborted = Ok x -> se_outcome x <> OutcomeClose ->
  sent = Ok tt /\ upload_aborted = false /\ exists p, received = Ok (mkReceivedResponse Complete (se_buffer x) p) /\
    exchange_finish p ActivityComplete ActivityComplete = Ok (se_outcome x).
Proof.
  unfold finish_exchange. destruct received as [[[| |e] b p]|e]; [| |done..].
  - destruct sent as [[]|es]; [|destruct (negb _), (negb upload_aborted); try done; by intros [= <-]].
    destruct upload_aborted; [by intros [= <-]|]. simpl. destruct (exchange_finish p _ _) as [o|e] eqn:Ef; [|done].
    intros [= <-] _. split_and!; [done..|]. by exists p.
  - destruct sent as [[]|es]; [by intros [= <-]|]. destruct (negb _); [done|]. by intros [= <-].
Qed.

(** When a connection may be used again, and which failure is reported. An
    exchange is settled other than by closing only when the upload succeeded
    and was not aborted, the response was received to its end, and the policy
    of the exchange allows it; and whenever either direction failed for a
    reason of its own, that reason is reported and not the cancellation it
    caused. *)
Theorem finish_exchange_exact sent received upload_aborted :
  (forall b p e, received <> Ok (mkReceivedResponse (FailedEnd e) b p)) ->
  match finish_exchange sent received upload_aborted with
  | Ok x =>
      se_outcome x = OutcomeClose \/
      (sent = Ok tt /\ upload_aborted = false /\
       exists p, received = Ok (mkReceivedResponse Complete (se_buffer x) p) /\
         exchange_finish p ActivityComplete ActivityComplete = Ok (se_outcome x))
  | Err e =>
      is_canceled e = true ->
      (forall e', sent = Err e' -> is_canceled e' = true) /\ (forall e', received = Err e' -> is_canceled e' = true)
  end.
Proof.
  intros Hf. unfold finish_exchange. destruct received as [[[| |e] b p]|e]; [| |by destruct (Hf b p e)|].
  - destruct sent as [[]|es].
    + destruct upload_aborted; simpl.
      * by left.
      * destruct (exchange_finish p _ _) as [o|e] eqn:Ef; simpl.
        -- right. split_and!; [done..|]. by exists p.
        -- revert Ef. unfold exchange_finish. simpl. destruct (phase p); [|done..]. by intros [= <-].
    + destruct (is_canceled es) eqn:Ec; simpl; [|by rewrite Ec].
      destruct upload_aborted; simpl; [by left|]. intros _. split; [by intros ? [= <-]|done].
  - destruct sent as [[]|es]; simpl; [by left|]. destruct (is_canceled es) eqn:Ec; simpl; [by left|]. by rewrite Ec.
  - destruct sent as [[]|es]; simpl; [intros Hc; split; [done|by intros ? [= <-]]|].
    destruct (is_canceled es) eqn:Es, (is_canceled e) eqn:Ee; simpl; rewrite ?Es, ?Ee; try done.
    intros _. split; by intros ? [= <-].
Qed.

(** ** Evaluated: a response that arrives before its upload ends *)

Section Evaluated.
#[local] Existing Instance AssocHttp.

#[local] Existing Instance delayed.

Record Local_ := mkLocal { l_control : Control; l_open : bool; l_shown : list Error }.

#[local] Instance local_control : ClientControl Local_ := {
  cc_control := l_control;
  cc_set s c := mkLocal c (l_open s) (l_shown s);
  cc_wake s _ := s;
}.

#[local] Instance local_slot : ResponseSlot Local_ := {
  slot_open := l_open;
  slot_fail s e := mkLocal (l_control s) false (l_shown s ++ [e]);
  shutdown_token _ := false;
}.

#[local] Instance local_suspends : Suspends Local_ := fun s => s.

Definition early_activities (_ : RequestUpload (Full bytes)) (_ : ExchangePolicy)
    : Delayed (result ReceivedResponse Error) * Delayed (result unit Error) :=
  ((1%nat, Ok response_answer), (3%nat, Ok tt)).

Definition local_start : Local_ := mkLocal Control_new true [].

#[local] Instance early_exchange :
    Future (Exchanging (B := Full bytes) (FS := Delayed (result unit Error)) (FR := Delayed (result ReceivedResponse Error)))
      Local_ (call (result SettledExchange Error)) :=
  exchange (alloc := any_alloc) small_config 4 early_activities.

Definition early_result : call (result SettledExchange Error) :=
  Returns (finish_exchange (Ok tt) (Ok response_answer) false).

Lemma early_answers : answers (Watched (InnerPrepare post)) local_start early_result.
Proof.
  refine (await_answers (H := early_exchange) 9 (Watched (InnerPrepare post)) local_start ExchangeDone local_start early_result _).
  vm_cast_no_check (eq_refl (@ExchangeDone _ (Full bytes) (Delayed (result unit Error)) (Delayed (result ReceivedResponse Error)),
    local_start, Some early_result)).
Qed.

Lemma exchange_settles_witness :
  (exists s r0,
    both_settled (S := Local_) (fst (early_activities (fst post_upload) (snd post_upload)))
      (snd (early_activities (fst post_upload) (snd post_upload))) s r0 /\ reports s r0 local_start early_result) /\
  ready_within 4 (Watched (InnerPrepare post)).
Proof.
  destruct (exchange_settles (alloc := any_alloc) (S := Local_) small_config 4 early_activities post (fst post_upload)
    (snd post_upload) 4 local_start early_result post_prepared) as [Hs Hl].
  split; [exact (Hs early_answers)|]. apply Hl; [apply (ready_within_le 2); [lia|]|]; apply delayed_ready.
Defined.

Lemma finish_exchange_exact_witness :
  OutcomeReusable = OutcomeClose \/
  (Ok tt = @Ok unit Error tt /\ false = false /\
   exists p, Ok response_answer = @Ok ReceivedResponse Error (mkReceivedResponse Complete (rr_buffer response_answer) p) /\
     exchange_finish p ActivityComplete ActivityComplete = Ok OutcomeReusable).
Proof. refine (finish_exchange_exact (Ok tt) (Ok response_answer) false _). discriminate. Defined.

(** A driver that is canceled when its abort is requested. *)
Definition aborted_drive := DriveRacing ((1%nat, Canceled) : Delayed ErrorKind)
  ((3%nat, Err (Error_new Canceled "request driver canceled")) : Delayed (result unit Error)).

Lemma aborted_drive_answers :
  answers (H := drive (S := Z) (fun s => s + 1) (fun s => s + 10)) aborted_drive 11
    (Err (Error_new Canceled "connection shutdown requested")).
Proof.
  do 3 (eapply (answers_later _ 0); [reflexivity|]).
  eapply (answers_now _ 1). reflexivity.
Qed.

Lemma drive_settles_witness :
  exists s own, answers (S := Z) ((3%nat, Err (Error_new Canceled "request driver canceled")) : Delayed (result unit Error)) s own /\
    11 = s + 10 /\
    (Err (Error_new Canceled "connection shutdown requested") = own \/
     exists s0 kind, answers (S := Z) ((1%nat, Canceled) : Delayed ErrorKind) s0 kind /\
       Err (Error_new Canceled "connection shutdown requested") = drive_result (Some kind) own).
Proof.
  exact (proj1 (drive_settles (fun s => s + 1) (fun s => s + 10) 4 _ _ _ _) aborted_drive_answers).
Defined.

End Evaluated.
