(* ===== verification/Session.v ===== *)
(** A client connection from its first job to its last: [run] and [run_inner] of
    src/src/proto/h1/client.rs.

    The halves of the transport and the strategy are part of the world [W]; the
    exchange is a parameter here (Linked.v instantiates it), as are the
    admission queue (Admission.v), the receipts (Response.v) and the claim of an
    upgrade (Upgrade.v). *)

From Stdlib Require Import ZArith Lia.
From stdpp Require Import base list option.
From S2P Require Import Prelude Http Errors Upgrade Connection Response Syntax Decode Scan Body Encode Send Incoming Recv Exchange Config Heads Scenario Driver.

Record ConnectionParts (R Wr : Type) := mkParts {
  parts_reader : R;
  parts_writer : Wr;
  parts_read_ahead : bytes;
}.
Arguments mkParts {R Wr} _ _ _.
Arguments parts_reader {R Wr} _.
Arguments parts_writer {R Wr} _.
Arguments parts_read_ahead {R Wr} _.

Inductive ConnectionOutcome (R Wr : Type) : Type :=
| ConnectionClosed
| ConnectionUpgraded (u : Upgraded R Wr)
| UpgradeClaimed (k : UpgradeKind)
| Recovered (parts : ConnectionParts R Wr).
Arguments ConnectionClosed {R Wr}.
Arguments ConnectionUpgraded {R Wr} u.
Arguments UpgradeClaimed {R Wr} k.
Arguments Recovered {R Wr} parts.

(** What a session calls. A job [J] carries its request, its receipt and its
    upgrade claim. *)
Class ClientHost (W J R Wr : Type) := {
  (** [requests.next().await] *)
  next_job : W -> W * option J;
  (** [requests.release()]: whether admission is still open *)
  release : W -> W * bool;
  (** [drop(requests)] *)
  drop_requests : W -> W;
  (** [exchange(..).await] borrows the parser; [None]: it does not end *)
  run_exchange : W -> HeadParser -> J -> RecvBuffer -> W * HeadParser * option (call (result SettledExchange Error));
  (** [completion.finish(..)] *)
  finish_receipt : W -> J -> result ExchangeOutcome Error -> W;
  (** [upgrade.fulfill(..)] *)
  fulfill_upgrade : W -> J -> Upgraded R Wr -> W * result UpgradeKind (Upgraded R Wr);
  (** the settled halves *)
  read_half : W -> R;
  write_half : W -> Wr;
  conn_stopping : W -> bool;
  conn_recovering : W -> bool;
}.

Section Session.
Context {alloc : BytesAllocator} {W J R Wr : Type} `{Runtime W} `{AsyncWrite W} `{!ClientHost W J R Wr}.
Context (tls : bool) (config : ClientConfig).

Definition unsolicited : Error := Error_new InvalidMessage "unsolicited data after completed HTTP response".

(** The receipt of the active job and what it will say. *)
Definition Terminal : Type := option (J * ExchangeOutcome).

Inductive LoopEnd : Type :=
| LoopHanded (outcome : ConnectionOutcome R Wr)
| LoopStopped (buffer : RecvBuffer) (can_recover : bool).

(** The [while] loop; [None] is a model run out of turns. *)
Fixpoint jobs_loop (fuel : nat) (w : W) (parser : HeadParser) (buffer : RecvBuffer) (budget : WorkBudget)
    : W * Terminal * option (call (result LoopEnd Error)) :=
  match fuel with
  | O => (w, None, None)
  | S fuel =>
      let '(w, job) := next_job w in
      match job with
      | None => (w, None, Some (Returns (Ok (LoopStopped buffer true))))
      | Some job =>
          let '(budget, w) := budget_step budget w in
          let '(w, parser, settled) := run_exchange w parser job buffer in
          match settled with
          | None => (w, Some (job, ExchangeClosed MessagePolicy), None)
          | Some Panics => (w, Some (job, ExchangeClosed MessagePolicy), Some Panics)
          | Some (Returns (Err e)) => (w, Some (job, ExchangeClosed MessagePolicy), Some (Returns (Err e)))
          | Some (Returns (Ok (mkSettledExchange buffer outcome close_reason))) =>
              match outcome with
              | OutcomeHandoff k =>
                  let w := drop_requests w in
                  let u := mkUpgraded (read_half w) (write_half w) (snd (take_all buffer)) k in
                  let '(w, claimed) := fulfill_upgrade w job u in
                  (w, Some (job, Upgraded_ k),
                   Some (Returns (Ok (LoopHanded (match claimed with Ok k => UpgradeClaimed k | Err u => ConnectionUpgraded u end)))))
              | OutcomeClose =>
                  (w, Some (job, ExchangeClosed close_reason),
                   Some (Returns (Ok (LoopStopped buffer
                     (match close_reason with BodyAbandonment | UploadAbort => false | _ => true end)))))
              | OutcomeReusable =>
                  if negb (bool_decide (recv_bytes buffer = [])) then
                    (w, Some (job, ExchangeClosed MessagePolicy), Some (Returns (Err unsolicited)))
                  else
                    let '(w, released) := release w in
                    if negb released then
                      (w, Some (job, ExchangeClosed (if conn_stopping w then ShutdownClose else ApplicationClosure)),
                       Some (Returns (Ok (LoopStopped buffer true))))
                    else jobs_loop fuel (finish_receipt w job (Ok Response.Reusable)) parser buffer budget
              end
          end
      end
  end.

(** The connection's parser of response heads. *)
Definition client_parser : HeadParser :=
  Scan.with_preserved_header_case (HeadParser_with_limits (head_limits (protocol (client_settings config))))
    (Config.preserve_header_case (protocol (client_settings config))).

Definition run_inner (fuel : nat) (w : W) : W * Terminal * option (call (result (ConnectionOutcome R Wr) Error)) :=
  let settings := client_settings config in
  match RecvBuffer_new (Config.preferred_read settings) (Config.max_retained settings) with
  | Err e => (w, None, Some (Returns (Err e)))
  | Ok buffer =>
      let '(w, terminal, ended) := jobs_loop fuel w client_parser buffer WorkBudget_new in
      match ended with
      | None => (w, terminal, None)
      | Some Panics => (w, terminal, Some Panics)
      | Some (Returns (Err e)) => (drop_requests w, terminal, Some (Returns (Err e)))
      | Some (Returns (Ok (LoopHanded outcome))) => (w, terminal, Some (Returns (Ok outcome)))
      | Some (Returns (Ok (LoopStopped buffer can_recover))) =>
          let w := drop_requests w in
          if conn_recovering w && can_recover then
            (w, terminal, Some (Returns (Ok (Recovered (mkParts (read_half w) (write_half w) (snd (take_all buffer)))))))
          else
            let '(w, shut) := aw_shutdown w in
            (w, terminal, Some (Returns (match shut with Err e => Err (from_io tls e) | Ok _ => Ok ConnectionClosed end)))
      end
  end.

(** The last receipt follows what the driver reports. *)
Definition publish_terminal (w : W) (terminal : Terminal) (r : result (ConnectionOutcome R Wr) Error)
    : W * result (ConnectionOutcome R Wr) Error :=
  match terminal with
  | Some (job, outcome) =>
      match r with
      | Ok x => (finish_receipt w job (Ok outcome), Ok x)
      | Err e =>
          let '(driver, receipt) := Error_split e in
          (finish_receipt w job (Err receipt), Err driver)
      end
  | None => (w, r)
  end.

(** [run]: [aborted] is the kind [drive] was asked to abort with. *)
Definition run (fuel : nat) (aborted : W -> option ErrorKind) (w : W) : W * option (call (result (ConnectionOutcome R Wr) Error)) :=
  let '(w, terminal, inner) := run_inner fuel w in
  match inner with
  | None => (w, None)
  | Some Panics => (w, Some Panics)
  | Some (Returns r) =>
      let '(w, r) := publish_terminal w terminal (drive_result (aborted w) r) in
      (w, Some (Returns r))
  end.

End Session.

(** ** Receipts *)

(** Documented behaviour of the host: [history] is the jobs admitted and the
    receipts finished, in order. *)
Class SessionLaws (W : Type) {J R Wr : Type} `{Runtime W} `{AsyncWrite W} `{!ClientHost W J R Wr} := {
  admitted : W -> list J;
  receipts : W -> list (J * result ExchangeOutcome Error);
  history w := (admitted w, receipts w);
  law_next w w' j : next_job w = (w', j) -> history w' = (admitted w ++ opt_list j, receipts w);
  law_finish w j r : history (finish_receipt w j r) = (admitted w, receipts w ++ [(j, r)]);
  law_session_yield w : history (rt_yield w) = history w;
  law_release w : history (fst (release w)) = history w;
  law_drop_requests w : history (drop_requests w) = history w;
  law_exchange w p j b : history (fst (fst (run_exchange w p j b))) = history w;
  law_fulfill w j u : history (fst (fulfill_upgrade w j u)) = history w;
  law_shutdown w : history (fst (aw_shutdown w)) = history w;
}.

Section Receipts.
Context {alloc : BytesAllocator} {W J R Wr : Type} `{Runtime W} `{AsyncWrite W} `{!ClientHost W J R Wr} `{!SessionLaws W}.
Context (tls : bool) (config : ClientConfig).

Definition reusable (j : J) : J * result ExchangeOutcome Error := (j, Ok Response.Reusable).

(** Since [w], the jobs [js] were settled as reusable and [t] is active. *)
Definition served (w w' : W) (js : list J) (t : option J) : Prop :=
  admitted w' = admitted w ++ js ++ opt_list t /\ receipts w' = receipts w ++ map reusable js.

Lemma served_keeps w w1 w' js t : history w' = history w1 -> served w w1 js t -> served w w' js t.
Proof. unfold history, served. intros [= -> ->]. done. Qed.

Definition loop_ended (t : @Terminal J) : Prop :=
  match t with Some (_, o) => o <> Response.Reusable | None => True end.

Lemma jobs_loop_served fuel (w : W) p b budget w' t r :
  jobs_loop fuel w p b budget = (w', t, r) -> (exists js, served w w' js (option_map fst t)) /\ loop_ended t.
Proof.
  revert w p b budget. induction fuel as [|fuel IH]; intros w p b budget; simpl.
  { intros [= <- <- <-]. split; [|done]. exists []. unfold served. by rewrite !app_nil_r. }
  destruct (next_job w) as [w1 [job|]] eqn:Ej; apply law_next in Ej.
  2: { intros [= <- <- <-]. split; [|done]. exists []. injection Ej as Ha Hr. unfold served. by rewrite Ha, Hr, !app_nil_r. }
  assert (history (snd (budget_step budget w1)) = history w1) as Hb.
  { unfold budget_step. destruct (budget =? 0); [apply law_session_yield|done]. }
  destruct (budget_step budget w1) as [budget2 w2]. simpl in Hb. rewrite Ej in Hb.
  pose proof (law_exchange w2 p job b) as Hx. destruct (run_exchange w2 p job b) as [[w3 p3] x]. simpl in Hx. rewrite Hb in Hx.
  assert (Hend : forall w4 o, history w4 = history w3 -> exists js, served w w4 js (option_map fst (Some (job, o : ExchangeOutcome)))).
  { intros w4 o H4. exists []. rewrite Hx in H4. injection H4 as Ha Hr. unfold served. by rewrite Ha, Hr, app_nil_r. }
  destruct x as [[[[buffer outcome reason]|e]|]|]; [|intros [= <- <- <-]; split; [by apply Hend|done]..].
  destruct outcome as [| |k].
  - destruct (negb _); [intros [= <- <- <-]; split; [by apply Hend|done]|].
    pose proof (law_release w3) as Hrel. destruct (release w3) as [w4 released]. simpl in Hrel.
    destruct released; simpl; [|intros [= <- <- <-]; split; [by apply Hend|done]].
    intros [[js [Ha Hr]] Hl]%IH. split; [|done]. exists (job :: js). pose proof (law_finish w4 job (Ok Response.Reusable)) as Hf.
    rewrite Hx in Hrel. injection Hrel as Ha4 Hr4. injection Hf as Haf Hrf. unfold served.
    rewrite Ha, Hr, Haf, Hrf, Ha4, Hr4, <- !app_assoc. done.
  - intros [= <- <- <-]. split; [by apply Hend|done].
  - pose proof (law_drop_requests w3) as Hd.
    match goal with |- context [fulfill_upgrade ?a ?j ?u] =>
      pose proof (law_fulfill a j u) as Hf; destruct (fulfill_upgrade a j u) as [w5 claimed] end.
    simpl in Hf. intros [= <- <- <-]. split; [apply Hend; congruence|done].
Qed.

Lemma run_inner_served fuel (w : W) w' t r : run_inner tls config fuel w = (w', t, r) ->
  (exists js, served w w' js (option_map fst t)) /\ loop_ended t.
Proof.
  unfold run_inner. destruct (RecvBuffer_new _ _) as [b|e].
  2: { intros [= <- <- <-]. split; [|done]. exists []. unfold served. by rewrite !app_nil_r. }
  destruct (jobs_loop fuel w (client_parser config) b WorkBudget_new) as [[w1 t1] ended] eqn:El.
  apply jobs_loop_served in El as [[js Hs] Hl].
  assert (Hdone : forall w2, history w2 = history w1 -> (exists js, served w w2 js (option_map fst t1)) /\ loop_ended t1).
  { intros w2 H2. split; [exists js; by eapply served_keeps|done]. }
  pose proof (law_drop_requests w1) as Hd.
  destruct ended as [[[[o|b1 can]|e]|]|]; [intros [= <- <- <-]; by apply Hdone| |intros [= <- <- <-]; by apply Hdone..].
  destruct (_ && can); [intros [= <- <- <-]; by apply Hdone|].
  pose proof (law_shutdown (drop_requests w1)) as Hs2. destruct (aw_shutdown (drop_requests w1)) as [w3 shut]. simpl in Hs2.
  intros [= <- <- <-]. apply Hdone. congruence.
Qed.

(** C9: Every admitted request gets exactly one receipt, in order. When a
    client connection ends, the jobs it took from admission are answered one
    each in the order they were taken; all but the last say that the connection
    was reusable, so no job follows an exchange that closed, upgraded or failed;
    and the last job, when it was not settled as reusable, is told what the
    driver itself reports: the failure, or how the connection left HTTP. *)
Theorem run_receipts fuel aborted (w : W) w' r :
  run tls config fuel aborted w = (w', Some (Returns r)) ->
  exists js last,
    admitted w' = admitted w ++ js ++ opt_list (option_map fst last) /\
    receipts w' = receipts w ++ map reusable js ++ opt_list last /\
    match last with
    | Some (_, told) => match r with Ok _ => exists o, told = Ok o /\ o <> Response.Reusable | Err e => told = Err e end
    | None => True
    end.
Proof.
  unfold run. destruct (run_inner tls config fuel w) as [[w1 t] inner] eqn:Ei.
  apply run_inner_served in Ei as [[js [Ha Hr]] Ho]. destruct inner as [[r0|]|]; [|done..].
  destruct (publish_terminal w1 t _) as [w2 r2] eqn:Ep. intros [= <- <-]. unfold publish_terminal in Ep.
  destruct t as [[job outcome]|]; simpl in Ha.
  2: { injection Ep as <- <-. exists js, None. simpl in *. rewrite app_nil_r in Ha. by rewrite !app_nil_r. }
  assert (Hend : forall told,
    admitted (finish_receipt w1 job told) = admitted w ++ js ++ opt_list (option_map fst (Some (job, told))) /\
    receipts (finish_receipt w1 job told) = receipts w ++ map reusable js ++ opt_list (Some (job, told))).
  { intros told. pose proof (law_finish w1 job told) as Hf. injection Hf as -> ->. by rewrite Ha, Hr, <- app_assoc. }
  destruct (drive_result (aborted w1) r0) as [x|e]; injection Ep as <- <-; eexists js, (Some (job, _)); (split_and!; [apply Hend..|]).
  - by exists outcome.
  - done.
Qed.

(** A session ends when its jobs do. *)
Section Finite.
Context (left : W -> nat).
Context (Hnext : forall w w' j, next_job w = (w', Some j) -> (left w' < left w)%nat).
Context (Hyield : forall w, (left (rt_yield w) <= left w)%nat) (Hexchange : forall w p j b, (left (fst (fst (run_exchange w p j b))) <= left w)%nat).
Context (Hanswers : forall w p j b, is_Some (snd (run_exchange w p j b))).
Context (Hrelease : forall w, (left (fst (release w)) <= left w)%nat) (Hfinish : forall w j r, (left (finish_receipt w j r) <= left w)%nat).

Lemma jobs_loop_total fuel (w : W) p b budget : (left w < fuel)%nat -> is_Some (snd (jobs_loop fuel w p b budget)).
Proof using Hnext Hyield Hexchange Hanswers Hrelease Hfinish.
  revert w p b budget. induction fuel as [|fuel IH]; intros w p b budget Hf; simpl; [lia|].
  destruct (next_job w) as [w1 [job|]] eqn:Ej; [|by eexists]. apply Hnext in Ej.
  assert (left (snd (budget_step budget w1)) <= left w1)%nat as Hb.
  { unfold budget_step. destruct (budget =? 0); [apply Hyield|done]. }
  destruct (budget_step budget w1) as [budget2 w2]. simpl in Hb.
  pose proof (Hexchange w2 p job b) as Hx. pose proof (Hanswers w2 p job b) as [a Ha].
  destruct (run_exchange w2 p job b) as [[w3 p3] x]. simpl in Hx, Ha. subst x. destruct a as [[[buffer [| |k] reason]|e]|]; [| |
    match goal with |- context [fulfill_upgrade ?a ?j ?u] => destruct (fulfill_upgrade a j u) end; by eexists|by eexists..].
  - destruct (negb _); [by eexists|]. pose proof (Hrelease w3) as Hrel. destruct (release w3) as [w4 []]; simpl in *; [|by eexists].
    apply IH. specialize (Hfinish w4 job (Ok Response.Reusable)). lia.
  - by eexists.
Qed.

(** A client connection ends when its jobs do: after finitely many jobs,
    its driver returns, whatever each exchange answers. *)
Theorem run_total fuel aborted (w : W) : (left w < fuel)%nat -> is_Some (snd (run tls config fuel aborted w)).
Proof using Hnext Hyield Hexchange Hanswers Hrelease Hfinish.
  intros Hf. unfold run, run_inner. destruct (RecvBuffer_new _ _) as [b|e]; [|by eexists].
  pose proof (jobs_loop_total fuel w (client_parser config) b WorkBudget_new Hf) as [x Hx].
  destruct (jobs_loop fuel w (client_parser config) b WorkBudget_new) as [[w1 t] ended]. simpl in Hx. subst ended.
  destruct x as [[[o|b1 can]|e]|]; [|destruct (_ && can); [|destruct (aw_shutdown _) as [w3 shut]]| |by eexists];
    match goal with |- context [publish_terminal ?a ?t ?r] => destruct (publish_terminal a t r); by eexists end.
Qed.

End Finite.

End Receipts.

(** ** Conversations

    What a connection put on the wire and took from it, what the observers of
    its responses took, and the frames of their bodies. *)
Record Transcript (Ev Fr : Type) := mkTranscript {
  ts_sent : bytes;
  ts_got : bytes;
  ts_events : list Ev;
  ts_frames : list Fr;
}.
Arguments mkTranscript {Ev Fr} _ _ _ _.
Arguments ts_sent {Ev Fr} _.
Arguments ts_got {Ev Fr} _.
Arguments ts_events {Ev Fr} _.
Arguments ts_frames {Ev Fr} _.

Declare Scope transcript_scope.
Delimit Scope transcript_scope with transcript.

Section Transcripts.
Context {Ev Fr : Type}.

Definition silence : Transcript Ev Fr := mkTranscript [] [] [] [].

Definition transcript_app (a b : Transcript Ev Fr) : Transcript Ev Fr :=
  mkTranscript (ts_sent a ++ ts_sent b) (ts_got a ++ ts_got b) (ts_events a ++ ts_events b) (ts_frames a ++ ts_frames b).

(** Bytes read but not used. *)
Definition unused (b : bytes) : Transcript Ev Fr := mkTranscript [] b [] [].

Definition transcripts (ts : list (Transcript Ev Fr)) : Transcript Ev Fr := foldr transcript_app silence ts.

Lemma transcript_app_assoc a b c : transcript_app a (transcript_app b c) = transcript_app (transcript_app a b) c.
Proof. unfold transcript_app. simpl. by rewrite !app_assoc. Qed.

Lemma transcript_app_silence a : transcript_app a silence = a.
Proof. destruct a. unfold transcript_app. simpl. by rewrite !app_nil_r. Qed.

Lemma silence_app a : transcript_app silence a = a.
Proof. by destruct a. Qed.

End Transcripts.

Infix "+++" := transcript_app (right associativity, at level 60) : transcript_scope.

(** Documented behaviour of what a connection calls, as far as it is heard:
    only an exchange talks, and one that leaves the connection usable is a whole
    exchange of its job, with what was read beyond it still in the buffer. *)
Class ConversationLaws (W : Type) (p0 : HeadParser) {J R Wr Ev Fr : Type} `{Runtime W} `{AsyncWrite W} `{!ClientHost W J R Wr} := {
  transcript : W -> Transcript Ev Fr;
  exchange_of : J -> Transcript Ev Fr -> Prop;
  law_heard_next w : transcript (fst (next_job w)) = transcript w;
  law_heard_finish w j r : transcript (finish_receipt w j r) = transcript w;
  law_heard_yield w : transcript (rt_yield w) = transcript w;
  law_heard_release w : transcript (fst (release w)) = transcript w;
  law_heard_drop w : transcript (drop_requests w) = transcript w;
  law_heard_shutdown w : transcript (fst (aw_shutdown w)) = transcript w;
  law_heard_fulfill w j u w' r : fulfill_upgrade w j u = (w', r) ->
    transcript w' = transcript w /\ match r with Err u' => u' = u | Ok _ => True end;
  law_heard_exchange w j b w' p' r : wf_recv b -> recv_bytes b = [] -> run_exchange w (fresh p0) j b = (w', p', r) ->
    exists t, transcript w' = (transcript w +++ t)%transcript /\
      forall x, r = Some (Returns (Ok x)) -> se_outcome x <> OutcomeClose ->
        wf_recv (se_buffer x) /\ p' = fresh p0 /\
        exists m, t = (m +++ unused (recv_bytes (se_buffer x)))%transcript /\ exchange_of j m;
}.

Section Conversation.
Context {alloc : BytesAllocator} {W J R Wr Ev Fr : Type} `{Runtime W} `{AsyncWrite W} `{!ClientHost W J R Wr} `{!SessionLaws W}.
Context (tls : bool) (config : ClientConfig) `{!ConversationLaws (Ev := Ev) (Fr := Fr) W (client_parser config)}.
#[local] Open Scope transcript_scope.

(** Since [w], the jobs [js] had the exchanges [ts], and [t] is what was heard
    of the job [last]. *)
Definition conversed (w w' : W) (js : list J) (ts : list (Transcript Ev Fr)) (last : option J) (t : Transcript Ev Fr) : Prop :=
  admitted w' = admitted w ++ js ++ opt_list last /\ Forall2 exchange_of js ts /\
  transcript w' = transcript w +++ transcripts ts +++ t /\ (last = None -> t = silence).

(** A transport that was handed over begins after the exchange that led to it. *)
Definition handed_over (o : ConnectionOutcome R Wr) (last : option J) (t : Transcript Ev Fr) : Prop :=
  match o with
  | ConnectionUpgraded u => exists j m, last = Some j /\ exchange_of j m /\ t = m +++ unused (read_ahead u)
  | _ => True
  end.

Definition loop_conversed (w w' : W) (last : option J) (r : option (call (result (@LoopEnd R Wr) Error))) : Prop :=
  exists js ts t, conversed w w' js ts last t /\
    match r with Some (Returns (Ok (LoopHanded o))) => handed_over o last t | _ => True end.

Lemma conversed_same w w1 w' js ts last t :
  admitted w' = admitted w1 -> transcript w' = transcript w1 -> conversed w w1 js ts last t -> conversed w w' js ts last t.
Proof. unfold conversed. by intros -> ->. Qed.

(** The exchange of one job, and nothing after it. *)
Lemma conversed_one (w w' : W) job t : admitted w' = admitted w ++ [job] -> transcript w' = transcript w +++ t ->
  conversed w w' [] [] (Some job) t.
Proof. intros Ha Ht. unfold conversed. rewrite Ha, Ht. simpl. by rewrite silence_app. Qed.

(** One whole exchange, and what follows it. *)
Lemma loop_conversed_more (w w1 w' : W) job m last r : admitted w1 = admitted w ++ [job] -> transcript w1 = transcript w +++ m ->
  exchange_of job m -> loop_conversed w1 w' last r -> loop_conversed w w' last r.
Proof.
  intros Ha Ht Hm (js & ts & t & (Ha' & Hf & Ht' & Hn) & Hr). exists (job :: js), (m :: ts), t. split; [|done].
  unfold conversed. rewrite Ha', Ht', Ha, Ht, <- !app_assoc. simpl. split_and!; [done|by constructor|by rewrite <- !transcript_app_assoc|done].
Qed.

Lemma jobs_loop_conversed fuel (w : W) b budget w' t r :
  wf_recv b -> recv_bytes b = [] -> jobs_loop fuel w (fresh (client_parser config)) b budget = (w', t, r) ->
  loop_conversed w w' (option_map fst t) r.
Proof.
  assert (Hstop : forall (w w' : W) r, admitted w' = admitted w -> transcript w' = transcript w ->
    match r with Some (Returns (Ok (LoopHanded _))) => False | _ => True end -> loop_conversed w w' None r).
  { intros v v' r0 Ha Ht Hr. exists [], [], silence. unfold conversed. simpl. rewrite app_nil_r, transcript_app_silence.
    split_and!; [done|done|by rewrite transcript_app_silence|done|]. by destruct r0 as [[[[]|]|]|]. }
  revert w b budget. induction fuel as [|fuel IH]; intros w b budget Hb Hnil; simpl; [intros [= <- <- <-]; by apply Hstop|].
  pose proof (law_heard_next w) as Hj. destruct (next_job w) as [w1 [job|]] eqn:Ej; apply law_next in Ej; simpl in Hj;
    injection Ej as Ha _; [|rewrite app_nil_r in Ha; intros [= <- <- <-]; by apply Hstop].
  assert (admitted (snd (budget_step budget w1)) = admitted w1 /\ transcript (snd (budget_step budget w1)) = transcript w1) as [Ha2 Ht2].
  { unfold budget_step. destruct (budget =? 0); [|done]. simpl. pose proof (law_session_yield w1) as Hy. injection Hy as -> _.
    split; [done|apply law_heard_yield]. }
  destruct (budget_step budget w1) as [budget2 w2]. simpl in Ha2, Ht2. rewrite Ha in Ha2. rewrite Hj in Ht2.
  pose proof (law_exchange w2 (fresh (client_parser config)) job b) as Hx.
  destruct (run_exchange w2 (fresh (client_parser config)) job b) as [[w3 p3] x] eqn:Ex. injection Hx as Ha3 _. simpl in Ha3. rewrite Ha2 in Ha3.
  apply law_heard_exchange in Ex as (heard & Ht3 & Hx); [|done..]. rewrite Ht2 in Ht3.
  assert (Hend : forall (w4 : W) r, admitted w4 = admitted w3 -> transcript w4 = transcript w3 ->
    match r with Some (Returns (Ok (LoopHanded o))) => handed_over o (Some job) heard | _ => True end ->
    loop_conversed w w4 (Some job) r).
  { intros w4 r0 Ha4 Ht4 Hr. exists [], [], heard. split; [|done]. apply conversed_one; congruence. }
  destruct x as [[[[buffer outcome reason]|e]|]|]; [|intros [= <- <- <-]; by apply Hend..].
  specialize (Hx _ eq_refl). simpl in Hx. destruct outcome as [| |k].
  - destruct Hx as (Hwf & -> & m & Hheard & Hm); [done|]. destruct (bool_decide _) eqn:Enil; simpl;
      [apply bool_decide_eq_true in Enil|intros [= <- <- <-]; by apply Hend].
    pose proof (law_release w3) as Hrel. pose proof (law_heard_release w3) as Hrel'. injection Hrel as Ha4 _.
    destruct (release w3) as [w4 [|]]; simpl in *; [|intros [= <- <- <-]; by apply Hend].
    intros Hloop. apply IH in Hloop; [|done..]. revert Hloop. pose proof (law_finish w4 job (Ok Response.Reusable)) as Hf. injection Hf as Hf _.
    apply (loop_conversed_more _ _ _ job m); [congruence| |done].
    rewrite law_heard_finish, Hrel', Ht3, Hheard, Enil. unfold unused. fold (@silence Ev Fr). by rewrite transcript_app_silence.
  - intros [= <- <- <-]. by apply Hend.
  - destruct Hx as (_ & _ & m & Hheard & Hm); [done|]. pose proof (law_drop_requests w3) as Hd. injection Hd as Hd _.
    match goal with |- context [fulfill_upgrade ?a ?j ?u] => pose proof (law_fulfill a j u) as Hf;
      destruct (fulfill_upgrade a j u) as [w5 claimed] eqn:Ef end.
    apply law_heard_fulfill in Ef as [Ht5 Hu]. rewrite law_heard_drop in Ht5. injection Hf as Ha5 _. simpl in Ha5.
    intros [= <- <- <-]. apply Hend; [congruence|done|]. destruct claimed as [k'|u]; [done|]. subst u. by exists job, m.
Qed.

(** What was heard of a connection; [final] is the receipt of its last job. *)
Definition heard (w w' : W) (r : option (call (result (ConnectionOutcome R Wr) Error))) : Prop :=
  exists js ts last t final, conversed w w' js ts last t /\
    receipts w' = receipts w ++ map reusable js ++ opt_list final /\
    (forall j told, final = Some (j, told) -> last = Some j /\ told <> Ok Response.Reusable) /\
    match r with Some (Returns (Ok o)) => handed_over o last t | _ => True end.

(** The loop of [run_inner] is over. *)
Definition loop_heard (w w' : W) (terminal : @Terminal J) (r : option (call (result (ConnectionOutcome R Wr) Error))) : Prop :=
  loop_ended terminal /\ exists js ts t, conversed w w' js ts (option_map fst terminal) t /\
    receipts w' = receipts w ++ map reusable js /\
    match r with Some (Returns (Ok o)) => handed_over o (option_map fst terminal) t | _ => True end.

Lemma loop_heard_same w w1 w' terminal r r' : history w' = history w1 -> transcript w' = transcript w1 ->
  match r' with Some (Returns (Ok (ConnectionUpgraded _))) => r' = r | _ => True end ->
  loop_heard w w1 terminal r -> loop_heard w w' terminal r'.
Proof.
  intros [= Ha Hr] Ht Hr' (Hl & js & ts & t & Hc & Hrec & Ho). split; [done|]. exists js, ts, t.
  split_and!; [by eapply conversed_same|congruence|]. destruct r' as [[[[]|]|]|]; try done. by subst r.
Qed.

Lemma published_heard aborted (w w2 w' : W) terminal r0 r : loop_heard w w2 terminal (Some (Returns r0)) ->
  publish_terminal w2 terminal (drive_result aborted r0) = (w', r) -> heard w w' (Some (Returns r)).
Proof.
  intros (Hl & js & ts & t & Hc & Hr & Ho) Hp. exists js, ts, (option_map fst terminal), t.
  assert (Hd : match drive_result aborted r0 with Ok o => handed_over o (option_map fst terminal) t | Err _ => True end).
  { destruct aborted; simpl; [|by destruct r0]. destruct r0; [done|by destruct (negb _)]. }
  unfold publish_terminal in Hp. destruct terminal as [[job outcome]|].
  2: { injection Hp as <- <-. exists None. rewrite app_nil_r. split_and!; try done. }
  assert (Hfinish : forall told, told <> Ok Response.Reusable -> conversed w (finish_receipt w2 job told) js ts (Some job) t /\
    receipts (finish_receipt w2 job told) = receipts w ++ map reusable js ++ [(job, told)] /\
    forall j told', Some (job, told) = Some (j, told') -> Some job = Some j /\ told' <> Ok Response.Reusable).
  { intros told Hne. pose proof (law_finish w2 job told) as Hf. injection Hf as Hfa Hfr. rewrite Hfr, Hr, <- app_assoc.
    split_and!; [|done|by intros ? ? [= <- <-]]. apply (conversed_same _ w2); [done|apply law_heard_finish|done]. }
  destruct (drive_result aborted r0) as [o|e]; injection Hp as <- <-.
  - exists (Some (job, Ok outcome)). destruct (Hfinish (Ok outcome)) as (? & ? & ?); [simpl in Hl; congruence|]. by split_and!.
  - eexists (Some (job, Err _)). destruct (Hfinish (Err (snd (Error_split e)))) as (? & ? & ?); [done|]. by split_and!.
Qed.

Lemma run_inner_heard fuel (w : W) w' t r :
  is_usize (Config.max_retained (client_settings config)) -> 0 <= Config.preferred_read (client_settings config) ->
  run_inner tls config fuel w = (w', t, r) -> loop_heard w w' t r.
Proof.
  intros Hm Hp. unfold run_inner. destruct (RecvBuffer_new _ _) as [b|e] eqn:Eb.
  2: { intros [= <- <- <-]. split; [done|]. exists [], [], silence. unfold conversed. simpl. by rewrite !app_nil_r, !transcript_app_silence. }
  apply (fresh_buffer_wf w) in Eb as [Hb Hnil]; [|done..].
  destruct (jobs_loop fuel w (client_parser config) b WorkBudget_new) as [[w1 t1] ended] eqn:El.
  pose proof El as [[js0 [Ha0 Hr0]] Hl]%jobs_loop_served. apply jobs_loop_conversed in El as (js & ts & t0 & Hc & Hh); [|done..].
  assert (js0 = js) as ->.
  { destruct Hc as (Ha & _). rewrite Ha0 in Ha. apply app_inv_head in Ha. by apply app_inv_tail in Ha. }
  assert (loop_heard w w1 t1 (match ended with Some (Returns (Ok (LoopHanded o))) => Some (Returns (Ok o)) | _ => None end)) as Hloop.
  { split; [done|]. exists js, ts, t0. split_and!; [done..|]. by destruct ended as [[[[]|]|]|]. }
  pose proof (law_drop_requests w1) as Hd. pose proof (law_heard_drop w1) as Hd'.
  destruct ended as [[[[o|b1 can]|e]|]|]; [by intros [= <- <- <-]| |intros [= <- <- <-]; by eapply loop_heard_same; [| | |exact Hloop]..].
  destruct (_ && can); [intros [= <- <- <-]; by eapply loop_heard_same; [| | |exact Hloop]|].
  pose proof (law_shutdown (drop_requests w1)) as Hs. pose proof (law_heard_shutdown (drop_requests w1)) as Hs'.
  destruct (aw_shutdown (drop_requests w1)) as [w3 shut]. simpl in Hs, Hs'. intros [= <- <- <-].
  eapply loop_heard_same; [| | |exact Hloop]; [congruence..|by destruct shut].
Qed.

Lemma run_heard fuel aborted (w : W) w' r :
  is_usize (Config.max_retained (client_settings config)) -> 0 <= Config.preferred_read (client_settings config) ->
  run tls config fuel aborted w = (w', r) -> heard w w' r.
Proof.
  intros Hm Hp. unfold run. destruct (run_inner tls config fuel w) as [[w1 t] inner] eqn:Ei. apply run_inner_heard in Ei; [|done..].
  destruct inner as [[r0|]|].
  1: { destruct (publish_terminal w1 t _) as [w2 r2] eqn:Ep. intros [= <- <-]. by eapply published_heard. }
  all: intros [= <- <-]; destruct Ei as (_ & js & ts & t0 & Hc & Hr & _); exists js, ts, (option_map fst t), t0, None; by rewrite app_nil_r.
Qed.

End Conversation.

(** ** Evaluated: a reusable exchange, then one that closes *)

Section Evaluated.
#[local] Existing Instance World_Allocator.

(** The answers of the exchanges to come, by job. *)
Record Jobs := mkJobs {
  queue : list (nat * result SettledExchange Error);
  jobs_admitted : list (nat * result SettledExchange Error);
  jobs_told : list (nat * result SettledExchange Error * result ExchangeOutcome Error);
}.

#[local] Instance Jobs_Runtime : Runtime Jobs := {
  rt_yield w := w;
  rt_cancel_requested _ := false;
  operation_canceled := mkIoError IoOther false true None;
}.

#[local] Instance Jobs_AsyncWrite : AsyncWrite Jobs := {
  aw_write w b := (w, Ok (zlen b));
  aw_write_vectored w bs := (w, Ok (zlen (concat bs)));
  aw_flush w := (w, Ok tt);
  aw_shutdown w := (w, Ok tt);
  vec_slice bs n := [zdrop n (concat bs)];
}.

#[local] Instance Jobs_host : ClientHost Jobs (nat * result SettledExchange Error) unit unit := {
  next_job w :=
    match queue w with
    | [] => (w, None)
    | j :: q => (mkJobs q (jobs_admitted w ++ [j]) (jobs_told w), Some j)
    end;
  release w := (w, true);
  drop_requests w := mkJobs [] (jobs_admitted w) (jobs_told w);
  run_exchange w p j _ := (w, p, Some (Returns (snd j)));
  finish_receipt w j r := mkJobs (queue w) (jobs_admitted w) (jobs_told w ++ [(j, r)]);
  fulfill_upgrade w _ u := (w, Err u);
  read_half _ := tt;
  write_half _ := tt;
  conn_stopping _ := false;
  conn_recovering _ := false;
}.

#[local] Instance Jobs_laws : SessionLaws Jobs.
Proof.
  refine {| admitted := jobs_admitted; receipts := jobs_told |}; try done.
  intros w w' j. unfold next_job, Jobs_host. destruct (queue w) as [|j0 q]; intros [= <- <-]; simpl; [by rewrite app_nil_r|done].
Defined.

Definition empty_buffer : RecvBuffer := scenario_buffer.

Definition reusable_job : nat * result SettledExchange Error := (1%nat, Ok (mkSettledExchange empty_buffer OutcomeReusable MessagePolicy)).
Definition closing_job : nat * result SettledExchange Error := (2%nat, Ok (mkSettledExchange empty_buffer OutcomeClose UploadAbort)).
Definition late_job : nat * result SettledExchange Error := (3%nat, Err unsolicited).

Definition session_start : Jobs := mkJobs [reusable_job; closing_job; late_job] [] [].
Definition session_end : Jobs :=
  mkJobs [] [reusable_job; closing_job] [(reusable_job, Ok Response.Reusable); (closing_job, Ok (ExchangeClosed UploadAbort))].

Definition session_config : ClientConfig :=
  mkClientConfig (mkSettings (mkConfig small_limits DecodeLimits_default (mkEncodeConfig 64 64 false) 4 false) DrainConfig_default
    None None None 64 128) None.

Lemma session_ran : run false session_config 9 (fun _ => None) session_start = (session_end, Some (Returns (Ok ConnectionClosed))).
Proof. vm_compute. reflexivity. Qed.

Lemma run_receipts_witness :
  exists js last,
    jobs_admitted session_end = [] ++ js ++ opt_list (option_map fst last) /\
    jobs_told session_end = [] ++ map reusable js ++ opt_list last /\
    match last with Some (_, told) => exists o, told = Ok o /\ o <> Response.Reusable | None => True end.
Proof.
  exact (run_receipts false session_config 9 (fun _ => None) session_start session_end (Ok ConnectionClosed) session_ran).
Defined.

Lemma run_total_witness : is_Some (snd (run false session_config 4 (fun _ => Some Canceled) session_start)).
Proof.
  refine (run_total false session_config (fun w => length (queue w)) _ _ _ _ _ _ 4 (fun _ => Some Canceled) session_start _); try done.
  - intros w w' j. unfold next_job, Jobs_host. destruct (queue w) as [|j0 q] eqn:E; [done|]. intros [= <- _]. simpl. lia.
  - vm_compute. lia.
Defined.

End Evaluated.
