(* ===== verification/Server.v ===== *)
(** One server exchange: the activities of src/src/proto/h1/server.rs that read
    a request, run beside the service and write the response, each as its task
    runs it, with [DateCache] and [reply_illegal_head].

    The world [W] holds the transport, the clocks and the request's context
    (Context.v); [ServerClock] is what the [httpdate] crate and [SystemTime] are
    used for. *)

From Stdlib Require Import ZArith Lia.
From stdpp Require Import base list option.
From S2P Require Import Prelude Http Errors Context Syntax Decode Scan Validate Body Encode Pipe Incoming Send Recv.
From S2P Require Import Deadline Receive Transfer Exchange Config Heads Scenario.

(** ** The date field *)

Class ServerClock (W T : Type) := {
  system_now : W -> T;
  (** whole seconds since the epoch, zero before it *)
  second_of : T -> Z;
  fmt_http_date : T -> bytes;
}.

Definition DATE : HeaderName := bs "date".

(** [DateCache]: the second and its value. *)
Definition DateCache : Type := option (Z * HeaderValue).

Definition DateCache_default : DateCache := None.

Section Date.
Context {http : HttpCrate} {W T : Type} `{ServerClock W T}.

(** [Panics] is the [expect] on a formatted date. *)
Definition date_value (cache : DateCache) (w : W) : DateCache * call HeaderValue :=
  let now := system_now w in
  let second := second_of now in
  let fresh :=
    match header_value_from_str (fmt_http_date now) with
    | Some value => (Some (second, value), Returns value)
    | None => (cache, Panics)
    end in
  match cache with
  | Some (cached, value) => if cached =? second then (cache, Returns value) else fresh
  | None => fresh
  end.

(** The dates of a sequence of responses. *)
Fixpoint dates (cache : DateCache) (ws : list W) : list (call HeaderValue) :=
  match ws with
  | [] => []
  | w :: ws => let '(cache, v) := date_value cache w in v :: dates cache ws
  end.

End Date.

(** ** Automatic replies to a head that cannot be accepted *)

Section Reply.
Context {http : HttpCrate} {alloc : Encode.Allocator} {W T : Type} `{ServerClock W T} `{Runtime W} `{AsyncWrite W}.
Context (tls : bool) (config : ServerConfig) (writes : nat).

Definition illegal_status (e : HeadError) : StatusCode := match e with HeadErrorLimit _ => 431 | _ => 400 end.

Definition empty_body : BodyMetadata := mkBodyMetadata (with_exact 0) TrailersNone.

(** The head of the reply, when it can be built. *)
Definition illegal_reply (e : HeadError) (date : DateCache) (w : W) : DateCache * call (option bytes) :=
  let headers := hm_insert hm_new CONNECTION (bs "close") in
  let '(date, headers) :=
    if auto_date config then
      let '(date, value) := date_value date w in (date, map_call (hm_insert headers DATE) value)
    else (date, Returns headers) in
  (date,
   map_call (fun headers =>
     match prepare_response_head (illegal_status e) HTTP_11 headers None empty_body GET
             (encode_config (protocol (server_settings config))) with
     | Ok plan => Some (plan_bytes plan)
     | Err _ => None
     end) headers).

(** The reply is best effort: the error answered is the head's own. *)
Definition reply_illegal_head (w : W) (e : HeadError) (date : DateCache) : W * DateCache * option (call Error) :=
  let failure := Error_from_head e in
  if negb (auto_error_response config) then (w, date, Some (Returns failure))
  else
    let '(date, reply) := illegal_reply e date w in
    match reply with
    | Panics => (w, date, Some Panics)
    | Returns None => (w, date, Some (Returns failure))
    | Returns (Some b) =>
        let '(w, written) := write_all true writes w b in
        match written with
        | None => (w, date, None)
        | Some (Err _) => (w, date, Some (Returns failure))
        | Some (Ok _) =>
            let '(w, flushed) := aw_flush w in
            let w := match flushed with Ok _ => fst (aw_shutdown w) | Err _ => w end in
            (w, date, Some (Returns failure))
        end
    end.

End Reply.

(** ** The final response *)

Record Response {http : HttpCrate} (B : Type) := mkResponse {
  rs_status : StatusCode;
  rs_version : Version;
  rs_headers : HeaderMap;
  rs_header_case : option HeaderMap;
  rs_body : B;
}.
Arguments mkResponse {http B} _ _ _ _ _.
Arguments rs_status {http B} _.
Arguments rs_version {http B} _.
Arguments rs_headers {http B} _.
Arguments rs_header_case {http B} _.
Arguments rs_body {http B} _.

Section WriteResponse.
Context {http : HttpCrate} {alloc : Encode.Allocator} {B D E : Type} `{IoBuf D} `{!Body B D E}.
Context {W T : Type} `{ServerClock W T} `{Runtime W} `{AsyncWrite W} `{Producing W}.
Context (tls : bool) (application : E -> StdError) (config : ServerConfig) (writes : nat).

Definition informational_final : Error :=
  Error_new Unsupported "informational responses and transport handoff require their dedicated APIs".
Definition closing_upgrade : Error := Error_new Upgrade "closing exchange cannot transfer transport ownership".

(** The fields the driver adds. *)
Definition final_headers (close : bool) (date : DateCache) (w : W) (headers : HeaderMap) : DateCache * call HeaderMap :=
  let headers := if close then hm_append headers CONNECTION (bs "close") else headers in
  if auto_date config && negb (hm_contains_key headers DATE) then
    let '(date, value) := date_value date w in (date, map_call (hm_insert headers DATE) value)
  else (date, Returns headers).

(** Everything before the first write. *)
Definition plan_response (response : Response B) (method : Method) (request_version : Version) (close : bool)
    (date : DateCache) (state : ExchangePolicy) (w : W)
    : DateCache * ExchangePolicy * call (result (MessagePlan ValidatedResponseHead * BodyEncoder) Error) :=
  if status_is_informational (rs_status response) && negb (rs_status response =? 101) then
    (date, state, Returns (Err informational_final))
  else
    let '(date, headers) := final_headers close date w (rs_headers response) in
    match headers, size_hint (rs_body response), trailer_hint (rs_body response) with
    | Returns headers, Returns size, Returns trailers =>
        let encoding := encode_config (protocol (server_settings config)) in
        let v := if bool_decide (request_version = HTTP_10) then HTTP_10 else rs_version response in
        let metadata := mkBodyMetadata size trailers in
        match prepare_response_head (rs_status response) v headers (rs_header_case response) metadata method encoding with
        | Err e => (date, state, Returns (Err (Error_from_encode e)))
        | Ok plan =>
            if bool_decide (is_Some (vresp_upgrade (plan_head plan))) && close then
              (date, state, Returns (Err closing_upgrade))
            else
              let '(state, accepted) := sent_response state (plan_head plan) in
              (date, state,
               Returns (let? _ := accepted in
                        let? encoder := map_err Error_from_encode (BodyEncoder_new (vresp_body (plan_head plan)) metadata encoding) in
                        Ok (plan, encoder)))
        end
    | _, _, _ => (date, state, Panics)
    end.

(** [None] is a model run out of turns. *)
Definition write_response (fuel : nat) (w : W) (response : Response B) (method : Method) (request_version : Version)
    (close : bool) (date : DateCache) (state : ExchangePolicy)
    : W * DateCache * ExchangePolicy * option (call (result Persistence Error)) :=
  let '(date, state, planned) := plan_response response method request_version close date state w in
  let answer (w : W) r := (w, date, state, r) in
  match planned with
  | Panics => answer w (Some Panics)
  | Returns (Err e) => answer w (Some (Returns (Err e)))
  | Returns (Ok (plan, encoder)) =>
      let mode := vresp_body (plan_head plan) in
      let '(w, written) := write_all true writes w (plan_bytes plan) in
      match written with
      | None => answer w None
      | Some (Err e) => answer w (Some (Returns (Err (from_io tls e))))
      | Some (Ok _) =>
          let '(w, _, _, sent) :=
            if bool_decide (mode = BodyNone) then (w, rs_body response, encoder, Some (Returns (Ok SendStats_default)))
            else send_body true writes fuel w (rs_body response) encoder in
          match sent with
          | None => answer w None
          | Some Panics => answer w (Some Panics)
          | Some (Returns (Err e)) =>
              answer w (Some (Returns (Err (map_send_error tls application e "response body failed" "response production canceled"))))
          | Some (Returns (Ok _)) =>
              let '(w, flushed) := aw_flush w in
              answer w (Some (Returns (match flushed with
                                       | Err e => Err (from_io tls e)
                                       | Ok _ => Ok (vresp_persistence (plan_head plan))
                                       end)))
          end
      end
  end.

End WriteResponse.

(** ** Informational heads

    The writer's end of the request's context (Context.v), awaited under the
    connection's token: [None] is the cancellation of the wait. *)

Class InformationalReceiver (W R : Type) := {
  info_next : W -> W * option (option (@Command R));
  info_complete : W -> result unit Error -> W;
  info_continued : W -> W;
}.

Section Informationals.
Context {http : HttpCrate} {alloc : Encode.Allocator} {W : Type} `{Runtime W} `{AsyncWrite W}.
Context `{!InformationalReceiver W (Response unit)}.
Context (tls : bool) (config : ServerConfig) (writes : nat) (version : Version).

Definition automatic_continue : Response unit := mkResponse 100 HTTP_11 hm_new None tt.

Definition command_response (c : @Command (Response unit)) : Response unit :=
  match c with Context.Continue => automatic_continue | Application r => r end.

Definition is_automatic (c : @Command (Response unit)) : bool :=
  match c with Context.Continue => true | Application _ => false end.

(** The head of one informational response, [count] having been written. *)
Definition informational_head (count : Z) (r : Response unit) : result bytes Error :=
  if negb (bool_decide (version = HTTP_11)) then Err (Error_new Unsupported "informational responses require HTTP/1.1")
  else if count =? informational_limit (protocol (server_settings config)) then
    Err (with_detail (Error_new Limit "too many informational responses") (OutgoingLimit InformationalResponses))
  else
    let? plan := map_err Error_from_encode
      (prepare_response_head (rs_status r) (rs_version r) (rs_headers r) (rs_header_case r) empty_body GET
         (encode_config (protocol (server_settings config)))) in
    Ok (plan_bytes plan).

(** Writing and flushing one head. *)
Definition write_informational (w : W) (b : bytes) : W * option (result unit Error) :=
  let '(w, written) := write_all true writes w b in
  match written with
  | None => (w, None)
  | Some (Err e) => (w, Some (Err (from_io tls e)))
  | Some (Ok _) => let '(w, flushed) := aw_flush w in (w, Some (map_err (from_io tls) flushed))
  end.

Definition informational_canceled : Error := Error_new Canceled "informational writer canceled".

Fixpoint write_informationals (fuel : nat) (w : W) (count : Z) : W * option (result unit Error) :=
  match fuel with
  | O => (w, None)
  | S fuel =>
      let '(w, next) := info_next w in
      match next with
      | None => (w, Some (Err informational_canceled))
      | Some None => (w, Some (Ok tt))
      | Some (Some command) =>
          match informational_head count (command_response command) with
          | Err e =>
              if negb (is_automatic command) then write_informationals fuel (info_complete w (Err e)) count
              else (w, Some (Err e))
          | Ok head =>
              let '(w, result) := write_informational w head in
              match result with
              | None => (w, None)
              | Some (Err e) =>
                  if negb (is_automatic command) then
                    let '(driver, observer) := Error_split e in
                    (info_complete w (Err observer), Some (Err driver))
                  else (w, Some (Err e))
              | Some (Ok _) =>
                  write_informationals fuel
                    (if is_automatic command then info_continued w else info_complete w (Ok tt)) (count + 1)
              end
          end
      end
  end.

End Informationals.

(** * What goes out *)

Section DateTheorems.
Context {http : HttpCrate} {W T : Type} `{ServerClock W T}.
(** an HTTP date has whole seconds *)
Context (Hdate : forall t t', second_of t = second_of t' -> fmt_http_date t = fmt_http_date t').

Definition date_now (w : W) : call HeaderValue :=
  match header_value_from_str (fmt_http_date (system_now w)) with Some v => Returns v | None => Panics end.

Definition cache_ok (cache : DateCache) : Prop :=
  match cache with
  | Some (second, v) => exists t, second_of t = second /\ header_value_from_str (fmt_http_date t) = Some v
  | None => True
  end.

Lemma date_value_fresh cache (w : W) : cache_ok cache ->
  snd (date_value cache w) = date_now w /\ cache_ok (fst (date_value cache w)).
Proof using Hdate.
  intros Hc. unfold date_value, date_now. destruct cache as [[second v]|]; simpl in Hc.
  - destruct Hc as (t & Ht & Hv). destruct (Z.eqb_spec second (second_of (system_now w))) as [E|].
    + rewrite (Hdate (system_now w) t) by congruence. rewrite Hv. split; [done|]. simpl. by exists t.
    + destruct (header_value_from_str (fmt_http_date (system_now w))) as [v'|] eqn:Ev; simpl; (split; [done|]); [by exists (system_now w)|by exists t].
  - destruct (header_value_from_str (fmt_http_date (system_now w))) as [v'|] eqn:Ev; simpl; (split; [done|]); [by exists (system_now w)|done].
Qed.

(** The date cache is invisible. Whatever the clock does between responses,
    forward, backward or not at all, every response carries the date of the
    moment it was written, as if nothing were cached. *)
Theorem dates_fresh (ws : list W) : dates DateCache_default ws = map date_now ws.
Proof using Hdate.
  assert (Hgo : forall cache, cache_ok cache -> dates cache ws = map date_now ws); [|by apply Hgo].
  induction ws as [|w ws IH]; intros cache Hc; simpl; [done|].
  pose proof (date_value_fresh cache w Hc) as [Hv Hc']. destruct (date_value cache w) as [cache' v]. simpl in *.
  by rewrite Hv, IH.
Qed.

End DateTheorems.

Section Written.
Context {http : HttpCrate} {alloc : Encode.Allocator}.
Context {W T : Type} `{ServerClock W T} `{Runtime W} `{AsyncWrite W} `{!Writes W} `{Producing W}.
Context (Hshutdown : forall w : W, wire (fst (aw_shutdown w)) = wire w).
Context (tls : bool) (config : ServerConfig) (writes : nat).


Context {B D E : Type} `{IoBuf D} `{!Body B D E} (application : E -> StdError).

(** The plan of a final response [response] in an exchange with policy [state]. *)
Record planned (response : Response B) (method : Method) (request_version : Version) (close : bool) (date : DateCache)
    (w : W) (state state' : ExchangePolicy) (plan : MessagePlan ValidatedResponseHead) (encoder : BodyEncoder) : Prop := {
  planned_status : status_is_informational (rs_status response) = true -> rs_status response = 101;
  planned_head : exists headers size trailers,
    snd (final_headers config close date w (rs_headers response)) = Returns headers /\
    size_hint (rs_body response) = Returns size /\ trailer_hint (rs_body response) = Returns trailers /\
    prepare_response_head (rs_status response) (if bool_decide (request_version = HTTP_10) then HTTP_10 else rs_version response)
      headers (rs_header_case response) (mkBodyMetadata size trailers) method
      (encode_config (protocol (server_settings config))) = Ok plan /\
    BodyEncoder_new (vresp_body (plan_head plan)) (mkBodyMetadata size trailers)
      (encode_config (protocol (server_settings config))) = Ok encoder;
  planned_upgrade : close = true -> vresp_upgrade (plan_head plan) = None;
  planned_policy : sent_response state (plan_head plan) = (state', Ok tt);
}.

Lemma plan_response_planned response method rv close date state w date' state' plan encoder :
  plan_response config response method rv close date state w = (date', state', Returns (Ok (plan, encoder))) ->
  planned response method rv close date w state state' plan encoder.
Proof.
  unfold plan_response. destruct (status_is_informational (rs_status response)) eqn:Ei; simpl;
    [destruct (Z.eqb_spec (rs_status response) 101) as [E101|]; simpl; [|done]|].
  all: destruct (final_headers config close date w (rs_headers response)) as [date1 [headers|]] eqn:Eh;
    destruct (size_hint (rs_body response)) as [size|] eqn:Es, (trailer_hint (rs_body response)) as [trailers|] eqn:Et; try done.
  all: destruct (prepare_response_head _ _ _ _ _ _ _) as [plan'|] eqn:Ep; [|done].
  all: destruct (_ && close) eqn:Eu; [done|].
  all: destruct (sent_response state (plan_head plan')) as [state1 [[]|e]] eqn:Est; simpl; [|done].
  all: destruct (BodyEncoder_new _ _ _) as [encoder'|] eqn:Eb; simpl; [|done]; intros [= _ <- <- <-].
  all: constructor; [by rewrite ?Ei|exists headers, size, trailers; rewrite Eh; done| |done].
  all: intros ->; rewrite andb_true_r in Eu; apply bool_decide_eq_false in Eu;
    destruct (vresp_upgrade (plan_head plan')) as [k|]; [by destruct Eu; eexists|done].
Qed.

(** What writing [body] with the plan [ok] allows may have put on the wire. *)
Definition response_wire (ok : MessagePlan ValidatedResponseHead -> BodyEncoder -> Prop) (body : B) (w w' : W)
    (r : option (call (result Persistence Error))) : Prop :=
  match r with
  | Some (Returns (Ok q)) =>
      exists plan encoder x, ok plan encoder /\ q = vresp_persistence (plan_head plan) /\
        wire w' = wire w ++ plan_bytes plan ++ x /\
        if bool_decide (vresp_body (plan_head plan) = BodyNone) then x = []
        else exists fs, yields body fs /\ encoded encoder false fs = Some x
  | _ =>
      wire w' = wire w \/
      exists plan encoder, ok plan encoder /\
        ((exists n, 0 <= n <= zlen (plan_bytes plan) /\ wire w' = wire w ++ ztake n (plan_bytes plan)) \/
         (exists x, begun (D := D) encoder x /\ wire w' = wire w ++ plan_bytes plan ++ x))
  end.

Lemma response_stopped (ok : _ -> _ -> Prop) body (w w' : W) plan encoder x r :
  match r with Some (Returns (Ok _)) => False | _ => True end -> ok plan encoder ->
  begun (D := D) encoder x -> wire w' = wire w ++ plan_bytes plan ++ x -> response_wire ok body w w' r.
Proof.
  intros Hr Hok Hx Hw. unfold response_wire. destruct r as [[[]|]|]; [done|..]; right; exists plan, encoder; eauto.
Qed.

(** The last flush of a response whose body, if any, went out as [x]. *)
Lemma response_flushed (ok : _ -> _ -> Prop) body (w w1 w' : W) plan encoder x r :
  ok plan encoder -> wire w1 = wire w ++ plan_bytes plan ++ x -> begun (D := D) encoder x ->
  (if bool_decide (vresp_body (plan_head plan) = BodyNone) then x = []
   else exists fs, yields body fs /\ encoded encoder false fs = Some x) ->
  aw_flush w1 = (w', r) ->
  response_wire ok body w w' (Some (Returns (match r with
                                             | Err e => Err (from_io tls e)
                                             | Ok _ => Ok (vresp_persistence (plan_head plan))
                                             end))).
Proof.
  intros Hok Hw Hb Hx Ef. apply law_flush in Ef. destruct r as [u|e].
  - exists plan, encoder, x. split_and!; [done..|congruence|done].
  - eapply response_stopped; [done|exact Hok|exact Hb|congruence].
Qed.

(** C10: The response on the wire. When a service's response is reported sent, the
    wire holds exactly the head planned for it, with the Connection and Date
    fields the driver adds and a version the request allows, followed by the
    framing of every frame its body gave; a closing exchange never sends an
    upgrade, only 101 may be an informational status, and the exchange's policy
    has recorded that head. Otherwise nothing is out, or a prefix of that head,
    or the head followed by whole frames and part of one. *)
Theorem write_response_exact fuel (w : W) response method rv close date state w' date' state' r :
  write_response tls application config writes fuel w response method rv close date state = (w', date', state', r) ->
  response_wire (planned response method rv close date w state state') (rs_body response) w w' r.
Proof.
  unfold write_response. destruct (plan_response config response method rv close date state w) as [[date1 state1] p] eqn:Ep.
  destruct p as [[[plan encoder]|e]|]; [|intros [= <- _ _ <-]; by left..].
  apply plan_response_planned in Ep. pose proof (zlen_nonneg (plan_bytes plan)).
  destruct (write_all true writes w (plan_bytes plan)) as [w1 written] eqn:Ew. apply write_all_answer in Ew.
  destruct written as [[k|e]|]; [|intros [= <- _ <- <-]; right; exists plan, encoder; by auto..].
  destruct Ew as [_ Hw1]. case_bool_decide as Hm.
  - destruct (aw_flush w1) as [w2 flushed] eqn:Ef. intros [= <- _ <- <-].
    eapply response_flushed; [exact Ep|by rewrite app_nil_r|constructor|by rewrite bool_decide_true|exact Ef].
  - destruct (send_body true writes fuel w1 (rs_body response) encoder) as [[[w2 body2] e2] sent] eqn:Es.
    apply send_body_answer in Es. rewrite Hw1 in Es. destruct sent as [[[st|e]|]|];
      [|destruct Es as (x & Hx & Hw2); rewrite <- app_assoc in Hw2; intros [= <- _ <- <-]; by eapply response_stopped..].
    destruct Es as (fs & x & Hy & Hx & Hw2 & _). rewrite <- app_assoc in Hw2.
    destruct (aw_flush w2) as [w3 flushed] eqn:Ef. intros [= <- _ <- <-].
    eapply response_flushed; [exact Ep|exact Hw2|by eapply encoded_begun| |exact Ef]. rewrite bool_decide_false by done. by exists fs.
Qed.

End Written.

(** ** What informational heads go out *)

(** Documented behaviour of the context's receiver: the commands taken and the
    completions answered, in order. *)
Class InformationalLaws {http : HttpCrate} (W : Type)
    `{Runtime W} `{AsyncWrite W} `{!Writes W} `{!InformationalReceiver W (Response unit)} := {
  commands : W -> list (@Command (Response unit));
  completions : W -> list (result unit Error);
  info_log w := (commands w, completions w);
  law_info_next w w' n : info_next w = (w', n) ->
    wire w' = wire w /\ info_log w' = (commands w ++ match n with Some (Some c) => [c] | _ => [] end, completions w);
  law_info_complete w r : wire (info_complete w r) = wire w /\ info_log (info_complete w r) = (commands w, completions w ++ [r]);
  law_info_continued w : wire (info_continued w) = wire w /\ info_log (info_continued w) = info_log w;
  law_info_write w b : info_log (fst (aw_write w b)) = info_log w;
  law_info_flush w : info_log (fst (aw_flush w)) = info_log w;
  law_info_yield w : info_log (rt_yield w) = info_log w;
}.

Section Informed.
Context {http : HttpCrate} {alloc : Encode.Allocator} {W : Type} `{Runtime W} `{AsyncWrite W} `{!Writes W}.
Context `{!InformationalReceiver W (Response unit)} `{!InformationalLaws W}.
Context (tls : bool) (config : ServerConfig) (writes : nat) (version : Version).

Notation head_of := (informational_head config version).

(** From [count] heads on, the commands [cs] put the heads [hs] on the wire and
    answer the application [rs]. *)
Inductive informed : Z -> list (@Command (Response unit)) -> list bytes -> list (result unit Error) -> Z -> Prop :=
| informed_none n : informed n [] [] [] n
| informed_written n r h cs hs rs m :
    head_of n r = Ok h -> informed (n + 1) cs hs rs m -> informed n (Application r :: cs) (h :: hs) (Ok tt :: rs) m
| informed_refused n r e cs hs rs m :
    head_of n r = Err e -> informed n cs hs rs m -> informed n (Application r :: cs) hs (Err e :: rs) m
| informed_continue n h cs hs rs m :
    head_of n automatic_continue = Ok h -> informed (n + 1) cs hs rs m -> informed n (Context.Continue :: cs) (h :: hs) rs m.

(** How the writer may stop after the heads [m]. *)
Inductive stops (m : Z) (e : Error) : list (@Command (Response unit)) -> bytes -> list (result unit Error) -> Prop :=
| stops_canceled : e = informational_canceled -> stops m e [] [] []
| stops_continue : head_of m automatic_continue = Err e -> stops m e [Context.Continue] [] []
| stops_write c h n : head_of m (command_response c) = Ok h -> 0 <= n <= zlen h ->
    stops m e [c] (ztake n h) (if is_automatic c then [] else [Err e]).

Definition informed_answer (w : W) (count : Z) (w' : W) (r : option (result unit Error)) : Prop :=
  match r with
  | None => True
  | Some r =>
      exists cs hs rs m, informed count cs hs rs m /\
        match r with
        | Ok _ => wire w' = wire w ++ concat hs /\ info_log w' = (commands w ++ cs, completions w ++ rs)
        | Err e =>
            exists cs1 x rs1, stops m e cs1 x rs1 /\ wire w' = wire w ++ concat hs ++ x /\
              info_log w' = (commands w ++ cs ++ cs1, completions w ++ rs ++ rs1)
        end
  end.

Lemma write_informational_wire (w : W) b w' r : write_informational tls writes w b = (w', r) ->
  info_log w' = info_log w /\
  match r with
  | Some (Ok _) => wire w' = wire w ++ b
  | _ => exists n, 0 <= n <= zlen b /\ wire w' = wire w ++ ztake n b
  end.
Proof.
  unfold write_informational.
  pose proof (write_all_keeps true info_log writes w b law_info_write law_info_yield) as Hk.
  destruct (write_all true writes w b) as [w1 written] eqn:Ew. apply write_all_answer in Ew. simpl in Hk.
  pose proof (zlen_nonneg b). destruct written as [[n|e]|]; [|intros [= <- <-]; by split..].
  destruct Ew as [_ Hw]. pose proof (law_info_flush w1) as Hf. destruct (aw_flush w1) as [w2 flushed] eqn:Ef. simpl in Hf.
  apply law_flush in Ef. intros [= <- <-]. split; [congruence|]. destruct flushed as [u|e]; simpl; [congruence|].
  exists (zlen b). rewrite ztake_all by lia. split; [lia|congruence].
Qed.

Lemma informed_more (w w1 : W) count count1 c h b r w' :
  wire w1 = wire w ++ b -> info_log w1 = (commands w ++ [c], completions w ++ h) ->
  (forall cs hs rs m, informed count1 cs hs rs m -> exists hs', concat hs' = b ++ concat hs /\ informed count (c :: cs) hs' (h ++ rs) m) ->
  informed_answer w1 count1 w' r -> informed_answer w count w' r.
Proof.
  intros Hw Hl Hmore. destruct r as [a|]; [|done]. intros (cs & hs & rs & m & Hi & Ha). injection Hl as Hc Hr.
  destruct (Hmore cs hs rs m Hi) as (hs' & Hhs & Hi'). exists (c :: cs), hs', (h ++ rs), m. split; [done|].
  rewrite Hc, Hr, Hw in Ha. destruct a as [u|e].
  - destruct Ha as [-> ->]. rewrite Hhs, <- !app_assoc. done.
  - destruct Ha as (cs1 & x & rs1 & Hs & -> & ->). exists cs1, x, rs1. split; [done|]. rewrite Hhs, <- !app_assoc. done.
Qed.

Lemma informed_stop (w w' : W) count e cs x rs :
  stops count e cs x rs -> wire w' = wire w ++ x -> info_log w' = (commands w ++ cs, completions w ++ rs) ->
  informed_answer w count w' (Some (Err e)).
Proof.
  intros Hs Hw Hl. exists [], [], [], count. split; [constructor|]. by exists cs, x, rs.
Qed.

Lemma informationals_ok fuel (w : W) count :
  let '(w', r) := write_informationals tls config writes version fuel w count in informed_answer w count w' r.
Proof.
  revert w count. induction fuel as [|fuel IH]; intros w count; simpl; [done|].
  destruct (info_next w) as [w1 next] eqn:En. apply law_info_next in En as [Hw Hl].
  destruct next as [[c|]|].
  2: { exists [], [], [], count. simpl. rewrite !app_nil_r in *. split; [constructor|done]. }
  2: { eapply informed_stop; [by apply stops_canceled|by rewrite app_nil_r|by rewrite !app_nil_r in *]. }
  injection Hl as Hc Hr. destruct (informational_head config version count (command_response c)) as [h|e] eqn:Eh.
  - destruct (write_informational tls writes w1 h) as [w2 result] eqn:Ew. apply write_informational_wire in Ew as [Hl2 Hw2].
    rewrite Hw in Hw2. injection Hl2 as Hc2 Hr2. rewrite Hc in Hc2. rewrite Hr in Hr2.
    destruct result as [[u|e]|]; [| |done].
    + assert (Hnext : forall w3, wire w3 = wire w2 -> info_log w3 = (commands w2, completions w2 ++ if is_automatic c then [] else [Ok tt]) ->
        let '(w', r) := write_informationals tls config writes version fuel w3 (count + 1) in informed_answer w count w' r).
      { intros w3 Hw3 Hl3. specialize (IH w3 (count + 1)). destruct (write_informationals _ _ _ _ fuel w3 _) as [w' r].
        eapply (informed_more w w3 count (count + 1) c _ h); [congruence|by rewrite Hl3, Hc2, Hr2| |exact IH].
        intros cs hs rs m Hi. exists (h :: hs). split; [done|]. destruct c as [|r0]; simpl in *; by constructor. }
      destruct c as [|r0]; simpl in *; apply Hnext.
      * apply law_info_continued.
      * rewrite app_nil_r. apply law_info_continued.
      * apply law_info_complete.
      * apply law_info_complete.
    + destruct Hw2 as (n & Hn & Hw2). destruct c as [|r0]; simpl in *.
      * eapply informed_stop; [by eapply (stops_write count e Context.Continue)|done|]. simpl. rewrite app_nil_r. unfold info_log. congruence.
      * match goal with |- context [info_complete w2 ?x] => destruct (law_info_complete w2 x) as [Hw3 Hl3] end.
        eapply informed_stop; [by eapply (stops_write count _ (Application r0))|congruence|].
        simpl. rewrite Hl3. congruence.
  - destruct c as [|r0]; simpl in *.
    + eapply informed_stop; [by apply stops_continue|by rewrite app_nil_r|]. unfold info_log. rewrite app_nil_r. congruence.
    + destruct (law_info_complete w1 (Err e)) as [Hw3 Hl3]. specialize (IH (info_complete w1 (Err e)) count).
      destruct (write_informationals _ _ _ _ fuel _ _) as [w' r].
      eapply (informed_more w (info_complete w1 (Err e)) count count (Application r0) [Err e] []); [rewrite app_nil_r; congruence|rewrite Hl3; congruence| |exact IH].
      intros cs hs rs m Hi. exists hs. split; [done|]. by apply informed_refused.
Qed.

Definition applications (cs : list (@Command (Response unit))) : list (@Command (Response unit)) :=
  filter (fun c => is_automatic c = false) cs.

Lemma informed_bounds n cs hs rs m : informed n cs hs rs m ->
  n <= informational_limit (protocol (server_settings config)) ->
  m = n + zlen hs /\ m <= informational_limit (protocol (server_settings config)) /\ length rs = length (applications cs).
Proof.
  assert (Hne : forall n r h, head_of n r = Ok h -> n <> informational_limit (protocol (server_settings config))).
  { intros k r h. unfold informational_head. destruct (negb _); [done|]. destruct (Z.eqb_spec k (informational_limit (protocol (server_settings config)))); done. }
  unfold applications. induction 1 as [n|n r h cs hs rs m Hh Hi IH|n r e cs hs rs m Hh Hi IH|n h cs hs rs m Hh Hi IH]; intros Hn.
  - change (zlen []) with 0. split_and!; [lia..|done].
  - apply Hne in Hh. destruct IH as (-> & ? & Hl); [lia|]. rewrite filter_cons_True by done.
    unfold zlen in *. simpl length. split_and!; [lia..|by rewrite Hl].
  - destruct IH as (-> & ? & Hl); [done|]. rewrite filter_cons_True by done. simpl. split_and!; [lia..|by rewrite Hl].
  - apply Hne in Hh. destruct IH as (-> & ? & Hl); [lia|]. rewrite filter_cons_False by done.
    unfold zlen in *. simpl length.
    split_and!; [lia..|done].
Qed.

(** C11: Informational responses are written one by one and answered one by one.
    Until the final response is selected, every command is taken in order; an
    application's response is on the wire, complete, before its send is answered
    with success, a response that cannot be sent is answered with the reason and
    leaves no byte, and each is answered once; the automatic 100 is written when
    asked for; no more heads than configured go out; and when the writer stops
    with an error at most part of one further head is out, and its application
    is told that error. *)
Theorem informationals_exact fuel (w : W) w' a :
  0 <= informational_limit (protocol (server_settings config)) ->
  write_informationals tls config writes version fuel w 0 = (w', Some a) ->
  exists cs hs rs m, informed 0 cs hs rs m /\
    zlen hs <= informational_limit (protocol (server_settings config)) /\ length rs = length (applications cs) /\
    match a with
    | Ok _ => wire w' = wire w ++ concat hs /\ info_log w' = (commands w ++ cs, completions w ++ rs)
    | Err e =>
        exists cs1 x rs1, stops m e cs1 x rs1 /\ wire w' = wire w ++ concat hs ++ x /\
          info_log w' = (commands w ++ cs ++ cs1, completions w ++ rs ++ rs1)
    end.
Proof.
  intros Hlim Hr. pose proof (informationals_ok fuel w 0) as Hi. rewrite Hr in Hi.
  destruct Hi as (cs & hs & rs & m & Hi & Ha). destruct (informed_bounds _ _ _ _ _ Hi Hlim) as (Hm & Hle & Hl).
  exists cs, hs, rs, m. split_and!; [done|lia|done|done].
Qed.

End Informed.

(** ** The request *)

Record RequestMessage {http : HttpCrate} (TlsInfo T : Type) := mkRequestMessage {
  rm_method : Method;
  rm_uri : Uri;
  rm_version : Version;
  rm_headers : HeaderMap;
  (** the extensions the driver adds *)
  rm_header_case : option HeaderMap;
  rm_tls_info : option TlsInfo;
  rm_body : T;
}.
Arguments mkRequestMessage {http TlsInfo T} _ _ _ _ _ _ _.

Definition request_message {http : HttpCrate} {TlsInfo C} (tls_info : option TlsInfo) (h : RequestHead) (body : Incoming C)
    (config : ServerConfig) : RequestMessage TlsInfo (Incoming C) :=
  mkRequestMessage (req_method h) (req_target h) (req_version h) (req_headers h) (req_header_case h) tls_info
    (with_drain_config body (Config.drain (server_settings config))).

(** [informationals.continue_permission()] under the connection's token *)
Class ContinuePermission (W : Type) := continue_permission : W -> W * option (result unit Error).

Section ReceiveRequest.
Context {http : HttpCrate} {hp : Httparse} {alloc : BytesAllocator}.
Context {W : Type} `{Runtime W} `{AsyncRead W} `{Timer W} `{!BodyProducer W} `{ContinuePermission W}.
Context (tls : bool) (strategy : Strategy) (config : ServerConfig).

Definition receive_canceled : Error := Error_new Canceled "request receive canceled".
Definition continue_demand_canceled : Error := Error_new Canceled "Continue demand canceled".

(** [producer]: whether the request has a body to receive. *)
Definition receive_request (fuel : nat) (w : W) (b : RecvBuffer) (d : BodyDecoder) (producer expect_continue : bool)
    : W * RecvBuffer * option (call ReceiveEnd) :=
  if negb producer then (w, b, Some (Returns Complete))
  else
    let body (w : W) :=
      receive_body_configured tls strategy (body_progress_timeout (server_settings config)) fuel w b d in
    if negb expect_continue then body w
    else
      let '(w, demanded) := pr_demand w in
      match demanded with
      | Some (Err _) => ends b (w, AbandonedEnd)
      | None => ends b (receive_fail w receive_canceled)
      | Some (Ok _) =>
          let '(w, permitted) := continue_permission w in
          match permitted with
          | Some (Ok _) => body w
          | Some (Err e) => ends b (receive_fail w e)
          | None => ends b (receive_fail w continue_demand_canceled)
          end
      end.

Context {laws : HttparseLaws hp} `{!Reads W} `{!ReceiveLaws W}.
Context (law_permission : forall w, observed (fst (continue_permission w)) = observed w).

Definition permitted (w : W) : Prop :=
  exists v, snd (pr_demand w) = Some (Ok v) /\ exists u, snd (continue_permission (fst (pr_demand w))) = Some (Ok u).

(** A request body that has not been permitted reads nothing. *)
Lemma receive_request_unpermitted fuel (w : W) b d w' b' r :
  ~ permitted w -> receive_request fuel w b d true true = (w', b', r) ->
  received w' = received w /\ b' = b /\ r <> Some (Returns Complete).
Proof using law_permission.
  intros Hp. unfold receive_request, permitted in *. simpl. pose proof (law_demand w) as Hd.
  destruct (pr_demand w) as [w1 demanded]. simpl in *. destruct (observed_eq _ _ Hd) as (E1 & _ & _).
  assert (Hfail : forall (w1 : W) e, received (pr_fail w1 e) = received w1).
  { intros w0 e0. pose proof (law_fail w0 e0) as Hf. unfold observed in Hf. by injection Hf. }
  destruct demanded as [[v|e]|].
  - pose proof (law_permission w1) as Hq. destruct (continue_permission w1) as [w2 q]. simpl in *.
    destruct (observed_eq _ _ Hq) as (E2 & _ & _).
    destruct q as [[u|e]|]; [by destruct Hp; exists v; split; [|exists u]|..]; intros [= <- <- <-];
      (split_and!; [|done..]); rewrite Hfail; congruence.
  - intros [= <- <- <-]. done.
  - intros [= <- <- <-]. split_and!; [|done..]. rewrite Hfail. congruence.
Qed.

Lemma receive_fail_received (w : W) e : received (fst (receive_fail w e)) = received w /\ snd (receive_fail w e) <> Complete.
Proof.
  unfold receive_fail. destruct (Error_split e) as [shown driver]. simpl. split; [|done].
  pose proof (law_fail w shown) as Hf. unfold observed in Hf. by injection Hf.
Qed.

(** A request with a body either goes on to receive it or reads nothing. *)
Lemma receive_request_cases fuel (w : W) b d expect_continue w' b' r :
  receive_request fuel w b d true expect_continue = (w', b', r) ->
  (exists w1, observed w1 = observed w /\ receive_body_configured tls strategy
     (body_progress_timeout (server_settings config)) fuel w1 b d = (w', b', r)) \/
  (b' = b /\ received w' = received w /\ r <> Some (Returns Complete)).
Proof using law_permission.
  unfold receive_request. simpl. destruct expect_continue; simpl; [|intros Hr; left; by exists w].
  assert (Hstop : forall (w1 : W) e, received w1 = received w -> ends b (receive_fail w1 e) = (w', b', r) ->
    b' = b /\ received w' = received w /\ r <> Some (Returns Complete)).
  { intros w1 e E. destruct (receive_fail_received w1 e) as [Hf Hn]. destruct (receive_fail w1 e) as [w2 x]. simpl in *.
    intros [= <- <- <-]. split_and!; [done|congruence|by intros [= ->]]. }
  pose proof (law_demand w) as Hd. destruct (pr_demand w) as [w1 [[v|e]|]]; simpl in Hd;
    destruct (observed_eq _ _ Hd) as (E1 & _).
  - pose proof (law_permission w1) as Hq. destruct (continue_permission w1) as [w2 q]. simpl in Hq.
    destruct (observed_eq _ _ Hq) as (E2 & _). destruct q as [[u|e]|].
    + intros Hr. left. exists w2. split; [congruence|done].
    + intros Hr. right. eapply Hstop; [|exact Hr]. congruence.
    + intros Hr. right. eapply Hstop; [|exact Hr]. congruence.
  - intros [= <- <- <-]. by right.
  - intros Hr. right. by eapply Hstop.
Qed.

(** What receiving a request took, however it ended. *)
Lemma request_taken fuel (w : W) b mode (c : unit) expect_continue w' b' r :
  let l := decode_limits (protocol (server_settings config)) in
  wf_limits l -> mode_ok mode -> wf_recv b ->
  receive_request fuel w b (with_limits mode l) (fst (incoming mode c)) expect_continue = (w', b', r) ->
  wf_recv b' /\ exists input, received w' = received w ++ input /\
  (r = Some (Returns Complete) ->
   exists m pieces t, recv_bytes b ++ input = m ++ recv_bytes b' /\
     is_body l mode m (concat (map as_ref pieces)) t /\ delivered w' = delivered w ++ body_frames pieces t).
Proof using law_permission laws.
  intros l Hl Hm Hb Hr. destruct (fst (incoming mode c)) eqn:Ei.
  2: { injection Hr as <- <- <-. split; [done|]. exists []. rewrite app_nil_r. split; [done|]. intros _. exists [], [], None.
       rewrite !app_nil_r. split_and!; [done| |done]. unfold incoming in Ei. destruct mode as [|n| |]; simpl in *; [done| |done..].
       destruct (Z.eqb_spec n 0) as [->|]; done. }
  apply receive_request_cases in Hr as [(w1 & Ho & Hbody)|(-> & E & Hn)].
  2: { split; [done|]. exists []. by rewrite app_nil_r. }
  destruct (observed_eq _ _ Ho) as (E1 & E2 & _).
  destruct (receive_body_safe tls strategy _ l mode fuel w1 b w' b' r Hl Hm Hb Hbody) as (Hb' & input0 & frames & Hi0 & _).
  split; [done|]. exists input0. split; [congruence|]. intros ->.
  apply receive_body_complete in Hbody as (input & m & pieces & t & Hi & Hq & His & _ & Hd & _); [|done..].
  rewrite Hi0 in Hi. apply app_inv_head in Hi as ->. exists m, pieces, t. split_and!; [done..|congruence].
Qed.

(** C12: A request's body reaches the service exactly, and not before it is asked
    for. When receiving ends as complete, the bytes read are one whole body of
    the request's framing followed by what is retained, and the service took
    exactly its payload and trailers; a client that expects 100 Continue is read
    from only once the service asked for the body and the 100 was written; and
    a request without a body reads nothing. *)
Theorem receive_request_exact fuel (w : W) b mode (c : unit) expect_continue w' b' r :
  let l := decode_limits (protocol (server_settings config)) in
  wf_limits l -> mode_ok mode -> wf_recv b ->
  receive_request fuel w b (with_limits mode l) (fst (incoming mode c)) expect_continue = (w', b', r) ->
  (r = Some (Returns Complete) ->
   exists input m pieces t, received w' = received w ++ input /\ recv_bytes b ++ input = m ++ recv_bytes b' /\
     is_body l mode m (concat (map as_ref pieces)) t /\ delivered w' = delivered w ++ body_frames pieces t) /\
  (expect_continue = true -> ~ permitted w -> received w' = received w /\ b' = b).
Proof using law_permission laws.
  intros l Hl Hm Hb Hr. split.
  - intros ->. destruct (request_taken _ _ _ _ _ _ _ _ _ Hl Hm Hb Hr) as (_ & input & Hi & Hc).
    destruct (Hc eq_refl) as (m & pieces & t & Hq & His & Hd). by exists input, m, pieces, t.
  - intros -> Hp. destruct (fst (incoming mode c)); [|by injection Hr as <- <- _].
    by destruct (receive_request_unpermitted _ _ _ _ _ _ _ Hp Hr) as (? & ? & _).
Qed.

End ReceiveRequest.

(** ** Evaluated: a five-byte POST, an informational response and a final one *)

Section Evaluated.
#[local] Existing Instance AssocHttp.
#[local] Existing Instance LineHeads.
#[local] Existing Instance World_Allocator.

Definition request_body_stream : bytes := bs "hello".

(** Informational commands to come, those taken, and their answers. *)
Record ServerExtra := mkServerExtra {
  x_queue : list (@Command (Response unit));
  x_taken : list (@Command (Response unit));
  x_answers : list (result unit Error);
}.

Notation SW := (World request_body_stream ServerExtra).

#[local] Instance SW_clock : ServerClock SW Z := {
  system_now _ := 60;
  second_of t := t / 10;
  fmt_http_date t := to_decimal (t / 10);
}.

#[local] Instance SW_info : InformationalReceiver SW (Response unit) := {
  info_next w :=
    match x_queue (extra w) with
    | [] => (w, Some None)
    | c :: q => (set_extra w (mkServerExtra q (x_taken (extra w) ++ [c]) (x_answers (extra w))), Some (Some c))
    end;
  info_complete w r := set_extra w (mkServerExtra (x_queue (extra w)) (x_taken (extra w)) (x_answers (extra w) ++ [r]));
  info_continued w := w;
}.

#[local] Instance SW_info_laws : InformationalLaws SW.
Proof.
  refine {| commands w := x_taken (extra w); completions w := x_answers (extra w) |}; try done.
  intros w w' n. unfold info_next, SW_info. destruct (x_queue (extra w)) as [|c q]; intros [= <- <-]; simpl; [by rewrite app_nil_r|done].
Defined.

#[local] Instance SW_permission : ContinuePermission SW := fun w => (w, Some (Ok tt)).

Definition server_config : ServerConfig :=
  mkServerConfig (mkSettings (mkConfig small_limits DecodeLimits_default (mkEncodeConfig 256 256 false) 1 false) DrainConfig_default
    (Some 9) (Some 9) None 64 128) true true.

Definition hints : Response unit := mkResponse 103 HTTP_11 [] None tt.

Definition server_start : SW := opened (mkServerExtra [Context.Continue; Application hints] [] []).

Lemma dates_fresh_witness : dates DateCache_default [server_start; server_start] = map date_now [server_start; server_start].
Proof. apply dates_fresh. intros t t' E. unfold fmt_http_date, second_of, SW_clock in *. by rewrite E. Defined.

Definition refused_head : SW := Eval vm_compute in
  fst (fst (reply_illegal_head (alloc := any_alloc) server_config 9 server_start (HeadErrorLimit HeadLimitBytes) None)).

Lemma refused_head_ran :
  reply_illegal_head (alloc := any_alloc) server_config 9 server_start (HeadErrorLimit HeadLimitBytes) None =
  (refused_head, Some (6, bs "6"), Some (Returns (Error_from_head (HeadErrorLimit HeadLimitBytes)))).
Proof.
  vm_cast_no_check (eq_refl (refused_head, @Some (Z * HeaderValue) (6, bs "6"), Some (Returns (Error_from_head (HeadErrorLimit HeadLimitBytes))))).
Qed.


Definition reply : Response (Full bytes) := mkResponse 200 HTTP_11 [] None (FullReady (bs "hi")).

Definition reply_policy : ExchangePolicy := mkExchangePolicy AwaitingHead Syntax.Reusable GET None [] 0 1.
Definition reply_done : ExchangePolicy := set_persistence (set_phase reply_policy PhaseFinal) Close.

Definition reply_ran :=
  write_response (alloc := any_alloc) false (fun e : Infallible => match e with end) server_config 9 9 server_start reply GET HTTP_11 true
    None reply_policy.

Definition replied : SW := Eval vm_compute in fst (fst (fst reply_ran)).

Lemma reply_ran_ok :
  write_response (alloc := any_alloc) false (fun e : Infallible => match e with end) server_config 9 9 server_start reply GET HTTP_11 true
    None reply_policy = (replied, Some (6, bs "6"), reply_done, Some (Returns (Ok Close))).
Proof.
  vm_cast_no_check (eq_refl (replied, @Some (Z * HeaderValue) (6, bs "6"), reply_done, Some (@Returns (result Persistence Error) (Ok Close)))).
Qed.

Lemma write_response_exact_witness :
  exists plan encoder x,
    planned (alloc := any_alloc) server_config reply GET HTTP_11 true None server_start reply_policy reply_done plan encoder /\
    Close = vresp_persistence (plan_head plan) /\ wire replied = wire server_start ++ plan_bytes plan ++ x /\
    if bool_decide (vresp_body (plan_head plan) = BodyNone) then x = []
    else exists fs, yields (FullReady (bs "hi")) fs /\ encoded (alloc := any_alloc) encoder false fs = Some x.
Proof.
  exact (write_response_exact (alloc := any_alloc) false server_config 9 (fun e : Infallible => match e with end) 9 server_start reply GET
    HTTP_11 true None reply_policy replied (Some (6, bs "6")) reply_done (Some (Returns (Ok Close))) reply_ran_ok).
Defined.

Definition informed_end : SW := Eval vm_compute in
  fst (write_informationals (alloc := any_alloc) false server_config 9 HTTP_11 9 server_start 0).

Lemma informed_ran :
  write_informationals (alloc := any_alloc) false server_config 9 HTTP_11 9 server_start 0 = (informed_end, Some (Ok tt)).
Proof. vm_cast_no_check (eq_refl (informed_end, Some (@Ok unit Error tt))). Qed.

Lemma informationals_exact_witness :
  exists cs hs rs m, informed (alloc := any_alloc) server_config HTTP_11 0 cs hs rs m /\ zlen hs <= 1 /\
    length rs = length (applications cs) /\
    wire informed_end = wire server_start ++ concat hs /\
    info_log informed_end = (commands server_start ++ cs, completions server_start ++ rs).
Proof.
  refine (informationals_exact (alloc := any_alloc) false server_config 9 HTTP_11 9 server_start informed_end (Ok tt) _ informed_ran).
  vm_compute. discriminate.
Defined.

Definition request_received : SW := Eval vm_compute in
  fst (fst (receive_request false PortableStrategy server_config 30 server_start scenario_buffer
    (with_limits (BodyFixed 5) DecodeLimits_default) true true)).
Definition request_rest : RecvBuffer := Eval vm_compute in
  snd (fst (receive_request false PortableStrategy server_config 30 server_start scenario_buffer
    (with_limits (BodyFixed 5) DecodeLimits_default) true true)).

Lemma request_received_ok :
  receive_request false PortableStrategy server_config 30 server_start scenario_buffer
    (with_limits (BodyFixed 5) (decode_limits (protocol (server_settings server_config)))) (fst (incoming (BodyFixed 5) tt)) true =
  (request_received, request_rest, Some (Returns Complete)).
Proof. vm_cast_no_check (eq_refl (request_received, request_rest, Some (@Returns ReceiveEnd Complete))). Qed.

Lemma receive_request_exact_witness :
  exists input m pieces t, received request_received = received server_start ++ input /\
    recv_bytes scenario_buffer ++ input = m ++ recv_bytes request_rest /\
    is_body DecodeLimits_default (BodyFixed 5) m (concat (map as_ref pieces)) t /\
    delivered request_received = delivered server_start ++ body_frames pieces t.
Proof.
  refine (proj1 (receive_request_exact false PortableStrategy server_config (fun w => eq_refl) 30 server_start scenario_buffer
    (BodyFixed 5) tt true request_received request_rest (Some (Returns Complete)) default_limits_wf _ scenario_buffer_wf request_received_ok) eq_refl).
  vm_compute. discriminate.
Defined.

End Evaluated.
