(* ===== verification/Serving.v ===== *)
(** Composition of a server exchange: [call_service], [exchange] and
    [finish_exchange] of src/src/proto/h1/server.rs over arbitrary activities.

    [FR] receives the request, [FS] is the service's call under the connection's
    token, [FH] writes informational heads and [FW] the final response; Server.v
    says what they do. The last answers the exchange's policy after it. *)

From Stdlib Require Import ZArith Lia.
From stdpp Require Import base list option.
From S2P Require Import Prelude Http Errors Context Scan Validate Body Pipe Future Incoming Recv Receive Exchange Config Scenario.
From S2P Require Import Server Syntax.

Record ExchangeResult (U : Type) := mkExchangeResult {
  er_outcome : Outcome;
  er_upgrade : U;
  er_recoverable : bool;
}.
Arguments mkExchangeResult {U} _ _ _.
Arguments er_outcome {U} _.
Arguments er_upgrade {U} _.
Arguments er_recoverable {U} _.

Definition finish_exchange {U} (end_ : ReceiveEnd) (state : ExchangePolicy) (close : bool) (upgrade : U)
    : result (ExchangeResult U) Error :=
  let? request_end :=
    match end_ with
    | FailedEnd e => Err e
    | AbandonedEnd => Ok ActivityRetired
    | Complete => Ok ActivityComplete
    end in
  let state := if close then close_after_exchange state else state in
  rmap (fun outcome => mkExchangeResult outcome upgrade (bool_decide (request_end = ActivityComplete)))
    (exchange_finish state request_end ActivityComplete).

(** What the activities of a server exchange share. *)
Class ServerScope (S : Type) := {
  (** [informationals.select_final()] *)
  select_final : S -> S;
  (** [source.cancel()] *)
  cancel_source : S -> S;
  (** the request's close flag *)
  close_flag : S -> bool;
  set_close : S -> S;
}.

(** ** The service and the informational writer *)

Section CallService.
Context {FS FH S Resp : Type} `{Future FS S (option (result Resp StdError))} `{Future FH S (result unit Error)} `{ServerScope S}.

Inductive Calls : Type :=
| Calling (call : FS) (heads : FH)
| AwaitHeads (called : option (result Resp StdError)) (heads : FH)
| AwaitCall (written : result unit Error) (call : FS)
| CallsDone.

Definition service_canceled : Error := Error_new Canceled "HTTP service canceled".
Definition writer_stopped : Error := Error_new Canceled "informational writer stopped".
Definition service_failed (e : StdError) : Error := with_source Service "HTTP service failed" e.

(** The response once the informational writer has answered too. *)
Definition called_response (called : option (result Resp StdError)) (written : result unit Error) : result Resp Error :=
  match called with
  | Some (Ok response) => let? _ := written in Ok response
  | Some (Err e) => Err (service_failed e)
  | None => Err service_canceled
  end.

Definition await_heads (called : option (result Resp StdError)) (heads : FH) (s : S) : Calls * S * Poll (result Resp Error) :=
  let '(heads, s, r) := poll heads s in
  match r with
  | Pending => (AwaitHeads called heads, s, Pending)
  | Ready written => (CallsDone, s, Ready (called_response called written))
  end.

Definition await_call (written : result unit Error) (call : FS) (s : S) : Calls * S * Poll (result Resp Error) :=
  let '(call, s, r) := poll call s in
  match r with
  | Pending => (AwaitCall written call, s, Pending)
  | Ready _ => (CallsDone, s, Ready (match written with Err e => Err e | Ok _ => Err writer_stopped end))
  end.

#[export] Instance call_service : Future Calls S (result Resp Error) := fun x s =>
  match x with
  | Calling call heads =>
      let '(ch, s, r) := poll (call, heads) s in
      match r with
      | Pending => (Calling (fst ch) (snd ch), s, Pending)
      | Ready (First called) =>
          let s := select_final s in
          let s := match called with Some (Ok _) => s | _ => cancel_source s end in
          await_heads called (snd ch) s
      | Ready (Second written) => await_call written (fst ch) (cancel_source s)
      end
  | AwaitHeads called heads => await_heads called heads s
  | AwaitCall written call => await_call written call s
  | CallsDone => (CallsDone, s, Pending)
  end.

(** ** What it answers *)

Lemma await_heads_answers called heads e r : answers (AwaitHeads called heads) e r ->
  exists written, answers heads e written /\ r = called_response called written.
Proof.
  intros Ha. remember (AwaitHeads called heads) as x eqn:Ex. revert heads Ex.
  induction Ha as [x s x' e r Hp|x s x' s' e r Hp _ IH]; intros f ->; unfold poll at 1, call_service, await_heads in Hp;
    destruct (poll f s) as [[f1 s1] [w|]] eqn:Ef; simplify_eq.
  - exists w. split; [by eapply answers_now|done].
  - destruct (IH f1 eq_refl) as (w & Ha & ->). exists w. split; [by eapply answers_later|done].
Qed.

Lemma await_call_answers written call e r : answers (AwaitCall written call) e r ->
  exists called, answers call e called /\ r = match written with Err e => Err e | Ok _ => Err writer_stopped end.
Proof.
  intros Ha. remember (AwaitCall written call) as x eqn:Ex. revert call Ex.
  induction Ha as [x s x' e r Hp|x s x' s' e r Hp _ IH]; intros f ->; unfold poll at 1, call_service, await_call in Hp;
    destruct (poll f s) as [[f1 s1] [c|]] eqn:Ef; simplify_eq.
  - exists c. split; [by eapply answers_now|done].
  - destruct (IH f1 eq_refl) as (c & Ha & ->). exists c. split; [by eapply answers_later|done].
Qed.

(** Both answered; a response is selected only when neither failed. *)
Definition both_called (call : FS) (heads : FH) (r : result Resp Error) : Prop :=
  exists s1 s2 called written, answers call s1 called /\ answers heads s2 written /\
    match r with
    | Ok response => called = Some (Ok response) /\ written = Ok tt
    | Err e =>
        written = Err e \/ (called = None /\ e = service_canceled) \/
        (exists x, called = Some (Err x) /\ e = service_failed x) \/ (written = Ok tt /\ e = writer_stopped)
    end.

Lemma calling_answers call heads e r : answers (Calling call heads) e r -> both_called call heads r.
Proof.
  assert (Hr : forall called written, match called_response called written with
    | Ok response => called = Some (Ok response) /\ written = Ok tt
    | Err e => written = Err e \/ (called = None /\ e = service_canceled) \/
        (exists x, called = Some (Err x) /\ e = service_failed x) \/ (written = Ok tt /\ e = writer_stopped)
    end).
  { intros [[r0|x]|] [[]|we]; simpl; eauto 6. }
  assert (Hw : forall written : result unit Error, match match written with Err e => Err e | Ok _ => @Err Resp Error writer_stopped end with
    | Ok _ => False
    | Err e => written = Err e \/ written = Ok tt /\ e = writer_stopped
    end) by (intros [[]|we]; eauto).
  intros Ha. remember (Calling call heads) as x eqn:Ex. revert call heads Ex.
  induction Ha as [x s x' e r Hp|x s x' s' e r Hp Ha IH]; intros c h ->; unfold poll at 1, call_service in Hp;
    unfold poll at 1, race in Hp; simpl in Hp; destruct (poll c s) as [[c1 s1] [called|]] eqn:Ec; simpl in Hp.
  - unfold await_heads in Hp. set (s2 := match called with Some (Ok _) => _ | _ => _ end) in Hp.
    destruct (poll h s2) as [[h1 s3] [written|]] eqn:Eh; simplify_eq.
    exists s1, e, called, written. split_and!; [by eapply answers_now..|apply Hr].
  - destruct (poll h s1) as [[h1 s2] [written|]] eqn:Eh; simplify_eq/=. unfold await_call in Hp.
    destruct (poll c1 (cancel_source s2)) as [[c2 s3] [called|]] eqn:Ec'; simplify_eq.
    exists e, s2, called, written. split_and!; [eapply answers_later; [exact Ec|by eapply answers_now]|by eapply answers_now|].
    specialize (Hw written). destruct (match written with Err e => _ | Ok _ => _ end); naive_solver.
  - unfold await_heads in Hp. set (s2 := match called with Some (Ok _) => _ | _ => _ end) in Hp.
    destruct (poll h s2) as [[h1 s3] [written|]] eqn:Eh; simplify_eq. apply await_heads_answers in Ha as (written & Ha & ->).
    exists s1, e, called, written. split_and!; [by eapply answers_now|by eapply answers_later|apply Hr].
  - destruct (poll h s1) as [[h1 s2] [written|]] eqn:Eh; simplify_eq/=.
    + unfold await_call in Hp. destruct (poll c1 (cancel_source s2)) as [[c2 s3] [called|]] eqn:Ec'; simplify_eq.
      apply await_call_answers in Ha as (called & Ha & ->). exists e, s2, called, written.
      split_and!; [eapply answers_later; [exact Ec|by eapply answers_later]|by eapply answers_now|].
      specialize (Hw written). destruct (match written with Err e => _ | Ok _ => _ end); naive_solver.
    + destruct (IH c1 h1 eq_refl) as (s3 & s4 & called & written & H1' & H2' & Hres). exists s3, s4, called, written.
      split_and!; [by eapply answers_later..|done].
Qed.

End CallService.
Arguments Calls : clear implicits.

(** ** The exchange *)

Section Exchange.
Context {FR FC FW S Resp U : Type}.
Context `{Future FR S (ReceiveEnd * RecvBuffer)} `{Future FC S (result Resp Error)} `{Future FW S (result ExchangePolicy Error)}.
Context `{ServerScope S} (send_response : Resp -> FW) (upgrade : U).

Definition Served : Type := result (ExchangeResult U) Error * RecvBuffer.

(** The request's reception: running, or its answer. *)
Inductive Reception : Type :=
| Receiving (receive : FR)
| Got (received : ReceiveEnd * RecvBuffer).

Inductive Serving : Type :=
| ServeCall (receive : FR) (call : FC)
| CallAfter (received : ReceiveEnd * RecvBuffer) (call : FC)
| CallFailing (e : Error) (buffer : RecvBuffer) (call : FC)
| SendBoth (receive : FR) (send : FW)
| SendAfter (received : ReceiveEnd * RecvBuffer) (send : FW)
| SendFailing (e : Error) (buffer : RecvBuffer) (send : FW)
| ReceiveLast (sent : result ExchangePolicy Error) (receive : FR)
| ServeDone.

(** The verdict once both directions have settled. *)
Definition served (sent : result ExchangePolicy Error) (received : ReceiveEnd * RecvBuffer) (s : S) : Served :=
  (match sent with
   | Err e => Err e
   | Ok state => finish_exchange (fst received) state (close_flag s) upgrade
   end, snd received).

Definition done_ (s : S) (r : Served) : Serving * S * Poll Served := (ServeDone, s, Ready r).

Definition receive_last (sent : result ExchangePolicy Error) (receive : FR) (s : S) : Serving * S * Poll Served :=
  let '(receive, s, r) := poll receive s in
  match r with
  | Pending => (ReceiveLast sent receive, s, Pending)
  | Ready received => done_ s (served sent received s)
  end.

(** [sent] is known. *)
Definition after_send (sent : result ExchangePolicy Error) (reception : Reception) (s : S) : Serving * S * Poll Served :=
  let s := match sent with Err _ => cancel_source s | Ok _ => s end in
  match reception with
  | Got received => done_ s (served sent received s)
  | Receiving receive => receive_last sent receive s
  end.

Definition send_after (received : ReceiveEnd * RecvBuffer) (send : FW) (s : S) : Serving * S * Poll Served :=
  let '(send, s, r) := poll send s in
  match r with
  | Pending => (SendAfter received send, s, Pending)
  | Ready sent => after_send sent (Got received) s
  end.

Definition send_failing (e : Error) (buffer : RecvBuffer) (send : FW) (s : S) : Serving * S * Poll Served :=
  let '(send, s, r) := poll send s in
  match r with
  | Pending => (SendFailing e buffer send, s, Pending)
  | Ready _ => done_ s (Err e, buffer)
  end.

Definition send_both (receive : FR) (send : FW) (s : S) : Serving * S * Poll Served :=
  let '(rs, s, r) := poll (receive, send) s in
  match r with
  | Pending => (SendBoth (fst rs) (snd rs), s, Pending)
  | Ready (First (FailedEnd e, buffer)) => send_failing e buffer (snd rs) (cancel_source s)
  | Ready (First received) => send_after received (snd rs) s
  | Ready (Second sent) => after_send sent (Receiving (fst rs)) s
  end.

(** The response is selected: body abandonment is observed, by one poll, before
    its head is committed. *)
Definition selected (response : Resp) (reception : Reception) (s : S) : Serving * S * Poll Served :=
  let '(reception, s) :=
    match reception with
    | Got received => (Got received, s)
    | Receiving receive =>
        let '(receive, s, r) := poll receive s in
        (match r with Ready received => Got received | Pending => Receiving receive end, s)
    end in
  match reception with
  | Got (FailedEnd e, buffer) => done_ s (Err e, buffer)
  | Got (AbandonedEnd, buffer) => send_after (AbandonedEnd, buffer) (send_response response) (set_close s)
  | Got (Complete, buffer) => send_after (Complete, buffer) (send_response response) s
  | Receiving receive => send_both receive (send_response response) s
  end.

Definition after_call (called : result Resp Error) (reception : Reception) (s : S) : Serving * S * Poll Served :=
  match called with
  | Ok response => selected response reception s
  | Err e =>
      let s := cancel_source s in
      match reception with
      | Got received => done_ s (Err e, snd received)
      | Receiving receive => receive_last (Err e) receive s
      end
  end.

Definition call_after (received : ReceiveEnd * RecvBuffer) (call : FC) (s : S) : Serving * S * Poll Served :=
  let '(call, s, r) := poll call s in
  match r with
  | Pending => (CallAfter received call, s, Pending)
  | Ready called => after_call called (Got received) s
  end.

Definition call_failing (e : Error) (buffer : RecvBuffer) (call : FC) (s : S) : Serving * S * Poll Served :=
  let '(call, s, r) := poll call s in
  match r with
  | Pending => (CallFailing e buffer call, s, Pending)
  | Ready _ => done_ s (Err e, buffer)
  end.

Definition serve_call (receive : FR) (call : FC) (s : S) : Serving * S * Poll Served :=
  let '(rc, s, r) := poll (receive, call) s in
  match r with
  | Pending => (ServeCall (fst rc) (snd rc), s, Pending)
  | Ready (First (FailedEnd e, buffer)) => call_failing e buffer (snd rc) (cancel_source s)
  | Ready (First received) => call_after received (snd rc) s
  | Ready (Second called) => after_call called (Receiving (fst rc)) s
  end.

#[export] Instance serve : Future Serving S Served := fun x s =>
  match x with
  | ServeCall receive call => serve_call receive call s
  | CallAfter received call => call_after received call s
  | CallFailing e buffer call => call_failing e buffer call s
  | SendBoth receive send => send_both receive send s
  | SendAfter received send => send_after received send s
  | SendFailing e buffer send => send_failing e buffer send s
  | ReceiveLast sent receive => receive_last sent receive s
  | ServeDone => (ServeDone, s, Pending)
  end.

(** ** The start of an exchange *)

Section Start.
Context {http : HttpCrate} {TlsInfo C : Type}.

(** What [exchange] sets up before anything is polled: the policy, what the
    final head depends on, the context's shared cells, whether a body is to be
    received, and the request handed to the service. *)
Record Started := mkStarted {
  st_policy : ExchangePolicy;
  st_method : Method;
  st_version : Version;
  st_expect_continue : bool;
  st_context : @Context.Shared (Server.Response unit);
  st_producer : bool;
  st_request : RequestMessage TlsInfo (Incoming C);
}.

Definition start_exchange (config : ServerConfig) (tls_info : option TlsInfo) (head : ValidatedRequestHead) (c : C) : Started :=
  let version := req_version (vreq_head head) in
  let '(producer, body) := incoming (vreq_body head) c in
  mkStarted (exchange_new head (informational_limit (protocol (server_settings config)))) (req_method (vreq_head head)) version
    (bool_decide (vreq_expectation head = ExpectContinue) && bool_decide (version = HTTP_11))
    (Context.channel (bool_decide (vreq_persistence head = Syntax.Close))) producer
    (request_message tls_info (vreq_head head) body config).

(** The exchange before its first poll. *)
Definition exchange (activities : Started -> FR * FC) (config : ServerConfig) (tls_info : option TlsInfo)
    (head : ValidatedRequestHead) (c : C) : Serving :=
  let '(receive, call) := activities (start_exchange config tls_info head c) in ServeCall receive call.

End Start.

(** ** How each state may end *)

Definition failed_reception (received : ReceiveEnd * RecvBuffer) (out : Served) : Prop :=
  exists e, fst received = FailedEnd e /\ out = (Err e, snd received).

Definition sends (received : ReceiveEnd * RecvBuffer) (send : FW) (e : S) (out : Served) : Prop :=
  exists s1 sent, answers send s1 sent /\ out = served sent received e.

(** The verdict on a call and a reception that have both settled. *)
Definition verdict (called : result Resp Error) (received : ReceiveEnd * RecvBuffer) (e : S) (out : Served) : Prop :=
  failed_reception received out \/ (exists x, called = Err x /\ out = (Err x, snd received)) \/
  (exists response, called = Ok response /\ sends received (send_response response) e out).

Definition ends_with (x : Serving) (e : S) (out : Served) : Prop :=
  match x with
  | ServeCall receive call =>
      exists s1 s2 received called, answers receive s1 received /\ answers call s2 called /\ verdict called received e out
  | CallAfter received call => exists s2 called, answers call s2 called /\ verdict called received e out
  | CallFailing x buffer call => (exists s2 called, answers call s2 called) /\ out = (Err x, buffer)
  | SendBoth receive send =>
      exists s1 received, answers receive s1 received /\ (failed_reception received out \/ sends received send e out)
  | SendAfter received send => sends received send e out
  | SendFailing x buffer _ => out = (Err x, buffer)
  | ReceiveLast sent receive => exists s1 received, answers receive s1 received /\ out = served sent received e
  | ServeDone => False
  end.

(** One poll towards [P]. *)
Definition steps (P : S -> Served -> Prop) (a : Serving * S * Poll Served) : Prop :=
  let '(x, s, r) := a in
  match r with Ready out => P s out | Pending => forall e out, ends_with x e out -> P e out end.

Lemma steps_impl (P Q : S -> Served -> Prop) a : steps P a -> (forall e out, P e out -> Q e out) -> steps Q a.
Proof. destruct a as [[x s] [out|]]; simpl; auto. Qed.

Lemma receive_last_steps sent receive s : steps (ends_with (ReceiveLast sent receive)) (receive_last sent receive s).
Proof.
  unfold receive_last. destruct (poll receive s) as [[f s1] [received|]] eqn:Er; simpl.
  - exists s1, received. split; [by eapply answers_now|done].
  - intros e out (s2 & received & Ha & ->). exists s2, received. split; [by eapply answers_later|done].
Qed.

Lemma send_after_steps received send s : steps (sends received send) (send_after received send s).
Proof.
  unfold send_after. destruct (poll send s) as [[f s1] [sent|]] eqn:Es; simpl.
  - exists s1, sent. split; [by eapply answers_now|]. by destruct sent.
  - intros e out (s2 & sent & Ha & ->). exists s2, sent. split; [by eapply answers_later|done].
Qed.

Lemma send_failing_steps x buffer send s : steps (fun _ out => out = (Err x, buffer)) (send_failing x buffer send s).
Proof. unfold send_failing. by destruct (poll send s) as [[f s1] [sent|]] eqn:Es; simpl. Qed.

Lemma send_both_steps receive send s : steps (ends_with (SendBoth receive send)) (send_both receive send s).
Proof.
  unfold send_both. unfold poll at 1, race. simpl. destruct (poll receive s) as [[f s1] [received|]] eqn:Er; simpl.
  - assert (Hgot : forall P a, steps P a -> (forall e out, P e out -> failed_reception received out \/ sends received send e out) ->
      steps (fun e out => exists s1 received, answers receive s1 received /\ (failed_reception received out \/ sends received send e out)) a).
    { intros P a Ha Hp. apply (steps_impl P); [done|]. intros e out Hout. exists s1, received. split; [by eapply answers_now|auto]. }
    destruct received as [[| |x] buffer].
    + eapply Hgot; [apply send_after_steps|auto].
    + eapply Hgot; [apply send_after_steps|auto].
    + eapply Hgot; [apply send_failing_steps|]. intros e out ->. left. by exists x.
  - destruct (poll send s1) as [[g s2] [sent|]] eqn:Es; simpl.
    + eapply steps_impl; [apply receive_last_steps|]. intros e out (s3 & received & Ha & ->). exists s3, received.
      split; [by eapply answers_later|right]. exists s2, sent. split; [by eapply answers_now|done].
    + intros e out (s3 & received & Ha & Hs). exists s3, received. split; [by eapply answers_later|].
      destruct Hs as [?|(s4 & sent & Hs & ->)]; [by left|right]. exists s4, sent. split; [by eapply answers_later|done].
Qed.

(** A selected response, with its reception. *)
Definition reception_answers (reception : Reception) (s : S) (received : ReceiveEnd * RecvBuffer) : Prop :=
  match reception with Got r => r = received | Receiving receive => answers receive s received end.

Lemma selected_steps response reception s :
  steps (fun e out => exists s1 received, reception_answers reception s1 received /\
           (failed_reception received out \/ sends received (send_response response) e out))
    (selected response reception s).
Proof.
  assert (Hgot : forall s1 s2 received, reception_answers reception s1 received ->
    steps (fun e out => exists s1 received, reception_answers reception s1 received /\
             (failed_reception received out \/ sends received (send_response response) e out))
      (match fst received with
       | FailedEnd x => done_ s2 (Err x, snd received)
       | AbandonedEnd => send_after received (send_response response) (set_close s2)
       | Complete => send_after received (send_response response) s2
       end)).
  { intros s1 s2 [[| |x] buffer] Ha; simpl.
    - eapply steps_impl; [apply send_after_steps|]. intros e out Hs. exists s1, (Complete, buffer). auto.
    - eapply steps_impl; [apply send_after_steps|]. intros e out Hs. exists s1, (AbandonedEnd, buffer). auto.
    - exists s1, (FailedEnd x, buffer). split; [done|left]. by exists x. }
  unfold selected. destruct reception as [receive|received].
  - destruct (poll receive s) as [[f s1] [received|]] eqn:Er.
    + specialize (Hgot s1 s1 received (answers_now _ _ _ _ _ Er)). by destruct received as [[| |x] buffer].
    + eapply steps_impl; [apply send_both_steps|]. intros e out (s2 & received & Ha & Hs). exists s2, received.
      split; [by eapply answers_later|done].
  - specialize (Hgot s s received eq_refl). by destruct received as [[| |x] buffer].
Qed.

Lemma after_call_steps called reception s :
  steps (fun e out => exists s1 received, reception_answers reception s1 received /\ verdict called received e out)
    (after_call called reception s).
Proof.
  unfold after_call, verdict. destruct called as [response|x].
  - eapply steps_impl; [apply selected_steps|]. intros e out (s1 & received & Ha & Hs). exists s1, received. split; [done|].
    destruct Hs as [?|?]; [by left|right; right]. by exists response.
  - destruct reception as [receive|received].
    + eapply steps_impl; [apply receive_last_steps|]. intros e out (s1 & received & Ha & ->). exists s1, received.
      split; [done|right; left]. by exists x.
    + exists s, received. split; [done|right; left]. by exists x.
Qed.

Lemma call_after_steps received call s : steps (ends_with (CallAfter received call)) (call_after received call s).
Proof.
  unfold call_after. destruct (poll call s) as [[f s1] [called|]] eqn:Ec.
  - eapply steps_impl; [apply after_call_steps|]. intros e out (s2 & received' & <- & Hv). exists s1, called.
    split; [by eapply answers_now|done].
  - intros e out (s2 & called & Ha & Hv). exists s2, called. split; [by eapply answers_later|done].
Qed.

Lemma call_failing_steps x buffer call s : steps (ends_with (CallFailing x buffer call)) (call_failing x buffer call s).
Proof.
  unfold call_failing. destruct (poll call s) as [[f s1] [called|]] eqn:Ec; simpl.
  - split; [exists s1, called; by eapply answers_now|done].
  - intros e out [(s2 & called & Ha) ->]. split; [exists s2, called; by eapply answers_later|done].
Qed.

Lemma serve_call_steps receive call s : steps (ends_with (ServeCall receive call)) (serve_call receive call s).
Proof.
  unfold serve_call. unfold poll at 1, race. simpl. destruct (poll receive s) as [[f s1] [received|]] eqn:Er; simpl.
  - assert (Hgot : steps (fun e out => exists s1 s2 received called, answers receive s1 received /\ answers call s2 called /\
      verdict called received e out) (call_after received call s1)).
    { eapply steps_impl; [apply call_after_steps|]. intros e out (s2 & called & Ha & Hv). exists s1, s2, received, called.
      split_and!; [by eapply answers_now|done..]. }
    destruct received as [[| |x] buffer]; [exact Hgot|exact Hgot|].
    eapply steps_impl; [apply call_failing_steps|]. intros e out [(s2 & called & Ha) ->].
    exists s1, s2, (FailedEnd x, buffer), called. split_and!; [by eapply answers_now|done|left]. by exists x.
  - destruct (poll call s1) as [[g s2] [called|]] eqn:Ec; simpl.
    + eapply steps_impl; [apply after_call_steps|]. intros e out (s3 & received & Ha & Hv). exists s3, s2, received, called.
      split_and!; [by eapply answers_later|by eapply answers_now|done].
    + intros e out (s3 & s4 & received & called & H1' & H2' & Hv). exists s3, s4, received, called.
      split_and!; [by eapply answers_later..|done].
Qed.

Lemma serve_steps x s : steps (ends_with x) (poll x s).
Proof.
  unfold poll, serve. destruct x; [apply serve_call_steps|apply call_after_steps|apply call_failing_steps|apply send_both_steps
    |apply send_after_steps|apply send_failing_steps|apply receive_last_steps|by intros e out].
Qed.

Lemma serve_answers x e out : answers x e out -> ends_with x e out.
Proof.
  induction 1 as [x s x' e out Hp|x s x' s' e out Hp _ IH]; pose proof (serve_steps x s) as Hs; rewrite Hp in Hs; [done|].
  by apply Hs.
Qed.

(** ** Liveness *)

#[local] Arguments ready_within : simpl never.

(** After one poll, an answer or a state that has one within [n] more. *)
Definition within (n : nat) (a : Serving * S * Poll Served) : Prop :=
  let '(x, s, r) := a in match r with Ready _ => True | Pending => ready_within n x end.

Lemma within_ready n x : (forall s, within n (poll x s)) -> ready_within (Datatypes.S n) x.
Proof. intros Hx s. specialize (Hx s). by destruct (poll x s) as [[x' s'] [out|]]. Qed.

Lemma within_le n m a : (n <= m)%nat -> within n a -> within m a.
Proof. intros Hle. destruct a as [[x s] [out|]]; simpl; [done|]. by apply ready_within_le. Qed.

(** A future of at least one poll, polled. *)
Lemma ready_poll {F A} `{Future F S A} n (f : F) s :
  ready_within n f -> exists n', n = Datatypes.S n' /\ match poll f s with (f', _, Pending) => ready_within n' f' | _ => True end.
Proof. destruct n as [|n]; [done|]. intros Hf. exists n. split; [done|]. specialize (Hf s). by destruct (poll f s) as [[f' s'] [a|]]. Qed.

Lemma receive_last_within n sent receive s : ready_within n receive -> within (pred n) (receive_last sent receive s).
Proof.
  revert receive s. induction n as [|n IH]; intros f s Hf; [done|]. destruct (ready_poll _ _ s Hf) as (n' & [= <-] & Hp).
  unfold receive_last. destruct (poll f s) as [[f1 s1] [r|]]; [done|]. simpl.
  destruct n as [|n]; [done|]. apply within_ready. intros s2. by apply IH.
Qed.

Lemma send_after_within n received send s : ready_within n send -> within (pred n) (send_after received send s).
Proof.
  revert send s. induction n as [|n IH]; intros f s Hf; [done|]. destruct (ready_poll _ _ s Hf) as (n' & [= <-] & Hp).
  unfold send_after. destruct (poll f s) as [[f1 s1] [r|]]; [done|]. simpl.
  destruct n as [|n]; [done|]. apply within_ready. intros s2. by apply IH.
Qed.

Lemma send_failing_within n e buffer send s : ready_within n send -> within (pred n) (send_failing e buffer send s).
Proof.
  revert send s. induction n as [|n IH]; intros f s Hf; [done|]. destruct (ready_poll _ _ s Hf) as (n' & [= <-] & Hp).
  unfold send_failing. destruct (poll f s) as [[f1 s1] [r|]]; [done|]. simpl.
  destruct n as [|n]; [done|]. apply within_ready. intros s2. by apply IH.
Qed.

Lemma call_failing_within n e buffer call s : ready_within n call -> within (pred n) (call_failing e buffer call s).
Proof.
  revert call s. induction n as [|n IH]; intros f s Hf; [done|]. destruct (ready_poll _ _ s Hf) as (n' & [= <-] & Hp).
  unfold call_failing. destruct (poll f s) as [[f1 s1] [r|]]; [done|]. simpl.
  destruct n as [|n]; [done|]. apply within_ready. intros s2. by apply IH.
Qed.

Lemma send_both_within n k receive send s :
  ready_within n receive -> ready_within k send -> within (pred (n + k)) (send_both receive send s).
Proof.
  revert n receive send s. induction k as [|k IH]; intros n f g s Hf Hg; [done|].
  destruct (ready_poll _ _ s Hf) as (n' & -> & Hp). unfold send_both. unfold poll at 1, race. simpl.
  destruct (poll f s) as [[f1 s1] [received|]]; simpl.
  - destruct received as [[| |x] buffer]; (eapply within_le; [|first [by apply send_after_within|by apply send_failing_within]]; lia).
  - destruct (ready_poll _ _ s1 Hg) as (k' & [= <-] & Hq). destruct (poll g s1) as [[g1 s2] [sent|]]; simpl.
    + eapply within_le; [|by apply receive_last_within]; lia.
    + rewrite Nat.add_succ_r. apply within_ready. intros s3. eapply within_le; [|by apply IH]; lia.
Qed.

Context (k : nat) (Hsend : forall response, ready_within k (send_response response)).

Lemma after_call_within n called reception s :
  (forall receive, reception = Receiving receive -> ready_within n receive) -> within (n + k) (after_call called reception s).
Proof using Hsend.
  intros Hr. unfold after_call. destruct called as [response|x].
  - specialize (Hsend response). unfold selected. destruct reception as [receive|[[| |x] buffer]].
    + destruct (ready_poll _ _ s (Hr receive eq_refl)) as (n' & -> & Hp).
      destruct (poll receive s) as [[f1 s1] [[[| |x] buffer]|]]; [eapply within_le; [|by apply send_after_within]; lia..|done|].
      eapply within_le; [|by apply send_both_within]; lia.
    + eapply within_le; [|by apply send_after_within]; lia.
    + eapply within_le; [|by apply send_after_within]; lia.
    + done.
  - destruct reception as [receive|received]; [|done].
    eapply within_le; [|by apply receive_last_within, Hr]; lia.
Qed.

Lemma call_after_within m received call s : ready_within m call -> within (m + k) (call_after received call s).
Proof using Hsend.
  revert call s. induction m as [|m IH]; intros f s Hf; [done|]. destruct (ready_poll _ _ s Hf) as (m' & [= <-] & Hp).
  unfold call_after. destruct (poll f s) as [[f1 s1] [called|]].
  - eapply within_le; [|by apply (after_call_within 0)]; lia.
  - apply within_ready. intros s2. by apply IH.
Qed.

Lemma serve_call_within n m receive call s :
  ready_within n receive -> ready_within m call -> within (n + m + k) (serve_call receive call s).
Proof using Hsend.
  revert n receive call s. induction m as [|m IH]; intros n f g s Hf Hg; [done|].
  destruct (ready_poll _ _ s Hf) as (n' & -> & Hp). unfold serve_call. unfold poll at 1, race. simpl.
  destruct (poll f s) as [[f1 s1] [received|]]; simpl.
  - destruct received as [[| |x] buffer];
      [eapply within_le; [|by apply call_after_within]; lia..|eapply within_le; [|by apply call_failing_within]; lia].
  - destruct (ready_poll _ _ s1 Hg) as (m' & [= <-] & Hq). destruct (poll g s1) as [[g1 s2] [called|]]; simpl.
    + eapply within_le; [|apply (after_call_within n'); by intros ? [= <-]]; lia.
    + apply (ready_within_le (Datatypes.S (n' + m + k))); [lia|]. apply within_ready. intros s3. by apply IH.
Qed.

End Exchange.

Section Properties.
Context {FR FS FH FW S Resp U : Type}.
Context `{Future FR S (ReceiveEnd * RecvBuffer)} `{Future FS S (option (result Resp StdError))} `{Future FH S (result unit Error)}.
Context `{Future FW S (result ExchangePolicy Error)} `{ServerScope S} (send_response : Resp -> FW) (upgrade : U).

(** C13: A server exchange settles every direction. However the reception of the
    request, the service, the informational writer and the response's
    transmission interleave, fail or are canceled, the exchange answers only
    after the reception, the service's call and the informational writer have
    each answered, returns the receive buffer of that reception on every path,
    transmits exactly the response the service selected, and reports a failed
    reception, a failed call or a failed transmission as it was; otherwise its
    outcome is the policy's verdict. *)
Theorem serve_settles {http : HttpCrate} {TlsInfo C : Type} activities config (tls_info : option TlsInfo) head (c : C)
    receive call heads e out :
  activities (start_exchange config tls_info head c) = (receive, Calling call heads) ->
  answers (H := serve send_response upgrade) (exchange activities config tls_info head c) e out ->
  exists s1 received called, answers receive s1 received /\ both_called call heads called /\
    snd out = snd received /\ verdict send_response upgrade called received e out.
Proof.
  intros Ha. unfold exchange. rewrite Ha. intros (s1 & s2 & received & called & Hr & Hc & Hv)%serve_answers. apply calling_answers in Hc.
  exists s1, received, called. split_and!; [done..| |done].
  destruct Hv as [(x & _ & ->)|[(x & _ & ->)|(response & _ & s3 & sent & _ & ->)]]; done.
Qed.

(** A server exchange ends. When the reception, the call of the service and
    every transmission end within some number of turns, the exchange ends within
    their sum. *)
Theorem serve_ends {FC : Type} `{Future FC S (result Resp Error)} n m k (receive : FR) (call : FC) :
  (forall response, ready_within k (send_response response)) -> ready_within n receive -> ready_within m call ->
  ready_within (H := serve send_response upgrade) (Datatypes.S (n + m + k)) (ServeCall receive call).
Proof. intros Hs Hr Hc. apply within_ready. intros s. by apply serve_call_within. Qed.

End Properties.

(** When a server connection may be used again. An exchange is settled as
    reusable only when the request was received to its end, neither the request,
    the response nor the service asked to close, and the final head was sent; an
    abandoned request always closes the connection, and only a request received
    to its end leaves the transport recoverable. *)
Theorem finish_reusable {U} end_ state close (upgrade : U) x :
  finish_exchange end_ state close upgrade = Ok x ->
  (er_outcome x = OutcomeReusable ->
     end_ = Complete /\ close = false /\ phase state = PhaseFinal /\ ex_persistence state = Reusable) /\
  (end_ = AbandonedEnd -> er_outcome x = OutcomeClose) /\ (er_recoverable x = true <-> end_ = Complete) /\
  er_upgrade x = upgrade.
Proof.
  unfold finish_exchange. destruct end_ as [| |e]; simpl; [|intros [= <-]; done|done].
  unfold exchange_finish. simpl. destruct close, (phase state) eqn:Ep; simpl; rewrite ?Ep; try done; try (intros [= <-]; done).
  destruct (ex_persistence state) eqn:Eq; intros [= <-]; done.
Qed.

(** ** What an exchange takes from the connection

    [view] is what only the reception changes; [live] holds of a reception under
    way, [taken] of its answer once it has been given. *)

Section Reception.
Context {FR FC FW S Resp U V : Type}.
Context `{Future FR S (ReceiveEnd * RecvBuffer)} `{Future FC S (result Resp Error)} `{Future FW S (result ExchangePolicy Error)}.
Context `{ServerScope S} (send_response : Resp -> FW) (upgrade : U).
Context (view : S -> V) (live : FR -> V -> Prop) (taken : ReceiveEnd * RecvBuffer -> V -> Prop).
Context (Hreceive : forall f s, live f (view s) ->
  match poll f s with (f', s', Pending) => live f' (view s') | (_, s', Ready r) => taken r (view s') end).
Context (Hcall : forall (c : FC) s, view (snd (fst (poll c s))) = view s).
Context (Hsend : forall (f : FW) s, view (snd (fst (poll f s))) = view s).
Context (Hcancel : forall s, view (cancel_source s) = view s) (Hclose : forall s, view (set_close s) = view s).

(** The receive buffer returned is the reception's, and a reusable exchange has
    received its request to the end. *)
Definition took (s : S) (out : @Served U) : Prop :=
  exists received, taken received (view s) /\ snd out = snd received /\
    forall x, fst out = Ok x -> er_outcome x = OutcomeReusable -> fst received = Complete.

Definition taking (x : @Serving FR FC FW) (s : S) : Prop :=
  match x with
  | ServeCall receive _ | SendBoth receive _ | ReceiveLast _ receive => live receive (view s)
  | CallAfter received _ | SendAfter received _ => taken received (view s)
  | CallFailing _ buffer _ | SendFailing _ buffer _ => exists received, taken received (view s) /\ buffer = snd received
  | ServeDone => False
  end.

Definition takes (a : @Serving FR FC FW * S * Poll (@Served U)) : Prop :=
  match a with
  | (x, s, Pending) => taking x s
  | (_, s, Ready out) => took s out
  end.

Lemma took_failed received s e : taken received (view s) -> took s (Err e, snd received).
Proof. intros Ht. by exists received. Qed.

Lemma took_served sent received s : taken received (view s) -> took s (served upgrade sent received s).
Proof.
  intros Ht. exists received. split_and!; [done..|]. intros x. destruct sent as [state|e]; [|done]. simpl. intros Hf Ho.
  by destruct (proj1 (finish_reusable _ _ _ _ _ Hf) Ho) as (? & _).
Qed.

Lemma receive_last_takes sent receive s : live receive (view s) -> takes (receive_last upgrade sent receive s).
Proof.
  intros Hl. unfold receive_last. pose proof (Hreceive receive s Hl) as Hr. destruct (poll receive s) as [[f1 s1] [r|]]; [|done].
  by apply took_served.
Qed.

Lemma after_send_takes sent reception s :
  match reception with Got received => taken received (view s) | Receiving f => live f (view s) end ->
  takes (after_send upgrade sent reception s).
Proof.
  unfold after_send. intros Hr. set (s1 := match sent with Err _ => _ | Ok _ => _ end).
  assert (view s1 = view s) as Hv by (subst s1; destruct sent; [done|apply Hcancel]). destruct reception as [f|received].
  - apply receive_last_takes. by rewrite Hv.
  - apply took_served. by rewrite Hv.
Qed.

Lemma send_after_takes received send s : taken received (view s) -> takes (send_after upgrade received send s).
Proof.
  intros Ht. unfold send_after. pose proof (Hsend send s) as Hv. destruct (poll send s) as [[f1 s1] [r|]]; simpl in Hv; [|simpl; by rewrite Hv].
  apply after_send_takes. by rewrite Hv.
Qed.

Lemma send_failing_takes e received send s : taken received (view s) -> takes (send_failing e (snd received) send s).
Proof.
  intros Ht. unfold send_failing. pose proof (Hsend send s) as Hv. destruct (poll send s) as [[f1 s1] [r|]]; simpl in Hv.
  - apply took_failed. by rewrite Hv.
  - exists received. by rewrite Hv.
Qed.

Lemma send_both_takes receive send s : live receive (view s) -> takes (send_both upgrade receive send s).
Proof.
  intros Hl. unfold send_both. unfold poll at 1, race. simpl. pose proof (Hreceive receive s Hl) as Hr.
  destruct (poll receive s) as [[f1 s1] [received|]]; simpl.
  - assert (Hf : forall e, takes (send_failing e (snd received) send (cancel_source s1))).
    { intros e. apply send_failing_takes. by rewrite Hcancel. }
    pose proof (send_after_takes received send s1 Hr) as Ha. destruct received as [[| |e] buffer]; [done..|apply Hf].
  - pose proof (Hsend send s1) as Hv. destruct (poll send s1) as [[f2 s2] [sent|]]; simpl in *.
    + apply (after_send_takes sent (Receiving f1)). by rewrite Hv.
    + by rewrite Hv.
Qed.

Lemma selected_takes response reception s :
  match reception with Got received => taken received (view s) | Receiving f => live f (view s) end ->
  takes (selected send_response upgrade response reception s).
Proof.
  intros Hr. unfold selected. destruct reception as [f|received].
  - pose proof (Hreceive f s Hr) as Hp. destruct (poll f s) as [[f1 s1] [received|]]; [|by apply send_both_takes].
    destruct received as [[| |e] buffer]; [by apply send_after_takes|apply send_after_takes; by rewrite Hclose|by apply (took_failed (FailedEnd e, buffer))].
  - destruct received as [[| |e] buffer]; [by apply send_after_takes|apply send_after_takes; by rewrite Hclose|by apply (took_failed (FailedEnd e, buffer))].
Qed.

Lemma after_call_takes called reception s :
  match reception with Got received => taken received (view s) | Receiving f => live f (view s) end ->
  takes (after_call send_response upgrade called reception s).
Proof.
  intros Hr. unfold after_call. destruct called as [response|e]; [by apply selected_takes|]. destruct reception as [f|received].
  - apply receive_last_takes. by rewrite Hcancel.
  - apply took_failed. by rewrite Hcancel.
Qed.

Lemma call_after_takes received call s : taken received (view s) -> takes (call_after send_response upgrade received call s).
Proof.
  intros Ht. unfold call_after. pose proof (Hcall call s) as Hv. destruct (poll call s) as [[f1 s1] [r|]]; simpl in Hv; [|simpl; by rewrite Hv].
  apply after_call_takes. by rewrite Hv.
Qed.

Lemma call_failing_takes e received call s : taken received (view s) -> takes (call_failing e (snd received) call s).
Proof.
  intros Ht. unfold call_failing. pose proof (Hcall call s) as Hv. destruct (poll call s) as [[f1 s1] [r|]]; simpl in Hv.
  - apply took_failed. by rewrite Hv.
  - exists received. by rewrite Hv.
Qed.

Lemma serve_call_takes receive call s : live receive (view s) -> takes (serve_call send_response upgrade receive call s).
Proof.
  intros Hl. unfold serve_call. unfold poll at 1, race. simpl. pose proof (Hreceive receive s Hl) as Hr.
  destruct (poll receive s) as [[f1 s1] [received|]]; simpl.
  - assert (Hf : forall e, takes (call_failing e (snd received) call (cancel_source s1))).
    { intros e. apply call_failing_takes. by rewrite Hcancel. }
    pose proof (call_after_takes received call s1 Hr) as Ha. destruct received as [[| |e] buffer]; [done..|apply Hf].
  - pose proof (Hcall call s1) as Hv. destruct (poll call s1) as [[f2 s2] [called|]]; simpl in *.
    + apply (after_call_takes called (Receiving f1)). by rewrite Hv.
    + by rewrite Hv.
Qed.

Lemma serve_takes x s : taking x s -> takes (poll (Future := serve send_response upgrade) x s).
Proof.
  destruct x as [receive call|received call|e b call|receive send|received send|e b send|sent receive|]; simpl; intros Hx.
  - by apply serve_call_takes.
  - by apply call_after_takes.
  - destruct Hx as (received & Ht & ->). by apply call_failing_takes.
  - by apply send_both_takes.
  - by apply send_after_takes.
  - destruct Hx as (received & Ht & ->). by apply send_failing_takes.
  - by apply receive_last_takes.
  - done.
Qed.

Context `{Suspends S} (Hsuspend : forall s, view (suspend s) = view s).

Lemma taking_suspend x s : taking x s -> taking x (suspend s).
Proof. destruct x; simpl; rewrite ?Hsuspend; done. Qed.

(** However an exchange ends, the connection gets its reception's buffer. *)
Lemma exchange_takes n x s x' s' r : taking x s ->
  await (H := serve send_response upgrade) n x s = (x', s', r) ->
  match r with Some out => took s' out | None => taking x' s' end.
Proof.
  revert x s. induction n as [|n IH]; intros x s Hx; simpl; [by intros [= <- <- <-]|].
  pose proof (serve_takes x s Hx) as Ht. destruct (poll x s) as [[x1 s1] [out|]]; [by intros [= <- <- <-]|].
  intros Ha. eapply IH; [|exact Ha]. by apply taking_suspend.
Qed.

End Reception.

(** ** Evaluated: a response sent while the request still arrives *)

Section Evaluated.
#[local] Existing Instance delayed.

(** The close flag. *)
#[local] Instance flag_scope : ServerScope bool := {
  select_final s := s;
  cancel_source s := s;
  close_flag s := s;
  set_close _ := true;
}.

Definition final_policy : ExchangePolicy := mkExchangePolicy PhaseFinal Reusable [] None [] 0 1.

Definition send_later (response : nat) : Delayed (result ExchangePolicy Error) := (1%nat, Ok final_policy).

Definition slow_request : Delayed (ReceiveEnd * RecvBuffer) := (4%nat, (Complete, mkRecvBuffer (Portable (mkBytesMut [] 64)) None 64 128)).
Definition quick_service : Delayed (option (result nat StdError)) := (1%nat, Some (Ok 200%nat)).
Definition quiet_heads : Delayed (result unit Error) := (2%nat, Ok tt).

#[local] Existing Instance AssocHttp.

(** A GET without a body. *)
Definition quick_head : ValidatedRequestHead :=
  mkValidatedRequestHead (mkRequestHead GET (simple_uri_path (bs "/")) HTTP_11 [] None) BodyNone Syntax.Reusable Origin ExpectNone None.

Definition quick_activities (_ : @Started AssocHttp unit unit) : Delayed (ReceiveEnd * RecvBuffer) *
    Calls (Delayed (option (result nat StdError))) (Delayed (result unit Error)) nat :=
  (slow_request, Calling quick_service quiet_heads).

Definition quick_exchange : @Serving (Delayed (ReceiveEnd * RecvBuffer))
    (Calls (Delayed (option (result nat StdError))) (Delayed (result unit Error)) nat) (Delayed (result ExchangePolicy Error)) :=
  exchange quick_activities server_config None quick_head tt.

Definition quick_result : @Served unit := (Ok (mkExchangeResult OutcomeReusable tt true), snd (snd slow_request)).

#[local] Instance bool_suspends : Suspends bool := fun s => s.

Lemma quick_answers : answers (H := serve send_later tt) quick_exchange false quick_result.
Proof.
  refine (await_answers (H := serve send_later tt) 9 quick_exchange false ServeDone false quick_result _). vm_compute. reflexivity.
Qed.

Lemma serve_settles_witness :
  exists s1 received called, answers (S := bool) slow_request s1 received /\ both_called (S := bool) quick_service quiet_heads called /\
    snd quick_result = snd received /\ verdict send_later tt called received false quick_result.
Proof.
  exact (serve_settles send_later tt quick_activities server_config None quick_head tt slow_request quick_service quiet_heads
    false quick_result eq_refl quick_answers).
Defined.

Lemma serve_ends_witness :
  ready_within (H := serve (S := bool) send_later tt) 11 (ServeCall slow_request ((2%nat, Ok 200%nat) : Delayed (result nat Error))).
Proof.
  refine (serve_ends send_later tt 5 3 2 slow_request ((2%nat, Ok 200%nat) : Delayed (result nat Error)) _ _ _);
    intros; apply delayed_ready.
Defined.

Lemma finish_reusable_witness :
  (OutcomeReusable = OutcomeReusable ->
     Complete = Complete /\ false = false /\ phase final_policy = PhaseFinal /\ ex_persistence final_policy = Reusable) /\
  (Complete = AbandonedEnd -> OutcomeReusable = OutcomeClose) /\ (true = true <-> Complete = Complete) /\ tt = tt.
Proof. exact (finish_reusable Complete final_policy false tt (mkExchangeResult OutcomeReusable tt true) eq_refl). Defined.

End Evaluated.
