(* ===== verification/Hosting.v ===== *)
(** A server connection from its first request to its last: [run] and
    [run_inner] of src/src/proto/h1/server.rs.

    The exchange is a parameter here (Serving.v composes it); the connection's
    control (Connection.v) and the claim of an upgrade (Upgrade.v) are part of
    the world [W]. *)

From Stdlib Require Import ZArith Lia.
From stdpp Require Import base list option.
From S2P Require Import Prelude Http Errors Upgrade Connection Syntax Decode Scan Validate Body Encode Pipe Send Incoming Recv.
From S2P Require Import Deadline Receive Transfer Exchange Config Heads Scenario Session Server Serving.

(** What a server connection calls; [U] is the claim of an upgrade. *)
Class ServerHost {http : HttpCrate} (W U R Wr : Type) := {
  (** the exchange of one request, with the date cache and the receive buffer;
      [None] is an exchange that does not answer *)
  host_exchange : W -> DateCache -> ValidatedRequestHead -> RecvBuffer ->
    W * DateCache * RecvBuffer * option (result (ExchangeResult U) Error);
  host_fulfill : W -> U -> Upgraded R Wr -> W * result UpgradeKind (Upgraded R Wr);
  host_reader : W -> R;
  host_writer : W -> Wr;
  host_stopping : W -> bool;
  host_recovering : W -> bool;
  (** [connection.stopped()] ends before the read about to start *)
  stopped_first : W -> bool;
}.

Section Hosting.
Context {http : HttpCrate} {hp : Httparse} {alloc : BytesAllocator} {enc_alloc : Encode.Allocator}.
Context {W T U R Wr : Type} `{Runtime W} `{AsyncRead W} `{AsyncWrite W} `{Timer W} `{Clock W} `{ServerClock W T} `{!ServerHost W U R Wr}.
Context (tls : bool) (strategy : Strategy) (config : ServerConfig) (writes : nat).

Inductive HeadEnd : Type :=
| HeadRead (head : ValidatedRequestHead)
| HeadStop
| HeadFail (e : Error).

Definition head_timed_out : Error :=
  with_detail (Error_new Timeout "HTTP head deadline exceeded") (DetailTimeout PhaseHead).
Definition ended_inside_head : Error := Error_new InvalidMessage "connection ended inside a request head".

(** [parser.parse_shared(input).and_then(RequestHead::validate_received)] *)
Definition parse_received (parser : HeadParser) (input : bytes) : HeadParser * result ValidatedRequestHead HeadError :=
  let '(parser, parsed) := parse_request parser input in
  (parser, let? head := parsed in validate_received head).

(** The inner [loop]; [None] is a model run out of turns. *)
Fixpoint request_head_loop (fuel : nat) (w : W) (b : RecvBuffer) (parser : HeadParser) (date : DateCache) (deadline : option Z)
    : W * RecvBuffer * HeadParser * DateCache * option (call HeadEnd) :=
  match fuel with
  | O => (w, b, parser, date, None)
  | S fuel =>
      let stop (w : W) b parser r := (w, b, parser, date, Some (Returns r)) in
      let illegal (w : W) b parser e :=
        let '(w, date, r) := reply_illegal_head config writes w e date in
        (w, b, parser, date, option_map (map_call HeadFail) r) in
      if match deadline with Some d => reached w d | None => false end then stop w b parser (HeadFail head_timed_out)
      else
        let '(parser, found) := head_len parser (recv_bytes b) in
        match found with
        | Err e => illegal w b parser e
        | Ok (Some consumed) =>
            let '(b, input) := take_shared_prefix b consumed in
            match input with
            | Err e => stop w b parser (HeadFail e)
            | Ok input =>
                let '(parser, parsed) := parse_received parser input in
                match parsed with
                | Ok head => stop w b parser (HeadRead head)
                | Err e => illegal w b parser e
                end
            end
        | Ok None =>
            let stopped := stopped_first w in
            let '(w, b, r) := read_until tls strategy (if stopped then request_cancel w else w) b true deadline in
            match r with
            | Panics => (w, b, parser, date, Some Panics)
            | Returns r =>
                if stopped then
                  match r with
                  | Err e => if negb (is_canceled e) then stop w b parser (HeadFail e) else stop w b parser HeadStop
                  | Ok _ => stop w b parser HeadStop
                  end
                else
                  match r with
                  | Err e => stop w b parser (HeadFail e)
                  | Ok StatusEof =>
                      if negb (bool_decide (recv_bytes b = [])) then stop w b parser (HeadFail ended_inside_head)
                      else stop w b parser HeadStop
                  | Ok (StatusData _) => request_head_loop fuel w b parser date deadline
                  end
            end
        end
  end.

Inductive HostEnd : Type :=
| HostHanded (outcome : ConnectionOutcome R Wr)
| HostStopped (buffer : RecvBuffer) (can_recover : bool)
| HostFailed (e : Error).

(** The outer loop. *)
Fixpoint connection_loop (fuel : nat) (w : W) (b : RecvBuffer) (parser : HeadParser) (date : DateCache) (budget : WorkBudget)
    : W * option (call HostEnd) :=
  match fuel with
  | O => (w, None)
  | S fuel =>
      let '(budget, w) := budget_step budget w in
      if host_stopping w then (w, Some (Returns (HostStopped b true)))
      else
        match configured_after w (head_timeout (server_settings config)) with
        | Err e => (w, Some (Returns (HostFailed e)))
        | Ok deadline =>
            let '(w, b, parser, date, found) := request_head_loop fuel w b parser date deadline in
            match found with
            | None => (w, None)
            | Some Panics => (w, Some Panics)
            | Some (Returns (HeadFail e)) => (w, Some (Returns (HostFailed e)))
            | Some (Returns HeadStop) => (w, Some (Returns (HostStopped b true)))
            | Some (Returns (HeadRead head)) =>
                let '(w, date, b, r) := host_exchange w date head b in
                match r with
                | None => (w, None)
                | Some (Err e) => (w, Some (Returns (HostFailed e)))
                | Some (Ok x) =>
                    match er_outcome x with
                    | OutcomeHandoff k =>
                        let u := mkUpgraded (host_reader w) (host_writer w) (snd (take_all b)) k in
                        let '(w, claimed) := host_fulfill w (er_upgrade x) u in
                        (w, Some (Returns (HostHanded (match claimed with Ok k => UpgradeClaimed k | Err u => ConnectionUpgraded u end))))
                    | OutcomeClose => (w, Some (Returns (HostStopped b (er_recoverable x))))
                    | OutcomeReusable => connection_loop fuel w b parser date budget
                    end
                end
            end
        end
  end.

Definition host_inner (fuel : nat) (w : W) : W * option (call (result (ConnectionOutcome R Wr) Error)) :=
  let settings := server_settings config in
  match RecvBuffer_new (Config.preferred_read settings) (Config.max_retained settings) with
  | Err e => (w, Some (Returns (Err e)))
  | Ok buffer =>
      let parser := Scan.with_preserved_header_case (HeadParser_with_limits (head_limits (protocol settings)))
        (Config.preserve_header_case (protocol settings)) in
      let '(w, ended) := connection_loop fuel w buffer parser DateCache_default WorkBudget_new in
      match ended with
      | None => (w, None)
      | Some Panics => (w, Some Panics)
      | Some (Returns (HostFailed e)) => (w, Some (Returns (Err e)))
      | Some (Returns (HostHanded outcome)) => (w, Some (Returns (Ok outcome)))
      | Some (Returns (HostStopped buffer can_recover)) =>
          if host_recovering w && can_recover then
            (w, Some (Returns (Ok (Recovered (mkParts (host_reader w) (host_writer w) (snd (take_all buffer)))))))
          else
            let '(w, shut) := aw_shutdown w in
            (w, Some (Returns (match shut with Err e => Err (from_io tls e) | Ok _ => Ok ConnectionClosed end)))
      end
  end.

(** [run]: [aborted] is the kind [drive] was asked to abort with. *)
Definition host_run (fuel : nat) (aborted : W -> option ErrorKind) (w : W)
    : W * option (call (result (ConnectionOutcome R Wr) Error)) :=
  let '(w, r) := host_inner fuel w in
  (w, option_map (map_call (drive_result (aborted w))) r).

End Hosting.

(** ** Requests on a stream *)

Section Talk.
Context {http : HttpCrate} {hp : Httparse} (body_of : ValidatedRequestHead -> bytes -> Prop) (p0 : HeadParser).

(** The requests [vs] are those at the front of the stream, in order: each is
    parsed from one head by [p0], and what lies between two heads is a body of
    the first. *)
Inductive talk : bytes -> list ValidatedRequestHead -> Prop :=
| talk_nothing rest : talk rest []
| talk_last h vh rest : one_head p0 h -> snd (parse_received p0 h) = Ok vh -> talk (h ++ rest) [vh]
| talk_next h vh m rest vs : one_head p0 h -> snd (parse_received p0 h) = Ok vh -> body_of vh m -> talk rest vs ->
    talk (h ++ m ++ rest) (vh :: vs).

End Talk.

(** ** What a connection serves

    Documented behaviour of the host: [requests] is the heads its exchanges were
    given, and an exchange takes from the connection what its reception took:
    the body of its request, when the connection is to be used again. *)

Class HostLaws {http : HttpCrate} (W : Type) {U R Wr : Type}
    `{Runtime W} `{AsyncRead W} `{!Reads W} `{AsyncWrite W} `{Timer W} `{!ServerHost W U R Wr} := {
  requests : W -> list ValidatedRequestHead;
  request_body : ValidatedRequestHead -> bytes -> Prop;
  seen w := (received w, requests w);
  law_host_yield w : seen (rt_yield w) = seen w;
  law_host_cancel w : seen (request_cancel w) = seen w;
  law_host_read w n : requests (fst (ar_read w n)) = requests w;
  law_host_managed w n : requests (fst (ar_read_managed w n)) = requests w;
  law_host_write w b : seen (fst (aw_write w b)) = seen w;
  law_host_flush w : seen (fst (aw_flush w)) = seen w;
  law_host_shutdown w : seen (fst (aw_shutdown w)) = seen w;
  law_host_fulfill w u x : seen (fst (host_fulfill w u x)) = seen w;
  law_host_exchange w date vh b w' date' b' r :
    wf_recv b -> mode_ok (vreq_body vh) -> host_exchange w date vh b = (w', date', b', r) ->
    wf_recv b' /\ requests w' = requests w ++ [vh] /\
    exists input, received w' = received w ++ input /\
      forall x, r = Some (Ok x) -> er_outcome x = OutcomeReusable ->
        exists m, recv_bytes b ++ input = m ++ recv_bytes b' /\ request_body vh m;
}.

Section Hosted.
Context {http : HttpCrate} {hp : Httparse} {alloc : BytesAllocator} {enc_alloc : Encode.Allocator}.
Context {W T U R Wr : Type} `{Runtime W} `{AsyncRead W} `{!Reads W} `{AsyncWrite W} `{Timer W} `{Clock W} `{ServerClock W T}.
Context `{!ServerHost W U R Wr} `{!HostLaws W}.
Context (tls : bool) (strategy : Strategy) (config : ServerConfig) (writes : nat) (p0 : HeadParser).

Lemma parse_received_fresh p h : fresh p = fresh p0 -> parse_received p h = (fresh p0, snd (parse_received p0 h)).
Proof.
  intros Hf. assert (Scan.limits p = Scan.limits p0 /\ workspace p = workspace p0 /\
    Scan.preserve_header_case p = Scan.preserve_header_case p0) as (El & Ew & Ep).
  { destruct p, p0. unfold fresh, set_scan in Hf. simpl in *. injection Hf. auto. }
  unfold parse_received, parse_request. unfold fresh in Hf. rewrite Hf, El, Ew, Ep. by destruct (_ <? _).
Qed.

Lemma reply_seen (w : W) e date : seen (fst (fst (reply_illegal_head config writes w e date))) = seen w.
Proof.
  unfold reply_illegal_head. destruct (negb _); [done|]. destruct (illegal_reply config e date w) as [date1 [[b|]|]]; [|done..].
  pose proof (write_all_keeps true seen writes w b law_host_write law_host_yield) as Hk.
  destruct (write_all true writes w b) as [w1 [[n|x]|]]; simpl in Hk; [|done..].
  pose proof (law_host_flush w1) as Hf. destruct (aw_flush w1) as [w2 [u|x]]; simpl in *; rewrite ?law_host_shutdown; congruence.
Qed.

(** How reading a request's head from [w] with [b] retained may end. *)
Definition head_answer (w : W) (b : RecvBuffer) (a : W * RecvBuffer * HeadParser * DateCache * option (call HeadEnd)) : Prop :=
  let '(w', b', p', _, r) := a in
  wf_recv b' /\ requests w' = requests w /\
  exists input, received w' = received w ++ input /\
    match r with
    | Some (Returns (HeadRead vh)) =>
        p' = fresh p0 /\ exists h, recv_bytes b ++ input = h ++ recv_bytes b' /\ one_head p0 h /\ snd (parse_received p0 h) = Ok vh
    | _ => True
    end.

#[local] Arguments head_answer : simpl never.

Lemma head_unread (w w' : W) b b' p' date r :
  wf_recv b' -> seen w' = seen w -> match r with Some (Returns (HeadRead _)) => False | _ => True end ->
  head_answer w b (w', b', p', date, r).
Proof.
  intros Hb Hs Hr. unfold seen in Hs. injection Hs as E1 E2. split_and!; [done..|]. exists []. rewrite app_nil_r.
  split; [done|]. by destruct r as [[[]|]|].
Qed.

Lemma head_more (w w1 : W) b b1 a fill :
  received w1 = received w ++ fill -> recv_bytes b1 = recv_bytes b ++ fill -> requests w1 = requests w ->
  head_answer w1 b1 a -> head_answer w b a.
Proof.
  intros Hr Hq He. destruct a as [[[[w' b'] p'] date] r]. unfold head_answer. rewrite Hr, Hq, He.
  intros (Hb & Hn & input & Hrec & Ha). split_and!; [done..|]. exists (fill ++ input). by rewrite !app_assoc.
Qed.

Lemma host_read_until (w : W) b deadline : wf_recv b ->
  let '(w', b', r) := read_until tls strategy w b true deadline in
  requests w' = requests w /\ exists fill, received w' = received w ++ fill /\ recv_bytes b' = recv_bytes b ++ fill /\ wf_recv b' /\
    exists a, r = Returns a /\ status_says a fill.
Proof.
  intros Hb. assert (Hc : forall w : W, received (request_cancel w) = received w /\ requests (request_cancel w) = requests w).
  { intros w0. pose proof (law_host_cancel w0) as Hc. unfold seen in Hc. by injection Hc. }
  pose proof (read_until_keeps tls requests law_host_read law_host_managed (fun w => proj2 (Hc w)) strategy w b true deadline) as He.
  pose proof (read_until_ok tls (fun w => proj1 (Hc w)) strategy b true deadline w Hb) as Hr.
  by destruct (read_until tls strategy w b true deadline) as [[w' b'] r].
Qed.

Lemma request_head_ok fuel (w : W) b p date deadline :
  wf_recv b -> resumes p0 p (recv_bytes b) ->
  head_answer w b (request_head_loop tls strategy config writes fuel w b p date deadline).
Proof.
  assert (Hill : forall (w : W) b b' p' e date, wf_recv b' ->
    head_answer w b (let '(w, date, r) := reply_illegal_head config writes w e date in
      (w, b', p', date, option_map (map_call HeadFail) r))).
  { intros w0 b0 b' p' e date0 Hb. pose proof (reply_seen w0 e date0) as Hs.
    destruct (reply_illegal_head config writes w0 e date0) as [[w1 date1] r]. apply head_unread; [done..|]. by destruct r as [[]|]. }
  revert w b p. induction fuel as [|fuel IH]; intros w b p Hb Hp; simpl; [by apply head_unread|].
  destruct (match deadline with Some d => reached w d | None => false end); [by apply head_unread|].
  destruct (head_len p (recv_bytes b)) as [p1 [[n|]|e]] eqn:Eh; [| |by apply Hill].
  - destruct (take_head p0 p b p1 n Hp Hb Eh) as (b1 & h & -> & Hq & Hb1 & Hone & Hf).
    rewrite (parse_received_fresh p1 h Hf). destruct (snd (parse_received p0 h)) as [vh|e] eqn:Er; [|by apply Hill].
    split_and!; [done..|]. exists []. rewrite !app_nil_r. split_and!; [done..|]. by exists h.
  - set (w0 := if stopped_first w then request_cancel w else w).
    assert (seen w0 = seen w) as Hs0 by (unfold w0; destruct (stopped_first w); [apply law_host_cancel|done]).
    pose proof (host_read_until w0 b deadline Hb) as Hr. destruct (read_until tls strategy w0 b true deadline) as [[w1 b1] r].
    unfold seen in Hs0. injection Hs0 as E1 E2. rewrite E1, E2 in Hr. destruct Hr as (Hn & fill & Hrec & Hq & Hb1 & a & -> & Hs).
    apply (head_more w w1 b b1 _ fill); [done..|].
    destruct (stopped_first w); [destruct a as [st|e]; [|destruct (negb _)]; by apply head_unread|].
    destruct a as [[k|]|e]; [|destruct (negb _); by apply head_unread|by apply head_unread].
    apply IH; [done|]. rewrite Hq. by eapply resumes_extends.
Qed.

Lemma parsed_mode p h vh : snd (parse_received p h) = Ok vh -> mode_ok (vreq_body vh).
Proof.
  unfold parse_received. destruct (parse_request p h) as [p1 [head|e]]; [|done]. simpl. unfold validate_received. apply validated_request_mode.
Qed.

(** How a connection that is in [w] with [b] retained may go on. *)
Definition hosted (w : W) (b : RecvBuffer) (w' : W) : Prop :=
  exists input vs, received w' = received w ++ input /\ requests w' = requests w ++ vs /\ talk request_body p0 (recv_bytes b ++ input) vs.

Lemma hosted_nothing (w w' : W) b input : received w' = received w ++ input -> requests w' = requests w -> hosted w b w'.
Proof. intros Hr Hn. exists input, []. rewrite app_nil_r. split_and!; [done..|constructor]. Qed.

Lemma hosted_same (w w' w'' : W) b : seen w'' = seen w' -> hosted w b w' -> hosted w b w''.
Proof. unfold seen, hosted. intros [= -> ->]. done. Qed.

Lemma connection_loop_hosted fuel (w : W) b p date budget : wf_recv b -> p = fresh p0 ->
  hosted w b (fst (connection_loop tls strategy config writes fuel w b p date budget)).
Proof.
  revert w b p date budget. induction fuel as [|fuel IH]; intros w b p date budget Hb ->; simpl.
  { by apply (hosted_nothing w w b []); [rewrite app_nil_r|]. }
  assert (seen (snd (budget_step budget w)) = seen w) as Hs.
  { unfold budget_step. destruct (budget =? 0); [apply law_host_yield|done]. }
  destruct (budget_step budget w) as [budget1 w1]. simpl in Hs. unfold seen in Hs. injection Hs as E1 E2.
  assert (hosted w b w1) as Hnow by (apply (hosted_nothing w w1 b []); [by rewrite app_nil_r|done]).
  destruct (host_stopping w1); [done|]. destruct (configured_after w1 _) as [deadline|e]; [|done].
  pose proof (request_head_ok fuel w1 b (fresh p0) date deadline Hb (resumes_fresh _ _ _ eq_refl)) as Hh.
  destruct (request_head_loop _ _ _ _ fuel w1 b _ date deadline) as [[[[w2 b2] p2] date2] found].
  destruct Hh as (Hb2 & Hn2 & input & Hr2 & Hf). rewrite E1 in Hr2. rewrite E2 in Hn2.
  destruct found as [[[vh| |e]|]|]; [|by apply (hosted_nothing w w2 b input)..].
  destruct Hf as (-> & h & Hq & Hone & Hvh).
  destruct (host_exchange w2 date2 vh b2) as [[[w3 date3] b3] r] eqn:Ex.
  apply law_host_exchange in Ex as (Hb3 & Hn3 & input3 & Hr3 & Hx); [|done|by eapply parsed_mode].
  rewrite Hr2, <- app_assoc in Hr3. rewrite Hn2 in Hn3.
  assert (Hlast : hosted w b w3).
  { exists (input ++ input3), [vh]. split_and!; [done..|]. rewrite app_assoc, Hq, <- app_assoc. by apply talk_last. }
  destruct r as [[x|e]|]; [|done..]. destruct (er_outcome x) as [| |k] eqn:Eo; [|done|].
  - destruct (Hx x eq_refl Eo) as (m & Hm & Hbody). destruct (IH w3 b3 (fresh p0) date3 budget1 Hb3 eq_refl) as (input4 & vs & Hr4 & Hn4 & Ht).
    exists (input ++ input3 ++ input4), (vh :: vs). rewrite Hr4, Hn4, Hr3, Hn3, <- !app_assoc. split_and!; [done..|].
    rewrite app_assoc, Hq, <- app_assoc. rewrite (app_assoc (recv_bytes b2)), Hm, <- app_assoc. by apply talk_next.
  - match goal with |- context [host_fulfill ?a ?u ?y] => pose proof (law_host_fulfill a u y) as Hf; destruct (host_fulfill a u y) as [w4 claimed] end.
    by apply (hosted_same w w3).
Qed.

Section Finite.
Context (bound : Z) (Hbound : forall w : W, zlen (received w) <= bound).
(** the automatic reply is written within its turns *)
Context (Hreply : forall (w : W) e date, is_Some (snd (reply_illegal_head config writes w e date))).
(** every exchange answers *)
Context (Hanswers : forall (w : W) date vh b, is_Some (snd (host_exchange w date vh b))).

Lemma request_head_total fuel (w : W) b p date deadline :
  wf_recv b -> resumes p0 p (recv_bytes b) -> recv_len b + 2 * (bound - zlen (received w)) + 1 <= Z.of_nat fuel ->
  is_Some (snd (request_head_loop tls strategy config writes fuel w b p date deadline)).
Proof using Hbound Hreply HostLaws0.
  assert (Hill : forall (w : W) b' p' e date, is_Some (snd (let '(w, date, r) := reply_illegal_head config writes w e date in
      (w, b' : RecvBuffer, p' : HeadParser, date, option_map (map_call HeadFail) r)))).
  { intros w0 b' p' e date0. destruct (Hreply w0 e date0) as [x Hx].
    destruct (reply_illegal_head config writes w0 e date0) as [[w1 date1] r]. simpl in *. subst r. by eexists. }
  revert w b p. induction fuel as [|fuel IH]; intros w b p Hb Hp Hf; simpl.
  { specialize (Hbound w). unfold recv_len in Hf. pose proof (zlen_nonneg (recv_bytes b)). lia. }
  destruct (match deadline with Some d => reached w d | None => false end); [by eexists|].
  destruct (head_len p (recv_bytes b)) as [p1 [[n|]|e]] eqn:Eh; [| |apply Hill].
  - destruct (take_head p0 p b p1 n Hp Hb Eh) as (b1 & h & -> & Hq & Hb1 & Hone & Hpf).
    rewrite (parse_received_fresh p1 h Hpf). destruct (snd (parse_received p0 h)) as [vh|e]; [by eexists|apply Hill].
  - set (w0 := if stopped_first w then request_cancel w else w).
    assert (seen w0 = seen w) as Hs0 by (unfold w0; destruct (stopped_first w); [apply law_host_cancel|done]).
    pose proof (host_read_until w0 b deadline Hb) as Hr. destruct (read_until tls strategy w0 b true deadline) as [[w1 b1] r].
    unfold seen in Hs0. injection Hs0 as E1 E2. rewrite E1 in Hr. destruct Hr as (_ & fill & Hrec & Hq & Hb1 & a & -> & Hs).
    destruct (stopped_first w); [destruct a as [st|e]; [|destruct (negb _)]; by eexists|].
    destruct a as [[k|]|e]; [|destruct (negb _); by eexists|by eexists]. simpl in Hs.
    apply IH; [done|rewrite Hq; by eapply resumes_extends|]. unfold recv_len in *. rewrite Hq, Hrec, !zlen_app. lia.
Qed.

Lemma connection_total fuel (w : W) b p date budget :
  wf_recv b -> p = fresh p0 -> recv_len b + 2 * (bound - zlen (received w)) + 2 <= Z.of_nat fuel ->
  is_Some (snd (connection_loop tls strategy config writes fuel w b p date budget)).
Proof using Hbound Hreply Hanswers HostLaws0.
  revert w b p date budget. induction fuel as [|fuel IH]; intros w b p date budget Hb -> Hf; simpl.
  { specialize (Hbound w). unfold recv_len in Hf. pose proof (zlen_nonneg (recv_bytes b)). lia. }
  assert (seen (snd (budget_step budget w)) = seen w) as Hs.
  { unfold budget_step. destruct (budget =? 0); [apply law_host_yield|done]. }
  destruct (budget_step budget w) as [budget1 w1]. simpl in Hs. unfold seen in Hs. injection Hs as E1 E2.
  destruct (host_stopping w1); [by eexists|]. destruct (configured_after w1 _) as [deadline|e]; [|by eexists].
  pose proof (request_head_ok fuel w1 b (fresh p0) date deadline Hb (resumes_fresh _ _ _ eq_refl)) as Hh.
  pose proof (request_head_total fuel w1 b (fresh p0) date deadline Hb (resumes_fresh _ _ _ eq_refl) ltac:(rewrite E1; lia)) as [a Ha].
  destruct (request_head_loop _ _ _ _ fuel w1 b _ date deadline) as [[[[w2 b2] p2] date2] found]. simpl in Ha. subst found.
  destruct Hh as (Hb2 & _ & input & Hr2 & Hfd). rewrite E1 in Hr2. destruct a as [[vh| |e]|]; [|by eexists..].
  destruct Hfd as (-> & h & Hq & Hone & Hvh). apply one_head_pos in Hone.
  destruct (host_exchange w2 date2 vh b2) as [[[w3 date3] b3] r] eqn:Ex.
  pose proof (Hanswers w2 date2 vh b2) as [a Ha]. rewrite Ex in Ha. simpl in Ha. subst r.
  apply law_host_exchange in Ex as (Hb3 & _ & input3 & Hr3 & Hx); [|done|by eapply parsed_mode].
  destruct a as [x|e]; [|by eexists]. destruct (er_outcome x) as [| |k] eqn:Eo;
    [|by eexists|match goal with |- context [host_fulfill ?a ?u ?y] => destruct (host_fulfill a u y) end; by eexists].
  destruct (Hx x eq_refl Eo) as (m & Hm & _). apply IH; [done..|].
  assert (zlen (recv_bytes b) + zlen input = zlen h + zlen (recv_bytes b2)) as L1 by by rewrite <- !zlen_app, Hq.
  assert (zlen (recv_bytes b2) + zlen input3 = zlen m + zlen (recv_bytes b3)) as L2 by by rewrite <- !zlen_app, Hm.
  unfold recv_len in *. rewrite Hr3, Hr2, !zlen_app. pose proof (zlen_nonneg input). pose proof (zlen_nonneg input3). pose proof (zlen_nonneg m). lia.
Qed.

End Finite.

End Hosted.

Section HostTheorems.
Context {http : HttpCrate} {hp : Httparse} {alloc : BytesAllocator} {enc_alloc : Encode.Allocator}.
Context {W T U R Wr : Type} `{Runtime W} `{AsyncRead W} `{!Reads W} `{AsyncWrite W} `{Timer W} `{Clock W} `{ServerClock W T}.
Context `{!ServerHost W U R Wr} `{!HostLaws W}.
Context (tls : bool) (strategy : Strategy) (config : ServerConfig) (writes : nat).

(** The parser a connection starts with. *)
Definition configured_parser : HeadParser :=
  Scan.with_preserved_header_case (HeadParser_with_limits (head_limits (protocol (server_settings config))))
    (Config.preserve_header_case (protocol (server_settings config))).

(** A server answers the requests on the wire, in order. Whatever arrives and
    however it is fragmented, whatever the service, the timers and the shutdown
    do, at any time the requests a connection has passed to exchanges are those
    at the front of what it received: each head is parsed from its own bytes, is
    valid and within the limits, is served once and in order, and the next one
    starts right after the body of the one before; nothing else is served. *)
Theorem host_serves_wire fuel aborted (w : W) w' r :
  is_usize (Config.max_retained (server_settings config)) -> 0 <= Config.preferred_read (server_settings config) ->
  host_run tls strategy config writes fuel aborted w = (w', r) ->
  exists input vs, received w' = received w ++ input /\ requests w' = requests w ++ vs /\ talk request_body configured_parser input vs.
Proof.
  intros Hm Hp. unfold host_run, host_inner. fold configured_parser.
  destruct (RecvBuffer_new _ _) as [b|e] eqn:Eb.
  2: { intros [= <- _]. exists [], []. rewrite !app_nil_r. split_and!; [done..|constructor]. }
  apply (fresh_buffer_wf w) in Eb as [Hb Hnil]; [|done..].
  pose proof (connection_loop_hosted tls strategy config writes configured_parser fuel w b configured_parser DateCache_default
    WorkBudget_new Hb eq_refl) as Hh.
  destruct (connection_loop _ _ _ _ fuel w b _ _ _) as [w1 ended]. simpl in Hh.
  assert (Hend : forall w2, seen w2 = seen w1 ->
    exists input vs, received w2 = received w ++ input /\ requests w2 = requests w ++ vs /\ talk request_body configured_parser input vs).
  { intros w2 Hw2. destruct (hosted_same _ _ _ _ _ Hw2 Hh) as (input & vs & E1 & E2 & Ht). rewrite Hnil in Ht. by exists input, vs. }
  destruct ended as [[[o|b1 can|e]|]|]; [intros [= <- _]; by apply Hend| |intros [= <- _]; by apply Hend..].
  destruct (_ && can); [intros [= <- _]; by apply Hend|].
  pose proof (law_host_shutdown w1) as Hs. destruct (aw_shutdown w1) as [w2 shut]. intros [= <- _]. by apply Hend.
Qed.


End HostTheorems.

(** ** Evaluated: two pipelined requests *)

Section Evaluated.
#[local] Existing Instance AssocHttp.
#[local] Existing Instance LineHeads.
#[local] Existing Instance World_Allocator.

Definition two_requests : bytes :=
  bs "GET /a HTTP/1.1" ++ [CR; LF] ++ bs "host: h" ++ [CR; LF; CR; LF] ++
  bs "GET /b HTTP/1.1" ++ [CR; LF] ++ bs "host: h" ++ [CR; LF; CR; LF].

Notation HW := (World two_requests (list (@ValidatedRequestHead AssocHttp))).

#[local] Instance HW_clock : ServerClock HW Z := {
  system_now _ := 60;
  second_of t := t;
  fmt_http_date t := to_decimal t;
}.

(** An exchange of a request without a body. *)
#[local] Instance HW_host : ServerHost HW unit unit unit := {
  host_exchange w date vh b := (set_extra w (extra w ++ [vh]), date, b, Some (Ok (mkExchangeResult OutcomeReusable tt true)));
  host_fulfill w _ u := (w, Err u);
  host_reader _ := tt;
  host_writer _ := tt;
  host_stopping _ := false;
  host_recovering _ := false;
  stopped_first _ := false;
}.

#[local] Instance HW_laws : HostLaws HW.
Proof.
  refine {| requests := extra; request_body _ m := m = [] |}; try done.
  intros w date vh b w' date' b' r Hb _ [= <- <- <- <-]. split_and!; [done..|]. exists []. rewrite !app_nil_r.
  split; [done|]. intros x _ _. by exists [].
Defined.

Definition host_start : HW := opened [].

Definition host_end : HW := Eval vm_compute in
  fst (host_run (enc_alloc := any_alloc) false PortableStrategy server_config 9 40 (fun _ => None) host_start).

Lemma host_ran :
  host_run (enc_alloc := any_alloc) false PortableStrategy server_config 9 40 (fun _ => None) host_start =
  (host_end, Some (Returns (Ok ConnectionClosed))).
Proof. vm_cast_no_check (eq_refl (host_end, Some (Returns (@Ok (ConnectionOutcome unit unit) Error ConnectionClosed)))). Qed.

Example host_end_requests : map (fun v => su_path (req_target (vreq_head v))) (extra host_end) = [bs "/a"; bs "/b"].
Proof. vm_cast_no_check (eq_refl [bs "/a"; bs "/b"]). Qed.

Lemma host_serves_wire_witness :
  exists input vs, taken_in host_end = taken_in host_start ++ input /\ extra host_end = extra host_start ++ vs /\
    talk request_body (configured_parser server_config) input vs.
Proof.
  refine (host_serves_wire (enc_alloc := any_alloc) false PortableStrategy server_config 9 40 (fun _ => None) host_start host_end
    (Some (Returns (Ok ConnectionClosed))) _ _ host_ran).
  - vm_compute. split; discriminate.
  - vm_compute. discriminate.
Defined.


End Evaluated.
