(* ===== verification/Joined.v ===== *)
(** The layers of the server driver joined: a connection (Hosting.v) whose
    exchanges (Serving.v) run the activities of Server.v, all of them
    src/src/proto/h1/server.rs.

    An activity runs its sequential program between two polls of an exchange;
    when that is, and how long its answer then takes to be observed, is up to an
    arbitrary schedule. The activities of an exchange borrow disjoint halves of
    the transport, so what matters of their interleaving is where it can be
    observed: the order in which they answer. The service is an arbitrary
    future. *)

From Stdlib Require Import ZArith Lia.
From stdpp Require Import base list option.
From S2P Require Import Prelude Http Errors Upgrade Context Syntax Decode Scan Validate Body Encode Pipe Future Incoming Send Recv.
From S2P Require Import Deadline Receive Transfer Exchange Config Heads Scenario Session Server Serving Hosting.

(** A future over a part of the state. *)
Record Lifted (F : Type) := mkLifted { lifted : F }.
Arguments mkLifted {F} _.
Arguments lifted {F} _.

#[export] Instance lift {F S X A} `{Future F S A} : Future (Lifted F) (S * X) A := fun f s =>
  let '(g, w, r) := poll (lifted f) (fst s) in (mkLifted g, (w, snd s), r).

(** When activities run and are observed. *)
Record Schedule := mkSchedule {
  polls : nat;
  receive_delay : nat * nat;
  heads_delay : nat * nat;
  send_delay : nat;
}.

(** ** The exchange of a connection *)

(** The application: its service's future, and the exchange's own resources. *)
Class Application {http : HttpCrate} (W Fs B TlsInfo C U : Type) := {
  service_call : RequestMessage TlsInfo (Incoming C) -> Fs;
  (** the connection's token *)
  source_canceled : W -> bool;
  new_consumer : W -> C;
  new_upgrade : W -> U;
  schedule : W -> ValidatedRequestHead -> Schedule;
  (** the heads exchanges were started for *)
  note : W -> ValidatedRequestHead -> W;
}.

Section Exchanges.
Context {http : HttpCrate} {hp : Httparse} {alloc : BytesAllocator} {enc_alloc : Encode.Allocator}.
Context {W T Fs B D E TlsInfo C U : Type} `{IoBuf D} `{!Body B D E}.
Context `{Runtime W} `{AsyncRead W} `{AsyncWrite W} `{Timer W} `{ServerClock W T} `{!Producing W} `{!BodyProducer W}.
Context `{!ContinuePermission W} `{!InformationalReceiver W (Response unit)} `{!ServerScope W} `{!Suspends W}.
Context `{!Application W Fs B TlsInfo C U} `{!Future Fs W (result (Response B) StdError)}.
Context (tls : bool) (strategy : Strategy) (application : E -> StdError) (config : ServerConfig) (writes turns : nat)
  (tls_info : option TlsInfo).

Notation Shared := (W * DateCache)%type.

#[export] Instance Shared_scope : ServerScope Shared := {
  select_final s := (select_final (fst s), snd s);
  cancel_source s := (cancel_source (fst s), snd s);
  close_flag s := close_flag (fst s);
  set_close s := (set_close (fst s), snd s);
}.

#[export] Instance Shared_suspends : Suspends Shared := fun s => (suspend (fst s), snd s).

#[export] Instance service_wait : Future (Waiting Fs) W (option (result (Response B) StdError)) :=
  cancellable_wait (Some source_canceled).

(** The programs of an exchange: its reception, its informational heads and the
    transmission of a response. *)
Record ReceiveProgram := mkReceiveProgram {
  rc_head : ValidatedRequestHead;
  rc_buffer : RecvBuffer;
  rc_started : @Started http TlsInfo C;
}.
Record HeadsProgram := mkHeadsProgram { hd_started : @Started http TlsInfo C }.
Record SendProgram := mkSendProgram {
  sn_started : @Started http TlsInfo C;
  sn_response : Response B;
}.

#[export] Instance run_receive : Program ReceiveProgram Shared (ReceiveEnd * RecvBuffer) := fun p s =>
  let '(w, date) := s in
  let st := rc_started p in
  let '(w, b, r) :=
    receive_request tls strategy config turns w (rc_buffer p)
      (with_limits (vreq_body (rc_head p)) (decode_limits (protocol (server_settings config)))) (st_producer st) (st_expect_continue st) in
  ((w, date), match r with Some (Returns e) => Some (e, b) | _ => None end).

#[export] Instance run_heads : Program HeadsProgram Shared (result unit Error) := fun p s =>
  let '(w, date) := s in
  let '(w, r) := write_informationals tls config writes (st_version (hd_started p)) turns w 0 in ((w, date), r).

#[export] Instance run_send : Program SendProgram Shared (result ExchangePolicy Error) := fun p s =>
  let '(w, date) := s in
  let st := sn_started p in
  let '(w, date, state, r) :=
    write_response tls application config writes turns w (sn_response p) (st_method st) (st_version st) (close_flag w) date (st_policy st) in
  ((w, date), match r with
              | Some (Returns (Ok _)) => Some (Ok state)
              | Some (Returns (Err e)) => Some (Err e)
              | _ => None
              end).

Definition activities (sch : Schedule) (head : ValidatedRequestHead) (b : RecvBuffer) (st : @Started http TlsInfo C)
    : Activity ReceiveProgram (ReceiveEnd * RecvBuffer) *
      Calls (Lifted (Waiting Fs)) (Activity HeadsProgram (result unit Error)) (Response B) :=
  (Before (fst (receive_delay sch)) (snd (receive_delay sch)) (mkReceiveProgram head b st),
   Calling (mkLifted (Waits (service_call (st_request st)))) (Before (fst (heads_delay sch)) (snd (heads_delay sch)) (mkHeadsProgram st))).

Definition send_activity (sch : Schedule) (st : @Started http TlsInfo C) (response : Response B)
    : Activity SendProgram (result ExchangePolicy Error) :=
  Before 0 (send_delay sch) (mkSendProgram st response).

Definition connection_exchange (w : W) (date : DateCache) (head : ValidatedRequestHead) (b : RecvBuffer)
    : W * DateCache * RecvBuffer * option (result (ExchangeResult U) Error) :=
  let sch := schedule w head in
  let st := start_exchange config tls_info head (new_consumer w) in
  let upgrade := new_upgrade w in
  let '(_, (w, date), r) :=
    await (H := serve (send_activity sch st) upgrade) (polls sch)
      (exchange (activities sch head b) config tls_info head (new_consumer w)) (note w head, date) in
  match r with
  | Some (r, b) => (w, date, b, Some r)
  | None => (w, date, b, None)
  end.

End Exchanges.
Arguments ReceiveProgram {http} TlsInfo C.
Arguments HeadsProgram {http} TlsInfo C.
Arguments SendProgram {http} B TlsInfo C.

(** ** What the parts of a world leave alone

    Documented behaviour of the transport, the runtime and the application: only
    the transport's reads change what was received, and nothing but [note] what
    was noted. *)

(** What else a connection calls. *)
Class ServerEnd (W U R Wr : Type) := {
  end_fulfill : W -> U -> Upgraded R Wr -> W * result UpgradeKind (Upgraded R Wr);
  end_reader : W -> R;
  end_writer : W -> Wr;
  end_stopping : W -> bool;
  end_recovering : W -> bool;
  end_stopped_first : W -> bool;
}.

Class WorldLaws {http : HttpCrate} (W : Type) {Fs B TlsInfo C U R Wr : Type} `{Runtime W} `{AsyncRead W} `{!Reads W} `{AsyncWrite W}
    `{Timer W} `{!BodyProducer W} `{!ReceiveLaws W} `{!ContinuePermission W} `{!InformationalReceiver W (Response unit)}
    `{!ServerScope W} `{!Suspends W} `{!Application W Fs B TlsInfo C U} `{!Future Fs W (result (Response B) StdError)}
    `{!ServerEnd W U R Wr} := {
  noted : W -> list ValidatedRequestHead;
  both w := (received w, noted w);
  law_both_yield w : both (rt_yield w) = both w;
  law_both_cancel w : both (request_cancel w) = both w;
  law_both_write w b : both (fst (aw_write w b)) = both w;
  law_both_write_vectored w b : both (fst (aw_write_vectored w b)) = both w;
  law_both_flush w : both (fst (aw_flush w)) = both w;
  law_both_shutdown w : both (fst (aw_shutdown w)) = both w;
  law_both_fulfill w u x : both (fst (end_fulfill w u x)) = both w;
  law_both_next w : both (fst (info_next w)) = both w;
  law_both_complete w r : both (info_complete w r) = both w;
  law_both_continued w : both (info_continued w) = both w;
  law_both_select w : both (select_final w) = both w;
  law_both_source w : both (cancel_source w) = both w;
  law_both_close w : both (set_close w) = both w;
  law_both_suspend w : both (suspend w) = both w;
  law_both_service (f : Fs) w : both (snd (fst (poll f w))) = both w;
  law_noted_read w n : noted (fst (ar_read w n)) = noted w;
  law_noted_managed w n : noted (fst (ar_read_managed w n)) = noted w;
  law_noted_demand w : noted (fst (pr_demand w)) = noted w;
  law_noted_offer w f : noted (fst (pr_offer w f)) = noted w;
  law_noted_close w : noted (pr_close w) = noted w;
  law_noted_fail w e : noted (pr_fail w e) = noted w;
  law_noted_policy w p : noted (pr_set_policy w p) = noted w;
  law_noted_permission w : noted (fst (continue_permission w)) = noted w;
  law_permission_observed w : observed (fst (continue_permission w)) = observed w;
  law_note w vh : received (note w vh) = received w /\ noted (note w vh) = noted w ++ [vh];
}.

Section Joined.
Context {http : HttpCrate} {hp : Httparse} {laws : HttparseLaws hp} {alloc : BytesAllocator} {enc_alloc : Encode.Allocator}.
Context {W T Fs B D E TlsInfo C U R Wr : Type} `{IoBuf D} `{!Body B D E}.
Context `{Runtime W} `{AsyncRead W} `{!Reads W} `{AsyncWrite W} `{Timer W} `{Clock W} `{ServerClock W T} `{!Producing W} `{!BodyProducer W} `{!ReceiveLaws W}.
Context `{!ContinuePermission W} `{!InformationalReceiver W (Response unit)} `{!ServerScope W} `{!Suspends W}.
Context `{!Application W Fs B TlsInfo C U} `{!Future Fs W (result (Response B) StdError)} `{!ServerEnd W U R Wr} `{!WorldLaws W}.
Context (tls : bool) (strategy : Strategy) (application : E -> StdError) (config : ServerConfig) (writes turns : nat)
  (tls_info : option TlsInfo).

(** A connection whose exchanges are those above. *)
#[export] Instance Joined_host : ServerHost W U R Wr := {
  host_exchange := connection_exchange (Fs := Fs) tls strategy application config writes turns tls_info;
  host_fulfill := end_fulfill;
  host_reader := end_reader;
  host_writer := end_writer;
  host_stopping := end_stopping;
  host_recovering := end_recovering;
  stopped_first := end_stopped_first;
}.

(** A whole body of the framing a request declares. *)
Definition framed_body (vh : ValidatedRequestHead) (m : bytes) : Prop :=
  exists payload t, is_body (decode_limits (protocol (server_settings config))) (vreq_body vh) m payload t.

Lemma receive_request_noted fuel (w : W) b d producer expect_continue :
  noted (fst (fst (receive_request tls strategy config fuel w b d producer expect_continue))) = noted w.
Proof.
  assert (Hbody : forall w1 : W, noted (fst (fst (receive_body_configured tls strategy
    (body_progress_timeout (server_settings config)) fuel w1 b d))) = noted w1).
  { intros w1. apply receive_loop_keeps.
    - apply law_noted_read.
    - apply law_noted_managed.
    - intros w2. pose proof (law_both_cancel w2) as E2. unfold both in E2. by injection E2.
    - intros w2. pose proof (law_both_yield w2) as E2. unfold both in E2. by injection E2.
    - apply law_noted_demand.
    - apply law_noted_offer.
    - apply law_noted_close.
    - apply law_noted_fail.
    - apply law_noted_policy. }
  assert (Hfail : forall (w1 : W) e, noted (fst (fst (ends b (receive_fail w1 e)))) = noted w1).
  { intros w1 e. unfold receive_fail. destruct (Error_split e). apply law_noted_fail. }
  unfold receive_request. destruct producer; simpl; [|done]. destruct expect_continue; simpl; [|apply Hbody].
  pose proof (law_noted_demand w) as Hd. destruct (pr_demand w) as [w1 [[v|e]|]]; simpl in Hd; rewrite <- Hd; [|done|apply Hfail].
  pose proof (law_noted_permission w1) as Hq. destruct (continue_permission w1) as [w2 [[u|e]|]]; simpl in Hq; rewrite <- Hq;
    [apply Hbody|apply Hfail..].
Qed.

Lemma write_informationals_both version fuel (w : W) count :
  both (fst (write_informationals tls config writes version fuel w count)) = both w.
Proof.
  revert w count. induction fuel as [|fuel IH]; intros w count; simpl; [done|].
  pose proof (law_both_next w) as Hn. destruct (info_next w) as [w1 [[c|]|]]; simpl in Hn; [|done..]. rewrite <- Hn. clear w Hn.
  destruct (informational_head _ _ _ _) as [head|e].
  2: { destruct (negb _); [|done]. by rewrite IH, law_both_complete. }
  assert (both (fst (write_informational tls writes w1 head)) = both w1) as Hw.
  { unfold write_informational. pose proof (write_all_keeps true both writes w1 head law_both_write law_both_yield) as Ha.
    destruct (write_all true writes w1 head) as [w2 [[n|e]|]]; simpl in Ha; [|done..].
    pose proof (law_both_flush w2) as Hf. destruct (aw_flush w2) as [w3 r]. simpl in *. congruence. }
  destruct (write_informational tls writes w1 head) as [w2 [[u|e]|]]; simpl in Hw; rewrite <- Hw; [|by destruct (negb _); [destruct (Error_split e); apply law_both_complete|]|done].
  rewrite IH. destruct (is_automatic c); [apply law_both_continued|apply law_both_complete].
Qed.

Lemma write_response_both fuel (w : W) response method v close date state :
  both (fst (fst (fst (write_response tls application config writes fuel w response method v close date state)))) = both w.
Proof.
  unfold write_response. destruct (plan_response _ _ _ _ _ _ _ _) as [[date1 state1] [[[plan encoder]|e]|]]; [|done..].
  pose proof (write_all_keeps true both writes w (plan_bytes plan) law_both_write law_both_yield) as Ha.
  destruct (write_all true writes w (plan_bytes plan)) as [w1 [[n|e]|]]; simpl in Ha; rewrite <- Ha; [|done..]. clear w Ha.
  assert (Hflush : forall w2 : W, both w2 = both w1 -> forall r, both (fst (fst (fst (let '(w, flushed) := aw_flush w2 in
      (w, date1, state1, r flushed : option (call (result Persistence Error))))))) = both w1).
  { intros w2 E2 r. pose proof (law_both_flush w2) as Hf. destruct (aw_flush w2). simpl in *. congruence. }
  destruct (bool_decide _).
  - by apply (Hflush w1 eq_refl (fun f => Some (Returns (match f with Err e => _ | Ok _ => _ end)))).
  - pose proof (send_body_keeps true writes both fuel w1 (rs_body response) encoder law_both_write law_both_write_vectored
      law_both_flush law_both_yield) as Hs.
    destruct (send_body true writes fuel w1 (rs_body response) encoder) as [[[w2 b2] e2] [[[st|e]|]|]]; simpl in Hs; [|done..].
    by apply (Hflush w2 Hs (fun f => Some (Returns (match f with Err e => _ | Ok _ => _ end)))).
Qed.

(** ** What an exchange takes *)

Section Taken.
Context (head : ValidatedRequestHead) (b : RecvBuffer) (v0 : bytes * list ValidatedRequestHead).

Definition view (s : W * DateCache) : bytes * list ValidatedRequestHead := both (fst s).

(** Only input has been received since [v0]. *)
Definition grown (v : bytes * list ValidatedRequestHead) (input : bytes) : Prop := v = (fst v0 ++ input, snd v0).

Definition taken (r : ReceiveEnd * RecvBuffer) (v : bytes * list ValidatedRequestHead) : Prop :=
  wf_recv (snd r) /\ exists input, grown v input /\
    (fst r = Complete -> exists m, recv_bytes b ++ input = m ++ recv_bytes (snd r) /\ framed_body head m).

Context (c : C).
Notation start := (start_exchange config tls_info head c).

Definition live (f : Activity (ReceiveProgram TlsInfo C) (ReceiveEnd * RecvBuffer)) (v : bytes * list ValidatedRequestHead) : Prop :=
  match f with
  | Before _ _ program => program = mkReceiveProgram head b start /\ v = v0
  | After _ a => taken a v
  | Stuck => exists input, grown v input
  end.

Context (Hlimits : wf_limits (decode_limits (protocol (server_settings config)))) (Hmode : mode_ok (vreq_body head)) (Hb : wf_recv b).

Lemma receive_program_taken s : view s = v0 ->
  let '(s', r) := run_receive tls strategy config turns (mkReceiveProgram head b start) s in
  (exists input, grown (view s') input) /\ match r with Some a => taken a (view s') | None => True end.
Proof using Hlimits Hmode Hb laws WorldLaws0.
  intros Hv. destruct s as [w date]. unfold run_receive. cbn [rc_started rc_buffer rc_head].
  assert (st_producer start = fst (incoming (vreq_body head) tt)) as Hpr.
  { unfold start_exchange, incoming. destruct (vreq_body head) as [|n| |]; simpl; try done. by destruct (n =? 0). }
  rewrite Hpr. destruct (receive_request _ _ _ turns w b _ _ _) as [[w' b'] r] eqn:Er.
  pose proof (receive_request_noted turns w b (with_limits (vreq_body head) (decode_limits (protocol (server_settings config))))
    (fst (incoming (vreq_body head) tt)) (st_expect_continue start)) as Hn. rewrite Er in Hn. simpl in Hn.
  destruct (request_taken tls strategy config law_permission_observed _ _ _ _ _ _ _ _ _ Hlimits Hmode Hb Er)
    as (Hb' & input & Hi & Hc).
  assert (grown (view (w', date)) input) as Hg.
  { unfold grown, view, both. simpl. rewrite Hi, Hn. unfold view, both in Hv. simpl in Hv. by rewrite <- Hv. }
  split; [by exists input|]. destruct r as [[e|]|]; [|done..]. split; [done|]. exists input. split; [done|]. simpl. intros ->.
  destruct (Hc eq_refl) as (m & pieces & t & Hm & Hbody & _). exists m. split; [done|]. by exists (concat (map as_ref pieces)), t.
Qed.

#[local] Existing Instance run_receive.

Lemma live_poll f s : live f (view s) ->
  match poll (Future := activity (Program0 := run_receive tls strategy config turns)) f s with
  | (f', s', Pending) => live f' (view s')
  | (_, s', Ready r) => taken r (view s')
  end.
Proof using Hlimits Hmode Hb laws WorldLaws0.
  destruct f as [[|n] m program|[|m] a|]; simpl; try done. intros [-> Hv]. unfold poll. simpl.
  pose proof (receive_program_taken s Hv) as Ht. unfold run_program. destruct (run_receive _ _ _ _ _ s) as [s1 [a|]]; [|apply Ht].
  destruct Ht as [_ Ht]. by destruct m.
Qed.

Lemma taking_grown (x : @Serving (Activity (ReceiveProgram TlsInfo C) (ReceiveEnd * RecvBuffer))
    (Calls (Lifted (Waiting Fs)) (Activity (HeadsProgram TlsInfo C) (result unit Error)) (Response B))
    (Activity (SendProgram B TlsInfo C) (result ExchangePolicy Error))) s :
  taking view live taken x s -> exists input, grown (view s) input.
Proof.
  assert (Htaken : forall r v, taken r v -> exists input, grown v input) by (intros r v (_ & input & Hg & _); by exists input).
  assert (Hlive : forall f v, live f v -> exists input, grown v input).
  { intros [n m p|m a|] v; simpl; [|apply Htaken|done]. intros [_ ->]. exists []. unfold grown. rewrite app_nil_r. by destruct v0. }
  destruct x; simpl; eauto; [intros (r & Ht & _); eauto..|done].
Qed.

End Taken.

(** Every other part of an exchange leaves the reception's view alone. *)
Notation run_heads_ := (run_heads (TlsInfo := TlsInfo) (C := C) tls config writes turns).
Notation run_send_ := (run_send (TlsInfo := TlsInfo) (C := C) tls application config writes turns).

Lemma heads_keep (x : Activity (HeadsProgram TlsInfo C) (result unit Error)) s :
  view (snd (fst (poll (Future := activity (Program0 := run_heads_)) x s))) = view s.
Proof.
  apply activity_keeps. intros p [w date]. unfold run_program, run_heads.
  pose proof (write_informationals_both (st_version (hd_started p)) turns w 0) as Hk.
  by destruct (write_informationals tls config writes _ turns w 0) as [w1 r].
Qed.

Lemma send_keeps (x : Activity (SendProgram B TlsInfo C) (result ExchangePolicy Error)) s :
  view (snd (fst (poll (Future := activity (Program0 := run_send_)) x s))) = view s.
Proof.
  apply activity_keeps. intros p [w date]. unfold run_program, run_send.
  pose proof (write_response_both turns w (sn_response p) (st_method (sn_started p)) (st_version (sn_started p)) (close_flag w) date
    (st_policy (sn_started p))) as Hk.
  by destruct (write_response tls application config writes turns w _ _ _ _ _ _) as [[[w1 date1] state1] r].
Qed.

Lemma service_keeps (x : Lifted (Waiting Fs)) s : view (snd (fst (poll x s))) = view s.
Proof.
  destruct x as [x], s as [w date]. unfold poll, lift. simpl. unfold view. simpl.
  assert (both (snd (fst (poll (Future := service_wait) x w))) = both w) as Hk.
  { destruct x as [f|]; [|done]. unfold service_wait. rewrite cancellable_wait_poll. destruct (source_canceled w); [done|].
    pose proof (law_both_service f w) as Hs. by destruct (poll f w) as [[f1 w1] [a|]]. }
  by destruct (poll x w) as [[f1 w1] r].
Qed.

#[local] Existing Instance run_heads.

Lemma calls_keep (x : Calls (Lifted (Waiting Fs)) (Activity (HeadsProgram TlsInfo C) (result unit Error)) (Response B)) s :
  view (snd (fst (poll (Future := call_service (H0 := activity (Program0 := run_heads_))) x s))) = view s.
Proof.
  assert (Hcancel : forall s, view (cancel_source s) = view s) by (intros [w date]; apply law_both_source).
  assert (Hheads : forall called heads s, view (snd (fst (await_heads (H0 := activity (Program0 := run_heads_)) (FS := Lifted (Waiting Fs))
      (Resp := Response B) called heads s))) = view s).
  { intros called heads s0. unfold await_heads. pose proof (heads_keep heads s0) as Hh. by destruct (poll heads s0) as [[h s1] [r|]]. }
  assert (Hcall : forall written call s, view (snd (fst (await_call (FS := Lifted (Waiting Fs))
      (FH := Activity (HeadsProgram TlsInfo C) (result unit Error)) (Resp := Response B) written call s))) = view s).
  { intros written call s0. unfold await_call. pose proof (service_keeps call s0) as Hc. by destruct (poll call s0) as [[f s1] [r|]]. }
  unfold poll at 1, call_service. destruct x as [call heads|called heads|written call|]; [|apply Hheads|apply Hcall|done].
  unfold poll at 1, race. simpl. pose proof (service_keeps call s) as Hc. destruct (poll call s) as [[f s1] [called|]]; simpl in Hc.
  - rewrite Hheads, <- Hc. destruct called as [[r|e]|]; unfold view; simpl; rewrite ?law_both_source; apply law_both_select.
  - pose proof (heads_keep heads s1) as Hh. destruct (poll heads s1) as [[h s2] [written|]]; simpl in *; [|congruence].
    rewrite Hcall, Hcancel. congruence.
Qed.

(** ** The connection's interface, discharged *)

Context (Hlimits : wf_limits (decode_limits (protocol (server_settings config)))).

Lemma connection_exchange_taken (w : W) date vh b w' date' b' r :
  wf_recv b -> mode_ok (vreq_body vh) -> host_exchange w date vh b = (w', date', b', r) ->
  wf_recv b' /\ noted w' = noted w ++ [vh] /\
  exists input, received w' = received w ++ input /\
    forall x, r = Some (Ok x) -> er_outcome x = OutcomeReusable ->
      exists m, recv_bytes b ++ input = m ++ recv_bytes b' /\ framed_body vh m.
Proof using Hlimits laws WorldLaws0.
  intros Hb Hm. simpl. unfold connection_exchange. set (sch := schedule w vh). set (c := new_consumer w).
  destruct (law_note w vh) as [Er En].
  match goal with |- context [await ?n ?x ?s] => destruct (await n x s) as [[x' [w1 date1]] r1] eqn:Ea end.
  eapply (exchange_takes _ _ view (live vh b (both (note w vh)) c) (taken vh b (both (note w vh)))) in Ea;
    [|by intros; apply live_poll|by intros; apply calls_keep|by intros; apply send_keeps|by intros [??]; apply law_both_source
     |by intros [??]; apply law_both_close|by intros [??]; apply law_both_suspend|].
  - intros Hr. assert (exists input, grown (both (note w vh)) (both w1) input /\ wf_recv b' /\ w1 = w' /\
      forall x, r = Some (Ok x) -> er_outcome x = OutcomeReusable ->
        exists m, recv_bytes b ++ input = m ++ recv_bytes b' /\ framed_body vh m) as (input & Hg & Hb' & -> & Hx).
    { destruct r1 as [[r1 b1]|].
      - injection Hr as <- <- <- <-. destruct Ea as (rb & (Hwf & input & Hg & Hc) & Hbuf & Hre). simpl in Hbuf, Hre. rewrite <- Hbuf in *.
        exists input. split_and!; [done..|]. intros x [= ->] Ho. apply Hc. by eapply Hre.
      - injection Hr as <- <- <- <-. apply taking_grown in Ea as [input Hg]. by exists input. }
    unfold grown, both in Hg. simpl in Hg. injection Hg as E1 E2. rewrite Er in E1. rewrite En in E2.
    split_and!; [done..|]. by exists input.
  - unfold exchange, activities. simpl. done.
Qed.

#[export] Instance Joined_laws : HostLaws W.
Proof using Hlimits laws WorldLaws0.
  refine {| requests := noted; request_body := framed_body |}.
  - apply law_both_yield.
  - apply law_both_cancel.
  - apply law_noted_read.
  - apply law_noted_managed.
  - apply law_both_write.
  - apply law_both_flush.
  - apply law_both_shutdown.
  - apply law_both_fulfill.
  - apply connection_exchange_taken.
Defined.

(** C14: A server answers exactly the requests on the wire. Whatever arrives and
    however it is fragmented, whatever the service does and in whatever order the
    activities of an exchange run and are observed, at any time the requests a
    connection has started exchanges for are those at the front of what it
    received: each is parsed from its own bytes, valid and within the limits,
    served once and in order, and the next one starts right after one whole body
    of the framing the request before it declared. *)
Theorem server_serves_wire fuel aborted (w : W) w' r :
  is_usize (Config.max_retained (server_settings config)) -> 0 <= Config.preferred_read (server_settings config) ->
  host_run (ServerHost0 := Joined_host) tls strategy config writes fuel aborted w = (w', r) ->
  exists input vs, received w' = received w ++ input /\ noted w' = noted w ++ vs /\
    talk framed_body (configured_parser config) input vs.
Proof using Hlimits laws WorldLaws0. apply (host_serves_wire (HostLaws0 := Joined_laws)). Qed.

End Joined.

(** ** Evaluated: a POST with a body and a GET behind it *)

Section Evaluated.
#[local] Existing Instance AssocHttp.
#[local] Existing Instance LineHeads.
#[local] Existing Instance World_Allocator.

Definition posted_requests : bytes :=
  bs "POST /a HTTP/1.1" ++ [CR; LF] ++ bs "host: h" ++ [CR; LF] ++ bs "content-length: 5" ++ [CR; LF; CR; LF] ++ bs "hello" ++
  bs "GET /b HTTP/1.1" ++ [CR; LF] ++ bs "host: h" ++ [CR; LF; CR; LF].

(** The heads noted and the close flag. *)
Notation JW := (World posted_requests (list (@ValidatedRequestHead AssocHttp) * bool)).

#[local] Instance JW_clock : ServerClock JW Z := {
  system_now _ := 60;
  second_of t := t;
  fmt_http_date t := to_decimal t;
}.

#[local] Instance JW_permission : ContinuePermission JW := fun w => (w, Some (Ok tt)).

#[local] Instance JW_info : InformationalReceiver JW (Response unit) := {
  info_next w := (w, Some None);
  info_complete w _ := w;
  info_continued w := w;
}.

#[local] Instance JW_scope : ServerScope JW := {
  select_final w := w;
  cancel_source w := w;
  close_flag w := snd (extra w);
  set_close w := set_extra w (fst (extra w), true);
}.

#[local] Instance JW_suspends : Suspends JW := fun w => w.

(** A service that answers each request with two bytes. *)
#[local] Instance JW_application : Application JW unit (Full bytes) unit unit unit := {
  service_call _ := tt;
  source_canceled _ := false;
  new_consumer _ := tt;
  new_upgrade _ := tt;
  schedule _ _ := mkSchedule 9 (1%nat, 2%nat) (4%nat, 0%nat) 1;
  note w vh := set_extra w (fst (extra w) ++ [vh], false);
}.

#[local] Instance JW_service : Future unit JW (result (Response (Full bytes)) StdError) := fun u w => (u, w, Ready (Ok reply)).

#[local] Instance JW_end : ServerEnd JW unit unit unit := {
  end_fulfill w _ u := (w, Err u);
  end_reader _ := tt;
  end_writer _ := tt;
  end_stopping _ := false;
  end_recovering _ := false;
  end_stopped_first _ := false;
}.

#[local] Instance JW_laws : WorldLaws JW.
Proof. refine {| noted w := fst (extra w) |}; done. Defined.

Definition joined_start : JW := opened ([], false).

Notation joined_host := (Joined_host (W := JW) (D := bytes) (B := Full bytes) (Fs := unit) (C := unit) (TlsInfo := unit)
  (enc_alloc := any_alloc) false PortableStrategy (fun e : Infallible => match e with end) server_config 9 40 None).

Definition joined_run : JW * option (call (result (ConnectionOutcome unit unit) Error)) := Eval vm_compute in
  host_run (ServerHost0 := joined_host)
    (enc_alloc := any_alloc) false PortableStrategy server_config 9 40 (fun _ => None) joined_start.

Lemma joined_ran :
  host_run (ServerHost0 := joined_host)
    (enc_alloc := any_alloc) false PortableStrategy server_config 9 40 (fun _ => None) joined_start = (fst joined_run, snd joined_run).
Proof. vm_cast_no_check (eq_refl joined_run). Qed.

Example joined_requests : map (fun v => su_path (req_target (vreq_head v))) (fst (extra (fst joined_run))) = [bs "/a"; bs "/b"].
Proof. vm_cast_no_check (eq_refl [bs "/a"; bs "/b"]). Qed.

Lemma server_serves_wire_witness :
  exists input vs, taken_in (fst joined_run) = taken_in joined_start ++ input /\ fst (extra (fst joined_run)) = [] ++ vs /\
    talk (framed_body server_config) (configured_parser server_config) input vs.
Proof.
  refine (server_serves_wire (W := JW) (D := bytes) (B := Full bytes) (Fs := unit) (C := unit) (TlsInfo := unit) (enc_alloc := any_alloc) false PortableStrategy (fun e : Infallible => match e with end) server_config 9 40 None
    default_limits_wf 40 (fun _ => None) joined_start (fst joined_run) (snd joined_run) _ _ joined_ran).
  - vm_compute. split; discriminate.
  - vm_compute. discriminate.
Defined.

End Evaluated.
