(* ===== verification/Linked.v ===== *)
(** The layers of the client driver joined: a connection (Session.v) whose
    exchanges (Driver.v) run the activities of Client.v, all of them
    src/src/proto/h1/client.rs.

    As in Joined.v an activity runs its program between two polls of its
    exchange, when and with what delay a schedule decides. Both directions share
    the exchange's control, so what the world does while one of them waits
    includes its peer's cancellation. *)

From Stdlib Require Import ZArith Lia.
From stdpp Require Import base list option.
From S2P Require Import Prelude Http Errors Upgrade Response Syntax Decode Scan Validate Body Encode Pipe Future Incoming Send Recv.
From S2P Require Import Deadline Receive Transfer Connection Exchange Config Heads Scenario Client Driver Session.

(** ** The exchange of a connection *)

(** When the directions run and are observed. *)
Record Timing := mkTiming {
  exchange_polls : nat;
  receiving : nat * nat;
  sending : nat * nat;
}.

Class ClientApplication {http : HttpCrate} (W J B : Type) := {
  job_request : J -> Request B;
  (** the control and the response stream of the job become the exchange's *)
  begin_job : W -> J -> W;
  (** [response.fail(..)] *)
  fail_response : W -> Error -> W;
  (** the connection's token *)
  shutdown_canceled : W -> bool;
  timing : W -> J -> Timing;
}.

(** What the directions share: the world, the connection's parser and whether
    the response stream is still there. *)
Record Shared (W : Type) := mkShared {
  sh_world : W;
  sh_parser : HeadParser;
  sh_open : bool;
}.
Arguments mkShared {W} _ _ _.
Arguments sh_world {W} _.
Arguments sh_parser {W} _.
Arguments sh_open {W} _.

Section Exchanges.
Context {http : HttpCrate} {hp : Httparse} {alloc : BytesAllocator} {enc_alloc : Encode.Allocator}.
Context {W J B D E TlsInfo C : Type} `{IoBuf D} `{!Body B D E}.
Context `{Runtime W} `{AsyncRead W} `{AsyncWrite W} `{Timer W} `{Clock W} `{!Producing W} `{!BodyProducer W}.
Context `{!ClientControl W} `{!ContinueWait W} `{!ResponseProducer W (Event TlsInfo C) C} `{!Suspends W} `{!ClientApplication W J B}.
Context (tls : bool) (strategy : Strategy) (application : E -> StdError) (config : ClientConfig) (writes turns : nat)
  (tls_info : option TlsInfo).

Definition on_world (f : W -> W) (s : Shared W) : Shared W := mkShared (f (sh_world s)) (sh_parser s) (sh_open s).

#[export] Instance Shared_control : ClientControl (Shared W) := {
  cc_control s := cc_control (sh_world s);
  cc_set s c := on_world (fun w => cc_set w c) s;
  cc_wake s k := on_world (fun w => cc_wake w k) s;
}.

#[export] Instance Shared_slot : ResponseSlot (Shared W) := {
  slot_open := sh_open;
  slot_fail s e := mkShared (fail_response (sh_world s) e) (sh_parser s) false;
  shutdown_token s := shutdown_canceled (sh_world s);
}.

#[export] Instance Shared_suspend : Suspends (Shared W) := on_world suspend.

(** The directions as programs: the reception, and the upload. *)
Record ReceiveDirection := mkReceiveDirection { rd_buffer : RecvBuffer; rd_policy : ExchangePolicy }.
Record SendDirection := mkSendDirection { sd_upload : RequestUpload B }.

#[export] Instance receive_direction : Program ReceiveDirection (Shared W) (result ReceivedResponse Error) := fun p s =>
  let '(w, parser, opened, r) := receive tls strategy config tls_info turns (sh_world s) (rd_buffer p) (sh_parser s) (rd_policy p) in
  (mkShared w parser (sh_open s && opened), match r with Some (Returns r) => Some r | _ => None end).

#[export] Instance send_direction : Program SendDirection (Shared W) (result unit Error) := fun p s =>
  let upload := sd_upload p in
  let '(w, _, _, r) :=
    send_request tls application writes turns (sh_world s) (plan_bytes (up_plan upload)) (plan_head (up_plan upload)) (up_body upload)
      (up_encoder upload) (continue_wait config) in
  (mkShared w (sh_parser s) (sh_open s), match r with Some (Returns r) => Some r | _ => None end).

Definition directions (t : Timing) (b : RecvBuffer) (upload : RequestUpload B) (policy : ExchangePolicy)
    : Activity ReceiveDirection (result ReceivedResponse Error) * Activity SendDirection (result unit Error) :=
  (Before (fst (receiving t)) (snd (receiving t)) (mkReceiveDirection b policy),
   Before (fst (sending t)) (snd (sending t)) (mkSendDirection upload)).

#[export] Instance directed_exchange (t : Timing) (b : RecvBuffer) :
    Future (Exchanging (B := B) (FS := Activity SendDirection (result unit Error))
      (FR := Activity ReceiveDirection (result ReceivedResponse Error))) (Shared W) (call (result SettledExchange Error)) :=
  exchange (encode_config (protocol (client_settings config))) (informational_limit (protocol (client_settings config))) (directions t b).

Definition job_exchange (w : W) (parser : HeadParser) (job : J) (b : RecvBuffer)
    : W * HeadParser * option (call (result SettledExchange Error)) :=
  let t := timing w job in
  let '(_, s, r) :=
    await (H := directed_exchange t b) (exchange_polls t) (Watched (InnerPrepare (job_request job))) (mkShared (begin_job w job) parser true) in
  (sh_world s, sh_parser s, r).

End Exchanges.
Arguments SendDirection {http} B.

(** What else a connection calls. *)
Class ClientEnd (W J R Wr : Type) := {
  cl_next : W -> W * option J;
  cl_release : W -> W * bool;
  cl_drop : W -> W;
  cl_finish : W -> J -> result ExchangeOutcome Error -> W;
  cl_fulfill : W -> J -> Upgraded R Wr -> W * result UpgradeKind (Upgraded R Wr);
  cl_reader : W -> R;
  cl_writer : W -> Wr;
  cl_stopping : W -> bool;
  cl_recovering : W -> bool;
}.

(** ** What the parts of a world leave alone

    Documented behaviour of the transport, the runtime, the observers and the
    ends of a connection: writing is not heard by the receiving side nor reading
    by the sending side, and jobs and receipts change at the connection's ends
    only. *)
Class LinkLaws {http : HttpCrate} (W : Type) {J B R Wr TlsInfo C : Type} `{Runtime W} `{AsyncRead W} `{!Reads W} `{AsyncWrite W}
    `{!Writes W} `{Timer W} `{!BodyProducer W} `{!ReceiveLaws W} `{!ClientControl W} `{!ContinueWait W}
    `{!ResponseProducer W (Event TlsInfo C) C} `{!ResponseLaws W} `{!Suspends W} `{!ClientApplication W J B} `{!ClientEnd W J R Wr} := {
  taken_jobs : W -> list J;
  told : W -> list (J * result ExchangeOutcome Error);
  (** what sending leaves alone, and receiving *)
  beside_sending w := (received w, events w, delivered w, (taken_jobs w, told w));
  beside_receiving w := (wire w, (taken_jobs w, told w));
  spoken w := mkTranscript (wire w) (received w) (events w) (delivered w);
  law_link_write w b : beside_sending (fst (aw_write w b)) = beside_sending w;
  law_link_write_vectored w b : beside_sending (fst (aw_write_vectored w b)) = beside_sending w;
  law_link_flush w : beside_sending (fst (aw_flush w)) = beside_sending w;
  law_link_wait w d : beside_sending (fst (wait_continue_until w d)) = beside_sending w;
  law_link_read w n : beside_receiving (fst (ar_read w n)) = beside_receiving w;
  law_link_managed w n : beside_receiving (fst (ar_read_managed w n)) = beside_receiving w;
  law_link_cancel w : beside_receiving (request_cancel w) = beside_receiving w;
  law_link_demand w : beside_receiving (fst (pr_demand w)) = beside_receiving w;
  law_link_offer w x : beside_receiving (fst (pr_offer w x)) = beside_receiving w;
  law_link_close w : beside_receiving (pr_close w) = beside_receiving w;
  law_link_fail w e : beside_receiving (pr_fail w e) = beside_receiving w;
  law_link_policy w p : beside_receiving (pr_set_policy w p) = beside_receiving w;
  law_link_wake w k : beside_receiving (cc_wake w k) = beside_receiving w;
  law_link_event w e : beside_receiving (fst (ev_offer w e)) = beside_receiving w;
  law_link_until w d e : beside_receiving (fst (ev_offer_until w d e)) = beside_receiving w;
  law_link_ended w : beside_receiving (ev_close w) = beside_receiving w;
  (** what neither direction does is not heard at all *)
  law_link_yield w : beside_sending (rt_yield w) = beside_sending w;
  law_link_control w c : beside_sending (cc_set w c) = beside_sending w /\ wire (cc_set w c) = wire w;
  law_link_suspend w : beside_sending (suspend w) = beside_sending w /\ wire (suspend w) = wire w;
  law_link_begin w j : beside_sending (begin_job w j) = beside_sending w /\ wire (begin_job w j) = wire w;
  law_link_failed w e : beside_sending (fail_response w e) = beside_sending w /\ wire (fail_response w e) = wire w;
  law_link_next w w' j : cl_next w = (w', j) ->
    spoken w' = spoken w /\ taken_jobs w' = taken_jobs w ++ opt_list j /\ told w' = told w;
  law_link_finish w j r : spoken (cl_finish w j r) = spoken w /\ taken_jobs (cl_finish w j r) = taken_jobs w /\
    told (cl_finish w j r) = told w ++ [(j, r)];
  law_link_release w : beside_sending (fst (cl_release w)) = beside_sending w /\ wire (fst (cl_release w)) = wire w;
  law_link_drop w : beside_sending (cl_drop w) = beside_sending w /\ wire (cl_drop w) = wire w;
  law_link_shutdown w : beside_sending (fst (aw_shutdown w)) = beside_sending w /\ wire (fst (aw_shutdown w)) = wire w;
  law_link_fulfill w j u w' r : cl_fulfill w j u = (w', r) ->
    beside_sending w' = beside_sending w /\ wire w' = wire w /\ match r with Err u' => u' = u | Ok _ => True end;
}.

Section Linked.
Context {http : HttpCrate} {hp : Httparse} {laws : HttparseLaws hp} {alloc : BytesAllocator} {enc_alloc : Encode.Allocator}.
Context {W J B D E R Wr TlsInfo C : Type} `{IoBuf D} `{!Body B D E}.
Context `{Runtime W} `{AsyncRead W} `{!Reads W} `{AsyncWrite W} `{!Writes W} `{Timer W} `{Clock W} `{!Producing W} `{!BodyProducer W} `{!ReceiveLaws W}.
Context `{!ClientControl W} `{!ContinueWait W} `{!UploadLaws W} `{!ResponseProducer W (Event TlsInfo C) C} `{!ResponseLaws W} `{!Suspends W}.
Context `{!ClientApplication W J B} `{!ClientEnd W J R Wr} `{!LinkLaws W}.
Context (tls : bool) (strategy : Strategy) (application : E -> StdError) (config : ClientConfig) (writes turns : nat)
  (tls_info : option TlsInfo).

(** A connection whose exchanges are those above. *)
#[export] Instance Linked_host : ClientHost W J R Wr := {
  next_job := cl_next;
  release := cl_release;
  drop_requests := cl_drop;
  run_exchange := job_exchange tls strategy application config writes turns tls_info;
  finish_receipt := cl_finish;
  fulfill_upgrade := cl_fulfill;
  read_half := cl_reader;
  write_half := cl_writer;
  conn_stopping := cl_stopping;
  conn_recovering := cl_recovering;
}.

Notation limits := (decode_limits (protocol (client_settings config))).
Notation encoding := (encode_config (protocol (client_settings config))).
Notation max_heads := (informational_limit (protocol (client_settings config))).

(** A whole exchange of a job: its request, prepared and encoded, and one
    response to it, as it was shown and as its body was given. *)
Definition whole_exchange (job : J) (t : Transcript (Event TlsInfo C) (Frame IncomingData)) : Prop :=
  exists upload policy policy',
    prepare (job_request job) encoding max_heads = Returns (Ok (upload, policy)) /\
    is_request upload (ts_sent t) /\
    is_response config tls_info (client_parser config) policy (ts_got t) (ts_events t) (ts_frames t) policy'.

Lemma receive_beside fuel (w : W) b p st :
  beside_receiving (fst (fst (fst (receive tls strategy config tls_info fuel w b p st)))) = beside_receiving w.
Proof.
  apply receive_keeps; intros; [apply law_link_read|apply law_link_managed|apply law_link_cancel| |apply law_link_demand|apply law_link_offer
    |apply law_link_close|apply law_link_fail|apply law_link_policy| |apply law_link_wake|apply law_link_event|apply law_link_until|apply law_link_ended].
  - unfold beside_receiving. rewrite law_yield. pose proof (law_link_yield w0) as Hy. unfold beside_sending in Hy. congruence.
  - destruct (law_link_control w0 c) as [Hs Hw]. unfold beside_receiving, beside_sending in *. congruence.
Qed.

Lemma send_request_beside fuel (w : W) b head (body : B) encoder cw :
  beside_sending (fst (fst (fst (send_request tls application writes fuel w b head body encoder cw)))) = beside_sending w.
Proof.
  apply send_request_keeps; intros; [apply law_link_write|apply law_link_write_vectored|apply law_link_flush|apply law_link_yield
    |apply law_link_wait|apply law_link_control].
Qed.

(** ** What an exchange hears *)

Section Heard.
Context (job : J) (b : RecvBuffer) (w0 : W).
Context (Hlimits : wf_limits limits) (Hmax : 0 <= max_heads) (Hb : wf_recv b) (Hnil : recv_bytes b = []).

Notation p0 := (client_parser config).

(** The receiving side: [q] was received, [evs] and [ds] shown since [w0]. *)
Definition heard_in (w : W) (q : bytes) (evs : list (Event TlsInfo C)) (ds : list (Frame IncomingData)) : Prop :=
  received w = received w0 ++ q /\ events w = events w0 ++ evs /\ delivered w = delivered w0 ++ ds.

Definition in_answer (policy : ExchangePolicy) (s : Shared W) (a : result ReceivedResponse Error) : Prop :=
  exists q evs ds, heard_in (sh_world s) q evs ds /\
    forall rr, a = Ok rr -> wf_recv (rr_buffer rr) /\ (rr_end rr = Complete ->
      sh_parser s = fresh p0 /\ exists m, q = m ++ recv_bytes (rr_buffer rr) /\ is_response config tls_info p0 policy m evs ds (rr_policy rr)).

Definition in_live (policy : ExchangePolicy) (x : Direction (Activity ReceiveDirection (result ReceivedResponse Error)) (result ReceivedResponse Error))
    (s : Shared W) : Prop :=
  match x with
  | Runs (Before _ _ program) => program = mkReceiveDirection b policy /\ heard_in (sh_world s) [] [] [] /\ sh_parser s = fresh p0
  | Runs (After _ a) | Answered a => in_answer policy s a
  | Runs Stuck => exists q evs ds, heard_in (sh_world s) q evs ds
  end.

(** The sending side. *)
Definition out_answer (upload : RequestUpload B) (s : Shared W) (a : result unit Error) : Prop :=
  exists x, wire (sh_world s) = wire w0 ++ x /\ (a = Ok tt -> is_request upload x).

Definition out_live (upload : RequestUpload B) (y : Direction (Activity (SendDirection B) (result unit Error)) (result unit Error))
    (s : Shared W) : Prop :=
  match y with
  | Runs (Before _ _ program) => program = mkSendDirection upload /\ wire (sh_world s) = wire w0
  | Runs (After _ a) | Answered a => out_answer upload s a
  | Runs Stuck => exists x, wire (sh_world s) = wire w0 ++ x
  end.

Definition kept (s : Shared W) : Prop := taken_jobs (sh_world s) = taken_jobs w0 /\ told (sh_world s) = told w0.

Definition both_live x y (s : Shared W) : Prop :=
  exists upload policy, prepare (job_request job) encoding max_heads = Returns (Ok (upload, policy)) /\
    in_live policy x s /\ out_live upload y s /\ kept s.

Definition begun_live (s : Shared W) : Prop :=
  heard_in (sh_world s) [] [] [] /\ sh_parser s = fresh p0 /\ wire (sh_world s) = wire w0 /\ kept s.

(** A side does not notice what leaves its view alone. *)
Lemma in_live_same policy x s s' :
  beside_sending (sh_world s') = beside_sending (sh_world s) -> sh_parser s' = sh_parser s -> in_live policy x s -> in_live policy x s'.
Proof.
  unfold in_live, in_answer, heard_in, beside_sending. intros [= -> -> -> _ _] ->. done.
Qed.

Lemma out_live_same upload y s s' : wire (sh_world s') = wire (sh_world s) -> out_live upload y s -> out_live upload y s'.
Proof. unfold out_live, out_answer. by intros ->. Qed.

Lemma kept_same s s' : beside_sending (sh_world s') = beside_sending (sh_world s) -> kept s -> kept s'.
Proof. unfold kept, beside_sending. by intros [= _ _ _ -> ->]. Qed.

Lemma both_live_same x y s s' : beside_sending (sh_world s') = beside_sending (sh_world s) -> wire (sh_world s') = wire (sh_world s) ->
  sh_parser s' = sh_parser s -> both_live x y s -> both_live x y s'.
Proof.
  intros Hs Hw Hp (upload & policy & Hpr & Hi & Ho & Hk). exists upload, policy.
  split_and!; [done|by eapply in_live_same|by eapply out_live_same|by eapply kept_same].
Qed.

Lemma begun_live_same s s' : beside_sending (sh_world s') = beside_sending (sh_world s) -> wire (sh_world s') = wire (sh_world s) ->
  sh_parser s' = sh_parser s -> begun_live s -> begun_live s'.
Proof.
  unfold begun_live, heard_in, kept, beside_sending. intros [= -> -> -> -> ->] -> ->. done.
Qed.

(** The programs of the directions. *)
Notation receives := (receive_direction tls strategy config turns tls_info).
Notation sends := (send_direction tls application config writes turns).

Lemma receive_direction_heard policy s : wf_policy policy -> heard_in (sh_world s) [] [] [] -> sh_parser s = fresh p0 ->
  let '(s', r) := receives (mkReceiveDirection b policy) s in
  beside_receiving (sh_world s') = beside_receiving (sh_world s) /\ (exists q evs ds, heard_in (sh_world s') q evs ds) /\
  match r with Some a => in_answer policy s' a | None => True end.
Proof using laws Hlimits Hb Hnil LinkLaws0.
  intros Hpol (Hr & He & Hd) Hp. unfold receive_direction. cbn [rd_buffer rd_policy]. rewrite Hp. rewrite app_nil_r in Hr, He, Hd.
  pose proof (receive_beside turns (sh_world s) b (fresh p0) policy) as Hk.
  destruct (receive _ _ _ _ turns (sh_world s) b (fresh p0) policy) as [[[w' p'] opened] r] eqn:Er. simpl in Hk.
  apply receive_seen in Er as (q & evs & ds & Hr' & He' & Hd' & Hrr); [|done..].
  assert (heard_in w' q evs ds) as Hh by (unfold heard_in; by rewrite Hr', He', Hd', Hr, He, Hd).
  split; [done|]. split; [by exists q, evs, ds|]. destruct r as [[a|]|]; [|done..]. exists q, evs, ds. split; [done|].
  intros rr ->. destruct (Hrr rr eq_refl) as [Hwf Hc]. split; [done|]. intros Hcomplete. simpl.
  destruct (Hc Hcomplete) as (_ & -> & m & Hq & Hm). split; [done|]. exists m. by rewrite Hnil in Hq.
Qed.

Lemma send_direction_heard upload s : wire (sh_world s) = wire w0 ->
  let '(s', r) := sends (mkSendDirection upload) s in
  beside_sending (sh_world s') = beside_sending (sh_world s) /\ sh_parser s' = sh_parser s /\
  (exists x, wire (sh_world s') = wire w0 ++ x) /\ match r with Some a => out_answer upload s' a | None => True end.
Proof using UploadLaws0 LinkLaws0.
  intros Hw. unfold send_direction. cbn [sd_upload].
  pose proof (send_request_beside turns (sh_world s) (plan_bytes (up_plan upload)) (plan_head (up_plan upload)) (up_body upload)
    (up_encoder upload) (continue_wait config)) as Hk.
  destruct (send_request _ _ _ turns (sh_world s) _ _ _ _ _) as [[[w' body'] e'] r] eqn:Es. simpl in Hk.
  apply send_request_sent in Es as (x & Hx & Hreq). rewrite Hw in Hx. simpl. split_and!; [done..|by exists x|].
  destruct r as [[a|]|]; [|done..]. exists x. split; [done|]. intros ->. by apply Hreq.
Qed.

Lemma policy_wf upload policy : prepare (job_request job) encoding max_heads = Returns (Ok (upload, policy)) -> wf_policy policy.
Proof using Hmax. intros [_ ->]%prepared. unfold wf_policy. simpl. lia. Qed.

Lemma receive_direction_poll f y s : both_live (Runs f) y s ->
  match poll (Future := activity (Program0 := receives)) f s with
  | (f', s', Pending) => both_live (Runs f') y s'
  | (_, s', Ready a) => both_live (Answered a) y s'
  end.
Proof using laws Hlimits Hb Hnil LinkLaws0 Hmax.
  intros (upload & policy & Hpr & Hi & Ho & Hk). destruct f as [[|n] m program|[|m] a|]; [|by exists upload, policy..].
  destruct Hi as (-> & Hh & Hp). unfold poll. simpl. unfold run_program.
  pose proof (receive_direction_heard policy s (policy_wf _ _ Hpr) Hh Hp) as Hr.
  destruct (receives (mkReceiveDirection b policy) s) as [s1 r]. destruct Hr as (Hbs & Hgrown & Ha).
  injection Hbs as Hw Hj Ht. assert (out_live upload y s1 /\ kept s1) as [Ho1 Hk1].
  { split; [by eapply out_live_same|]. unfold kept in *. by rewrite Hj, Ht. }
  destruct r as [a|]; [destruct m as [|m]|]; by exists upload, policy.
Qed.

Lemma send_direction_poll x f s : both_live x (Runs f) s ->
  match poll (Future := activity (Program0 := sends)) f s with
  | (f', s', Pending) => both_live x (Runs f') s'
  | (_, s', Ready a) => both_live x (Answered a) s'
  end.
Proof using UploadLaws0 LinkLaws0.
  intros (upload & policy & Hpr & Hi & Ho & Hk). destruct f as [[|n] m program|[|m] a|]; [|by exists upload, policy..].
  destruct Ho as (-> & Hw). unfold poll. simpl. unfold run_program.
  pose proof (send_direction_heard upload s Hw) as Hr. destruct (sends (mkSendDirection upload) s) as [s1 r].
  destruct Hr as (Hbs & Hp & Hgrown & Ha). assert (in_live policy x s1 /\ kept s1) as [Hi1 Hk1].
  { split; [by eapply in_live_same|by eapply kept_same]. }
  destruct r as [a|]; [destruct m as [|m]|]; by exists upload, policy.
Qed.

(** Since [w0], exactly [t] was heard. *)
Definition spoke (w : W) (t : Transcript (Event TlsInfo C) (Frame IncomingData)) : Prop :=
  taken_jobs w = taken_jobs w0 /\ told w = told w0 /\ spoken w = transcript_app (spoken w0) t.

Lemma spoke_parts w q evs ds x : heard_in w q evs ds -> wire w = wire w0 ++ x -> taken_jobs w = taken_jobs w0 /\ told w = told w0 ->
  spoke w (mkTranscript x q evs ds).
Proof. intros (Hr & He & Hd) Hw [Hj Ht]. unfold spoke, spoken, transcript_app. simpl. by rewrite Hr, He, Hd, Hw. Qed.

Lemma both_live_spoke x y s : both_live x y s -> exists t, spoke (sh_world s) t.
Proof.
  intros (upload & policy & _ & Hi & Ho & Hk).
  assert (exists q evs ds, heard_in (sh_world s) q evs ds) as (q & evs & ds & Hh).
  { destruct x as [[n m program|m a|]|a]; simpl in Hi; [destruct Hi as (_ & ? & _); eauto| |done|];
      destruct Hi as (q & evs & ds & Hh & _); eauto. }
  assert (exists x, wire (sh_world s) = wire w0 ++ x) as (out & Hw).
  { destruct y as [[n m program|m a|]|a]; simpl in Ho; [exists []; rewrite app_nil_r; apply Ho| |done|]; destruct Ho as (o & Hw & _); eauto. }
  eexists. by apply spoke_parts.
Qed.

Lemma begun_live_spoke s : begun_live s -> spoke (sh_world s) silence.
Proof. intros (Hh & _ & Hw & Hk). apply (spoke_parts _ [] [] [] []); [done|by rewrite app_nil_r|done]. Qed.

(** Both directions answered, and their exchange leaves the connection usable. *)
Lemma both_answered sent received_ s x : both_live (Answered received_) (Answered sent) s ->
  finish_exchange sent received_ (explicit_abort s) = Ok x -> se_outcome x <> OutcomeClose ->
  wf_recv (se_buffer x) /\ sh_parser s = fresh p0 /\
  exists m, spoke (sh_world s) (transcript_app m (unused (recv_bytes (se_buffer x)))) /\ whole_exchange job m.
Proof.
  intros (upload & policy & Hpr & (q & evs & ds & Hh & Hrr) & (out & Hw & Hreq) & Hk) Hf Ho.
  destruct (finish_exchange_usable _ _ _ _ Hf Ho) as (-> & _ & p & -> & _). destruct (Hrr _ eq_refl) as [Hwf Hc].
  destruct (Hc eq_refl) as (Hp & m & Hq & Hm). simpl in *. split_and!; [done..|]. exists (mkTranscript out m evs ds). split.
  - unfold transcript_app, unused. simpl. rewrite !app_nil_r, <- Hq. by apply spoke_parts.
  - exists upload, policy, p. split_and!; [done|by apply Hreq|done].
Qed.

(** Reporting a failure is not heard. *)
Lemma reports_spoke s r0 s' r t : reports s r0 s' r -> spoke (sh_world s) t ->
  spoke (sh_world s') t /\ forall x, r = Returns (Ok x) -> s' = s /\ r0 = Returns (Ok x).
Proof using LinkLaws0.
  unfold reports. destruct r0 as [r0|]; [|by intros [-> ->]]. intros (r1 & Hr & ->) Ht. destruct r0 as [x0|e]; simpl in Hr.
  - injection Hr as <- <-. split; [done|]. by intros x [= ->].
  - destruct (sh_open s); injection Hr as <- <-; (split; [|done]); [|done]. simpl.
    destruct (law_link_failed (sh_world s) (snd (Error_split e))) as [[= H1' H2' H3' H4' H5'] Hw]. unfold spoke, spoken in *.
    simpl in *. rewrite H1', H2', H3', H4', H5', Hw. done.
Qed.

Lemma worked_spoke s r : worked begun_live both_live s r ->
  exists t, spoke (sh_world s) t /\ forall x, r = Returns (Ok x) -> se_outcome x <> OutcomeClose ->
    wf_recv (se_buffer x) /\ sh_parser s = fresh p0 /\ exists m, t = transcript_app m (unused (recv_bytes (se_buffer x))) /\ whole_exchange job m.
Proof.
  intros [(sent & received_ & Hl & ->)|[Hl Hne]].
  2: { apply begun_live_spoke in Hl. exists silence. split; [done|]. intros x ->. by destruct (Hne x). }
  destruct (finish_exchange sent received_ (explicit_abort s)) as [x|e] eqn:Ef.
  2: { apply both_live_spoke in Hl as [t Ht]. by exists t. }
  assert (se_outcome x = OutcomeClose \/ se_outcome x <> OutcomeClose) as [Ho|Ho] by (destruct (se_outcome x); auto).
  { apply both_live_spoke in Hl as [t Ht]. exists t. split; [done|]. by intros ? [= <-]. }
  destruct (both_answered _ _ _ _ Hl Ef Ho) as (Hwf & Hp & m & Ht & Hm). eexists. split; [exact Ht|].
  intros ? [= <-] _. split_and!; [done..|]. by exists m.
Qed.

Lemma job_exchange_spoke w' p' r :
  job_exchange tls strategy application config writes turns tls_info w0 (fresh p0) job b = (w', p', r) ->
  exists t, spoke w' t /\ forall x, r = Some (Returns (Ok x)) -> se_outcome x <> OutcomeClose ->
    wf_recv (se_buffer x) /\ p' = fresh p0 /\ exists m, t = transcript_app m (unused (recv_bytes (se_buffer x))) /\ whole_exchange job m.
Proof using laws Hlimits Hb Hnil LinkLaws0 UploadLaws0 Hmax.
  unfold job_exchange. match goal with |- context [await ?n ?x ?s] => destruct (await n x s) as [[x' s'] r'] eqn:Ea end. intros [= <- <- <-].
  apply (exchange_holds _ _ _ (job_request job) begun_live both_live receive_direction_poll send_direction_poll) in Ea.
  - destruct r' as [r'|].
    + destruct Ea as (s & r0 & (t & Ht & Hx)%worked_spoke & Hrep). destruct (reports_spoke _ _ _ _ _ Hrep Ht) as [Ht' Hs].
      exists t. split; [done|]. intros x [= ->]. destruct (Hs x eq_refl) as [-> ->]. by apply Hx.
    + assert (exists t, spoke (sh_world s') t) as [t Ht]; [|by exists t]. revert Ea.
      assert (Hw : forall x, working (job_request job) begun_live both_live x s' -> exists t, spoke (sh_world s') t).
      { intros [r|receive send|received_ send|sent receive|]; simpl; [|eauto using both_live_spoke..|done].
        intros [_ Hs%begun_live_spoke]. by eexists. }
      destruct x'; simpl; [eauto..|done].
  - intros x y s. apply both_live_same; [apply law_link_control|apply law_link_control|done].
  - intros x y s. apply both_live_same; [apply law_link_suspend|apply law_link_suspend|done].
  - intros s. apply begun_live_same; [apply law_link_control|apply law_link_control|done].
  - intros s. apply begun_live_same; [apply law_link_suspend|apply law_link_suspend|done].
  - intros upload policy s Hp (Hh & Hpar & Hw & Hk). by exists upload, policy.
  - simpl. split; [done|]. destruct (law_link_begin w0 job) as [[= H1' H2' H3' H4' H5'] Hw].
    unfold begun_live, heard_in, kept. simpl. by rewrite !app_nil_r, H1', H2', H3', H4', H5', Hw.
Qed.

End Heard.

(** Jobs and receipts are not the business of an exchange, whatever its parser
    and buffer. *)
Definition accounts (w : W) : list J * list (J * result ExchangeOutcome Error) := (taken_jobs w, told w).

Lemma accounts_same (w w' : W) : beside_sending w' = beside_sending w -> accounts w' = accounts w.
Proof. unfold beside_sending, accounts. by intros [= _ _ _ -> ->]. Qed.

Lemma receive_direction_accounts (f : Activity ReceiveDirection (result ReceivedResponse Error)) (s : Shared W) :
  accounts (sh_world (snd (fst (poll (Future := activity (Program0 := receive_direction tls strategy config turns tls_info)) f s)))) =
  accounts (sh_world s).
Proof.
  apply (activity_keeps (fun s => accounts (sh_world s))). intros program s1. unfold run_program, receive_direction.
  pose proof (receive_beside turns (sh_world s1) (rd_buffer program) (sh_parser s1) (rd_policy program)) as Hk.
  destruct (receive _ _ _ _ turns _ _ _ _) as [[[w' p'] opened] r]. simpl in *. unfold beside_receiving, accounts in *. congruence.
Qed.

Lemma send_direction_accounts (f : Activity (SendDirection B) (result unit Error)) (s : Shared W) :
  accounts (sh_world (snd (fst (poll (Future := activity (Program0 := send_direction tls application config writes turns)) f s)))) =
  accounts (sh_world s).
Proof.
  apply (activity_keeps (fun s => accounts (sh_world s))). intros program s1. unfold run_program, send_direction.
  pose proof (send_request_beside turns (sh_world s1) (plan_bytes (up_plan (sd_upload program))) (plan_head (up_plan (sd_upload program)))
    (up_body (sd_upload program)) (up_encoder (sd_upload program)) (continue_wait config)) as Hk.
  destruct (send_request _ _ _ turns _ _ _ _ _ _) as [[[w' body'] e'] r]. simpl in *. by apply accounts_same.
Qed.

Lemma job_exchange_accounts (w : W) p job b :
  accounts (fst (fst (job_exchange tls strategy application config writes turns tls_info w p job b))) = accounts w.
Proof.
  unfold job_exchange. match goal with |- context [await ?n ?x ?s] => destruct (await n x s) as [[x' s'] r'] eqn:Ea end. simpl.
  pose (same := fun s : Shared W => accounts (sh_world s) = accounts w).
  apply (exchange_holds _ _ _ (job_request job) same (fun _ _ => same)) in Ea; subst same; simpl in *.
  - destruct r' as [r'|].
    + destruct Ea as (s & r0 & [(sent & received_ & Hs & _)|[Hs _]] & Hrep);
        (destruct r0 as [[x|e]|]; [| |by destruct Hrep as [-> _]]; destruct Hrep as (r1 & Hr & _); simpl in Hr;
         [by injection Hr as <- _|]; destruct (sh_open s); injection Hr as <- _; [|done]; simpl; rewrite <- Hs;
         apply accounts_same, law_link_failed).
    + destruct x' as [[]|[]|]; simpl in Ea; naive_solver.
  - intros f y s Hs. rewrite <- Hs, <- (receive_direction_accounts f s). by destruct (poll f s) as [[f1 s1] [a|]].
  - intros x f s Hs. rewrite <- Hs, <- (send_direction_accounts f s). by destruct (poll f s) as [[f1 s1] [a|]].
  - intros _ _ s <-. apply accounts_same, law_link_control.
  - intros _ _ s <-. apply accounts_same, law_link_suspend.
  - intros s <-. apply accounts_same, law_link_control.
  - intros s <-. apply accounts_same, law_link_suspend.
  - done.
  - split; [done|]. apply accounts_same, law_link_begin.
Qed.

#[export] Instance Linked_session : SessionLaws W (ClientHost0 := Linked_host).
Proof using LinkLaws0.
  refine {| admitted := taken_jobs; receipts := told |}; simpl.
  - intros w w' j (_ & -> & ->)%law_link_next. done.
  - intros w j r. by destruct (law_link_finish w j r) as (_ & -> & ->).
  - intros w. apply accounts_same, law_link_yield.
  - intros w. apply accounts_same, law_link_release.
  - intros w. apply accounts_same, law_link_drop.
  - intros w p j b. apply job_exchange_accounts.
  - intros w j u. destruct (cl_fulfill w j u) as [w' r] eqn:Ef. by apply accounts_same, (law_link_fulfill _ _ _ _ _ Ef).
  - intros w. apply accounts_same, law_link_shutdown.
Defined.

Lemma spoken_same (w w' : W) : beside_sending w' = beside_sending w -> wire w' = wire w -> spoken w' = spoken w.
Proof. unfold beside_sending, spoken. by intros [= -> -> -> _ _] ->. Qed.

Context (Hlimits : wf_limits limits) (Hmax : 0 <= max_heads).

#[export] Instance Linked_conversation : ConversationLaws (Ev := Event TlsInfo C) (Fr := Frame IncomingData) W (client_parser config) (ClientHost0 := Linked_host).
Proof using LinkLaws0 UploadLaws0 Hlimits Hmax laws.
  refine {| transcript := spoken; exchange_of := whole_exchange |}; simpl.
  - intros w. destruct (cl_next w) as [w' j] eqn:Ej. by apply law_link_next in Ej as (Hs & _).
  - intros w j r. apply law_link_finish.
  - intros w. apply spoken_same; [apply law_link_yield|apply law_yield].
  - intros w. apply spoken_same; apply law_link_release.
  - intros w. apply spoken_same; apply law_link_drop.
  - intros w. apply spoken_same; apply law_link_shutdown.
  - intros w j u w' r (Hs & Hw & Hu)%law_link_fulfill. split; [by apply spoken_same|done].
  - intros w j b w' p' r Hb Hnil Hx. destruct (job_exchange_spoke _ _ _ Hlimits Hmax Hb Hnil _ _ _ Hx) as (t & (_ & _ & Ht) & Hr).
    exists t. split; [done|]. intros x -> Ho. by apply Hr.
Defined.

(** C15: A client connection is a sequence of whole exchanges. Whatever the peer
    sends and however it is fragmented, whatever the observers, the timers and a
    shutdown do and in whatever order the directions of an exchange run: the
    requests told that the connection stayed reusable are exactly those before the
    last one, in the order they were admitted; for each of them the wire carries
    its whole request, prepared and encoded, in the same order, the bytes received
    are one whole response to it and nothing else, and its observer was shown that
    response and its body; only the last request may be incomplete; and a
    connection handed over after an upgrade begins with exactly the bytes that
    follow the response that agreed to it. *)
Theorem client_converses fuel aborted (w : W) w' r :
  is_usize (Config.max_retained (client_settings config)) -> 0 <= Config.preferred_read (client_settings config) ->
  run (ClientHost0 := Linked_host) tls config fuel aborted w = (w', r) ->
  exists js ts last t final,
    taken_jobs w' = taken_jobs w ++ js ++ opt_list last /\ Forall2 whole_exchange js ts /\
    spoken w' = (spoken w +++ transcripts ts +++ t)%transcript /\ (last = None -> t = silence) /\
    told w' = told w ++ map reusable js ++ opt_list final /\
    (forall j told, final = Some (j, told) -> last = Some j /\ told <> Ok Response.Reusable) /\
    forall u, r = Some (Returns (Ok (ConnectionUpgraded u))) ->
      exists j m, last = Some j /\ whole_exchange j m /\ t = (m +++ unused (read_ahead u))%transcript.
Proof using LinkLaws0 UploadLaws0 Hlimits Hmax laws.
  intros Hm Hp Hr. destruct (run_heard tls config fuel aborted w w' r Hm Hp Hr)
    as (js & ts & last & t & final & (Hj & Hts & Ht & Hn) & Htold & Hf & Hu).
  exists js, ts, last, t, final. split_and!; [done..|]. by intros u ->.
Qed.

End Linked.

(** ** Evaluated: two requests and their responses *)

Section Evaluated.
#[local] Existing Instance AssocHttp.
#[local] Existing Instance LineHeads.
#[local] Existing Instance World_Allocator.

Definition two_responses : bytes :=
  bs "HTTP/1.1 200 OK......" ++ [CR; LF] ++ bs "content-length: 5" ++ [CR; LF; CR; LF] ++ bs "hello" ++
  bs "HTTP/1.1 204 None" ++ [CR; LF; CR; LF].

Definition get : Request (Full bytes) := mkRequest (bs "GET") (simple_uri_path (bs "/b")) HTTP_11 [(HOST, bs "h")] None FullDone.

Record Desk := mkDesk {
  d_control : Control;
  d_events : list (Event unit unit);
  d_queue : list (Request (Full bytes));
  d_taken : list (Request (Full bytes));
  d_told : list (Request (Full bytes) * result ExchangeOutcome Error);
}.

Notation LW := (World two_responses Desk).

Definition set_control (d : Desk) (c : Control) : Desk := mkDesk c (d_events d) (d_queue d) (d_taken d) (d_told d).
Definition show_event (w : LW) (e : Event unit unit) : LW :=
  let d := extra w in set_extra w (mkDesk (d_control d) (d_events d ++ [e]) (d_queue d) (d_taken d) (d_told d)).

#[local] Instance LW_control : ClientControl LW := {
  cc_control w := d_control (extra w);
  cc_set w c := set_extra w (set_control (extra w) c);
  cc_wake w _ := w;
}.

#[local] Instance LW_wait : ContinueWait LW := fun w _ => (w, true).

#[local] Instance LW_events : ResponseProducer LW (Event unit unit) unit := {
  ev_offer w e := (show_event w e, true);
  ev_offer_until w _ e := (show_event w e, Some true);
  ev_close w := w;
  body_consumer _ := tt;
}.

#[local] Instance LW_upload_laws : UploadLaws LW.
Proof. constructor; done. Qed.

#[local] Instance LW_response_laws : ResponseLaws LW (TlsInfo := unit) (C := unit).
Proof.
  refine {| events w := d_events (extra w) |}; try done.
  - intros w e w' r [= <- <-]. split; [done|by left].
  - intros w d e w' r [= <- <-]. split; [done|by left].
Defined.

#[local] Instance LW_suspends : Suspends LW := fun w => w.

#[local] Instance LW_application : ClientApplication LW (Request (Full bytes)) (Full bytes) := {
  job_request j := j;
  begin_job w _ := set_extra w (set_control (extra w) Control_new);
  fail_response w _ := w;
  shutdown_canceled _ := false;
  timing _ _ := mkTiming 9 (0%nat, 2%nat) (1%nat, 0%nat);
}.

#[local] Instance LW_end : ClientEnd LW (Request (Full bytes)) unit unit := {
  cl_next w :=
    let d := extra w in
    match d_queue d with
    | [] => (w, None)
    | j :: q => (set_extra w (mkDesk (d_control d) (d_events d) q (d_taken d ++ [j]) (d_told d)), Some j)
    end;
  cl_release w := (w, true);
  cl_drop w := w;
  cl_finish w j r :=
    let d := extra w in set_extra w (mkDesk (d_control d) (d_events d) (d_queue d) (d_taken d) (d_told d ++ [(j, r)]));
  cl_fulfill w _ u := (w, Err u);
  cl_reader _ := tt;
  cl_writer _ := tt;
  cl_stopping _ := false;
  cl_recovering _ := false;
}.

#[local] Instance LW_laws : LinkLaws LW (J := Request (Full bytes)) (TlsInfo := unit) (C := unit).
Proof.
  refine {| taken_jobs w := d_taken (extra w); told w := d_told (extra w) |}; try done.
  - intros w w' j. simpl. destruct (d_queue (extra w)) as [|j0 q]; intros [= <- <-]; [by rewrite app_nil_r|done].
  - by intros w j u w' r [= <- <-].
Defined.

Definition linked_start : LW := opened (mkDesk Control_new [] [post; get] [] []).

Notation linked_host := (Linked_host (W := LW) (D := bytes) (B := Full bytes) (TlsInfo := unit) (C := unit) (enc_alloc := any_alloc)
  false PortableStrategy (fun e : Infallible => match e with end) client_config 16 99 None).

Definition linked_run : LW * option (call (result (ConnectionOutcome unit unit) Error)) := Eval vm_compute in
  run (ClientHost0 := linked_host) false client_config 9 (fun _ => None) linked_start.

Lemma linked_ran : run (ClientHost0 := linked_host) false client_config 9 (fun _ => None) linked_start = (fst linked_run, snd linked_run).
Proof. vm_cast_no_check (eq_refl linked_run). Qed.

Example linked_closed : (snd linked_run, map snd (d_told (extra (fst linked_run))), position (fst linked_run)) =
  (Some (Returns (Ok ConnectionClosed)), [Ok Response.Reusable; Ok Response.Reusable], length two_responses).
Proof. vm_compute. reflexivity. Qed.

Notation linked_exchange := (whole_exchange (W := LW) (J := Request (Full bytes)) (B := Full bytes) (D := bytes) (E := Infallible)
  (TlsInfo := unit) (C := unit) (enc_alloc := any_alloc) client_config None).
Notation linked_spoken := (spoken (W := LW) (J := Request (Full bytes)) (TlsInfo := unit) (C := unit)).

Lemma client_converses_witness :
  exists js ts last t final,
    d_taken (extra (fst linked_run)) = [] ++ js ++ opt_list last /\
    Forall2 linked_exchange js ts /\
    linked_spoken (fst linked_run) = (linked_spoken linked_start +++ transcripts ts +++ t)%transcript /\ (last = None -> t = silence) /\
    d_told (extra (fst linked_run)) = [] ++ map reusable js ++ opt_list final /\
    (forall j told, final = Some (j, told) -> last = Some j /\ told <> Ok Response.Reusable) /\
    forall u, snd linked_run = Some (Returns (Ok (ConnectionUpgraded u))) ->
      exists j m, last = Some j /\ linked_exchange j m /\
        t = (m +++ unused (read_ahead u))%transcript.
Proof.
  refine (client_converses (W := LW) (D := bytes) (B := Full bytes) (TlsInfo := unit) (C := unit) (enc_alloc := any_alloc)
    false PortableStrategy (fun e : Infallible => match e with end) client_config 16 99 None default_limits_wf _ 9 (fun _ => None)
    linked_start (fst linked_run) (snd linked_run) _ _ linked_ran).
  - vm_compute. discriminate.
  - vm_compute. split; discriminate.
  - vm_compute. discriminate.
Defined.

End Evaluated.
